(** * three.path: path frames and cross-section emitters

    A shallow embedding of [PathPoint], [PathPointList], the vertex-data
    generators of [PathGeometry], [PathTubeGeometry] and
    [PathRectangleGeometry], and of the buffers of [PathGeometry]:
    [_initByMaxVertex], [_initByData], the resize loops and [update].

    Numbers.  A JavaScript number is modelled as a real number: arithmetic
    is exact, and NaN, the infinities and rounding are outside the model.
    Where the source divides by a value that can be zero or takes the root
    of a value that can be negative, the IEEE outcome is written out at
    that place.  Integers that only count or index (vertex counts, index
    values, [radialSegments], [cornerSplit]) are [Z] or [nat].

    Exceptions.  Reading a property of [undefined] raises a TypeError; a
    function that can do so returns a [completion]. *)

From Stdlib Require Import Reals Lra Psatz RNsatz List ZArith Lia Bool String.
Import ListNotations.

Open Scope R_scope.

(** ** JavaScript values *)

Module JS.

(** The outcome of a call: a value, or a thrown TypeError. *)
Inductive completion (A : Type) : Type :=
| Normal (a : A)
| TypeError.
Arguments Normal {A} a.
Arguments TypeError {A}.

Definition bind {A B : Type} (c : completion A) (k : A -> completion B)
  : completion B :=
  match c with
  | Normal a => k a
  | TypeError => TypeError
  end.

(** [x < y], [x > y], [x <= y] and [x === y] on numbers. *)
Definition ltb (x y : R) : bool := if Rlt_dec x y then true else false.
Definition gtb (x y : R) : bool := ltb y x.
Definition leb (x y : R) : bool := if Rle_dec x y then true else false.
Definition eqb (x y : R) : bool := if Req_dec_T x y then true else false.

(** [x || d] on a number: [0] is falsy. *)
Definition or (x d : R) : R := if eqb x 0 then d else x.

(** [o !== undefined ? o : d]. *)
Definition defined_or {A : Type} (o : option A) (d : A) : A :=
  match o with
  | Some a => a
  | None => d
  end.

(** [o || d] on an optional number: [undefined] and [0] are falsy. *)
Definition opt_or (o : option R) (d : R) : R :=
  match o with
  | Some x => or x d
  | None => d
  end.

Definition EPSILON : R := / 2 ^ 52.
Definition MAX_VALUE : R := (2 - / 2 ^ 52) * 2 ^ 1023.

(** Arrays.  A slot is [Some v] or empty; reading an empty slot, or an
    index outside the array, gives [undefined] ([None]). *)
Definition Array (A : Type) : Type := list (option A).

Definition get {A : Type} (a : Array A) (i : Z) : option A :=
  if (i <? 0)%Z then None
  else match nth_error a (Z.to_nat i) with
       | Some slot => slot
       | None => None
       end.

(** [a[i] = v]: overwrites inside the array, extends it (leaving empty
    slots) outside. *)
Definition put {A : Type} (a : Array A) (i : nat) (v : A) : Array A :=
  if (i <? List.length a)%nat
  then firstn i a ++ Some v :: skipn (S i) a
  else a ++ repeat None (i - List.length a) ++ [Some v].

(** [x.p] where [x] may be [undefined]. *)
Definition deref {A : Type} (o : option A) : completion A :=
  match o with
  | Some a => Normal a
  | None => TypeError
  end.

End JS.

Import JS.

Notation "x <- c ;; k" := (JS.bind c (fun x => k))
  (at level 61, c at next level, right associativity).

(** ** three.js: the parts of Vector3, Matrix4 and QuadraticBezierCurve3
    the repository calls *)

Module THREE.

Record Vector3 : Type := vec3 { x : R; y : R; z : R }.

Definition zero : Vector3 := vec3 0 0 0.

Definition add (a b : Vector3) : Vector3 :=
  vec3 (x a + x b) (y a + y b) (z a + z b).

(** [a.sub(b)], and [subVectors(a, b)]. *)
Definition sub (a b : Vector3) : Vector3 :=
  vec3 (x a - x b) (y a - y b) (z a - z b).

Definition multiplyScalar (a : Vector3) (s : R) : Vector3 :=
  vec3 (x a * s) (y a * s) (z a * s).

Definition negate (a : Vector3) : Vector3 :=
  vec3 (- x a) (- y a) (- z a).

Definition dot (a b : Vector3) : R :=
  x a * x b + y a * y b + z a * z b.

Definition length (a : Vector3) : R :=
  sqrt (x a * x a + y a * y a + z a * z a).

(** [divideScalar(s)] is [multiplyScalar(1 / s)]. *)
Definition divideScalar (a : Vector3) (s : R) : Vector3 :=
  multiplyScalar a (1 / s).

(** [normalize()] is [divideScalar(length() || 1)]. *)
Definition normalize (a : Vector3) : Vector3 :=
  divideScalar a (JS.or (length a) 1).

Definition setLength (a : Vector3) (l : R) : Vector3 :=
  multiplyScalar (normalize a) l.

(** [a.cross(b)], and [crossVectors(a, b)]. *)
Definition cross (a b : Vector3) : Vector3 :=
  vec3 (y a * z b - z a * y b)
       (z a * x b - x a * z b)
       (x a * y b - y a * x b).

Definition lerpVectors (v1 v2 : Vector3) (alpha : R) : Vector3 :=
  vec3 (x v1 + (x v2 - x v1) * alpha)
       (y v1 + (y v2 - y v1) * alpha)
       (z v1 + (z v2 - z v1) * alpha).

Definition equals (a b : Vector3) : bool :=
  JS.eqb (x b) (x a) && JS.eqb (y b) (y a) && JS.eqb (z b) (z a).

(** [fromArray(array, offset)]; a missing element reads as [0] here (it
    is NaN in JavaScript; the callers never read one). *)
Definition fromArray (a : list R) (offset : Z) : Vector3 :=
  let at_ (i : Z) :=
    if (i <? 0)%Z then 0 else nth (Z.to_nat i) a 0 in
  vec3 (at_ offset) (at_ (offset + 1)%Z) (at_ (offset + 2)%Z).

(** A 4x4 matrix, its entries named as the arguments of [Matrix4.set]
    (row by row). *)
Record Matrix4 : Type := mat4 {
  n11 : R; n12 : R; n13 : R; n14 : R;
  n21 : R; n22 : R; n23 : R; n24 : R;
  n31 : R; n32 : R; n33 : R; n34 : R;
  n41 : R; n42 : R; n43 : R; n44 : R
}.

Definition makeRotationAxis (axis : Vector3) (angle : R) : Matrix4 :=
  let c := cos angle in
  let s := sin angle in
  let t := 1 - c in
  let tx := t * x axis in
  let ty := t * y axis in
  mat4 (tx * x axis + c) (tx * y axis - s * z axis) (tx * z axis + s * y axis) 0
       (tx * y axis + s * z axis) (ty * y axis + c) (ty * z axis - s * x axis) 0
       (tx * z axis - s * y axis) (ty * z axis + s * x axis) (t * z axis * z axis + c) 0
       0 0 0 1.

Definition applyMatrix4 (v : Vector3) (m : Matrix4) : Vector3 :=
  let w := 1 / (n41 m * x v + n42 m * y v + n43 m * z v + n44 m) in
  vec3 ((n11 m * x v + n12 m * y v + n13 m * z v + n14 m) * w)
       ((n21 m * x v + n22 m * y v + n23 m * z v + n24 m) * w)
       ((n31 m * x v + n32 m * y v + n33 m * z v + n34 m) * w).

(** [applyAxisAngle(axis, angle)]: the quaternion of
    [setFromAxisAngle], applied as [applyQuaternion] does. *)
Definition applyAxisAngle (v axis : Vector3) (angle : R) : Vector3 :=
  let halfAngle := angle / 2 in
  let s := sin halfAngle in
  let qx := x axis * s in
  let qy := y axis * s in
  let qz := z axis * s in
  let qw := cos halfAngle in
  let tx := 2 * (qy * z v - qz * y v) in
  let ty := 2 * (qz * x v - qx * z v) in
  let tz := 2 * (qx * y v - qy * x v) in
  vec3 (x v + qw * tx + qy * tz - qz * ty)
       (y v + qw * ty + qz * tx - qx * tz)
       (z v + qw * tz + qx * ty - qy * tx).

(** QuadraticBezierCurve3 *)
Record QuadraticBezierCurve3 : Type :=
  curve3 { v0 : Vector3; v1 : Vector3; v2 : Vector3 }.

Definition QuadraticBezier (t p0 p1 p2 : R) : R :=
  (1 - t) * (1 - t) * p0 + 2 * (1 - t) * t * p1 + t * t * p2.

Definition getPoint (c : QuadraticBezierCurve3) (t : R) : Vector3 :=
  vec3 (QuadraticBezier t (x (v0 c)) (x (v1 c)) (x (v2 c)))
       (QuadraticBezier t (y (v0 c)) (y (v1 c)) (y (v2 c)))
       (QuadraticBezier t (z (v0 c)) (z (v1 c)) (z (v2 c))).

(** [getPoints(divisions)]: the points at [d / divisions] for
    [d = 0 .. divisions]. *)
Definition getPoints (c : QuadraticBezierCurve3) (divisions : nat)
  : list Vector3 :=
  map (fun d => getPoint c (INR d / INR divisions)) (seq 0 (S divisions)).

End THREE.

Import THREE.

(** ** PathPoint *)

Record PathPoint : Type := mkPathPoint {
  pos : Vector3;
  dir : Vector3;
  right : Vector3;
  up : Vector3;
  dist : R;
  widthScale : R;
  sharp : bool
}.

(** [new PathPoint()]. *)
Definition new_PathPoint : PathPoint :=
  mkPathPoint zero zero zero zero 0 1 false.

(** [this.lerpPathPoints(p1, p2, alpha)]: [sharp] is not assigned. *)
Definition lerpPathPoints (this p1 p2 : PathPoint) (alpha : R) : PathPoint :=
  {| pos := lerpVectors (pos p1) (pos p2) alpha;
     dir := lerpVectors (dir p1) (dir p2) alpha;
     up := lerpVectors (up p1) (up p2) alpha;
     right := lerpVectors (right p1) (right p2) alpha;
     dist := (dist p2 - dist p1) * alpha + dist p1;
     widthScale := (widthScale p2 - widthScale p1) * alpha + widthScale p1;
     sharp := sharp this |}.

(** [this.copy(source)]: [sharp] is not assigned. *)
Definition copy (this source : PathPoint) : PathPoint :=
  {| pos := pos source;
     dir := dir source;
     up := up source;
     right := right source;
     dist := dist source;
     widthScale := widthScale source;
     sharp := sharp this |}.

(** ** PathPointList *)

Record PathPointList : Type := mkPathPointList {
  array : JS.Array PathPoint;
  count : nat
}.

(** [new PathPointList()]. *)
Definition new_PathPointList : PathPointList := mkPathPointList [] 0.

(** [this.array[this.count - 1]]. *)
Definition lastOf (this : PathPointList) : option PathPoint :=
  JS.get (array this) (Z.of_nat (count this) - 1).

Definition distance (this : PathPointList) : completion R :=
  if (0 <? count this)%nat
  then p <- deref (lastOf this) ;; Normal (dist p)
  else Normal 0.

(** [_getByIndex(index)]: the array after the call, and the point at
    [index], which the caller then assigns to. *)
Definition _getByIndex (this : PathPointList) (index : nat)
  : PathPointList * PathPoint :=
  match JS.get (array this) (Z.of_nat index) with
  | Some p => (this, p)
  | None =>
      (mkPathPointList (JS.put (array this) index new_PathPoint) (count this),
       new_PathPoint)
  end.

(** The assignments to the point returned by [_getByIndex(this.count)],
    followed by [this.count++]. *)
Definition commit (this : PathPointList) (point : PathPoint) : PathPointList :=
  mkPathPointList (JS.put (array this) (count this) point) (S (count this)).

(** The initial normal of [_start] when no [up] is forced: the axis on
    which the tangent has its smallest component; [up0] is the value the
    point held before. *)
Definition initialUp (d up0 : Vector3) : Vector3 :=
  let min := JS.MAX_VALUE in
  let tx := Rabs (x d) in
  let ty := Rabs (y d) in
  let tz := Rabs (z d) in
  let '(min, u) := if JS.ltb tx min then (tx, vec3 1 0 0) else (min, up0) in
  let '(min, u) := if JS.ltb ty min then (ty, vec3 0 1 0) else (min, u) in
  if JS.ltb tz min then vec3 0 0 1 else u.

(** The fields [_start] assigns to the point; [point] is the point as
    [_getByIndex] returned it. *)
Definition startPoint (point : PathPoint) (current next : Vector3)
    (up_ : option Vector3) : PathPoint :=
  let dir0 := sub next current in
  let up0 := match up_ with
             | Some u => u
             | None => initialUp dir0 (up point)
             end in
  let right1 := normalize (cross dir0 up0) in
  let up1 := normalize (cross right1 dir0) in
  {| pos := current; dir := normalize dir0; right := right1; up := up1;
     dist := 0; widthScale := 1; sharp := false |}.

Definition _start (this : PathPointList) (current next : option Vector3)
    (up_ : option Vector3) : completion PathPointList :=
  let this := mkPathPointList (array this) 0 in
  let '(this, point) := _getByIndex this (count this) in
  current <- deref current ;;
  next <- deref next ;;
  Normal (commit this (startPoint point current next up_)).

(** The transport of the previous normal in [_end] and [_sharpCorner]:
<<
    point.up.copy(lastPoint.up);
    const vec = helpVec3.crossVectors(lastPoint.dir, point.dir);
    if (vec.length() > Number.EPSILON) {
      vec.normalize();
      const theta = Math.acos(Math.min(Math.max(lastPoint.dir.dot(point.dir), -1), 1));
      point.up.applyMatrix4(helpMat4.makeRotationAxis(vec, theta));
    }
>> *)
Definition transportUp (lastDir lastUp newDir : Vector3) : Vector3 :=
  let vec := cross lastDir newDir in
  if JS.gtb (length vec) JS.EPSILON
  then
    let theta := acos (Rmin (Rmax (dot lastDir newDir) (-1)) 1) in
    applyMatrix4 lastUp (makeRotationAxis (normalize vec) theta)
  else lastUp.

(** The fields [_end] assigns to the point. *)
Definition endPoint (lastPoint : PathPoint) (current : Vector3) : PathPoint :=
  let dir0 := sub current (pos lastPoint) in
  let dist_ := length dir0 in
  let dir1 := normalize dir0 in
  let up1 := transportUp (dir lastPoint) (up lastPoint) dir1 in
  {| pos := current; dir := dir1; right := normalize (cross dir1 up1);
     up := up1; dist := dist lastPoint + dist_; widthScale := 1;
     sharp := false |}.

Definition _end (this : PathPointList) (current : option Vector3)
  : completion PathPointList :=
  let lastPoint := lastOf this in
  let '(this, point) := _getByIndex this (count this) in
  current <- deref current ;;
  lastPoint <- deref lastPoint ;;
  Normal (commit this (endPoint lastPoint current)).

(** [Math.min(1 / Math.sqrt((1 + _cos) / 2), 1.415) || 1].  The root of a
    negative number is NaN, which [||] replaces by [1]; [1 / 0] is
    [Infinity], of which the minimum with [1.415] is [1.415]. *)
Definition cornerWidthScale (_cos : R) : R :=
  let q := (1 + _cos) / 2 in
  if JS.ltb q 0 then 1
  else if JS.eqb q 0 then 1.415
  else JS.or (Rmin (1 / sqrt q) 1.415) 1.

(** The fields [_sharpCorner] assigns to the point.
    [dirType]: 0 - use middle dir / 1 - use last dir / 2 - use next dir. *)
Definition cornerPoint (lastPoint : PathPoint) (current next : Vector3)
    (up_ : option Vector3) (dirType : nat) (sharp_ : bool) : PathPoint :=
  let lastDir0 := sub current (pos lastPoint) in
  let nextDir0 := sub next current in
  let lastDirLength := length lastDir0 in
  let lastDir := normalize lastDir0 in
  let nextDir := normalize nextDir0 in
  let dir1 :=
    if (dirType =? 1)%nat then lastDir
    else if (dirType =? 2)%nat then nextDir
    else normalize (add lastDir nextDir) in
  let '(right1, up1) :=
    match up_ with
    | Some u =>
        let r := if JS.eqb (dot dir1 u) 1
                 then normalize (cross nextDir u)
                 else normalize (cross dir1 u) in
        (r, normalize (cross r dir1))
    | None =>
        let u := transportUp (dir lastPoint) (up lastPoint) dir1 in
        (normalize (cross dir1 u), u)
    end in
  let _cos := dot lastDir nextDir in
  {| pos := current; dir := dir1; right := right1; up := up1;
     dist := dist lastPoint + lastDirLength;
     widthScale := cornerWidthScale _cos;
     sharp := JS.gtb (Rabs (_cos - 1)) 0.05 && sharp_ |}.

Definition _sharpCorner (this : PathPointList) (current next : option Vector3)
    (up_ : option Vector3) (dirType : nat) (sharp_ : bool)
  : completion PathPointList :=
  let lastPoint := lastOf this in
  let '(this, point) := _getByIndex this (count this) in
  current <- deref current ;;
  lastPoint <- deref lastPoint ;;
  next <- deref next ;;
  Normal (commit this (cornerPoint lastPoint current next up_ dirType sharp_)).

Definition _getCornerBezierCurve (last current next : Vector3)
    (cornerRadius : R) (firstCorner : bool) : QuadraticBezierCurve3 :=
  let lastDir := sub current last in
  let nextDir := sub next current in
  let lastDirLength := length lastDir in
  let nextDirLength := length nextDir in
  let lastDir := normalize lastDir in
  let nextDir := normalize nextDir in
  let v0Dist :=
    Rmin ((if firstCorner then lastDirLength / 2 else lastDirLength) * 0.999999)
         cornerRadius in
  let v2Dist := Rmin (nextDirLength / 2 * 0.999999) cornerRadius in
  curve3 (sub current (multiplyScalar lastDir v0Dist))
         current
         (add current (multiplyScalar nextDir v2Dist)).

(** The loop [for (f = 0; f < cornerSplit; f++)] of [_corner], with [n]
    iterations left. *)
Fixpoint cornerLoop (samplerPoints : list Vector3) (up_ : option Vector3)
    (n f : nat) (this : PathPointList) : completion PathPointList :=
  match n with
  | O => Normal this
  | S n' =>
      this <- _sharpCorner this (nth_error samplerPoints f)
                (nth_error samplerPoints (f + 1)) up_
                (if (f =? 0)%nat then 1%nat else 0%nat) false ;;
      cornerLoop samplerPoints up_ n' (S f) this
  end.

Definition _corner (this : PathPointList) (current next : option Vector3)
    (cornerRadius : R) (cornerSplit : nat) (up_ : option Vector3)
  : completion PathPointList :=
  if JS.gtb cornerRadius 0 && (0 <? cornerSplit)%nat then
    lastPoint <- deref (lastOf this) ;;
    current <- deref current ;;
    next <- deref next ;;
    let curve := _getCornerBezierCurve (pos lastPoint) current next cornerRadius
                   (Z.of_nat (count this) - 1 =? 0)%Z in
    let samplerPoints := getPoints curve cornerSplit in
    this <- cornerLoop samplerPoints up_ cornerSplit 0 this ;;
    lastSample <- deref (nth_error samplerPoints cornerSplit) ;;
    if negb (equals lastSample next)
    then _sharpCorner this (Some lastSample) (Some next) up_ 2 false
    else Normal this
  else _sharpCorner this current next up_ 0 true.

(** The closed-path fix of the start point,
<<
    const dist = this.array[0].dist; // should not copy dist
    this.array[0].copy(this.array[this.count - 1]);
    this.array[0].dist = dist;
>> *)
Definition fixedStart (first last : PathPoint) : PathPoint :=
  let fixed := copy first last in
  {| pos := pos fixed; dir := dir fixed; right := right fixed;
     up := up fixed; dist := dist first;
     widthScale := widthScale fixed; sharp := sharp fixed |}.

Definition fixStart (this : PathPointList) : completion PathPointList :=
  first <- deref (JS.get (array this) 0) ;;
  last <- deref (lastOf this) ;;
  Normal (mkPathPointList (JS.put (array this) 0 (fixedStart first last))
            (count this)).

(** The loop [for (i = 0, l = points.length; i < l; i++)] of [set], with
    [n] iterations left. *)
Fixpoint setLoop (points : list Vector3) (l : nat) (cornerRadius : R)
    (cornerSplit : nat) (up_ : option Vector3) (close : bool)
    (n i : nat) (this : PathPointList) : completion PathPointList :=
  match n with
  | O => Normal this
  | S n' =>
      this <-
        (if (i =? 0)%nat then
           _start this (nth_error points i) (nth_error points (i + 1)) up_
         else if (i =? l - 1)%nat then
           if close then
             this <- _corner this (nth_error points i) (nth_error points 1)
                       cornerRadius cornerSplit up_ ;;
             fixStart this
           else _end this (nth_error points i)
         else
           _corner this (nth_error points i) (nth_error points (i + 1))
             cornerRadius cornerSplit up_) ;;
      setLoop points l cornerRadius cornerSplit up_ close n' (S i) this
  end.

(** [points.push(copy of points[0])] when the path is to be closed and
    its ends differ. *)
Definition autoClose (points : list Vector3) (close : bool) : list Vector3 :=
  match points with
  | first :: _ =>
      if close && negb (equals first (List.last points first))
      then points ++ [first]
      else points
  | [] => points
  end.

(** [set(points, cornerRadius = 0.1, cornerSplit = 10, up = null,
    close = false)]: the list after the call, or a TypeError, and the
    lines written by [console.warn]. *)
Definition set (this : PathPointList) (points : list Vector3)
    (cornerRadius : option R) (cornerSplit : option nat)
    (up_ : option Vector3) (close : option bool)
  : completion PathPointList * list string :=
  let cornerRadius := JS.defined_or cornerRadius 0.1 in
  let cornerSplit := JS.defined_or cornerSplit 10%nat in
  let close := JS.defined_or close false in
  if (List.length points <? 2)%nat then
    (Normal (mkPathPointList (array this) 0),
     ["PathPointList: points length less than 2."%string])
  else
    let points := autoClose points close in
    (setLoop points (List.length points) cornerRadius cornerSplit up_ close
       (List.length points) 0 this,
     []).

(** ** Vertex data *)

(** The options object of the geometries; an absent property is [None]. *)
Record Options : Type := mkOptions {
  width : option R;
  height : option R;
  radius : option R;
  progress : option R;
  arrow : option bool;
  side : option string;
  radialSegments : option Z;
  startRad : option R
}.

(** [{}]. *)
Definition noOptions : Options :=
  mkOptions None None None None None None None None.

(** The object a generator returns. *)
Record VertexData : Type := mkVertexData {
  position : list R;
  normal : list R;
  uv : list R;
  uv2 : list R;
  indices : list Z;
  vcount : Z   (* the property [count] *)
}.

(** The arrays and counters a generator's closures assign to. *)
Record Build : Type := mkBuild {
  data : VertexData;
  verticesCount : Z
}.

Definition emptyBuild : Build := mkBuild (mkVertexData [] [] [] [] [] 0) 0.

(** [position.length / 3]; the generators push three numbers at a time. *)
Definition vertices (d : VertexData) : Z :=
  (Z.of_nat (List.length (position d)) / 3)%Z.

Definition xyz (v : Vector3) : list R := [x v; y v; z v].

(** The loop over the path points shared by the four generators,
<<
    for (let i = 0; i < pathPointList.count; i++) {
      const pathPoint = pathPointList.array[i];
      if (pathPoint.dist > progressDistance) {
        const prevPoint = pathPointList.array[i - 1];
        const lastPoint = new PathPoint();
        const alpha = (progressDistance - prevPoint.dist) / (pathPoint.dist - prevPoint.dist);
        lastPoint.lerpPathPoints(prevPoint, pathPoint, alpha);
        addVertices(lastPoint);
        break;
      } else {
        addVertices(pathPoint);
      }
    }
>>
    with [n] iterations left; it returns the build and the [lastPoint] it
    made, if it made one. *)
Fixpoint progressLoop (addVertices : Build -> PathPoint -> Build)
    (pathPointList : PathPointList) (progressDistance : R)
    (n i : nat) (b : Build) : completion (Build * option PathPoint) :=
  match n with
  | O => Normal (b, None)
  | S n' =>
      pathPoint <- deref (JS.get (array pathPointList) (Z.of_nat i)) ;;
      if JS.gtb (dist pathPoint) progressDistance then
        prevPoint <- deref (JS.get (array pathPointList) (Z.of_nat i - 1)) ;;
        let alpha := (progressDistance - dist prevPoint)
                     / (dist pathPoint - dist prevPoint) in
        let lastPoint := lerpPathPoints new_PathPoint prevPoint pathPoint alpha in
        Normal (addVertices b lastPoint, Some lastPoint)
      else
        progressLoop addVertices pathPointList progressDistance n' (S i)
          (addVertices b pathPoint)
  end.

(** ** PathGeometry: the buffers

    Of each typed array only the length is kept, which is what the resize
    loops and the draw range depend on; the contents are not modelled. *)

Inductive IndexArray : Type := Uint16Array | Uint32Array.

Record Geometry : Type := mkGeometry {
  positionLength : N;         (* getAttribute('position').array.length *)
  normalLength : N;
  uvLength : N;
  uv2Length : option N;       (* [None]: there is no attribute 'uv2' *)
  indexLength : N;            (* getIndex().array.length *)
  indexArray : IndexArray;
  drawRange_start : Z;
  drawRange_count : Z
}.

Definition _initByMaxVertex (maxVertex : N) (generateUv2 : bool) : Geometry :=
  {| positionLength := maxVertex * 3;
     normalLength := maxVertex * 3;
     uvLength := maxVertex * 2;
     uv2Length := if generateUv2 then Some (maxVertex * 2)%N else None;
     indexLength := maxVertex * 3;
     indexArray := if (65536 <? maxVertex)%N then Uint32Array else Uint16Array;
     drawRange_start := 0;
     drawRange_count := 0 |}.

(** [_resizeAttribute(name, len)]: the length of the attribute's array
    after the loop
<<
    while (attribute.array.length < len) { ... new Float32Array(oldLength * 2) ... }
>>
    or [None] when the loop is still running after [fuel] iterations. *)
Fixpoint _resizeAttribute (fuel : nat) (arrayLength len : N) : option N :=
  if (arrayLength <? len)%N then
    match fuel with
    | O => None
    | S fuel' => _resizeAttribute fuel' (arrayLength * 2) len
    end
  else Some arrayLength.

(** [_resizeIndex(len)]: the same loop on the index, whose new array is a
    [Uint32Array] when [oldLength * 2 > 65535]. *)
Fixpoint _resizeIndex (fuel : nat) (arrayLength : N) (kind : IndexArray)
    (len : N) : option (N * IndexArray) :=
  if (arrayLength <? len)%N then
    match fuel with
    | O => None
    | S fuel' =>
        _resizeIndex fuel' (arrayLength * 2)
          (if (65535 <? arrayLength * 2)%N then Uint32Array else Uint16Array)
          len
    end
  else Some (arrayLength, kind).

Definition obind {A B : Type} (o : option A) (k : A -> option B) : option B :=
  match o with
  | Some a => k a
  | None => None
  end.

(** [a.length] of a plain array. *)
Definition len {A : Type} (a : list A) : N := N.of_nat (List.length a).

(** [_updateAttributes(position, normal, uv, uv2, indices)]; [uv2_] is
    [None] for [null].  An attribute 'uv2' that is written to exists, as
    [update] passes a [uv2] only when it does. *)
Definition _updateAttributes (fuel : nat) (this : Geometry)
    (position_ normal_ uv_ : list R) (uv2_ : option (list R))
    (indices_ : list Z) : option Geometry :=
  obind (_resizeAttribute fuel (positionLength this) (len position_))
    (fun pl =>
  obind (_resizeAttribute fuel (normalLength this) (len normal_))
    (fun nl =>
  obind (_resizeAttribute fuel (uvLength this) (len uv_))
    (fun ul =>
  obind (match uv2_, uv2Length this with
         | Some u, Some l =>
             obind (_resizeAttribute fuel l (len u))
               (fun l' => Some (Some l'))
         | _, l => Some l
         end)
    (fun u2l =>
  obind (_resizeIndex fuel (indexLength this) (indexArray this)
           (len indices_))
    (fun il =>
  Some {| positionLength := pl;
          normalLength := nl;
          uvLength := ul;
          uv2Length := u2l;
          indexLength := fst il;
          indexArray := snd il;
          drawRange_start := drawRange_start this;
          drawRange_count := drawRange_count this |}))))).

Definition setDrawRangeCount (this : Geometry) (c : Z) : Geometry :=
  {| positionLength := positionLength this;
     normalLength := normalLength this;
     uvLength := uvLength this;
     uv2Length := uv2Length this;
     indexLength := indexLength this;
     indexArray := indexArray this;
     drawRange_start := drawRange_start this;
     drawRange_count := c |}.

(** [update(pathPointList, options)], the same in the three classes but
    for the generator [generate] it calls:
<<
    const generateUv2 = !!this.getAttribute('uv2');
    const vertexData = generate(pathPointList, options, generateUv2);
    if (vertexData) {
      this._updateAttributes(vertexData.position, vertexData.normal, vertexData.uv,
                             generateUv2 ? vertexData.uv2 : null, vertexData.indices);
      this.drawRange.count = vertexData.count;
    } else {
      this.drawRange.count = 0;
    }
>>
    The result is [None] when a resize loop is still running after [fuel]
    iterations. *)
Definition updateWith
    (generate : PathPointList -> Options -> bool -> completion (option VertexData))
    (fuel : nat) (this : Geometry) (pathPointList : PathPointList)
    (options : Options) : option (completion Geometry) :=
  let generateUv2 := match uv2Length this with Some _ => true | None => false end in
  match generate pathPointList options generateUv2 with
  | TypeError => Some TypeError
  | Normal (Some vertexData) =>
      obind (_updateAttributes fuel this (position vertexData)
               (normal vertexData) (uv vertexData)
               (if generateUv2 then Some (uv2 vertexData) else None)
               (indices vertexData))
        (fun g => Some (Normal (setDrawRangeCount g (vcount vertexData))))
  | Normal None => Some (Normal (setDrawRangeCount this 0))
  end.

(** *** The ribbon: [generatePathVertexData] of PathGeometry *)

Module PathGeometry.

Section Closures.

(** The constants the closures [addVertices] and [addStart] capture. *)
Variables (width_ halfWidth sideWidth totalDistance : R).
Variable side_ : string.
Variable generateUv2 : bool.

Definition sharpUvOffset : R := halfWidth / sideWidth.
Definition sharpUvOffset2 : R := halfWidth / totalDistance.

Definition addVertices (b : Build) (pathPoint : PathPoint) : Build :=
  let d := data b in
  let first := (List.length (position d) =? 0)%nat in
  let sharpCorner := sharp pathPoint && negb first in
  let uvDist := dist pathPoint / sideWidth in
  let uvDist2 := dist pathPoint / totalDistance in
  let dir_ := dir pathPoint in
  let up_ := up pathPoint in
  let _right := right pathPoint in
  let right_ :=
    if negb (String.eqb side_ "left")
    then multiplyScalar _right (halfWidth * widthScale pathPoint)
    else vec3 0 0 0 in
  let left_ :=
    if negb (String.eqb side_ "right")
    then multiplyScalar _right (- halfWidth * widthScale pathPoint)
    else vec3 0 0 0 in
  let right_ := add right_ (pos pathPoint) in
  let left_ := add left_ (pos pathPoint) in
  if sharpCorner then
    let plen := Z.of_nat (List.length (position d)) in
    let leftOffset := sub (fromArray (position d) (plen - 6)) left_ in
    let rightOffset := sub (fromArray (position d) (plen - 3)) right_ in
    let leftDist := length leftOffset in
    let rightDist := length rightOffset in
    let sideOffset := leftDist - rightDist in
    let '(longerOffset, longEdge) :=
      if JS.gtb sideOffset 0 then (leftOffset, left_)
      else (rightOffset, right_) in
    let tempPoint1 :=
      add (setLength longerOffset (Rabs sideOffset)) longEdge in
    let _cos := dot (normalize (sub longEdge tempPoint1)) dir_ in
    let _len := length (sub longEdge tempPoint1) in
    let _dist := _cos * _len * 2 in
    let tempPoint2 := add (setLength dir_ _dist) tempPoint1 in
    let vc := (verticesCount b + 6)%Z in
    let '(newPosition, newIndices) :=
      if JS.gtb sideOffset 0 then
        (xyz tempPoint1 ++ xyz right_ ++ xyz left_ ++ xyz right_
           ++ xyz tempPoint2 ++ xyz right_,
         [vc - 6; vc - 8; vc - 7;
          vc - 6; vc - 7; vc - 5;
          vc - 4; vc - 6; vc - 5;
          vc - 2; vc - 4; vc - 1]%Z)
      else
        (xyz left_ ++ xyz tempPoint1 ++ xyz left_ ++ xyz right_
           ++ xyz left_ ++ xyz tempPoint2,
         [vc - 6; vc - 8; vc - 7;
          vc - 6; vc - 7; vc - 5;
          vc - 6; vc - 5; vc - 3;
          vc - 2; vc - 3; vc - 1]%Z) in
    mkBuild
      {| position := position d ++ newPosition;
         normal := normal d ++ xyz up_ ++ xyz up_ ++ xyz up_
                     ++ xyz up_ ++ xyz up_ ++ xyz up_;
         uv := uv d ++ [uvDist - sharpUvOffset; 0;
                        uvDist - sharpUvOffset; 1;
                        uvDist; 0;
                        uvDist; 1;
                        uvDist + sharpUvOffset; 0;
                        uvDist + sharpUvOffset; 1];
         uv2 := if generateUv2
                then uv2 d ++ [uvDist2 - sharpUvOffset2; 0;
                               uvDist2 - sharpUvOffset2; 1;
                               uvDist2; 0;
                               uvDist2; 1;
                               uvDist2 + sharpUvOffset2; 0;
                               uvDist2 + sharpUvOffset2; 1]
                else uv2 d;
         indices := indices d ++ newIndices;
         vcount := (vcount d + 12)%Z |}
      vc
  else
    let vc := (verticesCount b + 2)%Z in
    mkBuild
      {| position := position d ++ xyz left_ ++ xyz right_;
         normal := normal d ++ xyz up_ ++ xyz up_;
         uv := uv d ++ [uvDist; 0; uvDist; 1];
         uv2 := if generateUv2
                then uv2 d ++ [uvDist2; 0; uvDist2; 1]
                else uv2 d;
         indices := if negb first
                    then indices d ++ [vc - 2; vc - 4; vc - 3;
                                       vc - 2; vc - 3; vc - 1]%Z
                    else indices d;
         vcount := if negb first then (vcount d + 6)%Z else vcount d |}
      vc.

Definition addStart (b : Build) (pathPoint : PathPoint) : Build :=
  let d := data b in
  let dir_ := dir pathPoint in
  let up_ := up pathPoint in
  let _right := right pathPoint in
  let uvDist := dist pathPoint / sideWidth in
  let uvDist2 := dist pathPoint / totalDistance in
  let both := String.eqb side_ "both" in
  let right_ :=
    if negb (String.eqb side_ "left")
    then multiplyScalar _right (halfWidth * 2)
    else vec3 0 0 0 in
  let left_ :=
    if negb (String.eqb side_ "right")
    then multiplyScalar _right (- halfWidth * 2)
    else vec3 0 0 0 in
  let sharp_ := setLength dir_ (halfWidth * 3) in
  let right_ := add right_ (pos pathPoint) in
  let left_ := add left_ (pos pathPoint) in
  let sharp_ := add sharp_ (pos pathPoint) in
  let v0 := if negb both
            then (if negb (String.eqb side_ "right") then -2 else 0)
            else -0.5 in
  let v1 := if negb both
            then (if negb (String.eqb side_ "left") then 2 else 0)
            else 1.5 in
  let v2 := if negb both then 0 else 0.5 in
  let vc := (verticesCount b + 3)%Z in
  mkBuild
    {| position := position d ++ xyz left_ ++ xyz right_ ++ xyz sharp_;
       normal := normal d ++ xyz up_ ++ xyz up_ ++ xyz up_;
       uv := uv d ++ [uvDist; v0; uvDist; v1; uvDist + 1.5; v2];
       uv2 := if generateUv2
              then uv2 d ++ [uvDist2; v0; uvDist2; v1;
                             uvDist2 + 1.5 * width_ / totalDistance; v2]
              else uv2 d;
       indices := indices d ++ [vc - 1; vc - 3; vc - 2]%Z;
       vcount := (vcount d + 3)%Z |}
    vc.

End Closures.

Definition generatePathVertexData (pathPointList : PathPointList)
    (options : Options) (generateUv2 : bool)
  : completion (option VertexData) :=
  let width_ := JS.opt_or (width options) 0.1 in
  let progress_ := JS.defined_or (progress options) 1 in
  let arrow_ := JS.defined_or (arrow options) true in
  let side_ := JS.defined_or (side options) "both"%string in
  let halfWidth := width_ / 2 in
  let sideWidth := if negb (String.eqb side_ "both") then width_ / 2 else width_ in
  totalDistance <- distance pathPointList ;;
  let progressDistance := progress_ * totalDistance in
  if JS.eqb totalDistance 0 then Normal None
  else
    let addV := addVertices halfWidth sideWidth totalDistance side_ generateUv2 in
    r <- (if JS.gtb progressDistance 0
          then progressLoop addV pathPointList progressDistance
                 (count pathPointList) 0 emptyBuild
          else Normal (emptyBuild, JS.get (array pathPointList) 0)) ;;
    let '(b, lastPoint) := r in
    b <- (if arrow_ then
            lastPoint <- deref (match lastPoint with
                                | Some p => Some p
                                | None => lastOf pathPointList
                                end) ;;
            Normal (addStart width_ halfWidth sideWidth totalDistance side_
                      generateUv2 b lastPoint)
          else Normal b) ;;
    Normal (Some (data b)).

Definition update := updateWith generatePathVertexData.

End PathGeometry.

(** *** The circular tube: [generateTubeVertexData$1] of PathTubeGeometry *)

(** [for (let k = 0; k < n; k++)], as the list of the values of [k]. *)
Definition upto (n : Z) : list Z := map Z.of_nat (seq 0 (Z.to_nat n)).

(** Two triangles between the vertices [begin1 + i], [begin1 + i + 1] of
    one ring and [begin2 + i], [begin2 + i + 1] of the next:
<<
    indices.push(begin2 + i, begin1 + i, begin1 + i + 1,
                 begin2 + i, begin1 + i + 1, begin2 + i + 1);
    count += 6;
>> *)
Definition pushQuad (begin1 begin2 : Z) (b : Build) (i : Z) : Build :=
  let d := data b in
  mkBuild
    {| position := position d;
       normal := normal d;
       uv := uv d;
       uv2 := uv2 d;
       indices := indices d ++ [begin2 + i; begin1 + i; begin1 + i + 1;
                                begin2 + i; begin1 + i + 1; begin2 + i + 1]%Z;
       vcount := (vcount d + 6)%Z |}
    (verticesCount b).

Module PathTubeGeometry.

Section Closures.

Variables (circum totalDistance startRad_ : R).
Variable generateUv2 : bool.

(** The body of [for (let r = 0; r <= radialSegments; r++)]. *)
Definition pushRingVertex (pathPoint : PathPoint) (radius_ : R)
    (radialSegments_ : Z) (b : Build) (r : Z) : Build :=
  let d := data b in
  let uvDist := dist pathPoint / circum in
  let uvDist2 := dist pathPoint / totalDistance in
  let _r := if (r =? radialSegments_)%Z then 0%Z else r in
  let normalDir :=
    normalize (applyAxisAngle (up pathPoint) (dir pathPoint)
                 (startRad_ + PI * 2 * IZR _r / IZR radialSegments_)) in
  mkBuild
    {| position := position d ++
         [x (pos pathPoint) + x normalDir * radius_ * widthScale pathPoint;
          y (pos pathPoint) + y normalDir * radius_ * widthScale pathPoint;
          z (pos pathPoint) + z normalDir * radius_ * widthScale pathPoint];
       normal := normal d ++ xyz normalDir;
       uv := uv d ++ [uvDist; IZR r / IZR radialSegments_];
       uv2 := if generateUv2
              then uv2 d ++ [uvDist2; IZR r / IZR radialSegments_]
              else uv2 d;
       indices := indices d;
       vcount := vcount d |}
    (verticesCount b + 1).

Definition addVertices (radius_ : R) (radialSegments_ : Z)
    (b : Build) (pathPoint : PathPoint) : Build :=
  let first := (List.length (position (data b)) =? 0)%nat in
  let b := fold_left (pushRingVertex pathPoint radius_ radialSegments_)
             (upto (radialSegments_ + 1)) b in
  if negb first then
    let begin1 := (verticesCount b - (radialSegments_ + 1) * 2)%Z in
    let begin2 := (verticesCount b - (radialSegments_ + 1))%Z in
    fold_left (pushQuad begin1 begin2) (upto radialSegments_) b
  else b.

End Closures.

(** [Math.max(2, options.radialSegments || 8)]. *)
Definition effectiveRadialSegments (options : Options) : Z :=
  Z.max 2 (match radialSegments options with
           | Some n => if (n =? 0)%Z then 8 else n
           | None => 8
           end)%Z.

Definition generateTubeVertexData_1 (pathPointList : PathPointList)
    (options : Options) (generateUv2 : bool)
  : completion (option VertexData) :=
  let radius_ := JS.opt_or (radius options) 0.1 in
  let progress_ := JS.defined_or (progress options) 1 in
  let radialSegments_ := effectiveRadialSegments options in
  let startRad_ := JS.opt_or (startRad options) 0 in
  let circum := radius_ * 2 * PI in
  totalDistance <- distance pathPointList ;;
  let progressDistance := progress_ * totalDistance in
  if JS.eqb progressDistance 0 then Normal None
  else
    r <- (if JS.gtb progressDistance 0
          then progressLoop
                 (addVertices circum totalDistance startRad_ generateUv2
                    radius_ radialSegments_)
                 pathPointList progressDistance (count pathPointList) 0
                 emptyBuild
          else Normal (emptyBuild, None)) ;;
    Normal (Some (data (fst r))).

Definition update := updateWith generateTubeVertexData_1.

End PathTubeGeometry.

(** *** The rectangular tube of src/PathRectangleGeometry.js: five
    vertices per ring *)

Module PathRectangleGeometry5.

Section Closures.

Variables (circum totalDistance : R).
Variable generateUv2 : bool.

(** The body of [for (let r = 0; r <= 4; r++)], on the build and the
    running [nowDis].  [totalR] is zero when [width = -height]; the
    quotient [nowDis / totalR] is then outside the model. *)
Definition pushRingVertex (pathPoint : PathPoint) (width_ height_ : R)
    (st : Build * R) (r : Z) : Build * R :=
  let '(b, nowDis) := st in
  let d := data b in
  let uvDist := dist pathPoint / circum in
  let uvDist2 := dist pathPoint / totalDistance in
  let totalR := (width_ + height_) * 2 in
  let pos_ := pos pathPoint in
  let normalDir := normalize (cross (up pathPoint) (dir pathPoint)) in
  let heightPos := multiplyScalar (normalize (up pathPoint)) (height_ / 2) in
  let heightPos :=
    if (r =? 2)%Z || (r =? 3)%Z then negate heightPos else heightPos in
  let widthPos := multiplyScalar normalDir (width_ / 2) in
  let widthPos :=
    if (r =? 1)%Z || (r =? 2)%Z then negate widthPos else widthPos in
  let finalPos := add (add pos_ heightPos) widthPos in
  let nowDis :=
    if (r =? 1)%Z || (r =? 3)%Z then nowDis + width_
    else if (r =? 2)%Z || (r =? 4)%Z then nowDis + height_
    else nowDis in
  (mkBuild
     {| position := position d ++ xyz finalPos;
        normal := normal d ++ xyz normalDir;
        uv := uv d ++ [uvDist; nowDis / totalR];
        uv2 := if generateUv2
               then uv2 d ++ [uvDist2; nowDis / totalR]
               else uv2 d;
        indices := indices d;
        vcount := vcount d |}
     (verticesCount b + 1),
   nowDis).

Definition addVertices (width_ height_ : R)
    (b : Build) (pathPoint : PathPoint) : Build :=
  let first := (List.length (position (data b)) =? 0)%nat in
  let b := fst (fold_left (pushRingVertex pathPoint width_ height_)
                  (upto (4 + 1)) (b, 0)) in
  if negb first then
    let begin1 := (verticesCount b - (4 + 1) * 2)%Z in
    let begin2 := (verticesCount b - (4 + 1))%Z in
    fold_left (pushQuad begin1 begin2) (upto 4) b
  else b.

End Closures.

Definition generateTubeVertexData (pathPointList : PathPointList)
    (options : Options) (generateUv2 : bool)
  : completion (option VertexData) :=
  let radius_ := JS.opt_or (radius options) 0.1 in
  let progress_ := JS.defined_or (progress options) 1 in
  let width_ := JS.opt_or (width options) 1 in
  let height_ := JS.opt_or (height options) 0.5 in
  let circum := radius_ * 2 * PI in
  totalDistance <- distance pathPointList ;;
  let progressDistance := progress_ * totalDistance in
  if JS.eqb progressDistance 0 then Normal None
  else
    r <- (if JS.gtb progressDistance 0
          then progressLoop
                 (addVertices circum totalDistance generateUv2 width_ height_)
                 pathPointList progressDistance (count pathPointList) 0
                 emptyBuild
          else Normal (emptyBuild, None)) ;;
    Normal (Some (data (fst r))).

Definition update := updateWith generateTubeVertexData.

End PathRectangleGeometry5.

(** *** The rectangular tube of the bundle (and of the second copy of
    PathRectangleGeometry.js): eight vertices per ring *)

Module PathRectangleGeometry8.

Section Closures.

Variables (width_ height_ halfWidth halfHeight sideTotalDis totalDistance : R).

(** [sideTotalDis] is zero when [width = -height]; the quotients by it
    are then outside the model. *)
Definition addVertices (b : Build) (pathPoint : PathPoint) : Build :=
  let d := data b in
  let centerPosition := pos pathPoint in
  let up_ := up pathPoint in
  let right_ := right pathPoint in
  let corner (h w : R) :=
    add (add centerPosition (multiplyScalar up_ h)) (multiplyScalar right_ w) in
  let A := corner halfHeight (- halfWidth) in
  let A1 := corner halfHeight (- halfWidth) in
  let B := corner halfHeight halfWidth in
  let B1 := corner halfHeight halfWidth in
  let C := corner (- halfHeight) halfWidth in
  let C1 := corner (- halfHeight) halfWidth in
  let D := corner (- halfHeight) (- halfWidth) in
  let D1 := corner (- halfHeight) (- halfWidth) in
  let normalA := normalize (negate right_) in
  let normalA1 := normalize up_ in
  let normalB := normalA1 in
  let normalB1 := negate normalA in
  let normalC := normalB1 in
  let normalC1 := negate normalB in
  let normalD := normalC1 in
  let normalD1 := normalA in
  let v := dist pathPoint / totalDistance in
  mkBuild
    {| position := position d ++ xyz A1 ++ xyz B ++ xyz B1 ++ xyz C
                     ++ xyz C1 ++ xyz D ++ xyz D1 ++ xyz A;
       normal := normal d ++ xyz normalA1 ++ xyz normalB ++ xyz normalB1
                   ++ xyz normalC ++ xyz normalC1 ++ xyz normalD
                   ++ xyz normalD1 ++ xyz normalA;
       uv := uv d ++ [v; 0;
                      v; width_ / sideTotalDis;
                      v; width_ / sideTotalDis;
                      v; (height_ + width_) / sideTotalDis;
                      v; (height_ + width_) / sideTotalDis;
                      v; (width_ * 2 + height_) / sideTotalDis;
                      v; (width_ * 2 + height_) / sideTotalDis;
                      v; 1];
       uv2 := uv2 d;
       indices := indices d;
       vcount := (vcount d + 8)%Z |}
    (verticesCount b).

End Closures.

(** The body of [for (let i = 0; i < positionNum; i += 8)]. *)
Definition pushFaces (count_ : Z) (indices_ : list Z) (i : Z) : list Z :=
  if (i + 8 <? count_)%Z then
    let a := i in
    let b := (i + 8)%Z in
    let c := (i + 1)%Z in
    let d := (i + 8 + 1)%Z in
    let a1 := (i + 2)%Z in
    let b1 := (i + 8 + 2)%Z in
    let c1 := (i + 3)%Z in
    let d1 := (i + 8 + 3)%Z in
    let a2 := (i + 4)%Z in
    let b2 := (i + 8 + 4)%Z in
    let c2 := (i + 5)%Z in
    let d2 := (i + 8 + 5)%Z in
    let a3 := (i + 6)%Z in
    let b3 := (i + 8 + 6)%Z in
    let c3 := (i + 7)%Z in
    let d3 := (i + 8 + 7)%Z in
    indices_ ++ [a; c; d] ++ [a; d; b]
             ++ [a1; c1; d1] ++ [a1; d1; b1]
             ++ [a2; c2; d2] ++ [a2; d2; b2]
             ++ [a3; c3; d3] ++ [a3; d3; b3]
  else indices_.

(** The loop itself, with [n] iterations left at most. *)
Fixpoint facesLoop (n : nat) (i positionNum count_ : Z) (indices_ : list Z)
  : list Z :=
  match n with
  | O => indices_
  | S n' =>
      if (i <? positionNum)%Z
      then facesLoop n' (i + 8) positionNum count_ (pushFaces count_ indices_ i)
      else indices_
  end.

Definition generateTubeVertexData (pathPointList : PathPointList)
    (options : Options) (generateUv2 : bool)
  : completion (option VertexData) :=
  let progress_ := JS.defined_or (progress options) 1 in
  let width_ := JS.opt_or (width options) 1 in
  let height_ := JS.opt_or (height options) 0.5 in
  totalDistance <- distance pathPointList ;;
  let progressDistance := progress_ * totalDistance in
  if JS.eqb progressDistance 0 then Normal None
  else
    let halfWidth := width_ / 2 in
    let halfHeight := height_ / 2 in
    let sideTotalDis := (width_ + height_) * 2 in
    r <- (if JS.gtb progressDistance 0
          then progressLoop
                 (addVertices width_ height_ halfWidth halfHeight
                    sideTotalDis totalDistance)
                 pathPointList progressDistance (count pathPointList) 0
                 emptyBuild
          else Normal (emptyBuild, None)) ;;
    let d := data (fst r) in
    let positionNum := vertices d in
    Normal (Some
      {| position := position d;
         normal := normal d;
         uv := uv d;
         uv2 := uv2 d;
         indices := facesLoop (Z.to_nat positionNum) 0 positionNum (vcount d)
                      (indices d);
         vcount := vcount d |}).

Definition update := updateWith generateTubeVertexData.

End PathRectangleGeometry8.

(** * Specification vocabulary *)

(** [Holds l ps]: the list [l] has [count = |ps|] and its array holds the
    points [ps] at the indices [0 .. count - 1]. *)
Definition Holds (l : PathPointList) (ps : list PathPoint) : Prop :=
  count l = List.length ps /\
  forall i, (i < List.length ps)%nat ->
            JS.get (array l) (Z.of_nat i) = nth_error ps i.

(** The last of a non-empty list of samples. *)
Definition lastSample (ps : list PathPoint) : PathPoint :=
  List.last ps new_PathPoint.

(** [Built u ps]: the samples [ps] were made by one [_start] followed by
    [_end]s and [_sharpCorner]s, each from the sample before it, with the
    forced normal [u]. *)
Inductive Built (u : option Vector3) : list PathPoint -> Prop :=
| Built_start point c n :
    Built u [startPoint point c n u]
| Built_end ps c :
    Built u ps -> Built u (ps ++ [endPoint (lastSample ps) c])
| Built_corner ps c n dt s :
    Built u ps -> Built u (ps ++ [cornerPoint (lastSample ps) c n u dt s]).

(** The samples of a closed path: the first one fixed from the last. *)
Definition closedSamples (ps : list PathPoint) : list PathPoint :=
  match ps with
  | [] => []
  | p0 :: tl => fixedStart p0 (lastSample ps) :: tl
  end.

(** Corner rounding is off: [cornerRadius > 0 && cornerSplit > 0] fails. *)
Definition roundingOff (cornerRadius : option R) (cornerSplit : option nat)
  : Prop :=
  JS.gtb (JS.defined_or cornerRadius 0.1) 0
  && (0 <? JS.defined_or cornerSplit 10%nat)%nat = false.

(** [xs] is non-decreasing. *)
Definition nondecreasing (xs : list R) : Prop :=
  forall i j a b, (i <= j)%nat ->
                  nth_error xs i = Some a -> nth_error xs j = Some b -> a <= b.

(** The sum of the lengths of the segments between consecutive points. *)
Fixpoint pathLength (points : list Vector3) : R :=
  match points with
  | a :: tl =>
      match tl with
      | b :: _ => length (sub b a) + pathLength tl
      | [] => 0
      end
  | [] => 0
  end.

(** The loop of the generators read on the list of the samples it visits:
    [prev] is the sample before the first of [ps], if there is one. *)
Fixpoint walk (addVertices : Build -> PathPoint -> Build)
    (progressDistance : R) (prev : option PathPoint) (ps : list PathPoint)
    (b : Build) : completion (Build * option PathPoint) :=
  match ps with
  | [] => Normal (b, None)
  | pathPoint :: rest =>
      if JS.gtb (dist pathPoint) progressDistance then
        prevPoint <- deref prev ;;
        let alpha := (progressDistance - dist prevPoint)
                     / (dist pathPoint - dist prevPoint) in
        let lastPoint := lerpPathPoints new_PathPoint prevPoint pathPoint alpha in
        Normal (addVertices b lastPoint, Some lastPoint)
      else walk addVertices progressDistance (Some pathPoint) rest
             (addVertices b pathPoint)
  end.

(** The sample the generators make when they truncate between [prev] and
    [cur] at [progressDistance]. *)
Definition truncated (progressDistance : R) (prev cur : PathPoint) : PathPoint :=
  lerpPathPoints new_PathPoint prev cur
    ((progressDistance - dist prev) / (dist cur - dist prev)).

(** The total distance of the samples [ps]: what [distance()] returns on
    a list that holds them. *)
Definition totalOf (ps : list PathPoint) : R :=
  match ps with
  | [] => 0
  | _ :: _ => dist (lastSample ps)
  end.

(** The first sample, if there is one, has [dist = 0]. *)
Definition startsAtZero (ps : list PathPoint) : Prop :=
  forall p tl, ps = p :: tl -> dist p = 0.

(** What a generator returns when it adds nothing: empty arrays and
    [count = 0]. *)
Definition noVertexData : VertexData := mkVertexData [] [] [] [] [] 0.

(** Every buffer of the geometry has a positive length, as after
    [_initByMaxVertex(maxVertex)] with [maxVertex >= 1]. *)
Definition Allocated (this : Geometry) : Prop :=
  (0 < positionLength this)%N /\ (0 < normalLength this)%N
  /\ (0 < uvLength this)%N
  /\ (forall n, uv2Length this = Some n -> (0 < n)%N)
  /\ (0 < indexLength this)%N.

(** The object the eight-vertex generator returns for the build [b]. *)
Definition rect8_result (b : Build) : VertexData :=
  let d := data b in
  {| position := position d;
     normal := normal d;
     uv := uv d;
     uv2 := uv2 d;
     indices := PathRectangleGeometry8.facesLoop (Z.to_nat (vertices d)) 0
                  (vertices d) (vcount d) (indices d);
     vcount := vcount d |}.

(** [lastPoint || pathPointList.array[pathPointList.count - 1]]. *)
Definition arrowPoint (lastPoint : option PathPoint) (ps : list PathPoint)
  : option PathPoint :=
  match lastPoint with
  | Some p => Some p
  | None => match ps with [] => None | _ :: _ => Some (lastSample ps) end
  end.

(** [!!this.getAttribute('uv2')]. *)
Definition hasUv2 (this : Geometry) : bool :=
  match uv2Length this with Some _ => true | None => false end.

(** The property [count] of the build is the number of indices pushed
    so far. *)
Definition countsIndices (b : Build) : Prop :=
  vcount (data b) = Z.of_nat (List.length (indices (data b))).

(** The property [count] of the build is the number of vertices pushed
    so far (a third of the numbers in [position]). *)
Definition countsVertices (b : Build) : Prop :=
  Z.of_nat (List.length (position (data b))) = (3 * vcount (data b))%Z.

(** The frame of a sample is orthonormal: [dir], [up] and [right] have
    length 1, are orthogonal to each other, and
    [right = normalize(dir x up)]. *)
Definition Orthonormal (p : PathPoint) : Prop :=
  length (dir p) = 1 /\ length (up p) = 1 /\ length (right p) = 1
  /\ dot (dir p) (up p) = 0 /\ dot (dir p) (right p) = 0
  /\ dot (up p) (right p) = 0
  /\ right p = normalize (cross (dir p) (up p)).

(** No sample has the zero vector as its tangent. *)
Definition NoZeroTangent (ps : list PathPoint) : Prop :=
  forall p, In p ps -> dir p <> zero.

(** The tangents of two consecutive samples are either parallel (their
    cross product is the zero vector) or far enough apart for the normal
    to be rotated (their cross product is longer than [Number.EPSILON]). *)
Definition ParallelOrApart (ps : list PathPoint) : Prop :=
  forall i q p,
    nth_error ps i = Some q -> nth_error ps (S i) = Some p ->
    cross (dir q) (dir p) = zero
    \/ JS.EPSILON < length (cross (dir q) (dir p)).

(** The rotation of [u] about the unit axis [k] by the angle of cosine
    [c] and sine [s]. *)
Definition rotated (k : Vector3) (c s : R) (u : Vector3) : Vector3 :=
  add (add (multiplyScalar u c) (multiplyScalar (cross k u) s))
      (multiplyScalar k ((1 - c) * dot k u)).

(** The samples the loop of [_corner] appends after the sample [last]:
    [cornerLoop] read on the samples. *)
Fixpoint roundSamples (samplerPoints : list Vector3) (up_ : option Vector3)
    (n f : nat) (last : PathPoint) : list PathPoint :=
  match n with
  | O => []
  | S n' =>
      match nth_error samplerPoints f, nth_error samplerPoints (f + 1) with
      | Some c, Some c' =>
          let p := cornerPoint last c c' up_
                     (if (f =? 0)%nat then 1%nat else 0%nat) false in
          p :: roundSamples samplerPoints up_ n' (S f) p
      | _, _ => []
      end
  end.

(** The samples [_corner(current, next, ...)] appends to the samples
    [ps]. *)
Definition cornerSamples (ps : list PathPoint) (current next : Vector3)
    (cornerRadius : R) (cornerSplit : nat) (up_ : option Vector3)
  : list PathPoint :=
  if JS.gtb cornerRadius 0 && (0 <? cornerSplit)%nat then
    let curve := _getCornerBezierCurve (pos (lastSample ps)) current next
                   cornerRadius (Z.of_nat (List.length ps) - 1 =? 0)%Z in
    let samplerPoints := getPoints curve cornerSplit in
    let ext := roundSamples samplerPoints up_ cornerSplit 0 (lastSample ps) in
    match nth_error samplerPoints cornerSplit with
    | Some c' =>
        if negb (equals c' next)
        then ext ++ [cornerPoint (lastSample (ps ++ ext)) c' next up_ 2 false]
        else ext
    | None => ext
    end
  else [cornerPoint (lastSample ps) current next up_ 0 true].

(** The samples after the iterations [i .. i + n - 1] of the loop of
    [set], all of them corners, from the samples [ps]. *)
Fixpoint cornersFrom (points : list Vector3) (cornerRadius : R)
    (cornerSplit : nat) (up_ : option Vector3) (n i : nat)
    (ps : list PathPoint) : list PathPoint :=
  match n with
  | O => ps
  | S n' =>
      match nth_error points i, nth_error points (i + 1) with
      | Some c, Some c' =>
          cornersFrom points cornerRadius cornerSplit up_ n' (S i)
            (ps ++ cornerSamples ps c c' cornerRadius cornerSplit up_)
      | _, _ => ps
      end
  end.

(** The samples [set] leaves in the list, for at least two points;
    [point] is the point the array held at index 0 before the call. *)
Definition samplesOf (point : PathPoint) (points : list Vector3)
    (cornerRadius : option R) (cornerSplit : option nat)
    (up_ : option Vector3) (close : option bool) : list PathPoint :=
  let cr := JS.defined_or cornerRadius 0.1 in
  let cs := JS.defined_or cornerSplit 10%nat in
  let close := JS.defined_or close false in
  let points := autoClose points close in
  let L := List.length points in
  match nth_error points 0, nth_error points 1, nth_error points (L - 1) with
  | Some c0, Some c1, Some c =>
      let ps := cornersFrom points cr cs up_ (L - 2) 1
                  [startPoint point c0 c1 up_] in
      if close
      then closedSamples (ps ++ cornerSamples ps c c1 cr cs up_)
      else ps ++ [endPoint (lastSample ps) c]
  | _, _, _ => []
  end.

(** The point [_getByIndex(0)] returns: the one the array holds at index
    0, or a new one. *)
Definition pointAt0 (this : PathPointList) : PathPoint :=
  match JS.get (array this) 0 with
  | Some p => p
  | None => new_PathPoint
  end.

(** The initial normal of [_start] does not depend on what the point held
    before: an [up] is forced, or the first segment has a component below
    [Number.MAX_VALUE] in absolute value. *)
Definition startDetermined (up_ : option Vector3) (c0 c1 : Vector3) : Prop :=
  match up_ with
  | Some _ => True
  | None =>
      Rabs (x (sub c1 c0)) < JS.MAX_VALUE
      \/ Rabs (y (sub c1 c0)) < JS.MAX_VALUE
      \/ Rabs (z (sub c1 c0)) < JS.MAX_VALUE
  end.

(** Corner rounding is on: [cornerRadius > 0 && cornerSplit > 0] holds. *)
Definition roundingOn (cornerRadius : option R) (cornerSplit : option nat)
  : Prop :=
  JS.gtb (JS.defined_or cornerRadius 0.1) 0
  && (0 <? JS.defined_or cornerSplit 10%nat)%nat = true.

(** No two consecutive points are equal. *)
Definition consecutiveDistinct (points : list Vector3) : Prop :=
  forall i c c',
    nth_error points i = Some c -> nth_error points (S i) = Some c' -> c <> c'.

(** What [_sharpCorner] makes of the corner at [b] between the segments
    from [a] and to [c], but for its normal: the position, the tangent,
    the width scale and the mark. *)
Definition cornerAt (a b c : Vector3) (p : PathPoint) : Prop :=
  let lastDir := normalize (sub b a) in
  let nextDir := normalize (sub c b) in
  let _cos := dot lastDir nextDir in
  pos p = b
  /\ dir p = normalize (add lastDir nextDir)
  /\ widthScale p = cornerWidthScale _cos
  /\ sharp p = JS.gtb (Rabs (_cos - 1)) 0.05.

(** The samples [ps] follow the points: one sample per point, at its
    position, and at every inner point the corner of its two segments. *)
Definition followsPoints (points : list Vector3) (ps : list PathPoint) : Prop :=
  map pos ps = firstn (List.length ps) points
  /\ forall j a b c p,
       nth_error points j = Some a -> nth_error points (S j) = Some b ->
       nth_error points (S (S j)) = Some c ->
       nth_error ps (S j) = Some p ->
       cornerAt a b c p.



(** The arrays of a generator's result fit together: [position] holds
    three numbers per vertex, [normal] as many as [position], [uv] two
    per vertex, and [uv2] as many as [uv] when it is generated and none
    otherwise. *)
Definition Shaped (generateUv2 : bool) (d : VertexData) : Prop :=
  Z.of_nat (List.length (position d)) = (3 * vertices d)%Z
  /\ List.length (normal d) = List.length (position d)
  /\ Z.of_nat (List.length (uv d)) = (2 * vertices d)%Z
  /\ List.length (uv2 d)
     = (if generateUv2 then List.length (uv d) else 0%nat).

(** Every index of the result names one of its vertices. *)
Definition IndicesInRange (d : VertexData) : Prop :=
  Forall (fun i => (0 <= i < vertices d)%Z) (indices d).

(** The invariant of a build whose closures count the vertices in
    [verticesCount], with rings of at least [m] vertices. *)
Definition Sound (generateUv2 : bool) (m : Z) (b : Build) : Prop :=
  let d := data b in
  let vc := verticesCount b in
  Z.of_nat (List.length (position d)) = (3 * vc)%Z
  /\ List.length (normal d) = List.length (position d)
  /\ Z.of_nat (List.length (uv d)) = (2 * vc)%Z
  /\ List.length (uv2 d) = (if generateUv2 then List.length (uv d) else 0%nat)
  /\ Forall (fun i => (0 <= i < vc)%Z) (indices d)
  /\ (vc = 0 \/ m <= vc)%Z.

(** The invariant of the build of the eight-vertex generator, before its
    indices are made: [k] rings of eight vertices. *)
Definition Sound8 (b : Build) : Prop :=
  let d := data b in
  exists k : nat,
    List.length (position d) = (24 * k)%nat
    /\ List.length (normal d) = (24 * k)%nat
    /\ List.length (uv d) = (16 * k)%nat
    /\ uv2 d = [] /\ indices d = []
    /\ vcount d = (8 * Z.of_nat k)%Z.

(** The options [options] with the property [progress] set to [p], or
    removed. *)
Definition withProgress (options : Options) (p : option R) : Options :=
  mkOptions (width options) (height options) (radius options) p
    (arrow options) (side options) (radialSegments options) (startRad options).

(** Every buffer of the geometry [g] is long enough for the arrays of
    [d]; [uv2] counts when the geometry has the attribute. *)
Definition Fits (g : Geometry) (d : VertexData) : Prop :=
  (len (position d) <= positionLength g)%N
  /\ (len (normal d) <= normalLength g)%N
  /\ (len (uv d) <= uvLength g)%N
  /\ (forall n, uv2Length g = Some n -> (len (uv2 d) <= n)%N)
  /\ (len (indices d) <= indexLength g)%N.

(** [_initByData(pathPointList, options = {}, usage, generateUv2)], the
    same in the three classes but for the generator [generate] it calls:
<<
    const vertexData = generate(pathPointList, options, generateUv2);
    if (vertexData && vertexData.count !== 0) {
      this.setAttribute('position', new BufferAttribute(new Float32Array(vertexData.position), 3)...);
      this.setAttribute('normal', ...); this.setAttribute('uv', ...);
      if (generateUv2) { this.setAttribute('uv2', ...); }
      this.setIndex((vertexData.position.length / 3) > 65536 ?
        new Uint32BufferAttribute(vertexData.indices, 1) :
        new Uint16BufferAttribute(vertexData.indices, 1));
    } else {
      this._initByMaxVertex(2, generateUv2);
    }
>>
    It is called by the constructor, on a geometry that has no attribute
    yet.  With data the draw range stays as [BufferGeometry] made it:
    [start] is 0, and [count], which is [Infinity] there and no integer,
    is the parameter [count0].  The usage of the buffers is not
    modelled. *)
Definition _initByData
    (generate : PathPointList -> Options -> bool -> completion (option VertexData))
    (count0 : Z) (pathPointList : PathPointList) (options : option Options)
    (generateUv2 : bool) : completion Geometry :=
  let options := JS.defined_or options noOptions in
  vertexData <- generate pathPointList options generateUv2 ;;
  match vertexData with
  | Some vd =>
      if negb (vcount vd =? 0)%Z then
        Normal
          {| positionLength := len (position vd);
             normalLength := len (normal vd);
             uvLength := len (uv vd);
             uv2Length := if generateUv2 then Some (len (uv2 vd)) else None;
             indexLength := len (indices vd);
             indexArray := if (65536 * 3 <? len (position vd))%N
                           then Uint32Array else Uint16Array;
             drawRange_start := 0;
             drawRange_count := count0 |}
      else Normal (_initByMaxVertex 2 generateUv2)
  | None => Normal (_initByMaxVertex 2 generateUv2)
  end.

(** The axis [_start] takes as the initial normal for the tangent [d]:
    the one on which [d] has its smallest component in absolute value,
    x before y before z when two are equal. *)
Definition smallestAxis (d : Vector3) : Vector3 :=
  let tx := Rabs (x d) in
  let ty := Rabs (y d) in
  let tz := Rabs (z d) in
  if JS.leb tx ty && JS.leb tx tz then vec3 1 0 0
  else if JS.leb ty tz then vec3 0 1 0
  else vec3 0 0 1.

(** The positions one call of [addVertices] of the circular tube pushes
    for the sample [p]: the ring of its [radialSegments + 1] vertices,
    the last at the place of the first. *)
Definition tubeRing (startRad_ radius_ : R) (radialSegments_ : Z)
    (p : PathPoint) : list R :=
  flat_map
    (fun r =>
       let _r := if (r =? radialSegments_)%Z then 0%Z else r in
       let normalDir :=
         normalize (applyAxisAngle (up p) (dir p)
                      (startRad_ + PI * 2 * IZR _r / IZR radialSegments_)) in
       [x (pos p) + x normalDir * radius_ * widthScale p;
        y (pos p) + y normalDir * radius_ * widthScale p;
        z (pos p) + z normalDir * radius_ * widthScale p])
    (upto (radialSegments_ + 1)).

(** The positions one call of [addVertices] of the five-vertex
    rectangular tube pushes for the sample [p]: the four corners of the
    rectangle, and the first corner again. *)
Definition rect5Ring (width_ height_ : R) (p : PathPoint) : list R :=
  let h := multiplyScalar (normalize (up p)) (height_ / 2) in
  let w := multiplyScalar (normalize (cross (up p) (dir p))) (width_ / 2) in
  xyz (add (add (pos p) h) w)
  ++ xyz (add (add (pos p) h) (negate w))
  ++ xyz (add (add (pos p) (negate h)) (negate w))
  ++ xyz (add (add (pos p) (negate h)) w)
  ++ xyz (add (add (pos p) h) w).

(** The positions one call of [addVertices] of the eight-vertex
    rectangular tube pushes for the sample [p]: the corners A, B, C, D of
    the rectangle, each of them twice, in the order A1, B, B1, C, C1, D,
    D1, A. *)
Definition rect8Ring (halfWidth halfHeight : R) (p : PathPoint) : list R :=
  let corner (h w : R) :=
    add (add (pos p) (multiplyScalar (up p) h)) (multiplyScalar (right p) w) in
  xyz (corner halfHeight (- halfWidth))
  ++ xyz (corner halfHeight halfWidth)
  ++ xyz (corner halfHeight halfWidth)
  ++ xyz (corner (- halfHeight) halfWidth)
  ++ xyz (corner (- halfHeight) halfWidth)
  ++ xyz (corner (- halfHeight) (- halfWidth))
  ++ xyz (corner (- halfHeight) (- halfWidth))
  ++ xyz (corner halfHeight (- halfWidth)).

(** The positions one call of [addVertices] of the ribbon pushes for a
    sample [p] that is not a sharp corner: the left and the right
    vertex. *)
Definition ribbonRing (halfWidth : R) (side_ : string) (p : PathPoint)
  : list R :=
  let right_ :=
    if negb (String.eqb side_ "left")
    then multiplyScalar (right p) (halfWidth * widthScale p)
    else vec3 0 0 0 in
  let left_ :=
    if negb (String.eqb side_ "right")
    then multiplyScalar (right p) (- halfWidth * widthScale p)
    else vec3 0 0 0 in
  xyz (add left_ (pos p)) ++ xyz (add right_ (pos p)).

(** The positions [addStart] pushes for the sample [p]: the two vertices
    of the base of the arrow head and its tip. *)
Definition arrowHead (halfWidth : R) (side_ : string) (p : PathPoint)
  : list R :=
  let right_ :=
    if negb (String.eqb side_ "left")
    then multiplyScalar (right p) (halfWidth * 2)
    else vec3 0 0 0 in
  let left_ :=
    if negb (String.eqb side_ "right")
    then multiplyScalar (right p) (- halfWidth * 2)
    else vec3 0 0 0 in
  xyz (add left_ (pos p)) ++ xyz (add right_ (pos p))
  ++ xyz (add (setLength (dir p) (halfWidth * 3)) (pos p)).




(** * Properties *)

(** ** Comparisons *)

Lemma ltb_true (a b : R) : a < b -> JS.ltb a b = true.
Proof. intros H. unfold JS.ltb. destruct (Rlt_dec a b); [reflexivity | contradiction]. Qed.

Lemma ltb_false (a b : R) : b <= a -> JS.ltb a b = false.
Proof. intros H. unfold JS.ltb. destruct (Rlt_dec a b); [lra | reflexivity]. Qed.

Lemma ltb_spec (a b : R) : JS.ltb a b = true <-> a < b.
Proof.
  unfold JS.ltb. destruct (Rlt_dec a b); split; intros; try easy.
Qed.

Lemma ltb_nspec (a b : R) : JS.ltb a b = false <-> b <= a.
Proof.
  unfold JS.ltb. destruct (Rlt_dec a b); split; intros; try easy; lra.
Qed.

Lemma gtb_true (a b : R) : b < a -> JS.gtb a b = true.
Proof. apply ltb_true. Qed.

Lemma gtb_false (a b : R) : a <= b -> JS.gtb a b = false.
Proof. apply ltb_false. Qed.

Lemma gtb_spec (a b : R) : JS.gtb a b = true <-> b < a.
Proof. apply ltb_spec. Qed.

Lemma gtb_nspec (a b : R) : JS.gtb a b = false <-> a <= b.
Proof. apply ltb_nspec. Qed.

Lemma eqb_true (a b : R) : a = b -> JS.eqb a b = true.
Proof. intros H. unfold JS.eqb. destruct (Req_dec_T a b); [reflexivity | contradiction]. Qed.

Lemma eqb_false (a b : R) : a <> b -> JS.eqb a b = false.
Proof. intros H. unfold JS.eqb. destruct (Req_dec_T a b); [contradiction | reflexivity]. Qed.

Lemma eqb_spec (a b : R) : JS.eqb a b = true <-> a = b.
Proof. unfold JS.eqb. destruct (Req_dec_T a b); split; intros; easy. Qed.

(** ** Arrays *)

Section ArrayFacts.

Context {A : Type}.
Implicit Types (a : JS.Array A) (v : A).

Lemma get_put_eq a (i : nat) v : JS.get (JS.put a i v) (Z.of_nat i) = Some v.
Proof.
  unfold JS.get, JS.put.
  destruct (Z.ltb_spec (Z.of_nat i) 0); [lia |].
  rewrite Nat2Z.id.
  destruct (Nat.ltb_spec i (List.length a)).
  - rewrite nth_error_app2; rewrite firstn_length_le by lia; [| lia].
    now rewrite Nat.sub_diag.
  - rewrite nth_error_app2 by lia.
    rewrite nth_error_app2; rewrite repeat_length; [| lia].
    now replace (i - List.length a - (i - List.length a))%nat with 0%nat by lia.
Qed.

Lemma get_put_neq a (i : nat) v (j : Z) :
  j <> Z.of_nat i -> JS.get (JS.put a i v) j = JS.get a j.
Proof.
  intros Hj. unfold JS.get, JS.put.
  destruct (Z.ltb_spec j 0); [reflexivity |].
  assert (Hn : Z.to_nat j <> i) by lia.
  destruct (Nat.ltb_spec i (List.length a)).
  - destruct (Nat.lt_ge_cases (Z.to_nat j) i).
    + rewrite nth_error_app1 by (rewrite firstn_length_le; lia).
      now rewrite nth_error_firstn, (proj2 (Nat.ltb_lt _ _)) by lia.
    + rewrite nth_error_app2; rewrite firstn_length_le by lia; [| lia].
      destruct (Z.to_nat j - i)%nat as [| k] eqn:E; [lia |].
      cbn [nth_error]. rewrite nth_error_skipn.
      now replace (S i + k)%nat with (Z.to_nat j) by lia.
  - destruct (Nat.lt_ge_cases (Z.to_nat j) (List.length a)).
    + now rewrite nth_error_app1 by lia.
    + rewrite nth_error_app2 by lia.
      rewrite (proj2 (nth_error_None a (Z.to_nat j))) by lia.
      destruct (Nat.lt_ge_cases (Z.to_nat j) i).
      * rewrite nth_error_app1 by (rewrite repeat_length; lia).
        rewrite nth_error_repeat by lia. reflexivity.
      * rewrite nth_error_app2; rewrite repeat_length; [| lia].
        destruct (Z.to_nat j - List.length a - (i - List.length a))%nat
          as [| k] eqn:E; [lia |].
        cbn [nth_error]. now destruct k.
Qed.

End ArrayFacts.

(** ** The samples a list holds *)

Lemma Holds_lastOf l ps q : Holds l (ps ++ [q]) -> lastOf l = Some q.
Proof.
  intros [Hc Hg]. unfold lastOf. rewrite Hc, length_app. cbn [List.length].
  replace (Z.of_nat (List.length ps + 1) - 1)%Z with (Z.of_nat (List.length ps)) by lia.
  rewrite Hg by (rewrite length_app; cbn; lia).
  rewrite nth_error_app2 by lia. now rewrite Nat.sub_diag.
Qed.

Lemma Holds_first l p ps : Holds l (p :: ps) -> JS.get (array l) 0 = Some p.
Proof.
  intros [_ Hg]. apply (Hg 0%nat). cbn. lia.
Qed.

Lemma Holds_count_pos l ps q : Holds l (ps ++ [q]) -> (0 <? count l)%nat = true.
Proof.
  intros [Hc _]. rewrite Hc, length_app. apply Nat.ltb_lt. cbn [List.length]. lia.
Qed.

Lemma Holds_distance l ps q : Holds l (ps ++ [q]) -> distance l = Normal (dist q).
Proof.
  intros H. unfold distance.
  now rewrite (Holds_count_pos _ _ _ H), (Holds_lastOf _ _ _ H).
Qed.

Lemma getByIndex_count l i : count (fst (_getByIndex l i)) = count l.
Proof. unfold _getByIndex. now destruct (JS.get (array l) (Z.of_nat i)). Qed.

Lemma getByIndex_get l i j :
  j <> Z.of_nat i ->
  JS.get (array (fst (_getByIndex l i))) j = JS.get (array l) j.
Proof.
  intros Hj. unfold _getByIndex.
  destruct (JS.get (array l) (Z.of_nat i)); cbn; [reflexivity |].
  now apply get_put_neq.
Qed.

(** Committing a point appends it to the samples held. *)
Lemma Holds_commit l ps p :
  Holds l ps -> Holds (commit (fst (_getByIndex l (count l))) p) (ps ++ [p]).
Proof.
  intros [Hc Hg]. split.
  - cbn. rewrite getByIndex_count, Hc, length_app. cbn. lia.
  - intros i Hi. cbn [commit array]. rewrite getByIndex_count.
    rewrite length_app in Hi. cbn in Hi.
    destruct (Nat.eq_dec i (List.length ps)) as [-> | Hne].
    + rewrite Hc, get_put_eq, nth_error_app2 by lia.
      now rewrite Nat.sub_diag.
    + rewrite get_put_neq, getByIndex_get by lia.
      rewrite Hg, nth_error_app1 by lia. reflexivity.
Qed.

Lemma start_spec this c n u :
  exists point,
    _start this (Some c) (Some n) u
    = Normal (commit (fst (_getByIndex (mkPathPointList (array this) 0) 0))
                (startPoint point c n u))
    /\ Holds (commit (fst (_getByIndex (mkPathPointList (array this) 0) 0))
                (startPoint point c n u))
             [startPoint point c n u].
Proof.
  unfold _start. cbn [count].
  destruct (_getByIndex (mkPathPointList (array this) 0) 0) as [l0 point] eqn:E.
  exists point. cbn [JS.bind deref fst]. split; [reflexivity |].
  replace l0 with (fst (_getByIndex (mkPathPointList (array this) 0)
                          (count (mkPathPointList (array this) 0))))
    by (cbn [count]; now rewrite E).
  apply (Holds_commit _ []). split; [reflexivity | cbn; lia].
Qed.

Lemma end_spec l ps q c :
  Holds l (ps ++ [q]) ->
  exists l', _end l (Some c) = Normal l'
             /\ Holds l' ((ps ++ [q]) ++ [endPoint q c]).
Proof.
  intros H. unfold _end. rewrite (Holds_lastOf _ _ _ H).
  pose proof (Holds_commit l _ (endPoint q c) H) as Hc.
  destruct (_getByIndex l (count l)) as [l1 point].
  cbn [JS.bind deref fst] in *. eauto.
Qed.

Lemma sharpCorner_spec l ps q c n u dt s :
  Holds l (ps ++ [q]) ->
  exists l', _sharpCorner l (Some c) (Some n) u dt s = Normal l'
             /\ Holds l' ((ps ++ [q]) ++ [cornerPoint q c n u dt s]).
Proof.
  intros H. unfold _sharpCorner. rewrite (Holds_lastOf _ _ _ H).
  pose proof (Holds_commit l _ (cornerPoint q c n u dt s) H) as Hc.
  destruct (_getByIndex l (count l)) as [l1 point].
  cbn [JS.bind deref fst] in *. eauto.
Qed.

Lemma fixStart_spec l p0 tl q :
  Holds l (p0 :: tl ++ [q]) ->
  exists l', fixStart l = Normal l'
             /\ Holds l' (fixedStart p0 q :: tl ++ [q]).
Proof.
  intros H. unfold fixStart.
  rewrite (Holds_first _ _ _ H).
  rewrite (Holds_lastOf l (p0 :: tl) q H).
  cbn [JS.bind deref]. eexists. split; [reflexivity |].
  destruct H as [Hc Hg]. split; [exact Hc |].
  intros i Hi. cbn [array].
  destruct i as [| i].
  - now rewrite (get_put_eq _ 0%nat).
  - rewrite get_put_neq by lia. now rewrite Hg.
Qed.

Lemma snoc_last (ps : list PathPoint) :
  ps <> [] -> ps = removelast ps ++ [lastSample ps].
Proof. intros H. now apply app_removelast_last. Qed.

Lemma lastSample_snoc ps q : lastSample (ps ++ [q]) = q.
Proof. apply last_last. Qed.

Lemma Built_nonempty u ps : Built u ps -> ps <> [].
Proof. intros H. destruct H; try discriminate; now destruct ps. Qed.

Lemma Holds_lastSample l ps :
  Holds l ps -> ps <> [] -> lastOf l = Some (lastSample ps).
Proof.
  intros H Hne. rewrite (snoc_last ps Hne) in H.
  exact (Holds_lastOf _ _ _ H).
Qed.

Lemma end_spec' l ps c :
  Holds l ps -> ps <> [] ->
  exists l', _end l (Some c) = Normal l'
             /\ Holds l' (ps ++ [endPoint (lastSample ps) c]).
Proof.
  intros H Hne. rewrite (snoc_last ps Hne) in H.
  destruct (end_spec _ _ _ c H) as [l' [E H']].
  rewrite <- (snoc_last ps Hne) in H'. eauto.
Qed.

Lemma sharpCorner_spec' l ps c n u dt s :
  Holds l ps -> ps <> [] ->
  exists l', _sharpCorner l (Some c) (Some n) u dt s = Normal l'
             /\ Holds l' (ps ++ [cornerPoint (lastSample ps) c n u dt s]).
Proof.
  intros H Hne. rewrite (snoc_last ps Hne) in H.
  destruct (sharpCorner_spec _ _ _ c n u dt s H) as [l' [E H']].
  rewrite <- (snoc_last ps Hne) in H'. eauto.
Qed.

Lemma fixStart_spec' l ps :
  Holds l ps -> (2 <= List.length ps)%nat ->
  exists l', fixStart l = Normal l' /\ Holds l' (closedSamples ps).
Proof.
  intros H Hlen. destruct ps as [| p0 tl]; [cbn in Hlen; lia |].
  assert (Hne : tl <> []) by (destruct tl; [cbn in Hlen; lia | discriminate]).
  unfold closedSamples.
  replace (lastSample (p0 :: tl)) with (lastSample tl)
    by (unfold lastSample; destruct tl; [contradiction | reflexivity]).
  remember (lastSample tl) as q eqn:Eq.
  pose proof (snoc_last tl Hne) as Etl. rewrite <- Eq in Etl.
  rewrite Etl in H |- *.
  apply fixStart_spec. exact H.
Qed.

(** ** What [set] builds *)

Lemma getPoints_length c d : List.length (getPoints c d) = S d.
Proof. unfold getPoints. now rewrite length_map, length_seq. Qed.

Lemma nth_error_defined {A : Type} (l : list A) (i : nat) :
  (i < List.length l)%nat -> exists a, nth_error l i = Some a.
Proof.
  intros H. destruct (nth_error l i) eqn:E; [eauto |].
  apply nth_error_None in E. lia.
Qed.

Lemma cornerLoop_spec sp u n :
  forall f l ps,
    (f + n < List.length sp)%nat ->
    Holds l ps -> Built u ps ->
    exists l' ext,
      cornerLoop sp u n f l = Normal l'
      /\ Holds l' (ps ++ ext) /\ Built u (ps ++ ext)
      /\ List.length ext = n.
Proof.
  induction n as [| n IH]; intros f l ps Hf H HB.
  - exists l, []. rewrite app_nil_r. cbn. auto.
  - cbn [cornerLoop].
    destruct (nth_error_defined sp f) as [c Ec]; [lia |].
    destruct (nth_error_defined sp (f + 1)) as [c' Ec']; [lia |].
    rewrite Ec, Ec'.
    destruct (sharpCorner_spec' l ps c c' u
                (if (f =? 0)%nat then 1%nat else 0%nat) false H
                (Built_nonempty _ _ HB)) as [l1 [E1 H1]].
    rewrite E1. cbn [JS.bind].
    destruct (IH (S f) l1 _ ltac:(lia) H1 (Built_corner _ _ _ _ _ _ HB))
      as [l' [ext [E' [H' [HB' Hlen]]]]].
    exists l', (cornerPoint (lastSample ps) c c' u
                  (if (f =? 0)%nat then 1%nat else 0%nat) false :: ext).
    rewrite <- app_assoc in H', HB'. cbn [app] in H', HB'.
    cbn [List.length]. auto.
Qed.

Lemma corner_spec l ps c n cr cs u :
  Holds l ps -> Built u ps ->
  exists l' ext,
    _corner l (Some c) (Some n) cr cs u = Normal l'
    /\ Holds l' (ps ++ ext) /\ Built u (ps ++ ext)
    /\ ext <> []
    /\ (JS.gtb cr 0 && (0 <? cs)%nat = false ->
        ext = [cornerPoint (lastSample ps) c n u 0 true]).
Proof.
  intros H HB. unfold _corner.
  destruct (JS.gtb cr 0 && (0 <? cs)%nat) eqn:Eround.
  - apply andb_prop in Eround. destruct Eround as [_ Hcs].
    apply Nat.ltb_lt in Hcs.
    rewrite (Holds_lastSample _ _ H (Built_nonempty _ _ HB)).
    cbn [JS.bind deref].
    set (curve := _getCornerBezierCurve _ _ _ _ _).
    destruct (cornerLoop_spec (getPoints curve cs) u cs 0 l ps) as
      [l1 [ext [E1 [H1 [HB1 Hlen]]]]]; auto.
    { rewrite getPoints_length. lia. }
    rewrite E1. cbn [JS.bind].
    destruct (nth_error_defined (getPoints curve cs) cs) as [c' Ec'].
    { rewrite getPoints_length. lia. }
    rewrite Ec'. cbn [JS.bind deref].
    destruct (negb (equals c' n)).
    + destruct (sharpCorner_spec' l1 _ c' n u 2 false H1
                  (Built_nonempty _ _ HB1)) as [l2 [E2 H2]].
      exists l2, (ext ++ [cornerPoint (lastSample (ps ++ ext)) c' n u 2 false]).
      rewrite app_assoc.
      split; [exact E2 |]. split; [exact H2 |].
      split; [now apply Built_corner |].
      split; [now destruct ext | discriminate].
    + exists l1, ext.
      split; [reflexivity |]. split; [exact H1 |]. split; [exact HB1 |].
      split; [| discriminate].
      destruct ext; [cbn in Hlen; lia | discriminate].
  - destruct (sharpCorner_spec' l ps c n u 0 true H (Built_nonempty _ _ HB))
      as [l1 [E1 H1]].
    exists l1, [cornerPoint (lastSample ps) c n u 0 true].
    split; [exact E1 |]. split; [exact H1 |].
    split; [now apply Built_corner |].
    split; [discriminate | reflexivity].
Qed.

Lemma setLoop_split points l cr cs u close n m :
  forall i this,
    setLoop points l cr cs u close (n + m) i this
    = (this' <- setLoop points l cr cs u close n i this ;;
       setLoop points l cr cs u close m (i + n) this').
Proof.
  induction n as [| n IH]; intros i this.
  - cbn. now rewrite Nat.add_0_r.
  - cbn [Nat.add setLoop].
    match goal with
    | |- JS.bind ?c _ = _ => destruct c as [this1 |]
    end; cbn [JS.bind]; [| reflexivity].
    rewrite IH. now rewrite Nat.add_succ_r.
Qed.

Lemma firstn_snoc {A : Type} (l : list A) (i : nat) (a : A) :
  nth_error l i = Some a -> firstn (S i) l = firstn i l ++ [a].
Proof.
  revert l. induction i as [| i IH]; intros [| b l] E; try discriminate.
  - cbn in E. injection E as ->. reflexivity.
  - cbn in E. rewrite !firstn_cons, (IH l E). reflexivity.
Qed.

Lemma pos_cornerPoint q c n u dt s : pos (cornerPoint q c n u dt s) = c.
Proof. unfold cornerPoint. now destruct u. Qed.

(** The iterations [i .. i + n - 1] of the loop of [set] when they are all
    corners ([0 < i] and [i + n <= l - 1]). *)
Lemma setLoop_corners points cr cs u close n :
  forall i this ps,
    (1 <= i)%nat -> (i + n <= List.length points - 1)%nat ->
    Holds this ps -> Built u ps -> (i <= List.length ps)%nat ->
    (JS.gtb cr 0 && (0 <? cs)%nat = false -> map pos ps = firstn i points) ->
    exists this' ps',
      setLoop points (List.length points) cr cs u close n i this = Normal this'
      /\ Holds this' ps' /\ Built u ps' /\ (i + n <= List.length ps')%nat
      /\ (JS.gtb cr 0 && (0 <? cs)%nat = false ->
          map pos ps' = firstn (i + n) points)
      /\ (exists ext, ps' = ps ++ ext).
Proof.
  induction n as [| n IH]; intros i this ps Hi Hin H HB Hlen Hpos.
  - exists this, ps. rewrite Nat.add_0_r. cbn.
    repeat (split; [assumption || reflexivity |]).
    exists []. now rewrite app_nil_r.
  - cbn [setLoop].
    rewrite (proj2 (Nat.eqb_neq i 0)) by lia.
    rewrite (proj2 (Nat.eqb_neq i (List.length points - 1))) by lia.
    destruct (nth_error_defined points i) as [c Ec]; [lia |].
    destruct (nth_error_defined points (i + 1)) as [c' Ec']; [lia |].
    rewrite Ec, Ec'.
    destruct (corner_spec this ps c c' cr cs u H HB)
      as [this1 [ext [E1 [H1 [HB1 [Hne Hoff]]]]]].
    rewrite E1. cbn [JS.bind].
    destruct (IH (S i) this1 (ps ++ ext))
      as [this' [ps' [E' [H' [HB' [Hl' [Hp' [ext' Hext]]]]]]]];
      auto; try lia.
    + rewrite length_app. destruct ext; [contradiction | cbn; lia].
    + intros Hr. rewrite (Hoff Hr), map_app, (Hpos Hr). cbn [map].
      rewrite pos_cornerPoint. symmetry. now apply firstn_snoc.
    + exists this', ps'. rewrite Nat.add_succ_r.
      repeat (split; [assumption |]).
      exists (ext ++ ext'). now rewrite app_assoc.
Qed.

Lemma autoClose_length points close :
  (List.length points <= List.length (autoClose points close))%nat.
Proof.
  unfold autoClose. destruct points as [| p0 tl]; [lia |].
  destruct (close && negb (equals p0 (last (p0 :: tl) p0))); [| lia].
  rewrite length_app. lia.
Qed.

Lemma autoClose_nth points close i :
  (i < List.length points)%nat ->
  nth_error (autoClose points close) i = nth_error points i.
Proof.
  intros Hi. unfold autoClose. destruct points as [| p0 tl]; [reflexivity |].
  destruct (close && negb (equals p0 (last (p0 :: tl) p0))); [| reflexivity].
  now apply nth_error_app1.
Qed.

Lemma pos_startPoint point c n u : pos (startPoint point c n u) = c.
Proof. reflexivity. Qed.

Lemma pos_endPoint q c : pos (endPoint q c) = c.
Proof. reflexivity. Qed.

(** The whole loop of [set] on at least two points: it ends normally; the
    samples are built by [_start], [_sharpCorner] and [_end]; a closed
    path has its first sample fixed; with rounding off there is one sample
    per point. *)
Lemma setLoop_spec this points cr cs u close :
  (2 <= List.length points)%nat ->
  exists l ps,
    setLoop points (List.length points) cr cs u close (List.length points) 0 this
    = Normal l
    /\ Built u ps /\ (2 <= List.length ps)%nat
    /\ Holds l (if close then closedSamples ps else ps)
    /\ (JS.gtb cr 0 && (0 <? cs)%nat = false -> map pos ps = points)
    /\ (exists point c0 c1 tl,
          nth_error points 0 = Some c0 /\ nth_error points 1 = Some c1
          /\ ps = startPoint point c0 c1 u :: tl).
Proof.
  intros Hlen.
  set (L := List.length points) in *.
  assert (E : setLoop points L cr cs u close L 0 this
              = setLoop points L cr cs u close (1 + ((L - 2) + 1)) 0 this)
    by (f_equal; lia).
  rewrite E. clear E.
  rewrite setLoop_split. cbn [setLoop Nat.eqb Nat.add].
  destruct (nth_error_defined points 0) as [c0 Ec0]; [fold L; lia |].
  destruct (nth_error_defined points 1) as [c1 Ec1]; [fold L; lia |].
  rewrite Ec0, Ec1.
  destruct (start_spec this c0 c1 u) as [point [E0 H0]].
  rewrite E0. cbn [JS.bind].
  set (p0 := startPoint point c0 c1 u) in *.
  set (l0 := commit _ p0) in *.
  rewrite setLoop_split.
  destruct (setLoop_corners points cr cs u close (L - 2) 1 l0 [p0])
    as [l1 [ps1 [E1 [H1 [HB1 [Hl1 [Hp1 [ext1 Hext1]]]]]]]]; auto.
  { fold L. lia. }
  { apply Built_start. }
  { intros _. cbn [map]. unfold p0. rewrite pos_startPoint.
    destruct points as [| a tl]; [discriminate |]. cbn in Ec0.
    now injection Ec0 as ->. }
  fold L in E1. rewrite E1. cbn [JS.bind].
  replace (1 + (L - 2))%nat with (L - 1)%nat in * by lia.
  cbn [setLoop].
  rewrite (proj2 (Nat.eqb_neq (L - 1) 0)) by lia.
  rewrite Nat.eqb_refl.
  destruct (nth_error_defined points (L - 1)) as [c Ec]; [fold L; lia |].
  rewrite Ec, ?Ec1.
  assert (Hfull : firstn (L - 1) points ++ [c] = points).
  { rewrite <- (firstn_snoc _ _ _ Ec).
    replace (S (L - 1)) with L by lia. apply firstn_all. }
  destruct close.
  - destruct (corner_spec l1 ps1 c c1 cr cs u H1 HB1)
      as [l2 [ext [E2 [H2 [HB2 [Hne Hoff]]]]]].
    rewrite E2. cbn [JS.bind].
    assert (Hl2 : (2 <= List.length (ps1 ++ ext))%nat).
    { rewrite length_app. destruct ext; [contradiction | cbn; lia]. }
    destruct (fixStart_spec' l2 _ H2 Hl2) as [l3 [E3 H3]].
    rewrite E3. cbn [JS.bind].
    exists l3, (ps1 ++ ext).
    split; [reflexivity |]. split; [exact HB2 |]. split; [exact Hl2 |].
    split; [exact H3 |].
    split.
    + intros Hr. rewrite (Hoff Hr), map_app, (Hp1 Hr). cbn [map].
      now rewrite pos_cornerPoint.
    + exists point, c0, c1, (ext1 ++ ext).
      split; [reflexivity |]. split; [reflexivity |].
      rewrite Hext1, <- app_assoc. reflexivity.
  - destruct (end_spec' l1 ps1 c H1 (Built_nonempty _ _ HB1)) as [l2 [E2 H2]].
    rewrite E2. cbn [JS.bind].
    exists l2, (ps1 ++ [endPoint (lastSample ps1) c]).
    split; [reflexivity |]. split; [now apply Built_end |].
    split; [rewrite length_app; cbn; lia |].
    split; [exact H2 |].
    split.
    + intros Hr. rewrite map_app, (Hp1 Hr). cbn [map].
      now rewrite pos_endPoint.
    + exists point, c0, c1, (ext1 ++ [endPoint (lastSample ps1) c]).
      split; [reflexivity |]. split; [reflexivity |].
      rewrite Hext1 at 1. rewrite <- app_assoc. reflexivity.
Qed.

Lemma set_spec this points cr cs u cl :
  (2 <= List.length points)%nat ->
  exists l ps,
    set this points cr cs u cl = (Normal l, [])
    /\ Built u ps /\ (2 <= List.length ps)%nat
    /\ Holds l (if JS.defined_or cl false then closedSamples ps else ps)
    /\ (roundingOff cr cs ->
        map pos ps = autoClose points (JS.defined_or cl false))
    /\ (exists point c0 c1 tl,
          nth_error points 0 = Some c0 /\ nth_error points 1 = Some c1
          /\ ps = startPoint point c0 c1 u :: tl).
Proof.
  intros Hlen. unfold set.
  rewrite (proj2 (Nat.ltb_ge _ _)) by lia.
  pose proof (autoClose_length points (JS.defined_or cl false)) as Hl.
  destruct (setLoop_spec this (autoClose points (JS.defined_or cl false))
              (JS.defined_or cr 0.1) (JS.defined_or cs 10%nat) u
              (JS.defined_or cl false))
    as [l [ps [E [HB [H2 [H [Hp Hhead]]]]]]]; [lia |].
  exists l, ps. rewrite E.
  repeat (split; [assumption || reflexivity |]).
  destruct Hhead as [point [c0 [c1 [tl [E0 [E1 Eps]]]]]].
  exists point, c0, c1, tl.
  rewrite (autoClose_nth points _ 0) in E0 by lia.
  rewrite (autoClose_nth points _ 1) in E1 by lia.
  auto.
Qed.

(** ** Distances along the samples *)

Lemma length_nonneg v : 0 <= length v.
Proof. apply sqrt_pos. Qed.

Lemma dist_endPoint q c : dist (endPoint q c) = dist q + length (sub c (pos q)).
Proof. reflexivity. Qed.

Lemma dist_cornerPoint q c n u dt s :
  dist (cornerPoint q c n u dt s) = dist q + length (sub c (pos q)).
Proof. unfold cornerPoint. now destruct u. Qed.

Lemma Built_first_dist u ps :
  Built u ps -> exists p0 tl, ps = p0 :: tl /\ dist p0 = 0.
Proof.
  induction 1 as [point c n | ps c HB [p0 [tl [-> Hd]]]
                 | ps c n dt s HB [p0 [tl [-> Hd]]]].
  - eexists _, []. split; reflexivity.
  - eexists p0, _. split; [reflexivity | exact Hd].
  - eexists p0, _. split; [reflexivity | exact Hd].
Qed.

Lemma nondecreasing_snoc xs a b :
  nondecreasing (xs ++ [a]) -> a <= b -> nondecreasing ((xs ++ [a]) ++ [b]).
Proof.
  intros Hs Hab i j c d Hij Hi Hj.
  assert (Hlen : List.length (xs ++ [a]) = S (List.length xs))
    by (rewrite length_app; cbn; lia).
  assert (Hlast : nth_error (xs ++ [a]) (List.length xs) = Some a)
    by (rewrite nth_error_app2, Nat.sub_diag by lia; reflexivity).
  destruct (Nat.lt_ge_cases j (S (List.length xs))) as [Hjl | Hjl].
  - rewrite nth_error_app1 in Hi by lia. rewrite nth_error_app1 in Hj by lia.
    exact (Hs i j c d Hij Hi Hj).
  - assert (Hjeq : j = S (List.length xs)).
    { apply Nat.le_antisymm; [| exact Hjl].
      assert (Hsome : nth_error ((xs ++ [a]) ++ [b]) j <> None) by congruence.
      apply nth_error_Some in Hsome. rewrite length_app, Hlen in Hsome.
      cbn in Hsome. lia. }
    subst j. rewrite nth_error_app2 in Hj by lia.
    rewrite Hlen, Nat.sub_diag in Hj. cbn in Hj. injection Hj as <-.
    destruct (Nat.eq_dec i (S (List.length xs))) as [-> | Hne].
    + rewrite nth_error_app2 in Hi by lia.
      rewrite Hlen, Nat.sub_diag in Hi. cbn in Hi. injection Hi as <-. lra.
    + rewrite nth_error_app1 in Hi by lia.
      apply Rle_trans with a; [| exact Hab].
      apply (Hs i (List.length xs)); auto. lia.
Qed.

Lemma nondecreasing_one a : nondecreasing [a].
Proof.
  intros [| i] [| j] c d _ Hi Hj; cbn in Hi, Hj;
    try (destruct i; discriminate); try (destruct j; discriminate).
  injection Hi as <-. injection Hj as <-. lra.
Qed.

Lemma map_dist_snoc ps p :
  ps <> [] ->
  map dist (ps ++ [p])
  = (map dist (removelast ps) ++ [dist (lastSample ps)]) ++ [dist p].
Proof.
  intros Hne. rewrite (snoc_last ps Hne) at 1.
  now rewrite !map_app.
Qed.

Lemma Built_nondecreasing u ps : Built u ps -> nondecreasing (map dist ps).
Proof.
  induction 1 as [point c n | ps c HB IH | ps c n dt s HB IH].
  - apply nondecreasing_one.
  - pose proof (Built_nonempty _ _ HB) as Hne.
    rewrite (map_dist_snoc _ _ Hne).
    apply nondecreasing_snoc.
    + rewrite (snoc_last ps Hne), map_app in IH. exact IH.
    + rewrite dist_endPoint. pose proof (length_nonneg (sub c (pos (lastSample ps)))). lra.
  - pose proof (Built_nonempty _ _ HB) as Hne.
    rewrite (map_dist_snoc _ _ Hne).
    apply nondecreasing_snoc.
    + rewrite (snoc_last ps Hne), map_app in IH. exact IH.
    + rewrite dist_cornerPoint.
      pose proof (length_nonneg (sub c (pos (lastSample ps)))). lra.
Qed.

Lemma pathLength_snoc xs a b :
  pathLength ((xs ++ [a]) ++ [b]) = pathLength (xs ++ [a]) + length (sub b a).
Proof.
  induction xs as [| c xs IH].
  - cbn. lra.
  - destruct xs as [| d xs].
    + cbn. lra.
    + change (pathLength (((c :: d :: xs) ++ [a]) ++ [b]))
        with (length (sub d c) + pathLength (((d :: xs) ++ [a]) ++ [b])).
      change (pathLength ((c :: d :: xs) ++ [a]))
        with (length (sub d c) + pathLength ((d :: xs) ++ [a])).
      rewrite IH. lra.
Qed.

Lemma pathLength_map_snoc ps p :
  ps <> [] ->
  pathLength (map pos (ps ++ [p]))
  = pathLength (map pos ps) + length (sub (pos p) (pos (lastSample ps))).
Proof.
  intros Hne. destruct (exists_last Hne) as [ps' [q ->]].
  rewrite lastSample_snoc, !map_app. cbn [map]. apply pathLength_snoc.
Qed.

Lemma Built_distance u ps :
  Built u ps -> dist (lastSample ps) = pathLength (map pos ps).
Proof.
  induction 1 as [point c n | ps c HB IH | ps c n dt s HB IH].
  - reflexivity.
  - rewrite lastSample_snoc, dist_endPoint, IH.
    rewrite (pathLength_map_snoc _ _ (Built_nonempty _ _ HB)), pos_endPoint.
    reflexivity.
  - rewrite lastSample_snoc, dist_cornerPoint, IH.
    rewrite (pathLength_map_snoc _ _ (Built_nonempty _ _ HB)), pos_cornerPoint.
    reflexivity.
Qed.

Lemma map_dist_closed ps : map dist (closedSamples ps) = map dist ps.
Proof. now destruct ps. Qed.

Lemma lastSample_closed ps :
  (2 <= List.length ps)%nat -> lastSample (closedSamples ps) = lastSample ps.
Proof.
  destruct ps as [| p0 [| p1 tl]]; cbn [List.length]; try lia.
  reflexivity.
Qed.

Lemma closedSamples_nonempty ps : ps <> [] -> closedSamples ps <> [].
Proof. now destruct ps. Qed.

(** ** [set] on fewer than two points *)

Lemma set_short this points cr cs u cl :
  (List.length points < 2)%nat ->
  fst (set this points cr cs u cl) = Normal (mkPathPointList (array this) 0).
Proof.
  intros Hlen. unfold set. now rewrite (proj2 (Nat.ltb_lt _ _) Hlen).
Qed.

Lemma Holds_reset (a : JS.Array PathPoint) : Holds (mkPathPointList a 0) [].
Proof. split; [reflexivity | cbn; lia]. Qed.

(** C6.  On fewer than two points [set] returns normally (it raises no
    error): it writes one warning, sets [count] to 0 and leaves the array
    as it was, so the list is empty and its [distance()] is 0. *)
Theorem set_too_few_points this points cr cs u cl :
  (List.length points < 2)%nat ->
  exists l,
    set this points cr cs u cl
    = (Normal l, ["PathPointList: points length less than 2."%string])
    /\ count l = 0%nat
    /\ array l = array this
    /\ distance l = Normal 0.
Proof.
  intros Hlen. unfold set.
  rewrite (proj2 (Nat.ltb_lt _ _) Hlen).
  eexists. split; [reflexivity |]. cbn. auto.
Qed.

Lemma set_too_few_points_witness :
  exists l,
    set new_PathPointList [vec3 1 2 3] None None None None
    = (Normal l, ["PathPointList: points length less than 2."%string])
    /\ count l = 0%nat
    /\ array l = array new_PathPointList
    /\ distance l = Normal 0.
Proof.
  apply (set_too_few_points new_PathPointList [vec3 1 2 3]).
  cbn. lia.
Defined.

(** ** Distances of the stored samples *)

Lemma distance_empty l : count l = 0%nat -> distance l = Normal 0.
Proof. intros H. unfold distance. now rewrite H. Qed.

Lemma Holds_distance' l ps :
  Holds l ps -> ps <> [] -> distance l = Normal (dist (lastSample ps)).
Proof.
  intros H Hne. rewrite (snoc_last ps Hne) in H.
  exact (Holds_distance _ _ _ H).
Qed.

(** C7.  [distance()] is the [dist] of the last sample of a list, and 0 for
    an empty list.  After [set], which always returns normally: on fewer
    than two points the list is empty; otherwise the first sample has
    [dist = 0], [dist] is non-decreasing along the samples, and with
    rounding off [distance()] is the sum of the distances between
    consecutive key points (with [close] set, the key points after the
    first one has been appended to close the path). *)
Theorem set_distances this points cr cs u cl :
  (forall l ps q, Holds l (ps ++ [q]) -> distance l = Normal (dist q))
  /\ (forall l, count l = 0%nat -> distance l = Normal 0)
  /\ exists l,
      fst (set this points cr cs u cl) = Normal l
      /\ ((List.length points < 2)%nat -> count l = 0%nat)
      /\ ((2 <= List.length points)%nat ->
          exists p0 tl,
            Holds l (p0 :: tl)
            /\ dist p0 = 0
            /\ nondecreasing (map dist (p0 :: tl))
            /\ distance l = Normal (dist (lastSample (p0 :: tl)))
            /\ (roundingOff cr cs ->
                distance l
                = Normal (pathLength
                            (autoClose points (JS.defined_or cl false))))
            /\ (roundingOff cr cs -> JS.defined_or cl false = false ->
                distance l = Normal (pathLength points))).
Proof.
  split; [exact Holds_distance |]. split; [exact distance_empty |].
  destruct (Nat.lt_ge_cases (List.length points) 2) as [Hlt | Hge].
  - exists (mkPathPointList (array this) 0).
    split; [now apply set_short |]. split; [auto | lia].
  - destruct (set_spec this points cr cs u cl Hge)
      as [l [ps [E [HB [Hlen [H [Hp _]]]]]]].
    exists l. rewrite E. split; [reflexivity |]. split; [lia |]. intros _.
    destruct (Built_first_dist _ _ HB) as [p0 [tl [-> Hd]]].
    set (stored := if JS.defined_or cl false
                   then closedSamples (p0 :: tl) else p0 :: tl) in *.
    assert (Hdists : map dist stored = map dist (p0 :: tl))
      by (unfold stored; destruct (JS.defined_or cl false);
          [apply map_dist_closed | reflexivity]).
    assert (Hlast : lastSample stored = lastSample (p0 :: tl))
      by (unfold stored; destruct (JS.defined_or cl false);
          [now apply lastSample_closed | reflexivity]).
    assert (Hst : exists p0' , stored = p0' :: tl /\ dist p0' = 0).
    { unfold stored. destruct (JS.defined_or cl false); cbn; eauto. }
    destruct Hst as [p0' [Est Hd']].
    exists p0', tl. rewrite <- Est.
    assert (Hdist : distance l = Normal (dist (lastSample stored))).
    { apply Holds_distance'; [exact H | rewrite Est; discriminate]. }
    split; [exact H |]. split; [exact Hd' |].
    split; [rewrite Hdists; exact (Built_nondecreasing _ _ HB) |].
    split; [exact Hdist |].
    assert (Hsum : roundingOff cr cs ->
                   distance l
                   = Normal (pathLength
                               (autoClose points (JS.defined_or cl false)))).
    { intros Hr. rewrite Hdist, Hlast, (Built_distance _ _ HB), (Hp Hr).
      reflexivity. }
    split; [exact Hsum |].
    intros Hr Hopen. rewrite (Hsum Hr), Hopen. now destruct points.
Qed.

(** ** Closed paths *)

(** C8.  On at least two points with [close = true], [set] returns
    normally, and the first stored sample has the [pos], [dir], [up] and
    [right] of the last stored sample and [dist = 0]. *)
Theorem set_closed_first_is_last this points cr cs u :
  (2 <= List.length points)%nat ->
  exists l first last,
    fst (set this points cr cs u (Some true)) = Normal l
    /\ JS.get (array l) 0 = Some first
    /\ lastOf l = Some last
    /\ pos first = pos last
    /\ dir first = dir last
    /\ up first = up last
    /\ right first = right last
    /\ dist first = 0.
Proof.
  intros Hge.
  destruct (set_spec this points cr cs u (Some true) Hge)
    as [l [ps [E [HB [Hlen [H _]]]]]].
  cbn [JS.defined_or] in H.
  destruct (Built_first_dist _ _ HB) as [p0 [tl [-> Hd]]].
  exists l, (fixedStart p0 (lastSample (p0 :: tl))), (lastSample (p0 :: tl)).
  rewrite E. split; [reflexivity |].
  split; [exact (Holds_first _ _ _ H) |].
  split.
  - rewrite (Holds_lastSample _ _ H) by discriminate.
    now rewrite lastSample_closed.
  - cbn. auto.
Qed.

Lemma set_closed_first_is_last_witness :
  exists l first last,
    fst (set new_PathPointList [vec3 0 0 0; vec3 1 0 0; vec3 1 1 0]
           None None None (Some true)) = Normal l
    /\ JS.get (array l) 0 = Some first
    /\ lastOf l = Some last
    /\ pos first = pos last
    /\ dir first = dir last
    /\ up first = up last
    /\ right first = right last
    /\ dist first = 0.
Proof.
  apply (set_closed_first_is_last new_PathPointList
           [vec3 0 0 0; vec3 1 0 0; vec3 1 1 0]).
  cbn. lia.
Defined.

(** ** The loop of the generators *)

Lemma Holds_get l ps i p :
  Holds l ps -> nth_error ps i = Some p ->
  JS.get (array l) (Z.of_nat i) = Some p.
Proof.
  intros [_ Hg] E. rewrite Hg; [exact E |].
  apply nth_error_Some. congruence.
Qed.

Lemma progressLoop_walk addV l ps pd :
  Holds l ps ->
  forall n i b,
    (i + n = List.length ps)%nat ->
    progressLoop addV l pd n i b
    = walk addV pd
        (match i with O => None | S j => nth_error ps j end)
        (skipn i ps) b.
Proof.
  intros H. induction n as [| n IH]; intros i b Hin.
  - rewrite skipn_all2 by lia. reflexivity.
  - destruct (nth_error_defined ps i) as [p Ep]; [lia |].
    cbn [progressLoop]. rewrite (Holds_get _ _ _ _ H Ep).
    cbn [JS.bind deref].
    assert (Eskip : skipn i ps = p :: skipn (S i) ps).
    { rewrite <- (firstn_skipn i ps) in Ep at 1.
      rewrite nth_error_app2 in Ep by (rewrite firstn_length_le; lia).
      rewrite firstn_length_le, Nat.sub_diag in Ep by lia.
      destruct (skipn i ps) as [| p' rest] eqn:E; [discriminate |].
      cbn in Ep. injection Ep as ->. f_equal.
      replace (S i) with (1 + i)%nat by lia.
      now rewrite <- skipn_skipn, E. }
    rewrite Eskip. cbn [walk].
    destruct (JS.gtb (dist p) pd).
    + destruct i as [| j].
      * reflexivity.
      * replace (Z.of_nat (S j) - 1)%Z with (Z.of_nat j) by lia.
        destruct (nth_error_defined ps j) as [q Eq]; [lia |].
        now rewrite (Holds_get _ _ _ _ H Eq), Eq.
    + rewrite IH by lia. now rewrite Ep.
Qed.

Lemma progressLoop_walk0 addV l ps pd b :
  Holds l ps ->
  progressLoop addV l pd (count l) 0 b = walk addV pd None ps b.
Proof.
  intros H. rewrite (progressLoop_walk addV l ps pd H); [reflexivity |].
  destruct H as [Hc _]. lia.
Qed.

(** Samples that do not exceed [progressDistance] are all added. *)
Lemma walk_within addV pd ps :
  forall prev b,
    Forall (fun p => dist p <= pd) ps ->
    walk addV pd prev ps b = Normal (fold_left addV ps b, None).
Proof.
  induction ps as [| p ps IH]; intros prev b HF; [reflexivity |].
  inversion HF as [| ? ? Hp HF']; subst.
  cbn [walk fold_left]. rewrite (gtb_false _ _ Hp). now apply IH.
Qed.

(** At the first sample that exceeds [progressDistance] the truncated
    sample is added and the loop stops. *)
Lemma walk_truncate addV pd pre :
  forall prev0 b q cur post,
    Forall (fun p => dist p <= pd) (pre ++ [q]) ->
    pd < dist cur ->
    walk addV pd prev0 ((pre ++ [q]) ++ cur :: post) b
    = Normal (addV (fold_left addV (pre ++ [q]) b) (truncated pd q cur),
              Some (truncated pd q cur)).
Proof.
  induction pre as [| p pre IH]; intros prev0 b q cur post HF Hcur.
  - inversion HF as [| ? ? Hq _]; subst.
    cbn [app walk fold_left].
    rewrite (gtb_false _ _ Hq), (gtb_true _ _ Hcur). reflexivity.
  - inversion HF as [| ? ? Hp HF']; subst.
    cbn [app walk fold_left]. rewrite (gtb_false _ _ Hp).
    apply (IH (Some p) (addV b p) q cur post HF' Hcur).
Qed.

(** The loop raises no TypeError when the first sample does not exceed
    [progressDistance]. *)
Lemma walk_total addV pd ps :
  forall prev b,
    (prev = None -> forall p tl, ps = p :: tl -> dist p <= pd) ->
    exists r, walk addV pd prev ps b = Normal r.
Proof.
  induction ps as [| p ps IH]; intros prev b Hfirst; [cbn; eauto |].
  cbn [walk]. destruct (JS.gtb (dist p) pd) eqn:E.
  - destruct prev as [q |]; [cbn; eauto |].
    apply gtb_spec in E. specialize (Hfirst eq_refl p ps eq_refl). lra.
  - apply IH. discriminate.
Qed.

(** ** The radial segments of the circular tube *)

(** C5 (as the code has it).  The effective number of radial segments is
    at least 2; it is the requested value when that is at least 2; a
    requested value below 2 other than 0 gives 2; a requested 0, like an
    absent value, gives the default 8. *)
Theorem effectiveRadialSegments_spec options :
  (2 <= PathTubeGeometry.effectiveRadialSegments options)%Z
  /\ (forall n, radialSegments options = Some n -> (2 <= n)%Z ->
                PathTubeGeometry.effectiveRadialSegments options = n)
  /\ (forall n, radialSegments options = Some n -> (n < 2)%Z -> n <> 0%Z ->
                PathTubeGeometry.effectiveRadialSegments options = 2%Z)
  /\ (radialSegments options = Some 0%Z \/ radialSegments options = None ->
      PathTubeGeometry.effectiveRadialSegments options = 8%Z).
Proof.
  unfold PathTubeGeometry.effectiveRadialSegments.
  destruct (radialSegments options) as [n |].
  - destruct (Z.eqb_spec n 0) as [-> | Hn].
    + split; [lia |].
      split; [intros m [= <-] Hm; lia |].
      split; [intros m [= <-] _ Hm; lia |].
      intros _. reflexivity.
    + split; [lia |].
      split; [intros m [= <-] Hm; lia |].
      split; [intros m [= <-] Hm _; lia |].
      intros [[= ->] | [=]]. contradiction.
  - split; [lia |].
    split; [intros m [=] |].
    split; [intros m [=] |].
    intros _. reflexivity.
Qed.

(** C5, the claim as stated fails: a requested 0 is not clamped to 2. *)
Lemma radialSegments_zero_is_not_clamped :
  PathTubeGeometry.effectiveRadialSegments
    (mkOptions None None None None None None (Some 0%Z) None) = 8%Z.
Proof. reflexivity. Qed.

(** ** The truncated sample *)

Lemma lerpPathPoints_sharp this p1 p2 alpha :
  sharp (lerpPathPoints this p1 p2 alpha) = sharp this.
Proof. reflexivity. Qed.

Lemma truncated_sharp pd prev cur : sharp (truncated pd prev cur) = false.
Proof. reflexivity. Qed.

(** The ribbon's [addVertices] on a sample that is not marked sharp pushes
    two vertices. *)
Lemma ribbon_plain_ring hw sw td side_ g b p :
  sharp p = false ->
  List.length (position (data (PathGeometry.addVertices hw sw td side_ g b p)))
  = (List.length (position (data b)) + 6)%nat
  /\ verticesCount (PathGeometry.addVertices hw sw td side_ g b p)
     = (verticesCount b + 2)%Z.
Proof.
  intros Hs. unfold PathGeometry.addVertices. rewrite Hs.
  cbn [andb data position verticesCount].
  rewrite !length_app. cbn [xyz List.length]. split; [lia | reflexivity].
Qed.

(** C9.  Whenever the loop of the ribbon generator truncates, the sample it
    interpolates has [sharp = false] (the flag of the fresh point, which
    [lerpPathPoints] does not assign), whatever the flags of the two
    samples around it, and [addVertices] pushes two vertices for it, not
    six. *)
Theorem truncation_ring_is_plain hw sw td side_ g l pd n :
  forall i b b' lastPoint,
    progressLoop (PathGeometry.addVertices hw sw td side_ g) l pd n i b
    = Normal (b', Some lastPoint) ->
    sharp lastPoint = false
    /\ exists b0 prev cur,
        lastPoint = truncated pd prev cur
        /\ b' = PathGeometry.addVertices hw sw td side_ g b0 lastPoint
        /\ List.length (position (data b'))
           = (List.length (position (data b0)) + 6)%nat
        /\ verticesCount b' = (verticesCount b0 + 2)%Z.
Proof.
  induction n as [| n IH]; intros i b b' lastPoint E.
  - discriminate.
  - cbn [progressLoop] in E.
    destruct (JS.get (array l) (Z.of_nat i)) as [cur |]; [| discriminate].
    cbn [JS.bind deref] in E.
    destruct (JS.gtb (dist cur) pd).
    + destruct (JS.get (array l) (Z.of_nat i - 1)) as [prev |]; [| discriminate].
      cbn [JS.bind deref] in E. injection E as <- <-.
      split; [reflexivity |].
      exists b, prev, cur. split; [reflexivity |]. split; [reflexivity |].
      now apply ribbon_plain_ring.
    + exact (IH _ _ _ _ E).
Qed.

Lemma Holds_literal (ps : list PathPoint) :
  Holds (mkPathPointList (map Some ps) (List.length ps)) ps.
Proof.
  split; [reflexivity |]. intros i Hi. cbn [array]. unfold JS.get.
  destruct (Z.ltb_spec (Z.of_nat i) 0); [lia |].
  rewrite Nat2Z.id, nth_error_map. now destruct (nth_error ps i).
Qed.

(** Two samples marked sharp, ten apart, truncated at distance five. *)
Lemma truncation_ring_is_plain_witness :
  let p0 := mkPathPoint (vec3 0 0 0) (vec3 1 0 0) (vec3 0 0 1) (vec3 0 1 0)
              0 1 true in
  let p1 := mkPathPoint (vec3 10 0 0) (vec3 1 0 0) (vec3 0 0 1) (vec3 0 1 0)
              10 1 true in
  let addV := PathGeometry.addVertices 0.05 0.1 10 "both" false in
  sharp (truncated 5 p0 p1) = false
  /\ exists b0 prev cur,
      truncated 5 p0 p1 = truncated 5 prev cur
      /\ addV (addV emptyBuild p0) (truncated 5 p0 p1)
         = addV b0 (truncated 5 p0 p1)
      /\ List.length
           (position (data (addV (addV emptyBuild p0) (truncated 5 p0 p1))))
         = (List.length (position (data b0)) + 6)%nat
      /\ verticesCount (addV (addV emptyBuild p0) (truncated 5 p0 p1))
         = (verticesCount b0 + 2)%Z.
Proof.
  intros p0 p1 addV.
  apply (truncation_ring_is_plain 0.05 0.1 10 "both" false
           (mkPathPointList (map Some [p0; p1]) 2) 5 2 0 emptyBuild).
  change 2%nat with (count (mkPathPointList (map Some [p0; p1]) 2)).
  rewrite (progressLoop_walk0 _ _ [p0; p1]) by apply (Holds_literal [p0; p1]).
  assert (H0 : Forall (fun p => dist p <= 5) ([] ++ [p0]))
    by (constructor; [cbn; lra | constructor]).
  assert (H1 : 5 < dist p1) by (cbn; lra).
  exact (walk_truncate addV 5 [] None emptyBuild p0 p1 [] H0 H1).
Defined.

(** ** The generators on a list that holds its samples *)

Lemma Holds_total l ps : Holds l ps -> distance l = Normal (totalOf ps).
Proof.
  intros H. destruct ps as [| p tl].
  - apply distance_empty. now destruct H.
  - apply Holds_distance'; [exact H | discriminate].
Qed.

Lemma tube_walk l ps options g :
  Holds l ps ->
  PathTubeGeometry.generateTubeVertexData_1 l options g
  = let radius_ := JS.opt_or (radius options) 0.1 in
    let totalDistance := totalOf ps in
    let progressDistance := JS.defined_or (progress options) 1 * totalDistance in
    if JS.eqb progressDistance 0 then Normal None
    else
      r <- (if JS.gtb progressDistance 0
            then walk (PathTubeGeometry.addVertices (radius_ * 2 * PI)
                         totalDistance (JS.opt_or (startRad options) 0) g
                         radius_
                         (PathTubeGeometry.effectiveRadialSegments options))
                   progressDistance None ps emptyBuild
            else Normal (emptyBuild, None)) ;;
      Normal (Some (data (fst r))).
Proof.
  intros H. unfold PathTubeGeometry.generateTubeVertexData_1.
  rewrite (Holds_total _ _ H). cbn [JS.bind].
  now rewrite (progressLoop_walk0 _ _ _ _ _ H).
Qed.

Lemma rect5_walk l ps options g :
  Holds l ps ->
  PathRectangleGeometry5.generateTubeVertexData l options g
  = let totalDistance := totalOf ps in
    let progressDistance := JS.defined_or (progress options) 1 * totalDistance in
    if JS.eqb progressDistance 0 then Normal None
    else
      r <- (if JS.gtb progressDistance 0
            then walk (PathRectangleGeometry5.addVertices
                         (JS.opt_or (radius options) 0.1 * 2 * PI)
                         totalDistance g
                         (JS.opt_or (width options) 1)
                         (JS.opt_or (height options) 0.5))
                   progressDistance None ps emptyBuild
            else Normal (emptyBuild, None)) ;;
      Normal (Some (data (fst r))).
Proof.
  intros H. unfold PathRectangleGeometry5.generateTubeVertexData.
  rewrite (Holds_total _ _ H). cbn [JS.bind].
  now rewrite (progressLoop_walk0 _ _ _ _ _ H).
Qed.

Lemma rect8_walk l ps options g :
  Holds l ps ->
  PathRectangleGeometry8.generateTubeVertexData l options g
  = let totalDistance := totalOf ps in
    let progressDistance := JS.defined_or (progress options) 1 * totalDistance in
    let width_ := JS.opt_or (width options) 1 in
    let height_ := JS.opt_or (height options) 0.5 in
    if JS.eqb progressDistance 0 then Normal None
    else
      r <- (if JS.gtb progressDistance 0
            then walk (PathRectangleGeometry8.addVertices width_ height_
                         (width_ / 2) (height_ / 2)
                         ((width_ + height_) * 2) totalDistance)
                   progressDistance None ps emptyBuild
            else Normal (emptyBuild, None)) ;;
      Normal (Some (rect8_result (fst r))).
Proof.
  intros H. unfold PathRectangleGeometry8.generateTubeVertexData.
  rewrite (Holds_total _ _ H). cbn [JS.bind].
  rewrite (progressLoop_walk0 _ _ _ _ _ H).
  cbv zeta. destruct (JS.eqb _ 0); [reflexivity |].
  destruct (JS.gtb _ 0); [| reflexivity].
  now destruct (walk _ _ _ _ _).
Qed.

Lemma ribbon_walk l ps options g :
  Holds l ps ->
  PathGeometry.generatePathVertexData l options g
  = let width_ := JS.opt_or (width options) 0.1 in
    let side_ := JS.defined_or (side options) "both"%string in
    let halfWidth := width_ / 2 in
    let sideWidth :=
      if negb (String.eqb side_ "both") then width_ / 2 else width_ in
    let totalDistance := totalOf ps in
    let progressDistance := JS.defined_or (progress options) 1 * totalDistance in
    if JS.eqb totalDistance 0 then Normal None
    else
      r <- (if JS.gtb progressDistance 0
            then walk (PathGeometry.addVertices halfWidth sideWidth
                         totalDistance side_ g)
                   progressDistance None ps emptyBuild
            else Normal (emptyBuild, nth_error ps 0)) ;;
      b <- (if JS.defined_or (arrow options) true then
              lastPoint <- deref (arrowPoint (snd r) ps) ;;
              Normal (PathGeometry.addStart width_ halfWidth sideWidth
                        totalDistance side_ g (fst r) lastPoint)
            else Normal (fst r)) ;;
      Normal (Some (data b)).
Proof.
  intros H. unfold PathGeometry.generatePathVertexData.
  rewrite (Holds_total _ _ H). cbn [JS.bind].
  rewrite (progressLoop_walk0 _ _ _ _ _ H).
  cbv zeta. destruct ps as [| p tl].
  - cbn [totalOf]. now rewrite (eqb_true 0 0 eq_refl).
  - destruct (JS.eqb (totalOf (p :: tl)) 0); [reflexivity |].
    rewrite (Holds_lastSample _ _ H) by discriminate.
    rewrite (Holds_first _ _ _ H).
    destruct (JS.gtb _ 0).
    + destruct (walk _ _ _ _ _) as [[b lp] |]; reflexivity.
    + reflexivity.
Qed.

(** [set] always returns normally, and the list it leaves holds samples
    that start at distance 0 and whose distances do not decrease. *)
Lemma set_wellformed this points cr cs u cl :
  exists l ps,
    fst (set this points cr cs u cl) = Normal l
    /\ Holds l ps /\ startsAtZero ps /\ nondecreasing (map dist ps).
Proof.
  destruct (Nat.lt_ge_cases (List.length points) 2) as [Hlt | Hge].
  - exists (mkPathPointList (array this) 0), [].
    split; [now apply set_short |].
    split; [apply Holds_reset |].
    split; [intros p tl [=] |].
    intros [| i] j a b _ Hi; discriminate.
  - destruct (set_spec this points cr cs u cl Hge)
      as [l [ps [E [HB [Hlen [H _]]]]]].
    destruct (Built_first_dist _ _ HB) as [p0 [tl [-> Hd]]].
    pose proof (Built_nondecreasing _ _ HB) as Hs.
    exists l, (if JS.defined_or cl false
               then closedSamples (p0 :: tl) else p0 :: tl).
    rewrite E. split; [reflexivity |]. split; [exact H |].
    destruct (JS.defined_or cl false).
    + split; [intros p tl' [= <- <-]; exact Hd |].
      now rewrite map_dist_closed.
    + split; [intros p tl' [= <- <-]; exact Hd | exact Hs].
Qed.

Lemma walk_total_from_zero addV pd ps b :
  startsAtZero ps -> 0 < pd ->
  exists r, walk addV pd None ps b = Normal r.
Proof.
  intros H0 Hpd. apply walk_total. intros _ p tl ->.
  rewrite (H0 p tl eq_refl). lra.
Qed.

Lemma tube_total l ps options g :
  Holds l ps -> startsAtZero ps ->
  exists r, PathTubeGeometry.generateTubeVertexData_1 l options g = Normal r.
Proof.
  intros H H0. rewrite (tube_walk _ _ _ _ H). cbv zeta.
  destruct (JS.eqb _ 0); [eauto |].
  destruct (JS.gtb _ 0) eqn:E; [| cbn; eauto].
  apply gtb_spec in E.
  destruct (walk_total_from_zero
              (PathTubeGeometry.addVertices
                 (JS.opt_or (radius options) 0.1 * 2 * PI) (totalOf ps)
                 (JS.opt_or (startRad options) 0) g
                 (JS.opt_or (radius options) 0.1)
                 (PathTubeGeometry.effectiveRadialSegments options))
              _ ps emptyBuild H0 E) as [r Er].
  rewrite Er. cbn. eauto.
Qed.

Lemma rect5_total l ps options g :
  Holds l ps -> startsAtZero ps ->
  exists r, PathRectangleGeometry5.generateTubeVertexData l options g = Normal r.
Proof.
  intros H H0. rewrite (rect5_walk _ _ _ _ H). cbv zeta.
  destruct (JS.eqb _ 0); [eauto |].
  destruct (JS.gtb _ 0) eqn:E; [| cbn; eauto].
  apply gtb_spec in E.
  destruct (walk_total_from_zero
              (PathRectangleGeometry5.addVertices
                 (JS.opt_or (radius options) 0.1 * 2 * PI) (totalOf ps) g
                 (JS.opt_or (width options) 1)
                 (JS.opt_or (height options) 0.5))
              _ ps emptyBuild H0 E) as [r Er].
  rewrite Er. cbn. eauto.
Qed.

Lemma rect8_total l ps options g :
  Holds l ps -> startsAtZero ps ->
  exists r, PathRectangleGeometry8.generateTubeVertexData l options g = Normal r.
Proof.
  intros H H0. rewrite (rect8_walk _ _ _ _ H). cbv zeta.
  destruct (JS.eqb _ 0); [eauto |].
  destruct (JS.gtb _ 0) eqn:E; [| cbn; eauto].
  apply gtb_spec in E.
  destruct (walk_total_from_zero
              (PathRectangleGeometry8.addVertices
                 (JS.opt_or (width options) 1) (JS.opt_or (height options) 0.5)
                 (JS.opt_or (width options) 1 / 2)
                 (JS.opt_or (height options) 0.5 / 2)
                 ((JS.opt_or (width options) 1 + JS.opt_or (height options) 0.5) * 2)
                 (totalOf ps))
              _ ps emptyBuild H0 E) as [r Er].
  rewrite Er. cbn. eauto.
Qed.

Lemma ribbon_total l ps options g :
  Holds l ps -> startsAtZero ps ->
  exists r, PathGeometry.generatePathVertexData l options g = Normal r.
Proof.
  intros H H0. rewrite (ribbon_walk _ _ _ _ H). cbv zeta.
  destruct ps as [| p tl].
  - cbn [totalOf]. rewrite (eqb_true 0 0 eq_refl). eauto.
  - destruct (JS.eqb _ 0); [eauto |].
    destruct (JS.gtb _ 0) eqn:E.
    + apply gtb_spec in E.
      match goal with
      | |- context [walk ?addV ?pd None ?ps ?b] =>
          destruct (walk_total_from_zero addV pd ps b H0 E) as [[b' lp] Er]
      end.
      rewrite Er. cbn [JS.bind fst snd].
      destruct (JS.defined_or (arrow options) true); [| cbn; eauto].
      destruct lp; cbn; eauto.
    + cbn [JS.bind fst snd nth_error arrowPoint].
      destruct (JS.defined_or (arrow options) true); cbn; eauto.
Qed.

(** A negative progress on a path of positive length: the loop is not
    entered. *)
Lemma negative_progress_distance p d : p < 0 -> 0 < d -> p * d < 0.
Proof. intros. nra. Qed.

Lemma tube_negative_progress l ps options g p :
  Holds l ps -> progress options = Some p -> p < 0 -> 0 < totalOf ps ->
  PathTubeGeometry.generateTubeVertexData_1 l options g
  = Normal (Some noVertexData).
Proof.
  intros H Ep Hp Hd. rewrite (tube_walk _ _ _ _ H). cbv zeta.
  rewrite Ep. cbn [JS.defined_or].
  pose proof (negative_progress_distance _ _ Hp Hd).
  rewrite eqb_false, gtb_false by lra. reflexivity.
Qed.

Lemma rect5_negative_progress l ps options g p :
  Holds l ps -> progress options = Some p -> p < 0 -> 0 < totalOf ps ->
  PathRectangleGeometry5.generateTubeVertexData l options g
  = Normal (Some noVertexData).
Proof.
  intros H Ep Hp Hd. rewrite (rect5_walk _ _ _ _ H). cbv zeta.
  rewrite Ep. cbn [JS.defined_or].
  pose proof (negative_progress_distance _ _ Hp Hd).
  rewrite eqb_false, gtb_false by lra. reflexivity.
Qed.

Lemma rect8_negative_progress l ps options g p :
  Holds l ps -> progress options = Some p -> p < 0 -> 0 < totalOf ps ->
  PathRectangleGeometry8.generateTubeVertexData l options g
  = Normal (Some noVertexData).
Proof.
  intros H Ep Hp Hd. rewrite (rect8_walk _ _ _ _ H). cbv zeta.
  rewrite Ep. cbn [JS.defined_or].
  pose proof (negative_progress_distance _ _ Hp Hd).
  rewrite eqb_false, gtb_false by lra. reflexivity.
Qed.

(** ** A straight path of two points *)

Lemma set_two_points this c0 c1 cr cs u :
  exists point l,
    set this [c0; c1] cr cs u None = (Normal l, [])
    /\ Holds l [startPoint point c0 c1 u;
                endPoint (startPoint point c0 c1 u) c1].
Proof.
  unfold set. cbn [List.length Nat.ltb Nat.leb JS.defined_or autoClose andb].
  cbn [setLoop Nat.eqb Nat.add Nat.sub nth_error].
  destruct (start_spec this c0 c1 u) as [point [E0 H0]].
  rewrite E0. cbn [JS.bind].
  destruct (end_spec' _ _ c1 H0 ltac:(discriminate)) as [l [E1 H1]].
  rewrite E1. cbn [JS.bind]. exists point, l. split; [reflexivity | exact H1].
Qed.

Lemma length_along_x (a : R) :
  0 <= a -> length (sub (vec3 a 0 0) (vec3 0 0 0)) = a.
Proof.
  intros Ha. unfold length, sub. cbn [x y z].
  replace ((a - 0) * (a - 0) + (0 - 0) * (0 - 0) + (0 - 0) * (0 - 0))
    with (a * a) by ring.
  now apply sqrt_square.
Qed.

(** The list [set] leaves on the two points (0,0,0) and (10,0,0): two
    samples, at distances 0 and 10, neither marked sharp. *)
Lemma straight_path :
  exists l p0 p1,
    fst (set new_PathPointList [vec3 0 0 0; vec3 10 0 0] None None None None)
    = Normal l
    /\ Holds l [p0; p1]
    /\ dist p0 = 0 /\ dist p1 = 10
    /\ sharp p0 = false /\ sharp p1 = false
    /\ pos p0 = vec3 0 0 0 /\ pos p1 = vec3 10 0 0.
Proof.
  destruct (set_two_points new_PathPointList (vec3 0 0 0) (vec3 10 0 0)
              None None None) as [point [l [E H]]].
  exists l, (startPoint point (vec3 0 0 0) (vec3 10 0 0) None),
    (endPoint (startPoint point (vec3 0 0 0) (vec3 10 0 0) None) (vec3 10 0 0)).
  rewrite E. split; [reflexivity |]. split; [exact H |].
  split; [reflexivity |]. split; [| auto].
  rewrite dist_endPoint, pos_startPoint, length_along_x by lra.
  cbn [dist startPoint]. lra.
Qed.

(** ** Totality of the tube generators *)

(** C10 (as the code has it).  On the list [set] leaves, whatever the
    options, the circular-tube and the two rectangular-tube generators
    return normally: they never read the sample at index -1.  With a
    negative progress on a path of positive length [progressDistance] is
    negative, the loop guarded by [progressDistance > 0] is not entered,
    and the result is an object with empty arrays and [count = 0]. *)
Theorem tube_generators_total this points cr cs u cl options g :
  exists l,
    fst (set this points cr cs u cl) = Normal l
    /\ (exists r, PathTubeGeometry.generateTubeVertexData_1 l options g
                  = Normal r)
    /\ (exists r, PathRectangleGeometry5.generateTubeVertexData l options g
                  = Normal r)
    /\ (exists r, PathRectangleGeometry8.generateTubeVertexData l options g
                  = Normal r)
    /\ (forall p d,
          progress options = Some p -> p < 0 ->
          distance l = Normal d -> 0 < d ->
          PathTubeGeometry.generateTubeVertexData_1 l options g
          = Normal (Some noVertexData)
          /\ PathRectangleGeometry5.generateTubeVertexData l options g
             = Normal (Some noVertexData)
          /\ PathRectangleGeometry8.generateTubeVertexData l options g
             = Normal (Some noVertexData)).
Proof.
  destruct (set_wellformed this points cr cs u cl) as [l [ps [E [H [H0 _]]]]].
  exists l. split; [exact E |].
  split; [exact (tube_total _ _ _ _ H H0) |].
  split; [exact (rect5_total _ _ _ _ H H0) |].
  split; [exact (rect8_total _ _ _ _ H H0) |].
  intros p d Ep Hp Ed Hd.
  rewrite (Holds_total _ _ H) in Ed. injection Ed as <-.
  split; [exact (tube_negative_progress _ _ _ _ _ H Ep Hp Hd) |].
  split; [exact (rect5_negative_progress _ _ _ _ _ H Ep Hp Hd) |].
  exact (rect8_negative_progress _ _ _ _ _ H Ep Hp Hd).
Qed.

(** C10, the claim as stated fails: on the path from (0,0,0) to (10,0,0),
    of length 10, the three generators called with [progress = -1] raise
    no TypeError; they return an object with empty arrays. *)
Lemma negative_progress_reads_no_sample :
  exists l,
    fst (set new_PathPointList [vec3 0 0 0; vec3 10 0 0] None None None None)
    = Normal l
    /\ distance l = Normal 10
    /\ PathTubeGeometry.generateTubeVertexData_1 l
         (mkOptions None None None (Some (-1)) None None None None) false
       = Normal (Some noVertexData)
    /\ PathRectangleGeometry5.generateTubeVertexData l
         (mkOptions None None None (Some (-1)) None None None None) false
       = Normal (Some noVertexData)
    /\ PathRectangleGeometry8.generateTubeVertexData l
         (mkOptions None None None (Some (-1)) None None None None) false
       = Normal (Some noVertexData).
Proof.
  destruct straight_path as [l [p0 [p1 [E [H [_ [Hd1 _]]]]]]].
  exists l. split; [exact E |].
  assert (Ht : totalOf [p0; p1] = 10) by exact Hd1.
  split; [rewrite (Holds_total _ _ H), Ht; reflexivity |].
  assert (Hpos : 0 < totalOf [p0; p1]) by (rewrite Ht; lra).
  split; [apply (tube_negative_progress l [p0; p1] _ _ (-1));
          auto; lra |].
  split; [apply (rect5_negative_progress l [p0; p1] _ _ (-1));
          auto; lra |].
  apply (rect8_negative_progress l [p0; p1] _ _ (-1)); auto; lra.
Qed.

(** ** Progress 0 *)

Lemma ribbon_arrow_only w hw sw td side_ g p :
  let d := data (PathGeometry.addStart w hw sw td side_ g emptyBuild p) in
  vertices d = 3%Z /\ indices d = [2; 0; 1]%Z /\ vcount d = 3%Z.
Proof. cbv zeta. unfold vertices. cbn. auto. Qed.

(** C2 (as the code has it).  With [progress = 0] the circular-tube and
    the two rectangular-tube generators return [null].  The ribbon
    generator returns [null] when the total distance is 0; otherwise it
    returns an object that is empty when [arrow] is false and that holds
    the arrow head alone when [arrow] is true or absent: 3 vertices, the
    indices 2, 0, 1, [count = 3].  The arrow head is built on the first
    sample, [array[0]]: its base runs from [pos - width * right] to
    [pos + width * right] (a side that is left out ends at [pos]), its
    tip lies at [pos] moved by [1.5 * width] along [dir], and its normals
    are [up], all of the first sample. *)
Theorem progress_zero_results l ps options g :
  Holds l ps -> progress options = Some 0 ->
  PathTubeGeometry.generateTubeVertexData_1 l options g = Normal None
  /\ PathRectangleGeometry5.generateTubeVertexData l options g = Normal None
  /\ PathRectangleGeometry8.generateTubeVertexData l options g = Normal None
  /\ (totalOf ps = 0 ->
      PathGeometry.generatePathVertexData l options g = Normal None)
  /\ (totalOf ps <> 0 -> JS.defined_or (arrow options) true = false ->
      PathGeometry.generatePathVertexData l options g
      = Normal (Some noVertexData))
  /\ (totalOf ps <> 0 -> JS.defined_or (arrow options) true = true ->
      exists first rest d,
        ps = first :: rest
        /\ JS.get (array l) 0 = Some first
        /\ PathGeometry.generatePathVertexData l options g = Normal (Some d)
        /\ (let w := JS.opt_or (width options) 0.1 in
            let s := JS.defined_or (side options) "both"%string in
            let leftBase :=
              if String.eqb s "right" then pos first
              else sub (pos first) (multiplyScalar (right first) w) in
            let rightBase :=
              if String.eqb s "left" then pos first
              else add (pos first) (multiplyScalar (right first) w) in
            let tip := add (pos first) (setLength (dir first) (w * 3 / 2)) in
            position d = xyz leftBase ++ xyz rightBase ++ xyz tip)
        /\ normal d = xyz (up first) ++ xyz (up first) ++ xyz (up first)
        /\ vertices d = 3%Z /\ indices d = [2; 0; 1]%Z /\ vcount d = 3%Z).
Proof.
  intros H Ep.
  rewrite (tube_walk _ _ _ _ H), (rect5_walk _ _ _ _ H),
    (rect8_walk _ _ _ _ H), (ribbon_walk _ _ _ _ H).
  cbv zeta. rewrite Ep. cbn [JS.defined_or].
  rewrite Rmult_0_l, (eqb_true 0 0 eq_refl), (gtb_false 0 0) by lra.
  split; [reflexivity |]. split; [reflexivity |]. split; [reflexivity |].
  split; [intros ->; now rewrite (eqb_true 0 0 eq_refl) |].
  split.
  - intros Hne Ea. rewrite (eqb_false _ _ Hne), Ea. reflexivity.
  - intros Hne Ea. rewrite (eqb_false _ _ Hne), Ea.
    destruct ps as [| p0 tl]; [now contradiction Hne |].
    cbn [JS.bind nth_error arrowPoint snd fst deref].
    exists p0, tl. eexists. split; [reflexivity |].
    split; [exact (Holds_first _ _ _ H) |].
    split; [reflexivity |].
    split; [| split; [reflexivity | apply ribbon_arrow_only]].
    unfold PathGeometry.addStart. cbn [data position emptyBuild app].
    set (w := JS.opt_or (width options) 0.1).
    set (s := JS.defined_or (side options) "both"%string).
    unfold xyz, setLength, add, sub, multiplyScalar. cbn [x y z app].
    destruct (String.eqb s "right"), (String.eqb s "left");
      cbn [negb x y z];
      repeat (apply (f_equal2 (@cons R)); [first [ring | field] |]); reflexivity.
Qed.

(** C2, the claim as stated fails: on the path from (0,0,0) to (10,0,0)
    the ribbon generator called with [progress = 0] and the default
    [arrow] returns the arrow head: 3 vertices, 3 indices, [count = 3]. *)
Lemma progress_zero_ribbon_draws_arrow :
  exists l d,
    fst (set new_PathPointList [vec3 0 0 0; vec3 10 0 0] None None None None)
    = Normal l
    /\ PathGeometry.generatePathVertexData l
         (mkOptions None None None (Some 0) None None None None) false
       = Normal (Some d)
    /\ vertices d = 3%Z /\ indices d = [2; 0; 1]%Z /\ vcount d = 3%Z.
Proof.
  destruct straight_path as [l [p0 [p1 [E [H [_ [Hd1 _]]]]]]].
  assert (Ht : totalOf [p0; p1] = 10) by exact Hd1.
  exists l. eexists. split; [exact E |]. split.
  - rewrite (ribbon_walk _ _ _ _ H). cbv zeta.
    cbn [JS.defined_or progress arrow].
    rewrite Ht, Rmult_0_l, (eqb_false 10 0), (gtb_false 0 0) by lra.
    reflexivity.
  - apply ribbon_arrow_only.
Qed.

(** ** Truncation by progress *)

Lemma first_exceeding pd ps :
  Exists (fun q => pd < dist q) ps ->
  exists pre cur post,
    ps = pre ++ cur :: post
    /\ Forall (fun q => dist q <= pd) pre /\ pd < dist cur.
Proof.
  induction ps as [| a ps IH]; intros HE; [inversion HE |].
  destruct (Rlt_dec pd (dist a)) as [Ha | Ha].
  - exists [], a, ps. auto.
  - inversion HE as [? ? Hx | ? ? HE']; subst; [contradiction |].
    destruct (IH HE') as [pre [cur [post [-> [HF Hcur]]]]].
    exists (a :: pre), cur, post. split; [reflexivity |].
    split; [constructor; [lra | exact HF] | exact Hcur].
Qed.

Lemma filter_within pd pre :
  Forall (fun q => dist q <= pd) pre ->
  filter (fun q => JS.leb (dist q) pd) pre = pre.
Proof.
  induction 1 as [| a pre Ha HF IH]; [reflexivity |].
  cbn [filter]. unfold JS.leb at 1.
  destruct (Rle_dec (dist a) pd); [now rewrite IH | contradiction].
Qed.

Lemma filter_beyond pd post :
  Forall (fun q => pd < dist q) post ->
  filter (fun q => JS.leb (dist q) pd) post = [].
Proof.
  induction 1 as [| a post Ha HF IH]; [reflexivity |].
  cbn [filter]. unfold JS.leb at 1.
  destruct (Rle_dec (dist a) pd); [lra | exact IH].
Qed.

Lemma nondecreasing_after pre cur post :
  nondecreasing (map dist (pre ++ cur :: post)) ->
  Forall (fun q => dist cur <= dist q) (cur :: post).
Proof.
  intros Hs. apply Forall_forall. intros q Hq.
  apply In_nth_error in Hq. destruct Hq as [m Hm].
  apply (Hs (List.length pre) (List.length pre + m)%nat); [lia | |].
  - rewrite nth_error_map, nth_error_app2, Nat.sub_diag by lia. reflexivity.
  - rewrite nth_error_map, nth_error_app2 by lia.
    replace (List.length pre + m - List.length pre)%nat with m by lia.
    now rewrite Hm.
Qed.

Lemma lastSample_In ps : ps <> [] -> In (lastSample ps) ps.
Proof.
  intros Hne. rewrite (snoc_last ps Hne) at 2.
  apply in_or_app. right. now left.
Qed.

(** Where the loop truncates: the samples split into those at most
    [pd] away, which all come first, and the rest. *)
Lemma truncation_point ps pd :
  startsAtZero ps -> nondecreasing (map dist ps) ->
  0 < pd -> pd < totalOf ps ->
  exists pre prev cur post,
    ps = (pre ++ [prev]) ++ cur :: post
    /\ Forall (fun q => dist q <= pd) (pre ++ [prev])
    /\ pd < dist cur
    /\ filter (fun q => JS.leb (dist q) pd) ps = pre ++ [prev].
Proof.
  intros H0 Hs Hpd Htot.
  destruct ps as [| a tl]; [cbn in Htot; lra |].
  assert (HE : Exists (fun q => pd < dist q) (a :: tl)).
  { apply Exists_exists. exists (lastSample (a :: tl)).
    split; [apply lastSample_In; discriminate | exact Htot]. }
  destruct (first_exceeding pd _ HE) as [pre [cur [post [E [HF Hcur]]]]].
  destruct pre as [| b pre].
  - cbn in E. injection E as -> ->.
    rewrite (H0 cur post eq_refl) in Hcur. lra.
  - destruct (exists_last (l := b :: pre) ltac:(discriminate))
      as [pre' [prev Epre]].
    rewrite Epre in *. exists pre', prev, cur, post.
    split; [exact E |]. split; [exact HF |]. split; [exact Hcur |].
    rewrite E, filter_app, (filter_within _ _ HF), filter_beyond.
    + now rewrite app_nil_r.
    + rewrite E in Hs. pose proof (nondecreasing_after _ _ _ Hs) as Hafter.
      eapply Forall_impl; [| exact Hafter]. cbn. intros q Hq. lra.
Qed.

Lemma nondecreasing_two a b : a <= b -> nondecreasing [a; b].
Proof.
  intros Hab. apply (nondecreasing_snoc [] a b); [| exact Hab].
  apply nondecreasing_one.
Qed.

(** ** What [count] counts *)

Lemma walk_invariant (I : Build -> Prop) addV pd :
  (forall b p, I b -> I (addV b p)) ->
  forall ps prev b r,
    I b -> walk addV pd prev ps b = Normal r -> I (fst r).
Proof.
  intros Hstep. induction ps as [| p ps IH]; intros prev b r Hb E.
  - cbn in E. injection E as <-. exact Hb.
  - cbn [walk] in E. destruct (JS.gtb (dist p) pd).
    + destruct prev as [q |]; [| discriminate].
      cbn in E. injection E as <-. cbn [fst]. now apply Hstep.
    + eapply IH; [| exact E]. now apply Hstep.
Qed.

Lemma fold_left_invariant {A : Type} (I : Build -> Prop)
    (f : Build -> A -> Build) :
  (forall b a, I b -> I (f b a)) ->
  forall xs b, I b -> I (fold_left f xs b).
Proof.
  intros Hstep. induction xs as [| a xs IH]; intros b Hb; [exact Hb |].
  cbn [fold_left]. apply IH. now apply Hstep.
Qed.

Lemma countsIndices_empty : countsIndices emptyBuild.
Proof. reflexivity. Qed.

Lemma countsIndices_pushQuad begin1 begin2 b i :
  countsIndices b -> countsIndices (pushQuad begin1 begin2 b i).
Proof.
  unfold countsIndices, pushQuad. cbn [data vcount indices]. intros ->.
  rewrite length_app. cbn [List.length]. lia.
Qed.

Lemma countsIndices_ribbon_addVertices hw sw td side_ g b p :
  countsIndices b ->
  countsIndices (PathGeometry.addVertices hw sw td side_ g b p).
Proof.
  unfold countsIndices, PathGeometry.addVertices. intros Hb.
  destruct (sharp p && negb (List.length (position (data b)) =? 0)%nat).
  - destruct (JS.gtb _ 0); cbn [data vcount indices];
      rewrite length_app, Hb; cbn [List.length]; lia.
  - cbn [data vcount indices].
    destruct (negb (List.length (position (data b)) =? 0)%nat); [| exact Hb].
    rewrite length_app, Hb. cbn [List.length]. lia.
Qed.

Lemma countsIndices_addStart w hw sw td side_ g b p :
  countsIndices b ->
  countsIndices (PathGeometry.addStart w hw sw td side_ g b p).
Proof.
  unfold countsIndices, PathGeometry.addStart. cbn [data vcount indices].
  intros ->. rewrite length_app. cbn [List.length]. lia.
Qed.

Lemma countsIndices_tube_addVertices c td sr g rad rs b p :
  countsIndices b ->
  countsIndices (PathTubeGeometry.addVertices c td sr g rad rs b p).
Proof.
  intros Hb. unfold PathTubeGeometry.addVertices.
  assert (Hring : countsIndices
            (fold_left (PathTubeGeometry.pushRingVertex c td sr g p rad rs)
               (upto (rs + 1)) b)).
  { apply fold_left_invariant; [| exact Hb]. intros b0 r H0. exact H0. }
  destruct (negb (List.length (position (data b)) =? 0)%nat); [| exact Hring].
  apply fold_left_invariant; [| exact Hring].
  intros b0 i. apply countsIndices_pushQuad.
Qed.

Lemma countsIndices_rect5_addVertices c td g w h b p :
  countsIndices b ->
  countsIndices (PathRectangleGeometry5.addVertices c td g w h b p).
Proof.
  intros Hb. unfold PathRectangleGeometry5.addVertices.
  assert (Hring : countsIndices
            (fst (fold_left (PathRectangleGeometry5.pushRingVertex c td g p w h)
                    (upto (4 + 1)) (b, 0)))).
  { generalize (upto (4 + 1)). generalize 0 at 1. revert Hb. generalize b.
    intros b0 Hb0 nowDis rs. revert b0 Hb0 nowDis.
    induction rs as [| r rs IH]; intros b0 Hb0 nowDis; [exact Hb0 |].
    cbn [fold_left].
    destruct (PathRectangleGeometry5.pushRingVertex c td g p w h (b0, nowDis) r)
      as [b1 nowDis1] eqn:E.
    apply IH. unfold PathRectangleGeometry5.pushRingVertex in E.
    injection E as <- _. exact Hb0. }
  destruct (negb (List.length (position (data b)) =? 0)%nat); [| exact Hring].
  apply fold_left_invariant; [| exact Hring].
  intros b0 i. apply countsIndices_pushQuad.
Qed.

Lemma countsVertices_empty : countsVertices emptyBuild.
Proof. reflexivity. Qed.

Lemma countsVertices_rect8_addVertices w h hw hh st td b p :
  countsVertices b ->
  countsVertices (PathRectangleGeometry8.addVertices w h hw hh st td b p).
Proof.
  unfold countsVertices, PathRectangleGeometry8.addVertices.
  cbn [data vcount position]. intros Hb.
  rewrite !length_app. cbn [xyz List.length]. lia.
Qed.

Lemma countsVertices_vertices b :
  countsVertices b -> vertices (rect8_result b) = vcount (rect8_result b).
Proof.
  unfold countsVertices, vertices, rect8_result. cbn [position vcount].
  intros ->. rewrite Z.mul_comm. apply Z.div_mul. lia.
Qed.

Lemma tube_counts l ps options g d :
  Holds l ps ->
  PathTubeGeometry.generateTubeVertexData_1 l options g = Normal (Some d) ->
  vcount d = Z.of_nat (List.length (indices d)).
Proof.
  intros H. rewrite (tube_walk _ _ _ _ H). cbv zeta.
  destruct (JS.eqb _ 0); [discriminate |].
  destruct (JS.gtb _ 0).
  - destruct (walk _ _ _ _ _) as [r |] eqn:E; [| discriminate].
    cbn [JS.bind]. intros [= <-].
    apply (walk_invariant countsIndices _ _
             (fun b p => countsIndices_tube_addVertices _ _ _ _ _ _ b p)
             _ _ _ _ countsIndices_empty E).
  - cbn. now intros [= <-].
Qed.

Lemma rect5_counts l ps options g d :
  Holds l ps ->
  PathRectangleGeometry5.generateTubeVertexData l options g = Normal (Some d) ->
  vcount d = Z.of_nat (List.length (indices d)).
Proof.
  intros H. rewrite (rect5_walk _ _ _ _ H). cbv zeta.
  destruct (JS.eqb _ 0); [discriminate |].
  destruct (JS.gtb _ 0).
  - destruct (walk _ _ _ _ _) as [r |] eqn:E; [| discriminate].
    cbn [JS.bind]. intros [= <-].
    apply (walk_invariant countsIndices _ _
             (fun b p => countsIndices_rect5_addVertices _ _ _ _ _ b p)
             _ _ _ _ countsIndices_empty E).
  - cbn. now intros [= <-].
Qed.

Lemma rect8_counts l ps options g d :
  Holds l ps ->
  PathRectangleGeometry8.generateTubeVertexData l options g = Normal (Some d) ->
  vcount d = vertices d.
Proof.
  intros H. rewrite (rect8_walk _ _ _ _ H). cbv zeta.
  destruct (JS.eqb _ 0); [discriminate |].
  destruct (JS.gtb _ 0).
  - destruct (walk _ _ _ _ _) as [r |] eqn:E; [| discriminate].
    cbn [JS.bind]. intros [= <-]. symmetry.
    apply countsVertices_vertices.
    apply (walk_invariant countsVertices _ _
             (fun b p => countsVertices_rect8_addVertices _ _ _ _ _ _ b p)
             _ _ _ _ countsVertices_empty E).
  - cbn. now intros [= <-].
Qed.

Lemma ribbon_counts l ps options g d :
  Holds l ps ->
  PathGeometry.generatePathVertexData l options g = Normal (Some d) ->
  vcount d = Z.of_nat (List.length (indices d)).
Proof.
  intros H. rewrite (ribbon_walk _ _ _ _ H). cbv zeta.
  destruct (JS.eqb _ 0); [discriminate |].
  match goal with
  | |- JS.bind ?c _ = _ -> _ =>
      assert (Hr : forall r, c = Normal r -> countsIndices (fst r));
      [| destruct c as [r |]; [| discriminate] ]
  end.
  { intros r. destruct (JS.gtb _ 0).
    - apply (walk_invariant countsIndices _ _
               (fun b p => countsIndices_ribbon_addVertices _ _ _ _ _ b p)
               _ _ _ _ countsIndices_empty).
    - intros [= <-]. exact countsIndices_empty. }
  specialize (Hr r eq_refl). cbn [JS.bind].
  destruct (JS.defined_or (arrow options) true).
  - destruct (arrowPoint (snd r) ps) as [lp |]; [| discriminate].
    cbn [JS.bind deref]. intros [= <-].
    now apply countsIndices_addStart.
  - cbn [JS.bind]. now intros [= <-].
Qed.

(** ** The resize loops end *)

Lemma resizeAttribute_ends fuel :
  forall a n,
    (0 < a)%N -> (N.to_nat (n - a) <= fuel)%nat ->
    exists a', _resizeAttribute fuel a n = Some a' /\ (0 < a')%N.
Proof.
  induction fuel as [| fuel IH]; intros a n Ha Hf.
  - cbn. destruct (N.ltb_spec a n); [lia | eauto].
  - cbn [_resizeAttribute]. destruct (N.ltb_spec a n); [| eauto].
    apply IH; lia.
Qed.

Lemma resizeIndex_ends fuel :
  forall a k n,
    (0 < a)%N -> (N.to_nat (n - a) <= fuel)%nat ->
    exists a' k', _resizeIndex fuel a k n = Some (a', k') /\ (0 < a')%N.
Proof.
  induction fuel as [| fuel IH]; intros a k n Ha Hf.
  - cbn. destruct (N.ltb_spec a n); [lia | eauto].
  - cbn [_resizeIndex]. destruct (N.ltb_spec a n); [| eauto].
    apply IH; lia.
Qed.

Lemma updateAttributes_ends this position_ normal_ uv_ uv2_ indices_ :
  Allocated this ->
  exists fuel g,
    _updateAttributes fuel this position_ normal_ uv_ uv2_ indices_ = Some g
    /\ Allocated g.
Proof.
  intros [Hp [Hn [Hu [Hu2 Hi]]]].
  set (fuel := N.to_nat (len position_ + len normal_ + len uv_
                         + match uv2_ with Some u => len u | None => 0 end
                         + len indices_)).
  exists fuel. unfold _updateAttributes.
  destruct (resizeAttribute_ends fuel _ (len position_) Hp) as [pl [-> Hpl]];
    [unfold fuel; lia |].
  destruct (resizeAttribute_ends fuel _ (len normal_) Hn) as [nl [-> Hnl]];
    [unfold fuel; lia |].
  destruct (resizeAttribute_ends fuel _ (len uv_) Hu) as [ul [-> Hul]];
    [unfold fuel; lia |].
  cbn [obind].
  assert (Huv2 : exists u2l,
             match uv2_, uv2Length this with
             | Some u, Some l0 =>
                 obind (_resizeAttribute fuel l0 (len u))
                   (fun l' => Some (Some l'))
             | _, l0 => Some l0
             end = Some u2l
             /\ (forall n, u2l = Some n -> (0 < n)%N)).
  { destruct uv2_ as [u |]; [| eauto].
    destruct (uv2Length this) as [l0 |] eqn:El0; [| eauto].
    destruct (resizeAttribute_ends fuel l0 (len u) (Hu2 _ eq_refl))
      as [l' [-> Hl']]; [unfold fuel; lia |].
    cbn [obind]. eexists. split; [reflexivity |]. now intros n [= <-]. }
  destruct Huv2 as [u2l [-> Hu2l]]. cbn [obind].
  destruct (resizeIndex_ends fuel _ (indexArray this) (len indices_) Hi)
    as [il [k [-> Hil]]]; [unfold fuel; lia |].
  cbn [obind fst snd]. eexists. split; [reflexivity |].
  repeat split; auto.
Qed.

(** [update] on an allocated geometry: when the generator returns, the
    resize loops end and [drawRange.count] is the generator's [count], or
    0 when it returned [null]. *)
Lemma updateWith_ends generate this l options r :
  Allocated this ->
  generate l options (hasUv2 this) = Normal r ->
  exists fuel g',
    updateWith generate fuel this l options = Some (Normal g')
    /\ drawRange_count g'
       = match r with Some d => vcount d | None => 0%Z end.
Proof.
  intros Ha E. unfold updateWith. cbv zeta.
  change (match uv2Length this with Some _ => true | None => false end)
    with (hasUv2 this).
  rewrite E.
  destruct r as [d |].
  - destruct (updateAttributes_ends this (position d) (normal d) (uv d)
                (if hasUv2 this then Some (uv2 d) else None) (indices d) Ha)
      as [fuel [g [Eg _]]].
    exists fuel. rewrite Eg. cbn [obind]. eexists. split; reflexivity.
  - exists 0%nat. eexists. split; reflexivity.
Qed.

(** On an empty array the resize loop never ends: after any number of
    iterations the array is still empty. *)
Lemma resizeAttribute_empty_array fuel n :
  (0 < n)%N -> _resizeAttribute fuel 0 n = None.
Proof.
  intros Hn. induction fuel as [| fuel IH]; cbn [_resizeAttribute];
    destruct (N.ltb_spec 0 n); try lia; [reflexivity | exact IH].
Qed.

(** ** [update] and the draw range *)

(** C1 (as the code has it).  On a geometry whose buffers are not empty
    and a list that holds samples starting at distance 0, [update] of the
    ribbon, of the circular tube and of the five-vertex rectangular tube
    ends, and sets [drawRange.count] to the number of indices its
    generator emitted ([indices.length], what [drawRange] counts on an
    indexed geometry), and to 0 when the generator returned [null]. *)
Theorem update_drawRange_count this l ps options :
  Allocated this -> Holds l ps -> startsAtZero ps ->
  (exists r fuel g',
      PathGeometry.generatePathVertexData l options (hasUv2 this) = Normal r
      /\ PathGeometry.update fuel this l options = Some (Normal g')
      /\ drawRange_count g'
         = match r with
           | Some d => Z.of_nat (List.length (indices d))
           | None => 0%Z
           end)
  /\ (exists r fuel g',
        PathTubeGeometry.generateTubeVertexData_1 l options (hasUv2 this)
        = Normal r
        /\ PathTubeGeometry.update fuel this l options = Some (Normal g')
        /\ drawRange_count g'
           = match r with
             | Some d => Z.of_nat (List.length (indices d))
             | None => 0%Z
             end)
  /\ (exists r fuel g',
        PathRectangleGeometry5.generateTubeVertexData l options (hasUv2 this)
        = Normal r
        /\ PathRectangleGeometry5.update fuel this l options = Some (Normal g')
        /\ drawRange_count g'
           = match r with
             | Some d => Z.of_nat (List.length (indices d))
             | None => 0%Z
             end).
Proof.
  intros Ha H H0.
  split; [| split].
  - destruct (ribbon_total l ps options (hasUv2 this) H H0) as [r Er].
    destruct (updateWith_ends _ this l options r Ha Er) as [fuel [g' [Eu Hc]]].
    exists r, fuel, g'. split; [exact Er |]. split; [exact Eu |].
    rewrite Hc. destruct r as [d |]; [| reflexivity].
    exact (ribbon_counts _ _ _ _ _ H Er).
  - destruct (tube_total l ps options (hasUv2 this) H H0) as [r Er].
    destruct (updateWith_ends _ this l options r Ha Er) as [fuel [g' [Eu Hc]]].
    exists r, fuel, g'. split; [exact Er |]. split; [exact Eu |].
    rewrite Hc. destruct r as [d |]; [| reflexivity].
    exact (tube_counts _ _ _ _ _ H Er).
  - destruct (rect5_total l ps options (hasUv2 this) H H0) as [r Er].
    destruct (updateWith_ends _ this l options r Ha Er) as [fuel [g' [Eu Hc]]].
    exists r, fuel, g'. split; [exact Er |]. split; [exact Eu |].
    rewrite Hc. destruct r as [d |]; [| reflexivity].
    exact (rect5_counts _ _ _ _ _ H Er).
Qed.

Lemma Allocated_init (maxVertex : N) (generateUv2 : bool) :
  (0 < maxVertex)%N -> Allocated (_initByMaxVertex maxVertex generateUv2).
Proof.
  intros Hm. unfold Allocated, _initByMaxVertex. cbn.
  repeat split; try lia.
  intros n. destruct generateUv2; [intros [= <-]; lia | discriminate].
Qed.

Lemma update_drawRange_count_witness :
  let p0 := mkPathPoint (vec3 0 0 0) (vec3 1 0 0) (vec3 0 0 1) (vec3 0 1 0)
              0 1 false in
  let p1 := mkPathPoint (vec3 10 0 0) (vec3 1 0 0) (vec3 0 0 1) (vec3 0 1 0)
              10 1 false in
  let l := mkPathPointList (map Some [p0; p1]) 2 in
  let this := _initByMaxVertex 3000 false in
  exists r fuel g',
    PathTubeGeometry.generateTubeVertexData_1 l noOptions (hasUv2 this)
    = Normal r
    /\ PathTubeGeometry.update fuel this l noOptions = Some (Normal g')
    /\ drawRange_count g'
       = match r with
         | Some d => Z.of_nat (List.length (indices d))
         | None => 0%Z
         end.
Proof.
  intros p0 p1 l this.
  refine (proj1 (proj2 (update_drawRange_count this l [p0; p1] noOptions
                          _ _ _))).
  - apply Allocated_init. lia.
  - apply (Holds_literal [p0; p1]).
  - intros q tl [= <- <-]. reflexivity.
Defined.

Lemma ribbon_plain_vcount hw sw td side_ g b p :
  sharp p = false ->
  vcount (data (PathGeometry.addVertices hw sw td side_ g b p))
  = if (List.length (position (data b)) =? 0)%nat
    then vcount (data b) else (vcount (data b) + 6)%Z.
Proof.
  intros Hs. unfold PathGeometry.addVertices. rewrite Hs.
  cbn [andb data vcount].
  now destruct (List.length (position (data b)) =? 0)%nat.
Qed.

(** The ribbon without arrow on the path from (0,0,0) to (10,0,0): two
    plain rings, 12 numbers in [position], [count = 6]. *)
Lemma straight_ribbon :
  exists l d,
    fst (set new_PathPointList [vec3 0 0 0; vec3 10 0 0] None None None None)
    = Normal l
    /\ PathGeometry.generatePathVertexData l
         (mkOptions None None None None (Some false) None None None) false
       = Normal (Some d)
    /\ List.length (position d) = 12%nat
    /\ vcount d = 6%Z.
Proof.
  destruct straight_path
    as [l [p0 [p1 [E [H [Hd0 [Hd1 [Hs0 [Hs1 _]]]]]]]]].
  set (options := mkOptions None None None None (Some false) None None None).
  set (addV := PathGeometry.addVertices (0.1 / 2) 0.1 10 "both" false).
  set (d := data (addV (addV emptyBuild p0) p1)).
  assert (Ht : totalOf [p0; p1] = 10) by exact Hd1.
  assert (Egen : PathGeometry.generatePathVertexData l options false
                 = Normal (Some d)).
  { rewrite (ribbon_walk _ _ _ _ H). cbv zeta.
    cbn [JS.defined_or JS.opt_or progress arrow side width options
         String.eqb Ascii.eqb Bool.eqb negb].
    rewrite Ht, (eqb_false 10 0), (gtb_true (1 * 10) 0) by lra.
    rewrite walk_within
      by (repeat constructor; [rewrite Hd0 | rewrite Hd1]; lra).
    reflexivity. }
  assert (Hlen0 := ribbon_plain_ring (0.1 / 2) 0.1 10 "both" false
                     emptyBuild p0 Hs0).
  assert (Hlen1 := ribbon_plain_ring (0.1 / 2) 0.1 10 "both" false
                     (addV emptyBuild p0) p1 Hs1).
  fold addV in Hlen0, Hlen1. destruct Hlen0 as [Hlen0 _].
  destruct Hlen1 as [Hlen1 _]. rewrite Hlen0 in Hlen1. cbn in Hlen1.
  assert (Hcount : vcount d = 6%Z).
  { unfold d, addV.
    rewrite (ribbon_plain_vcount _ _ _ _ _ _ _ Hs1).
    fold addV. rewrite Hlen0.
    cbn [List.length emptyBuild data position Nat.add Nat.eqb].
    unfold addV. rewrite (ribbon_plain_vcount _ _ _ _ _ _ _ Hs0). reflexivity. }
  exists l, d. auto.
Qed.

(** C1, the claim as stated fails: on the path from (0,0,0) to (10,0,0)
    the ribbon generator without arrow emits 4 vertices, and [update] sets
    [drawRange.count] to 6, the number of indices. *)
Lemma drawRange_count_is_not_the_vertex_count :
  exists l d fuel g',
    fst (set new_PathPointList [vec3 0 0 0; vec3 10 0 0] None None None None)
    = Normal l
    /\ PathGeometry.generatePathVertexData l
         (mkOptions None None None None (Some false) None None None) false
       = Normal (Some d)
    /\ vertices d = 4%Z
    /\ PathGeometry.update fuel (_initByMaxVertex 3000 false) l
         (mkOptions None None None None (Some false) None None None)
       = Some (Normal g')
    /\ drawRange_count g' = 6%Z.
Proof.
  destruct straight_ribbon as [l [d [E [Egen [Hlen Hcount]]]]].
  destruct (updateWith_ends PathGeometry.generatePathVertexData
              (_initByMaxVertex 3000 false) l _ (Some d)
              (Allocated_init 3000 false ltac:(lia)) Egen)
    as [fuel [g' [Eu Hc]]].
  exists l, d, fuel, g'. split; [exact E |]. split; [exact Egen |].
  split; [unfold vertices; rewrite Hlen; reflexivity |].
  split; [exact Eu |]. now rewrite Hc.
Qed.

(** ** Vectors *)

Lemma dot_self_nonneg v : 0 <= dot v v.
Proof. unfold dot. nra. Qed.

Lemma length_square v : length v * length v = dot v v.
Proof. unfold length. apply sqrt_sqrt. apply dot_self_nonneg. Qed.

Lemma length_of_unit v : dot v v = 1 -> length v = 1.
Proof.
  intros H. unfold length. change (sqrt (dot v v) = 1). rewrite H. apply sqrt_1.
Qed.

Lemma unit_of_length v : length v = 1 -> dot v v = 1.
Proof. intros H. rewrite <- length_square, H. lra. Qed.

Lemma zero_of_dot v : dot v v = 0 -> v = zero.
Proof.
  destruct v as [a b c]. unfold dot, zero. cbn [x y z]. intros H.
  f_equal; nra.
Qed.

Lemma length_pos v : v <> zero -> 0 < length v.
Proof.
  intros Hv. destruct (length_nonneg v) as [Hlt | Heq]; [exact Hlt |].
  exfalso. apply Hv, zero_of_dot. rewrite <- length_square, <- Heq. lra.
Qed.

Lemma normalize_nonzero v :
  v <> zero -> normalize v = multiplyScalar v (/ length v).
Proof.
  intros Hv. pose proof (length_pos v Hv) as HL.
  unfold normalize, divideScalar, JS.or. rewrite eqb_false by lra.
  f_equal. unfold Rdiv. lra.
Qed.

Lemma normalize_zero : normalize zero = zero.
Proof.
  unfold normalize, divideScalar, multiplyScalar, zero. cbn [x y z].
  f_equal; ring.
Qed.

Lemma normalize_unit v : v <> zero -> dot (normalize v) (normalize v) = 1.
Proof.
  intros Hv. rewrite (normalize_nonzero v Hv).
  pose proof (length_pos v Hv) as HL. pose proof (length_square v) as Hsq.
  destruct v as [a b c]. unfold dot, multiplyScalar in *. cbn [x y z] in *.
  set (L := length (vec3 a b c)) in *.
  replace (a * / L * (a * / L) + b * / L * (b * / L) + c * / L * (c * / L))
    with ((a * a + b * b + c * c) * (/ L * / L)) by ring.
  rewrite <- Hsq. field. lra.
Qed.

Lemma normalize_not_zero v : normalize v <> zero -> v <> zero.
Proof. intros H ->. apply H, normalize_zero. Qed.

Lemma normalize_of_unit v : dot v v = 1 -> normalize v = v.
Proof.
  intros H. unfold normalize, divideScalar, JS.or.
  rewrite (length_of_unit v H), eqb_false by lra.
  destruct v as [a b c]. unfold multiplyScalar. cbn [x y z]. f_equal; field.
Qed.

Lemma dot_normalize_l v w : dot v w = 0 -> dot (normalize v) w = 0.
Proof.
  unfold normalize, divideScalar. generalize (1 / JS.or (length v) 1).
  intros s H. unfold dot, multiplyScalar in *. cbn [x y z].
  replace (x v * s * x w + y v * s * y w + z v * s * z w)
    with (s * (x v * x w + y v * y w + z v * z w)) by ring.
  rewrite H. ring.
Qed.

Lemma dot_comm v w : dot v w = dot w v.
Proof. unfold dot. ring. Qed.

Lemma dot_normalize_r v w : dot v w = 0 -> dot v (normalize w) = 0.
Proof. intros H. rewrite dot_comm. apply dot_normalize_l. now rewrite dot_comm. Qed.

Lemma dot_cross_l a b : dot a (cross a b) = 0.
Proof. unfold dot, cross. cbn [x y z]. ring. Qed.

Lemma dot_cross_r a b : dot b (cross a b) = 0.
Proof. unfold dot, cross. cbn [x y z]. ring. Qed.

(** Lagrange's identity. *)
Lemma cross_square a b :
  dot (cross a b) (cross a b) = dot a a * dot b b - dot a b * dot a b.
Proof. unfold dot, cross. cbn [x y z]. ring. Qed.

(** ** The rotation of the normal *)

Lemma applyMatrix4_rotation k theta u :
  applyMatrix4 u (makeRotationAxis k theta)
  = rotated k (cos theta) (sin theta) u.
Proof.
  destruct k as [kx ky kz], u as [ux uy uz].
  unfold applyMatrix4, makeRotationAxis, rotated, dot, add, multiplyScalar, cross.
  cbn [x y z n11 n12 n13 n14 n21 n22 n23 n24 n31 n32 n33 n34 n41 n42 n43 n44].
  replace (1 / (0 * ux + 0 * uy + 0 * uz + 1)) with 1 by (field; lra).
  f_equal; ring.
Qed.

(** A rotation keeps lengths. *)
Lemma rotated_square k c s u :
  dot k k = 1 -> c * c + s * s = 1 ->
  dot (rotated k c s u) (rotated k c s u) = dot u u.
Proof.
  destruct k as [kx ky kz], u as [ux uy uz].
  unfold rotated, dot, add, multiplyScalar, cross. cbn [x y z].
  intros Hk Hcs. nsatz.
Qed.

(** The rotation that takes the tangent [a] to the tangent [b] takes a
    normal of [a] to a normal of [b]. *)
Lemma rotated_normal a b u i s :
  dot a a = 1 -> dot b b = 1 -> dot a u = 0 ->
  s * i = 1 -> s * s = dot (cross a b) (cross a b) ->
  dot b (rotated (multiplyScalar (cross a b) i) (dot a b) s u) = 0.
Proof.
  destruct a as [ax ay az], b as [bx bY bz], u as [ux uy uz].
  unfold rotated, dot, add, multiplyScalar, cross. cbn [x y z].
  intros Ha Hb Hau Hsi Hss. nsatz.
Qed.

Lemma parallel_normal a b u :
  dot a a = 1 -> dot a u = 0 -> cross a b = zero -> dot b u = 0.
Proof.
  destruct a as [ax ay az], b as [bx bY bz], u as [ux uy uz].
  unfold dot, cross, zero. cbn [x y z].
  intros Ha Hau [= H1 H2 H3]. nsatz.
Qed.

Lemma EPSILON_pos : 0 < JS.EPSILON.
Proof. unfold JS.EPSILON. apply Rinv_0_lt_compat, pow_lt. lra. Qed.

(** The transported normal is a unit normal of the new tangent. *)
Lemma transportUp_normal a u b :
  dot a a = 1 -> dot u u = 1 -> dot a u = 0 -> dot b b = 1 ->
  (cross a b = zero \/ JS.EPSILON < length (cross a b)) ->
  dot (transportUp a u b) (transportUp a u b) = 1
  /\ dot b (transportUp a u b) = 0.
Proof.
  intros Ha Hu Hau Hb Hturn. unfold transportUp.
  destruct (JS.gtb (length (cross a b)) JS.EPSILON) eqn:E.
  - apply gtb_spec in E. pose proof EPSILON_pos as Heps.
    set (v := cross a b) in *.
    assert (Hv : v <> zero).
    { intros Hz. rewrite Hz in E. unfold length, zero in E. cbn [x y z] in E.
      replace (0 * 0 + 0 * 0 + 0 * 0) with 0 in E by ring.
      rewrite sqrt_0 in E. lra. }
    pose proof (length_square v) as Hsq.
    assert (Hlag : dot v v = 1 - dot a b * dot a b)
      by (unfold v; rewrite cross_square, Ha, Hb; ring).
    assert (Hrange : -1 <= dot a b <= 1)
      by (pose proof (dot_self_nonneg v); split; nra).
    rewrite Rmax_left, Rmin_left by lra.
    rewrite applyMatrix4_rotation, cos_acos by exact Hrange.
    assert (Hsin : sin (acos (dot a b)) = length v).
    { rewrite sin_acos by exact Hrange. unfold Rsqr. rewrite <- Hlag.
      reflexivity. }
    rewrite Hsin, (normalize_nonzero v Hv). split.
    + rewrite rotated_square; [exact Hu | | nra].
      rewrite <- (normalize_nonzero v Hv). now apply normalize_unit.
    + apply rotated_normal; auto.
      * field. lra.
  - apply gtb_nspec in E. destruct Hturn as [Hz | Hgt]; [| lra].
    split; [exact Hu |]. now apply (parallel_normal a b u).
Qed.

(** The binormal of a unit tangent and a unit normal. *)
Lemma binormal_frame b u :
  dot b b = 1 -> dot u u = 1 -> dot b u = 0 ->
  dot (normalize (cross b u)) (normalize (cross b u)) = 1
  /\ dot b (normalize (cross b u)) = 0
  /\ dot u (normalize (cross b u)) = 0.
Proof.
  intros Hb Hu Hbu.
  assert (Hc : dot (cross b u) (cross b u) = 1)
    by (rewrite cross_square, Hb, Hu, Hbu; ring).
  rewrite (normalize_of_unit _ Hc).
  split; [exact Hc |]. split; [apply dot_cross_l | apply dot_cross_r].
Qed.

(** ** Frames *)

Lemma Rabs_zero_le a : Rabs a <= 0 -> a = 0.
Proof. unfold Rabs. destruct (Rcase_abs a); lra. Qed.

(** The initial normal chosen by [_start] is not parallel to the first
    segment. *)
Lemma initialUp_not_parallel d up0 :
  d <> zero -> Rabs (x d) < JS.MAX_VALUE ->
  cross d (initialUp d up0) <> zero.
Proof.
  intros Hd Hx. unfold initialUp. rewrite (ltb_true _ _ Hx).
  pose proof (Rabs_pos (x d)) as Hax. pose proof (Rabs_pos (y d)) as Hay.
  pose proof (Rabs_pos (z d)) as Haz.
  destruct d as [dx dy dz]. cbn [x y z] in *.
  assert (Hnz : dx = 0 -> dy = 0 -> dz = 0 -> False)
    by (intros -> -> ->; now apply Hd).
  destruct (JS.ltb (Rabs dy) (Rabs dx)) eqn:Ey.
  - apply ltb_spec in Ey.
    destruct (JS.ltb (Rabs dz) (Rabs dy)) eqn:Ez.
    + apply ltb_spec in Ez. unfold cross, zero. cbn [x y z]. intros [= H1 H2 H3].
      assert (dx = 0) by lra. subst dx. rewrite Rabs_R0 in Ey. lra.
    + unfold cross, zero. cbn [x y z]. intros [= H1 H2 H3].
      assert (dx = 0) by lra. subst dx. rewrite Rabs_R0 in Ey. lra.
  - apply ltb_nspec in Ey.
    destruct (JS.ltb (Rabs dz) (Rabs dx)) eqn:Ez.
    + apply ltb_spec in Ez. unfold cross, zero. cbn [x y z]. intros [= H1 H2 H3].
      assert (dx = 0) by lra. subst dx. rewrite Rabs_R0 in Ez. lra.
    + apply ltb_nspec in Ez. unfold cross, zero. cbn [x y z].
      intros [= H1 H2 H3].
      assert (dy = 0) by lra. assert (dz = 0) by lra. subst dy dz.
      rewrite Rabs_R0 in Ey. apply Hnz; auto. now apply Rabs_zero_le.
Qed.

Lemma cross_with_normal d r sd sw L :
  L * L = dot d d -> sd * L = 1 -> sw * L = 1 -> dot r d = 0 ->
  cross (multiplyScalar d sd) (multiplyScalar (cross r d) sw) = r.
Proof.
  destruct d as [dx dy dz], r as [rx ry rz].
  unfold dot, cross, multiplyScalar. cbn [x y z].
  intros HL Hsd Hsw Hrd. f_equal; nsatz.
Qed.

Lemma length_eq_dot v w : dot v v = dot w w -> length v = length w.
Proof. intros H. unfold length. change (sqrt (dot v v) = sqrt (dot w w)). now rewrite H. Qed.

(** The frame of [_start], from a first segment [d] and an initial normal
    [e] that is not parallel to it. *)
Lemma start_frame d e :
  cross d e <> zero ->
  let r := normalize (cross d e) in
  let u := normalize (cross r d) in
  let t := normalize d in
  dot t t = 1 /\ dot u u = 1 /\ dot r r = 1
  /\ dot t u = 0 /\ dot t r = 0 /\ dot u r = 0
  /\ r = normalize (cross t u).
Proof.
  intros Hc. cbv zeta.
  assert (Hd : d <> zero).
  { intros ->. apply Hc. unfold cross, zero. cbn [x y z]. f_equal; ring. }
  set (r := normalize (cross d e)).
  assert (Hr : dot r r = 1) by (now apply normalize_unit).
  assert (Hrd : dot r d = 0)
    by (apply dot_normalize_l; rewrite dot_comm; apply dot_cross_l).
  assert (Hw : dot (cross r d) (cross r d) = dot d d)
    by (rewrite cross_square, Hr, Hrd; ring).
  pose proof (length_pos d Hd) as HL. pose proof (length_square d) as Hsq.
  assert (Hwz : cross r d <> zero).
  { intros Hz. rewrite Hz in Hw. unfold dot at 1, zero in Hw. cbn [x y z] in Hw.
    nra. }
  set (u := normalize (cross r d)).
  assert (Hu : dot u u = 1) by (now apply normalize_unit).
  assert (Ht : dot (normalize d) (normalize d) = 1) by (now apply normalize_unit).
  assert (Htu : dot (normalize d) u = 0)
    by (apply dot_normalize_l, dot_normalize_r, dot_cross_r).
  assert (Htr : dot (normalize d) r = 0)
    by (apply dot_normalize_l; now rewrite dot_comm).
  assert (Hur : dot u r = 0)
    by (apply dot_normalize_l; rewrite dot_comm; apply dot_cross_l).
  repeat (split; [assumption |]).
  assert (Hcross : cross (normalize d) u = r).
  { unfold u. rewrite (normalize_nonzero d Hd), (normalize_nonzero _ Hwz).
    rewrite (length_eq_dot _ _ Hw).
    apply (cross_with_normal d r _ _ (length d)); auto; field; lra. }
  rewrite Hcross. symmetry. now apply normalize_of_unit.
Qed.

Lemma start_orthonormal point c n :
  normalize (sub n c) <> zero -> Rabs (x (sub n c)) < JS.MAX_VALUE ->
  Orthonormal (startPoint point c n None).
Proof.
  intros Hd Hx. apply normalize_not_zero in Hd.
  pose proof (start_frame (sub n c) (initialUp (sub n c) (up point))
                (initialUp_not_parallel _ _ Hd Hx)) as HF.
  cbv zeta in HF. destruct HF as [Ht [Hu [Hr [Htu [Htr [Hur Hn]]]]]].
  unfold Orthonormal, startPoint. cbn [dir up right].
  repeat split; auto using length_of_unit.
Qed.

(** A sample whose normal is transported from an orthonormal sample and
    whose binormal is [normalize(dir x up)] is orthonormal. *)
Lemma transported_orthonormal q p v :
  Orthonormal q ->
  dir p = normalize v -> dir p <> zero ->
  up p = transportUp (dir q) (up q) (dir p) ->
  right p = normalize (cross (dir p) (up p)) ->
  (cross (dir q) (dir p) = zero
   \/ JS.EPSILON < length (cross (dir q) (dir p))) ->
  Orthonormal p.
Proof.
  intros [Hqd [Hqu [_ [Hqdu _]]]] Ed Hnz Eu Er Hturn.
  assert (Hb : dot (dir p) (dir p) = 1).
  { rewrite Ed in Hnz |- *. apply normalize_unit. now apply normalize_not_zero. }
  destruct (transportUp_normal (dir q) (up q) (dir p)
              (unit_of_length _ Hqd) (unit_of_length _ Hqu) Hqdu Hb Hturn)
    as [Hu Hbu].
  rewrite <- Eu in Hu, Hbu.
  destruct (binormal_frame (dir p) (up p) Hb Hu Hbu) as [Hr [Hbr Hur]].
  rewrite <- Er in Hr, Hbr, Hur.
  unfold Orthonormal. repeat split; auto using length_of_unit.
Qed.

Lemma endPoint_orthonormal q c :
  Orthonormal q -> dir (endPoint q c) <> zero ->
  (cross (dir q) (dir (endPoint q c)) = zero
   \/ JS.EPSILON < length (cross (dir q) (dir (endPoint q c)))) ->
  Orthonormal (endPoint q c).
Proof.
  intros Hq Hnz Hturn.
  now apply (transported_orthonormal q _ (sub c (pos q))).
Qed.

Lemma cornerPoint_orthonormal q c n dt s :
  Orthonormal q -> dir (cornerPoint q c n None dt s) <> zero ->
  (cross (dir q) (dir (cornerPoint q c n None dt s)) = zero
   \/ JS.EPSILON < length (cross (dir q) (dir (cornerPoint q c n None dt s)))) ->
  Orthonormal (cornerPoint q c n None dt s).
Proof.
  intros Hq Hnz Hturn.
  destruct (dt =? 1)%nat eqn:E1; [| destruct (dt =? 2)%nat eqn:E2].
  - apply (transported_orthonormal q _ (sub c (pos q))); auto;
      unfold cornerPoint; cbn [dir up right]; now rewrite E1.
  - apply (transported_orthonormal q _ (sub n c)); auto;
      unfold cornerPoint; cbn [dir up right]; now rewrite E1, E2.
  - apply (transported_orthonormal q _
             (add (normalize (sub c (pos q))) (normalize (sub n c)))); auto;
      unfold cornerPoint; cbn [dir up right]; now rewrite E1, E2.
Qed.

Lemma nth_error_lastSample ps :
  ps <> [] -> nth_error ps (List.length ps - 1) = Some (lastSample ps).
Proof.
  intros Hne. destruct (exists_last Hne) as [ps' [q ->]].
  rewrite lastSample_snoc, length_app. cbn [List.length].
  rewrite nth_error_app2 by lia.
  now replace (List.length ps' + 1 - 1 - List.length ps')%nat with 0%nat by lia.
Qed.

(** Samples built without a forced normal are orthonormal when the first
    one is, no tangent is zero, and consecutive tangents are parallel or
    apart. *)
Lemma Built_orthonormal ps :
  Built None ps ->
  (forall p0 tl, ps = p0 :: tl -> Orthonormal p0) ->
  NoZeroTangent ps -> ParallelOrApart ps ->
  forall p, In p ps -> Orthonormal p.
Proof.
  induction 1 as [point c n | ps c HB IH | ps c n dt s HB IH];
    intros Hhead Hnz Hturn p Hin.
  - destruct Hin as [<- | []]. now apply (Hhead _ []).
  - pose proof (Built_nonempty _ _ HB) as Hne.
    assert (IH' : forall p, In p ps -> Orthonormal p).
    { apply IH.
      - intros p0 tl ->. now apply (Hhead p0 (tl ++ [endPoint (lastSample (p0 :: tl)) c])).
      - intros q Hq. apply Hnz, in_or_app. now left.
      - intros i q q' Hi Hi'. apply (Hturn i).
        + rewrite nth_error_app1; [exact Hi |].
          apply nth_error_Some. congruence.
        + rewrite nth_error_app1; [exact Hi' |].
          apply nth_error_Some. congruence. }
    apply in_app_or in Hin. destruct Hin as [Hin | [<- | []]]; [now apply IH' |].
    apply endPoint_orthonormal.
    + apply IH', lastSample_In, Hne.
    + apply Hnz, in_or_app. right. now left.
    + apply (Hturn (List.length ps - 1)%nat).
      * rewrite nth_error_app1 by (destruct ps; [contradiction | cbn; lia]).
        now apply nth_error_lastSample.
      * replace (S (List.length ps - 1)) with (List.length ps)
          by (destruct ps; [contradiction | cbn; lia]).
        rewrite nth_error_app2, Nat.sub_diag by lia. reflexivity.
  - pose proof (Built_nonempty _ _ HB) as Hne.
    assert (IH' : forall p, In p ps -> Orthonormal p).
    { apply IH.
      - intros p0 tl ->.
        now apply (Hhead p0 (tl ++ [cornerPoint (lastSample (p0 :: tl)) c n None dt s])).
      - intros q Hq. apply Hnz, in_or_app. now left.
      - intros i q q' Hi Hi'. apply (Hturn i).
        + rewrite nth_error_app1; [exact Hi |].
          apply nth_error_Some. congruence.
        + rewrite nth_error_app1; [exact Hi' |].
          apply nth_error_Some. congruence. }
    apply in_app_or in Hin. destruct Hin as [Hin | [<- | []]]; [now apply IH' |].
    apply cornerPoint_orthonormal.
    + apply IH', lastSample_In, Hne.
    + apply Hnz, in_or_app. right. now left.
    + apply (Hturn (List.length ps - 1)%nat).
      * rewrite nth_error_app1 by (destruct ps; [contradiction | cbn; lia]).
        now apply nth_error_lastSample.
      * replace (S (List.length ps - 1)) with (List.length ps)
          by (destruct ps; [contradiction | cbn; lia]).
        rewrite nth_error_app2, Nat.sub_diag by lia. reflexivity.
Qed.



(** ** Two concrete paths *)

Lemma Holds_unique l ps ps' : Holds l ps -> Holds l ps' -> ps = ps'.
Proof.
  intros [Hc Hg] [Hc' Hg']. apply nth_error_ext. intros i.
  destruct (Nat.lt_ge_cases i (List.length ps)) as [Hi | Hi].
  - rewrite <- Hg, <- Hg' by lia. reflexivity.
  - rewrite (proj2 (nth_error_None ps i)), (proj2 (nth_error_None ps' i)) by lia.
    reflexivity.
Qed.

Lemma length_on_x v : y v = 0 -> z v = 0 -> length v = Rabs (x v).
Proof.
  intros Hy Hz. unfold length. rewrite Hy, Hz.
  replace (x v * x v + 0 * 0 + 0 * 0) with (Rsqr (x v)) by (unfold Rsqr; ring).
  apply sqrt_Rsqr_abs.
Qed.

Lemma normalize_on_x_pos v :
  y v = 0 -> z v = 0 -> 0 < x v -> normalize v = vec3 1 0 0.
Proof.
  intros Hy Hz Hx. unfold normalize, divideScalar, JS.or.
  rewrite (length_on_x v Hy Hz), Rabs_pos_eq, eqb_false by lra.
  unfold multiplyScalar. rewrite Hy, Hz. f_equal; field; lra.
Qed.


Lemma MAX_VALUE_large : 10 < JS.MAX_VALUE.
Proof.
  unfold JS.MAX_VALUE.
  assert (H52 : 0 < / 2 ^ 52 <= 1).
  { split; [apply Rinv_0_lt_compat, pow_lt; lra |].
    rewrite <- Rinv_1. apply Rinv_le_contravar; [lra |].
    apply pow_R1_Rle. lra. }
  assert (H1023 : 2 ^ 4 <= 2 ^ 1023) by (apply Rle_pow; [lra | lia]).
  assert (H4 : 2 ^ 4 = 16) by (cbn; lra).
  nra.
Qed.

(** The tangents of the two samples [set] leaves on (0,0,0), (10,0,0). *)
Lemma straight_path_tangents :
  exists l p0 p1,
    fst (set new_PathPointList [vec3 0 0 0; vec3 10 0 0] None None None None)
    = Normal l
    /\ Holds l [p0; p1]
    /\ dir p0 = vec3 1 0 0 /\ dir p1 = vec3 1 0 0.
Proof.
  destruct (set_two_points new_PathPointList (vec3 0 0 0) (vec3 10 0 0)
              None None None) as [point [l [E H]]].
  exists l, (startPoint point (vec3 0 0 0) (vec3 10 0 0) None),
    (endPoint (startPoint point (vec3 0 0 0) (vec3 10 0 0) None) (vec3 10 0 0)).
  rewrite E. split; [reflexivity |]. split; [exact H |].
  split; cbn [dir startPoint endPoint pos];
    apply normalize_on_x_pos; cbn [sub x y z]; lra.
Qed.



(** ** The circular tube at full progress *)

Lemma fold_left_count {A : Type} (m : Build -> nat) (f : Build -> A -> Build)
    (k : nat) :
  (forall b a, m (f b a) = (m b + k)%nat) ->
  forall xs b, m (fold_left f xs b) = (m b + k * List.length xs)%nat.
Proof.
  intros Hstep. induction xs as [| a xs IH]; intros b; cbn [fold_left List.length].
  - lia.
  - rewrite IH, Hstep. lia.
Qed.

Lemma upto_length n : List.length (upto n) = Z.to_nat n.
Proof. unfold upto. now rewrite length_map, length_seq. Qed.

Lemma tube_ring_lengths c td sr g rad rs b p :
  let b' := PathTubeGeometry.addVertices c td sr g rad rs b p in
  List.length (position (data b'))
  = (List.length (position (data b)) + 3 * Z.to_nat (rs + 1))%nat
  /\ List.length (indices (data b'))
     = (List.length (indices (data b))
        + if (List.length (position (data b)) =? 0)%nat
          then 0 else 6 * Z.to_nat rs)%nat.
Proof.
  cbv zeta. unfold PathTubeGeometry.addVertices.
  set (ring := fold_left (PathTubeGeometry.pushRingVertex c td sr g p rad rs)
                 (upto (rs + 1)) b).
  assert (Hp : List.length (position (data ring))
               = (List.length (position (data b)) + 3 * Z.to_nat (rs + 1))%nat).
  { unfold ring.
    rewrite (fold_left_count (fun b => List.length (position (data b))) _ 3),
      upto_length; [reflexivity |].
    intros b0 r. unfold PathTubeGeometry.pushRingVertex.
    cbn [data position]. rewrite length_app. reflexivity. }
  assert (Hi : List.length (indices (data ring))
               = List.length (indices (data b))).
  { unfold ring.
    rewrite (fold_left_count (fun b => List.length (indices (data b))) _ 0);
      [lia |].
    intros b0 r. unfold PathTubeGeometry.pushRingVertex.
    cbn [data indices]. lia. }
  destruct (List.length (position (data b)) =? 0)%nat; cbn [negb].
  - split; [exact Hp | lia].
  - split.
    + rewrite (fold_left_count (fun b => List.length (position (data b))) _ 0);
        [lia |].
      intros b0 i. unfold pushQuad. cbn [data position]. lia.
    + rewrite (fold_left_count (fun b => List.length (indices (data b))) _ 6),
        upto_length; [lia |].
      intros b0 i. unfold pushQuad. cbn [data indices].
      rewrite length_app. reflexivity.
Qed.

Lemma tube_rings_lengths c td sr g rad rs ps :
  (0 <= rs)%Z ->
  forall b,
    (0 < List.length (position (data b)))%nat ->
    let b' := fold_left (PathTubeGeometry.addVertices c td sr g rad rs) ps b in
    List.length (position (data b'))
    = (List.length (position (data b))
       + 3 * Z.to_nat (rs + 1) * List.length ps)%nat
    /\ List.length (indices (data b'))
       = (List.length (indices (data b))
          + 6 * Z.to_nat rs * List.length ps)%nat.
Proof.
  intros Hrs. induction ps as [| p ps IH]; intros b Hb; cbn [fold_left List.length].
  - lia.
  - destruct (tube_ring_lengths c td sr g rad rs b p) as [Hp Hi]. cbv zeta in *.
    rewrite (proj2 (Nat.eqb_neq _ 0)) in Hi by lia.
    destruct (IH (PathTubeGeometry.addVertices c td sr g rad rs b p))
      as [Hp' Hi']; [lia |].
    cbv zeta in *. rewrite Hp', Hi', Hp, Hi. lia.
Qed.

Lemma nondecreasing_below_last ps :
  nondecreasing (map dist ps) ->
  Forall (fun p => dist p <= totalOf ps) ps.
Proof.
  intros Hs. destruct ps as [| p0 tl]; [constructor |].
  set (ps := p0 :: tl) in *. change (totalOf ps) with (dist (lastSample ps)).
  assert (Hne : ps <> []) by discriminate.
  apply Forall_forall. intros p Hin.
  apply In_nth_error in Hin. destruct Hin as [i Hi].
  assert (Hlt : (i < List.length ps)%nat)
    by (apply nth_error_Some; congruence).
  apply (Hs i (List.length ps - 1)%nat); [lia | |].
  - now rewrite nth_error_map, Hi.
  - now rewrite nth_error_map, (nth_error_lastSample ps Hne).
Qed.

(** The circular tube at full progress ([progress] absent or 1) on a path
    of positive length: the generator adds the ring of every sample, none
    truncated, so that the last ring is that of the last sample; with
    [n] samples and [s] radial segments it returns [n * (s + 1)] vertices
    and [6 * s * (n - 1)] indices, and [count] is the number of
    indices. *)
Theorem tube_full_progress l ps options g :
  Holds l ps -> nondecreasing (map dist ps) -> 0 < totalOf ps ->
  JS.defined_or (progress options) 1 = 1 ->
  let s := PathTubeGeometry.effectiveRadialSegments options in
  let radius_ := JS.opt_or (radius options) 0.1 in
  let addTube :=
    PathTubeGeometry.addVertices (radius_ * 2 * PI) (totalOf ps)
      (JS.opt_or (startRad options) 0) g radius_ s in
  let d := data (fold_left addTube ps emptyBuild) in
  PathTubeGeometry.generateTubeVertexData_1 l options g = Normal (Some d)
  /\ vertices d = (Z.of_nat (List.length ps) * (s + 1))%Z
  /\ Z.of_nat (List.length (indices d))
     = (6 * s * (Z.of_nat (List.length ps) - 1))%Z
  /\ vcount d = Z.of_nat (List.length (indices d)).
Proof.
  intros H Hs Htot Hp. cbv zeta.
  set (s := PathTubeGeometry.effectiveRadialSegments options).
  set (addTube := PathTubeGeometry.addVertices _ _ _ _ _ _).
  assert (Hs2 : (2 <= s)%Z).
  { unfold s, PathTubeGeometry.effectiveRadialSegments. lia. }
  assert (Hgen : PathTubeGeometry.generateTubeVertexData_1 l options g
                 = Normal (Some (data (fold_left addTube ps emptyBuild)))).
  { rewrite (tube_walk _ _ _ _ H). cbv zeta. rewrite Hp, Rmult_1_l.
    rewrite eqb_false, gtb_true by lra.
    fold s. fold addTube.
    rewrite walk_within by (now apply nondecreasing_below_last).
    reflexivity. }
  split; [exact Hgen |].
  destruct ps as [| p0 tl]; [cbn in Htot; lra |].
  cbn [fold_left List.length].
  destruct (tube_ring_lengths
              (JS.opt_or (radius options) 0.1 * 2 * PI) (totalOf (p0 :: tl))
              (JS.opt_or (startRad options) 0) g
              (JS.opt_or (radius options) 0.1) s emptyBuild p0) as [Hp0 Hi0].
  cbv zeta in Hp0, Hi0. fold addTube in Hp0, Hi0.
  change (List.length (position (data emptyBuild))) with 0%nat in Hp0, Hi0.
  change (List.length (indices (data emptyBuild))) with 0%nat in Hi0.
  cbn [Nat.eqb Nat.add] in Hp0, Hi0.
  destruct (tube_rings_lengths
              (JS.opt_or (radius options) 0.1 * 2 * PI) (totalOf (p0 :: tl))
              (JS.opt_or (startRad options) 0) g
              (JS.opt_or (radius options) 0.1) s tl ltac:(lia)
              (addTube emptyBuild p0)) as [Hpn Hin].
  { fold addTube. rewrite Hp0. lia. }
  cbv zeta in Hpn, Hin. fold addTube in Hpn, Hin.
  rewrite Hp0 in Hpn. rewrite Hi0 in Hin.
  split.
  - unfold vertices. rewrite Hpn.
    replace (Z.of_nat (3 * Z.to_nat (s + 1)
                       + 3 * Z.to_nat (s + 1) * List.length tl))
      with ((Z.of_nat (S (List.length tl)) * (s + 1)) * 3)%Z by lia.
    apply Z.div_mul. lia.
  - split; [rewrite Hin; lia |].
    apply (fold_left_invariant countsIndices addTube
             (fun b p => countsIndices_tube_addVertices _ _ _ _ _ _ b p)
             (p0 :: tl) emptyBuild countsIndices_empty).
Qed.

(** The path from (0,0,0) to (10,0,0) with the default options: 2 rings
    of 9 vertices, 18 vertices and 48 indices. *)
Lemma tube_full_progress_witness :
  exists l d,
    fst (set new_PathPointList [vec3 0 0 0; vec3 10 0 0] None None None None)
    = Normal l
    /\ PathTubeGeometry.generateTubeVertexData_1 l noOptions false
       = Normal (Some d)
    /\ vertices d = 18%Z
    /\ Z.of_nat (List.length (indices d)) = 48%Z
    /\ vcount d = 48%Z.
Proof.
  destruct straight_path as [l [p0 [p1 [E [H [Hd0 [Hd1 _]]]]]]].
  assert (Hs : nondecreasing (map dist [p0; p1]))
    by (cbn [map]; apply nondecreasing_two; lra).
  assert (Htot : 0 < totalOf [p0; p1])
    by (change (0 < dist p1); lra).
  destruct (tube_full_progress l [p0; p1] noOptions false H Hs Htot eq_refl)
    as [Hgen [Hv [Hi Hc]]].
  exists l. eexists. split; [exact E |]. split; [exact Hgen |].
  rewrite Hc, Hi, Hv. auto.
Defined.


(** ** [update] on empty buffers *)

(** A geometry made with [maxVertex = 0] has empty buffers; once the
    generator returns vertices, [update] on it never ends: the loop of
    [_resizeAttribute] doubles a length that is 0. *)
Theorem update_on_empty_buffers_never_ends
    (generate : PathPointList -> Options -> bool -> completion (option VertexData))
    l options d :
  generate l options false = Normal (Some d) -> position d <> [] ->
  forall fuel,
    updateWith generate fuel (_initByMaxVertex 0 false) l options = None.
Proof.
  intros Egen Hpos fuel. unfold updateWith.
  cbn [uv2Length _initByMaxVertex]. rewrite Egen.
  unfold _updateAttributes. cbn [positionLength _initByMaxVertex].
  rewrite resizeAttribute_empty_array; [reflexivity |].
  unfold len. destruct (position d); [contradiction | cbn; lia].
Qed.

Lemma update_on_empty_buffers_never_ends_witness :
  exists l,
    fst (set new_PathPointList [vec3 0 0 0; vec3 10 0 0] None None None None)
    = Normal l
    /\ forall fuel,
         PathGeometry.update fuel (_initByMaxVertex 0 false) l
           (mkOptions None None None None (Some false) None None None)
         = None.
Proof.
  destruct straight_ribbon as [l [d [E [Egen [Hlen _]]]]].
  exists l. split; [exact E |].
  apply (update_on_empty_buffers_never_ends
           PathGeometry.generatePathVertexData l _ d Egen).
  intros Hnil. rewrite Hnil in Hlen. discriminate.
Defined.

(** ** The eight-vertex rectangular tube at full progress *)

Lemma pushFaces_length count_ indices_ i :
  List.length (PathRectangleGeometry8.pushFaces count_ indices_ i)
  = (List.length indices_ + if (i + 8 <? count_)%Z then 24 else 0)%nat.
Proof.
  unfold PathRectangleGeometry8.pushFaces.
  destruct (i + 8 <? count_)%Z; [| lia].
  rewrite !length_app. cbn [List.length]. lia.
Qed.

(** The loop over the rings, from the ring of index [k] on, when there
    are [n] rings: one group of 24 indices for every ring but the last. *)
Lemma facesLoop_length (n : nat) :
  forall m fuel k indices_,
    (k + m = n)%nat -> (m <= fuel)%nat ->
    List.length
      (PathRectangleGeometry8.facesLoop fuel (8 * Z.of_nat k)
         (8 * Z.of_nat n) (8 * Z.of_nat n) indices_)
    = (List.length indices_ + 24 * (m - 1))%nat.
Proof.
  induction m as [| m IH]; intros fuel k indices_ Hk Hf.
  - destruct fuel as [| fuel]; cbn [PathRectangleGeometry8.facesLoop]; [lia |].
    rewrite (proj2 (Z.ltb_ge _ _)) by lia. lia.
  - destruct fuel as [| fuel]; [lia |].
    cbn [PathRectangleGeometry8.facesLoop].
    rewrite (proj2 (Z.ltb_lt _ _)) by lia.
    replace (8 * Z.of_nat k + 8)%Z with (8 * Z.of_nat (S k))%Z by lia.
    rewrite (IH fuel (S k)) by lia.
    rewrite pushFaces_length.
    destruct (Z.ltb_spec (8 * Z.of_nat k + 8) (8 * Z.of_nat n)); lia.
Qed.

Lemma rect8_rings_lengths w h hw hh st td ps :
  forall b,
    let b' := fold_left (PathRectangleGeometry8.addVertices w h hw hh st td)
                ps b in
    List.length (position (data b'))
    = (List.length (position (data b)) + 24 * List.length ps)%nat
    /\ indices (data b') = indices (data b)
    /\ vcount (data b') = (vcount (data b) + 8 * Z.of_nat (List.length ps))%Z.
Proof.
  induction ps as [| p ps IH]; intros b; cbn [fold_left List.length].
  - split; [lia |]. split; [reflexivity | lia].
  - destruct (IH (PathRectangleGeometry8.addVertices w h hw hh st td b p))
      as [Hp [Hi Hc]].
    cbv zeta in *. rewrite Hp, Hi, Hc.
    unfold PathRectangleGeometry8.addVertices. cbn [data position indices vcount].
    rewrite !length_app. cbn [xyz List.length].
    split; [lia |]. split; [reflexivity | lia].
Qed.

(** The eight-vertex rectangular tube at full progress on a path of
    positive length with [n] samples: [8 * n] vertices, [24 * (n - 1)]
    indices, and [count = 8 * n], the number of vertices. *)
Theorem rect8_full_progress l ps options g :
  Holds l ps -> nondecreasing (map dist ps) -> 0 < totalOf ps ->
  JS.defined_or (progress options) 1 = 1 ->
  exists d,
    PathRectangleGeometry8.generateTubeVertexData l options g = Normal (Some d)
    /\ vertices d = (8 * Z.of_nat (List.length ps))%Z
    /\ Z.of_nat (List.length (indices d))
       = (24 * (Z.of_nat (List.length ps) - 1))%Z
    /\ vcount d = (8 * Z.of_nat (List.length ps))%Z.
Proof.
  intros H Hs Htot Hp.
  rewrite (rect8_walk _ _ _ _ H). cbv zeta. rewrite Hp, Rmult_1_l.
  rewrite eqb_false, gtb_true by lra.
  rewrite walk_within by (now apply nondecreasing_below_last).
  cbn [JS.bind fst]. eexists. split; [reflexivity |].
  match goal with
  | |- context [fold_left ?f ps emptyBuild] =>
      set (b := fold_left f ps emptyBuild)
  end.
  destruct (rect8_rings_lengths
              (JS.opt_or (width options) 1) (JS.opt_or (height options) 0.5)
              (JS.opt_or (width options) 1 / 2)
              (JS.opt_or (height options) 0.5 / 2)
              ((JS.opt_or (width options) 1 + JS.opt_or (height options) 0.5) * 2)
              (totalOf ps) ps emptyBuild) as [Hlen [Hidx Hcount]].
  cbv zeta in Hlen, Hidx, Hcount. fold b in Hlen, Hidx, Hcount.
  change (List.length (position (data emptyBuild))) with 0%nat in Hlen.
  change (indices (data emptyBuild)) with (@nil Z) in Hidx.
  change (vcount (data emptyBuild)) with 0%Z in Hcount.
  assert (Hv : vertices (data b) = (8 * Z.of_nat (List.length ps))%Z).
  { unfold vertices. rewrite Hlen.
    replace (Z.of_nat (0 + 24 * List.length ps))
      with ((8 * Z.of_nat (List.length ps)) * 3)%Z by lia.
    apply Z.div_mul. lia. }
  assert (Hne : ps <> []) by (intros ->; cbn in Htot; lra).
  unfold rect8_result. cbn [position indices vcount]. unfold vertices at 1.
  cbn [position]. fold (vertices (data b)).
  split; [exact Hv |]. split; [| lia].
  rewrite Hv, Hidx, Hcount, Z.add_0_l.
  change 0%Z with (8 * Z.of_nat 0)%Z at 1.
  rewrite (facesLoop_length (List.length ps) (List.length ps)); [| lia | lia].
  destruct ps; [contradiction | cbn [List.length]; lia].
Qed.

(** The path from (0,0,0) to (10,0,0) with the default options: 16
    vertices and 24 indices, of which [count = 16]. *)
Lemma rect8_full_progress_witness :
  exists l d,
    fst (set new_PathPointList [vec3 0 0 0; vec3 10 0 0] None None None None)
    = Normal l
    /\ PathRectangleGeometry8.generateTubeVertexData l noOptions false
       = Normal (Some d)
    /\ vertices d = 16%Z
    /\ Z.of_nat (List.length (indices d)) = 24%Z
    /\ vcount d = 16%Z.
Proof.
  destruct straight_path as [l [p0 [p1 [E [H [Hd0 [Hd1 _]]]]]]].
  assert (Hs : nondecreasing (map dist [p0; p1]))
    by (cbn [map]; apply nondecreasing_two; lra).
  assert (Htot : 0 < totalOf [p0; p1])
    by (change (0 < dist p1); lra).
  destruct (rect8_full_progress l [p0; p1] noOptions false H Hs Htot eq_refl)
    as [d [Hgen [Hv [Hi Hc]]]].
  exists l, d. split; [exact E |]. split; [exact Hgen |].
  rewrite Hc, Hi, Hv. auto.
Defined.

(** ** The samples of [set], as a function of the points *)

Lemma roundSamples_length sp u n :
  forall f last,
    (f + n < List.length sp)%nat ->
    List.length (roundSamples sp u n f last) = n.
Proof.
  induction n as [| n IH]; intros f last Hf; [reflexivity |].
  cbn [roundSamples].
  destruct (nth_error_defined sp f) as [c Ec]; [lia |].
  destruct (nth_error_defined sp (f + 1)) as [c' Ec']; [lia |].
  rewrite Ec, Ec'. cbn [List.length]. rewrite IH by lia. reflexivity.
Qed.

Lemma lastSample_app_cons ps p ext :
  lastSample (ps ++ p :: ext) = lastSample (p :: ext).
Proof.
  unfold lastSample. induction ps as [| a ps IH]; [reflexivity |].
  cbn [app]. rewrite <- IH.
  destruct (ps ++ p :: ext) eqn:E; [now destruct ps | reflexivity].
Qed.

Lemma cornerLoop_samples sp u n :
  forall f l ps,
    (f + n < List.length sp)%nat ->
    Holds l ps -> ps <> [] ->
    exists l',
      cornerLoop sp u n f l = Normal l'
      /\ Holds l' (ps ++ roundSamples sp u n f (lastSample ps)).
Proof.
  induction n as [| n IH]; intros f l ps Hf H Hne.
  - exists l. cbn. now rewrite app_nil_r.
  - cbn [cornerLoop roundSamples].
    destruct (nth_error_defined sp f) as [c Ec]; [lia |].
    destruct (nth_error_defined sp (f + 1)) as [c' Ec']; [lia |].
    rewrite Ec, Ec'.
    destruct (sharpCorner_spec' l ps c c' u
                (if (f =? 0)%nat then 1%nat else 0%nat) false H Hne)
      as [l1 [E1 H1]].
    rewrite E1. cbn [JS.bind].
    destruct (IH (S f) l1 _ ltac:(lia) H1) as [l' [E' H']].
    { now destruct ps. }
    exists l'. split; [exact E' |].
    rewrite lastSample_snoc, <- app_assoc in H'. exact H'.
Qed.

Lemma corner_samples l ps c n cr cs u :
  Holds l ps -> ps <> [] ->
  exists l',
    _corner l (Some c) (Some n) cr cs u = Normal l'
    /\ Holds l' (ps ++ cornerSamples ps c n cr cs u).
Proof.
  intros H Hne. unfold _corner, cornerSamples.
  destruct (JS.gtb cr 0 && (0 <? cs)%nat) eqn:Eround.
  - apply andb_prop in Eround. destruct Eround as [_ Hcs].
    apply Nat.ltb_lt in Hcs.
    rewrite (Holds_lastSample _ _ H Hne).
    cbn [JS.bind deref].
    replace (count l) with (List.length ps) by (symmetry; apply H).
    set (curve := _getCornerBezierCurve _ _ _ _ _).
    destruct (cornerLoop_samples (getPoints curve cs) u cs 0 l ps)
      as [l1 [E1 H1]]; auto.
    { rewrite getPoints_length. lia. }
    rewrite E1. cbn [JS.bind].
    destruct (nth_error_defined (getPoints curve cs) cs) as [c' Ec'].
    { rewrite getPoints_length. lia. }
    rewrite Ec'. cbn [JS.bind deref].
    destruct (negb (equals c' n)).
    + destruct (sharpCorner_spec' l1 _ c' n u 2 false H1) as [l2 [E2 H2]].
      { now destruct ps. }
      exists l2. split; [exact E2 |]. now rewrite app_assoc.
    + exists l1. auto.
  - exact (sharpCorner_spec' l ps c n u 0 true H Hne).
Qed.

Lemma cornersFrom_nonempty points cr cs u n :
  forall i ps, ps <> [] -> cornersFrom points cr cs u n i ps <> [].
Proof.
  induction n as [| n IH]; intros i ps Hne; [exact Hne |].
  cbn [cornersFrom].
  destruct (nth_error points i); [| exact Hne].
  destruct (nth_error points (i + 1)); [| exact Hne].
  apply IH. now destruct ps.
Qed.

Lemma setLoop_cornersFrom points cr cs u close n :
  forall i this ps,
    (1 <= i)%nat -> (i + n <= List.length points - 1)%nat ->
    Holds this ps -> ps <> [] ->
    exists this',
      setLoop points (List.length points) cr cs u close n i this = Normal this'
      /\ Holds this' (cornersFrom points cr cs u n i ps).
Proof.
  induction n as [| n IH]; intros i this ps Hi Hin H Hne.
  - exists this. cbn. auto.
  - cbn [setLoop cornersFrom].
    rewrite (proj2 (Nat.eqb_neq i 0)) by lia.
    rewrite (proj2 (Nat.eqb_neq i (List.length points - 1))) by lia.
    destruct (nth_error_defined points i) as [c Ec]; [lia |].
    destruct (nth_error_defined points (i + 1)) as [c' Ec']; [lia |].
    rewrite Ec, Ec'.
    destruct (corner_samples this ps c c' cr cs u H Hne) as [this1 [E1 H1]].
    rewrite E1. cbn [JS.bind].
    apply IH; auto; try lia. now destruct ps.
Qed.

Lemma cornerSamples_nonempty ps c n cr cs u : cornerSamples ps c n cr cs u <> [].
Proof.
  unfold cornerSamples.
  destruct (JS.gtb cr 0 && (0 <? cs)%nat) eqn:Eround; [| discriminate].
  apply andb_prop in Eround. destruct Eround as [_ Hcs].
  apply Nat.ltb_lt in Hcs.
  set (sp := getPoints _ cs).
  assert (Hl : List.length (roundSamples sp u cs 0 (lastSample ps)) = cs).
  { apply roundSamples_length. unfold sp. rewrite getPoints_length. lia. }
  destruct (nth_error sp cs) as [c' |].
  - destruct (negb (equals c' n)).
    + now destruct (roundSamples sp u cs 0 (lastSample ps)).
    + intros E. rewrite E in Hl. cbn in Hl. lia.
  - intros E. rewrite E in Hl. cbn in Hl. lia.
Qed.

Lemma start_pointAt0 this c n u :
  exists l,
    _start this (Some c) (Some n) u = Normal l
    /\ Holds l [startPoint (pointAt0 this) c n u].
Proof.
  unfold _start, pointAt0, _getByIndex. cbn [count array].
  change (Z.of_nat 0) with 0%Z.
  destruct (JS.get (array this) 0) as [p |]; cbn [JS.bind deref];
    (eexists; split; [reflexivity |]); (split; [reflexivity |]);
    intros i Hi; cbn in Hi; assert (i = 0%nat) as -> by lia;
    unfold commit; cbn [array count]; now rewrite get_put_eq.
Qed.

(** [set] on at least two points leaves the samples [samplesOf]. *)
Lemma set_samples this points cr cs u cl :
  (2 <= List.length points)%nat ->
  exists l,
    set this points cr cs u cl = (Normal l, [])
    /\ Holds l (samplesOf (pointAt0 this) points cr cs u cl).
Proof.
  intros Hlen. unfold set, samplesOf.
  rewrite (proj2 (Nat.ltb_ge _ _)) by lia.
  pose proof (autoClose_length points (JS.defined_or cl false)) as Hl.
  set (pts := autoClose points (JS.defined_or cl false)) in *.
  set (crv := JS.defined_or cr 0.1). set (csv := JS.defined_or cs 10%nat).
  set (L := List.length pts) in *.
  assert (E : setLoop pts L crv csv u (JS.defined_or cl false) L 0 this
              = setLoop pts L crv csv u (JS.defined_or cl false)
                  (1 + ((L - 2) + 1)) 0 this)
    by (f_equal; lia).
  rewrite E. clear E.
  rewrite setLoop_split. cbn [setLoop Nat.eqb Nat.add].
  destruct (nth_error_defined pts 0) as [c0 Ec0]; [fold L; lia |].
  destruct (nth_error_defined pts 1) as [c1 Ec1]; [fold L; lia |].
  destruct (nth_error_defined pts (L - 1)) as [c Ec]; [fold L; lia |].
  rewrite Ec0, Ec1, Ec.
  destruct (start_pointAt0 this c0 c1 u) as [l0 [E0 H0]].
  rewrite E0. cbn [JS.bind].
  set (p0 := startPoint (pointAt0 this) c0 c1 u) in *.
  rewrite setLoop_split.
  destruct (setLoop_cornersFrom pts crv csv u (JS.defined_or cl false)
              (L - 2) 1 l0 [p0]) as [l1 [E1 H1]]; auto.
  { fold L. lia. }
  { discriminate. }
  fold L in E1. rewrite E1. cbn [JS.bind].
  replace (1 + (L - 2))%nat with (L - 1)%nat by lia.
  cbn [setLoop].
  rewrite (proj2 (Nat.eqb_neq (L - 1) 0)) by lia.
  rewrite Nat.eqb_refl. rewrite Ec, ?Ec1.
  set (ps1 := cornersFrom pts crv csv u (L - 2) 1 [p0]) in *.
  assert (Hne1 : ps1 <> []) by (apply cornersFrom_nonempty; discriminate).
  destruct (JS.defined_or cl false).
  - destruct (corner_samples l1 ps1 c c1 crv csv u H1 Hne1) as [l2 [E2 H2]].
    rewrite E2. cbn [JS.bind].
    assert (Hl2 : (2 <= List.length (ps1 ++ cornerSamples ps1 c c1 crv csv u))%nat).
    { rewrite length_app.
      pose proof (cornerSamples_nonempty ps1 c c1 crv csv u).
      destruct ps1; [contradiction |].
      destruct (cornerSamples (p :: ps1) c c1 crv csv u); [contradiction |].
      cbn. lia. }
    destruct (fixStart_spec' l2 _ H2 Hl2) as [l3 [E3 H3]].
    rewrite E3. cbn [JS.bind]. eauto.
  - destruct (end_spec' l1 ps1 c H1 Hne1) as [l2 [E2 H2]].
    rewrite E2. cbn [JS.bind]. eauto.
Qed.

(** ** Invariants of the samples *)

Lemma normalize_zero_or_unit v :
  normalize v = zero \/ dot (normalize v) (normalize v) = 1.
Proof.
  destruct (Req_dec_T (dot v v) 0) as [E | E].
  - left. rewrite (zero_of_dot v E). apply normalize_zero.
  - right. apply normalize_unit. intros ->. apply E. unfold dot, zero. cbn. ring.
Qed.

Lemma dot_zero_l v : dot zero v = 0.
Proof. unfold dot, zero. cbn. ring. Qed.

Lemma dot_le_1 a b : dot a a <= 1 -> dot b b <= 1 -> dot a b <= 1.
Proof.
  unfold dot. intros Ha Hb.
  pose proof (Rle_0_sqr (x a - x b)). pose proof (Rle_0_sqr (y a - y b)).
  pose proof (Rle_0_sqr (z a - z b)). unfold Rsqr in *. lra.
Qed.

Lemma dot_normalize_le_1 a b : dot (normalize a) (normalize b) <= 1.
Proof.
  apply dot_le_1.
  - destruct (normalize_zero_or_unit a) as [-> | ->]; [rewrite dot_zero_l |]; lra.
  - destruct (normalize_zero_or_unit b) as [-> | ->]; [rewrite dot_zero_l |]; lra.
Qed.

Lemma cornerWidthScale_range c : c <= 1 -> 1 <= cornerWidthScale c <= 1.415.
Proof.
  intros Hc. unfold cornerWidthScale. cbv zeta.
  destruct (JS.ltb ((1 + c) / 2) 0) eqn:E1; [split; lra |].
  apply ltb_nspec in E1.
  destruct (JS.eqb ((1 + c) / 2) 0) eqn:E2; [split; lra |].
  assert (Hq : 0 < (1 + c) / 2).
  { destruct (Req_dec_T ((1 + c) / 2) 0) as [E | E]; [| lra].
    apply eqb_true in E. congruence. }
  assert (Hs : 0 < sqrt ((1 + c) / 2)) by now apply sqrt_lt_R0.
  assert (Hs1 : sqrt ((1 + c) / 2) <= 1).
  { pose proof (sqrt_le_1_alt ((1 + c) / 2) 1 ltac:(lra)) as Hle.
    now rewrite sqrt_1 in Hle. }
  assert (Hi : 1 <= 1 / sqrt ((1 + c) / 2)).
  { apply (Rmult_le_reg_r (sqrt ((1 + c) / 2))); [exact Hs |].
    unfold Rdiv. rewrite Rmult_assoc, Rinv_l by lra. lra. }
  assert (Hm : 1 <= Rmin (1 / sqrt ((1 + c) / 2)) 1.415 <= 1.415).
  { split; [apply Rmin_glb; lra | apply Rmin_r]. }
  unfold JS.or. rewrite eqb_false by lra. exact Hm.
Qed.

Lemma widthScale_cornerPoint q c n u dt s :
  1 <= widthScale (cornerPoint q c n u dt s) <= 1.415.
Proof.
  assert (E : widthScale (cornerPoint q c n u dt s)
              = cornerWidthScale (dot (normalize (sub c (pos q)))
                                    (normalize (sub n c)))).
  { unfold cornerPoint. now destruct u. }
  rewrite E. apply cornerWidthScale_range, dot_normalize_le_1.
Qed.

Lemma dir_cornerPoint q c n u dt s :
  exists v, dir (cornerPoint q c n u dt s) = normalize v.
Proof.
  assert (E : dir (cornerPoint q c n u dt s)
              = if (dt =? 1)%nat then normalize (sub c (pos q))
                else if (dt =? 2)%nat then normalize (sub n c)
                else normalize (add (normalize (sub c (pos q)))
                                  (normalize (sub n c)))).
  { unfold cornerPoint. now destruct u. }
  rewrite E. destruct (dt =? 1)%nat; [eauto |]. destruct (dt =? 2)%nat; eauto.
Qed.

Lemma Built_invariants u ps :
  Built u ps ->
  forall p, In p ps ->
            1 <= widthScale p <= 1.415
            /\ (dir p = zero \/ length (dir p) = 1).
Proof.
  assert (Hn : forall v, normalize v = zero \/ length (normalize v) = 1).
  { intros v. destruct (normalize_zero_or_unit v) as [E | E]; [now left |].
    right. now apply length_of_unit. }
  induction 1 as [point c n | ps c HB IH | ps c n dt s HB IH]; intros p Hp.
  - destruct Hp as [<- | []]. cbn. split; [lra | apply Hn].
  - apply in_app_or in Hp. destruct Hp as [Hp | [<- | []]]; [now apply IH |].
    cbn. split; [lra | apply Hn].
  - apply in_app_or in Hp. destruct Hp as [Hp | [<- | []]]; [now apply IH |].
    split; [apply widthScale_cornerPoint |].
    destruct (dir_cornerPoint (lastSample ps) c n u dt s) as [v ->]. apply Hn.
Qed.

Lemma closedSamples_In ps p :
  In p (closedSamples ps) ->
  In p ps \/ exists p0 tl, ps = p0 :: tl /\ p = fixedStart p0 (lastSample ps).
Proof.
  destruct ps as [| p0 tl]; [intros [] |].
  intros [<- | Hp]; [right; eauto | left; now right].
Qed.

(** Every sample [set] leaves has a width scale between 1 and 1.415 and
    a tangent that is the zero vector or has length 1. *)
Theorem set_sample_invariants this points cr cs u cl :
  exists l ps,
    fst (set this points cr cs u cl) = Normal l
    /\ Holds l ps
    /\ forall p, In p ps ->
                 1 <= widthScale p <= 1.415
                 /\ (dir p = zero \/ length (dir p) = 1).
Proof.
  destruct (le_lt_dec 2 (List.length points)) as [Hlen | Hlen].
  - destruct (set_spec this points cr cs u cl Hlen)
      as [l [ps [E [HB [_ [H _]]]]]].
    exists l, (if JS.defined_or cl false then closedSamples ps else ps).
    rewrite E. split; [reflexivity |]. split; [exact H |].
    intros p Hp.
    assert (Hin : In p ps \/ exists p0 tl, ps = p0 :: tl
                                          /\ p = fixedStart p0 (lastSample ps)).
    { destruct (JS.defined_or cl false); [now apply closedSamples_In | now left]. }
    destruct Hin as [Hin | [p0 [tl [Eps ->]]]];
      [exact (Built_invariants u ps HB p Hin) |].
    apply (Built_invariants u ps HB (lastSample ps)).
    apply lastSample_In. now rewrite Eps.
  - exists (mkPathPointList (array this) 0), [].
    split; [now apply set_short |].
    split; [apply Holds_reset | intros p []].
Qed.

(** ** [set] on a list that was used before *)

Lemma initialUp_forgets d a b :
  Rabs (x d) < JS.MAX_VALUE \/ Rabs (y d) < JS.MAX_VALUE
  \/ Rabs (z d) < JS.MAX_VALUE ->
  initialUp d a = initialUp d b.
Proof.
  intros H. unfold initialUp. cbv zeta.
  destruct (JS.ltb (Rabs (x d)) JS.MAX_VALUE) eqn:Ex; [reflexivity |].
  destruct (JS.ltb (Rabs (y d)) JS.MAX_VALUE) eqn:Ey; [reflexivity |].
  destruct (JS.ltb (Rabs (z d)) JS.MAX_VALUE) eqn:Ez; [reflexivity |].
  apply ltb_nspec in Ex, Ey, Ez. lra.
Qed.

Lemma startPoint_forgets a b c0 c1 u :
  startDetermined u c0 c1 -> startPoint a c0 c1 u = startPoint b c0 c1 u.
Proof.
  intros H. unfold startPoint. destruct u as [v |]; [reflexivity |].
  cbv zeta. now rewrite (initialUp_forgets _ (up a) (up b) H).
Qed.

Lemma samplesOf_forgets a b points cr cs u cl c0 c1 :
  nth_error points 0 = Some c0 -> nth_error points 1 = Some c1 ->
  startDetermined u c0 c1 ->
  samplesOf a points cr cs u cl = samplesOf b points cr cs u cl.
Proof.
  intros E0 E1 H. unfold samplesOf. cbv zeta.
  assert (Hlen : (2 <= List.length points)%nat).
  { assert (1 < List.length points)%nat by (apply nth_error_Some; congruence).
    lia. }
  rewrite (autoClose_nth points _ 0), (autoClose_nth points _ 1) by lia.
  rewrite E0, E1. now rewrite (startPoint_forgets a b c0 c1 u H).
Qed.

(** [set] overwrites what the list held: two lists with different
    contents hold the same samples after [set] with the same arguments,
    when an [up] is forced or the first segment has a component below
    [Number.MAX_VALUE] in absolute value. *)
Theorem set_forgets_previous_samples this1 this2 points cr cs u cl c0 c1 :
  nth_error points 0 = Some c0 -> nth_error points 1 = Some c1 ->
  startDetermined u c0 c1 ->
  exists l1 l2 ps,
    fst (set this1 points cr cs u cl) = Normal l1
    /\ fst (set this2 points cr cs u cl) = Normal l2
    /\ Holds l1 ps /\ Holds l2 ps
    /\ count l1 = count l2.
Proof.
  intros E0 E1 H.
  assert (Hlen : (2 <= List.length points)%nat).
  { assert (1 < List.length points)%nat by (apply nth_error_Some; congruence).
    lia. }
  destruct (set_samples this1 points cr cs u cl Hlen) as [l1 [S1 H1]].
  destruct (set_samples this2 points cr cs u cl Hlen) as [l2 [S2 H2]].
  exists l1, l2, (samplesOf (pointAt0 this1) points cr cs u cl).
  rewrite S1, S2. split; [reflexivity |]. split; [reflexivity |].
  rewrite (samplesOf_forgets (pointAt0 this2) (pointAt0 this1) points cr cs u
             cl c0 c1 E0 E1 H) in H2.
  split; [exact H1 |]. split; [exact H2 |].
  destruct H1 as [-> _], H2 as [-> _]. reflexivity.
Qed.

(** A list that held a sharp sample of another path, set anew to the
    segment from (0,0,0) to (10,0,0), holds what a new list holds. *)
Lemma set_forgets_previous_samples_witness :
  let stale := mkPathPoint (vec3 7 7 7) (vec3 0 1 0) (vec3 1 0 0) (vec3 0 0 1)
                 42 1.4 true in
  exists l1 l2 ps,
    fst (set (mkPathPointList [Some stale; Some stale; Some stale] 3)
           [vec3 0 0 0; vec3 10 0 0] None None None None) = Normal l1
    /\ fst (set new_PathPointList [vec3 0 0 0; vec3 10 0 0]
              None None None None) = Normal l2
    /\ Holds l1 ps /\ Holds l2 ps
    /\ count l1 = count l2.
Proof.
  intros stale.
  apply (set_forgets_previous_samples _ _ _ None None None None
           (vec3 0 0 0) (vec3 10 0 0)); [reflexivity | reflexivity |].
  left. cbn. rewrite Rminus_0_r, Rabs_pos_eq by lra. apply MAX_VALUE_large.
Defined.

(** ** How many samples [set] makes *)

Lemma getPoint_1 c : getPoint c 1 = v2 c.
Proof.
  unfold getPoint, QuadraticBezier. destruct (v2 c) as [a b d]. cbn [x y z].
  f_equal; ring.
Qed.

Lemma getPoint_0 c : getPoint c 0 = v0 c.
Proof.
  unfold getPoint, QuadraticBezier. destruct (v0 c) as [a b d]. cbn [x y z].
  f_equal; ring.
Qed.

Lemma getPoints_nth c divisions d :
  (d <= divisions)%nat ->
  nth_error (getPoints c divisions) d
  = Some (getPoint c (INR d / INR divisions)).
Proof.
  intros H. unfold getPoints.
  rewrite nth_error_map, nth_error_seq.
  - rewrite (proj2 (Nat.ltb_lt d (S divisions))) by lia. reflexivity.
Qed.

Lemma getPoints_last c divisions :
  (0 < divisions)%nat ->
  nth_error (getPoints c divisions) divisions = Some (v2 c).
Proof.
  intros H. rewrite getPoints_nth by lia.
  unfold Rdiv. rewrite Rinv_r by (apply not_0_INR; lia).
  now rewrite getPoint_1.
Qed.

Lemma getPoints_first c divisions :
  nth_error (getPoints c divisions) 0 = Some (v0 c).
Proof.
  rewrite getPoints_nth by lia. cbn [INR]. unfold Rdiv. rewrite Rmult_0_l.
  now rewrite getPoint_0.
Qed.

Lemma equals_spec a b : equals a b = true <-> a = b.
Proof.
  unfold equals. rewrite !andb_true_iff, !eqb_spec.
  destruct a as [ax ay az], b as [bx b_y bz]. cbn [x y z].
  split.
  - intros [[-> ->] ->]. reflexivity.
  - intros E. injection E as -> -> ->. auto.
Qed.

Lemma sub_zero_eq a b : sub a b = zero -> a = b.
Proof.
  destruct a as [ax ay az], b as [bx b_y bz]. unfold sub, zero. cbn [x y z].
  intros E. injection E as Ex Ey Ez. f_equal; lra.
Qed.

(** The end of the corner curve is not the next point, the two points
    being different: it lies less than half-way to it. *)
Lemma corner_curve_end last current next cornerRadius firstCorner :
  current <> next ->
  equals (v2 (_getCornerBezierCurve last current next cornerRadius firstCorner))
    next = false.
Proof.
  intros Hne.
  destruct (equals _ next) eqn:E; [| reflexivity]. exfalso.
  apply equals_spec in E. unfold _getCornerBezierCurve in E. cbv zeta in E.
  cbn [v2] in E.
  set (w := sub next current) in *.
  assert (Hw : w <> zero).
  { intros Hz. apply Hne. symmetry. now apply sub_zero_eq. }
  pose proof (length_pos w Hw) as Hl.
  rewrite (normalize_nonzero w Hw) in E.
  set (v := Rmin (length w / 2 * 0.999999) cornerRadius) in *.
  assert (Hv : v < length w).
  { pose proof (Rmin_l (length w / 2 * 0.999999) cornerRadius). fold v in H. lra. }
  assert (Hk : / length w * v < 1).
  { apply (Rmult_lt_reg_l (length w)); [exact Hl |].
    rewrite <- Rmult_assoc, Rinv_r by lra. lra. }
  assert (Hd : forall d, d * / length w * v = d -> d = 0).
  { intros d Hd.
    assert (Hp : d * (1 - / length w * v) = 0) by lra.
    apply Rmult_integral in Hp. destruct Hp; lra. }
  apply Hw. clearbody v. unfold w in *. clear w.
  destruct next as [nx ny nz], current as [cx cy cz].
  unfold add, multiplyScalar, sub, zero in *. cbn [x y z] in *.
  injection E as Ex Ey Ez.
  f_equal; apply Hd; lra.
Qed.

Lemma cornerSamples_length_round ps c n cr cs u :
  JS.gtb cr 0 && (0 <? cs)%nat = true -> c <> n ->
  List.length (cornerSamples ps c n cr cs u) = S cs.
Proof.
  intros Hr Hne. unfold cornerSamples. rewrite Hr. cbv zeta.
  apply andb_prop in Hr. destruct Hr as [_ Hcs]. apply Nat.ltb_lt in Hcs.
  rewrite getPoints_last by exact Hcs.
  rewrite corner_curve_end by exact Hne. cbn [negb].
  rewrite length_app, roundSamples_length
    by (rewrite getPoints_length; lia).
  cbn [List.length]. lia.
Qed.

Lemma cornerSamples_length_sharp ps c n cr cs u :
  JS.gtb cr 0 && (0 <? cs)%nat = false ->
  cornerSamples ps c n cr cs u = [cornerPoint (lastSample ps) c n u 0 true].
Proof. intros Hr. unfold cornerSamples. now rewrite Hr. Qed.

Lemma cornersFrom_length points cr cs u n :
  forall i ps,
    (i + n < List.length points)%nat ->
    (JS.gtb cr 0 && (0 <? cs)%nat = true -> consecutiveDistinct points) ->
    List.length (cornersFrom points cr cs u n i ps)
    = (List.length ps
       + n * (if JS.gtb cr 0 && (0 <? cs)%nat then S cs else 1))%nat.
Proof.
  induction n as [| n IH]; intros i ps Hi Hd; [cbn; lia |].
  cbn [cornersFrom].
  destruct (nth_error_defined points i) as [c Ec]; [lia |].
  destruct (nth_error_defined points (i + 1)) as [c' Ec']; [lia |].
  rewrite Ec, Ec'. rewrite IH by (lia || assumption).
  rewrite length_app.
  destruct (JS.gtb cr 0 && (0 <? cs)%nat) eqn:Er.
  - rewrite cornerSamples_length_round; [lia | exact Er |].
    apply (Hd eq_refl i); [exact Ec |].
    now rewrite Nat.add_1_r in Ec'.
  - rewrite cornerSamples_length_sharp by exact Er. cbn [List.length]. lia.
Qed.

Lemma closedSamples_length ps :
  List.length (closedSamples ps) = List.length ps.
Proof. now destruct ps. Qed.

Lemma autoClose_open points : autoClose points false = points.
Proof. unfold autoClose. now destruct points. Qed.

Lemma nth_error_last {A : Type} (l : list A) (d : A) :
  l <> [] -> nth_error l (List.length l - 1) = Some (List.last l d).
Proof.
  induction l as [| a l IH]; intros H; [contradiction |].
  destruct l as [| b l]; [reflexivity |].
  cbn [List.length] in *. replace (S (S (List.length l)) - 1)%nat
    with (S (S (List.length l) - 1)) by lia.
  cbn [nth_error]. rewrite IH by discriminate. reflexivity.
Qed.

(** The last point of a path closed by [set] is its first point. *)
Lemma autoClose_closed points c0 :
  nth_error points 0 = Some c0 ->
  nth_error (autoClose points true)
    (List.length (autoClose points true) - 1) = Some c0.
Proof.
  intros E0. destruct points as [| p0 tl]; [discriminate |].
  cbn in E0. injection E0 as ->.
  unfold autoClose. cbn [andb].
  destruct (equals c0 (last (c0 :: tl) c0)) eqn:E; cbn [negb].
  - apply equals_spec in E.
    rewrite (nth_error_last (c0 :: tl) c0) by discriminate. now rewrite <- E.
  - rewrite length_app. cbn [List.length].
    rewrite nth_error_app2 by (cbn; lia).
    replace (_ - _)%nat with 0%nat by (cbn; lia). reflexivity.
Qed.

(** The number of samples [set] makes from at least two points.  Without
    rounding it is the number of points, the one added to close the path
    included.  With rounding, no two consecutive points being equal, each
    corner gives [cornerSplit + 1] samples. *)
Theorem set_sample_count this points cr cs u cl :
  (2 <= List.length points)%nat ->
  let close := JS.defined_or cl false in
  let pts := autoClose points close in
  let n := List.length pts in
  let k := S (JS.defined_or cs 10%nat) in
  exists l,
    fst (set this points cr cs u cl) = Normal l
    /\ (roundingOff cr cs -> count l = n)
    /\ (roundingOn cr cs -> consecutiveDistinct pts ->
        count l = if close then (1 + (n - 1) * k)%nat
                  else (2 + (n - 2) * k)%nat).
Proof.
  intros Hlen close pts n k.
  destruct (set_samples this points cr cs u cl Hlen) as [l [S1 H1]].
  exists l. rewrite S1. split; [reflexivity |].
  destruct H1 as [Hc _]. rewrite Hc. clear Hc.
  pose proof (autoClose_length points close) as Hl. fold pts n in Hl.
  unfold samplesOf. cbv zeta. fold close pts n.
  destruct (nth_error_defined pts 0) as [c0 Ec0]; [fold n; lia |].
  destruct (nth_error_defined pts 1) as [c1 Ec1]; [fold n; lia |].
  destruct (nth_error_defined pts (n - 1)) as [c Ec]; [fold n; lia |].
  rewrite Ec0, Ec1, Ec.
  set (crv := JS.defined_or cr 0.1). set (csv := JS.defined_or cs 10%nat).
  set (ps1 := cornersFrom pts crv csv u (n - 2) 1 _).
  split.
  - intros Hoff. unfold roundingOff in Hoff. fold crv csv in Hoff.
    assert (Hps1 : List.length ps1 = (n - 1)%nat).
    { unfold ps1. rewrite cornersFrom_length; [| fold n; lia | congruence].
      rewrite Hoff. cbn [List.length]. lia. }
    destruct close.
    + rewrite closedSamples_length, length_app, Hps1,
        cornerSamples_length_sharp by exact Hoff.
      cbn [List.length]. lia.
    + rewrite length_app, Hps1. cbn [List.length]. lia.
  - intros Hon Hd. unfold roundingOn in Hon. fold crv csv in Hon.
    assert (Hps1 : List.length ps1 = (1 + (n - 2) * k)%nat).
    { unfold ps1. rewrite cornersFrom_length; [| fold n; lia | auto].
      rewrite Hon. cbn [List.length]. unfold k. fold csv. lia. }
    destruct close eqn:Eclose.
    + rewrite closedSamples_length, length_app, Hps1.
      rewrite cornerSamples_length_round; [unfold k; fold csv; nia | exact Hon |].
      assert (E0 : nth_error points 0 = Some c0).
      { rewrite <- (autoClose_nth points true 0) by lia. exact Ec0. }
      pose proof (autoClose_closed points c0 E0) as Hlast.
      fold pts n in Hlast. rewrite Ec in Hlast. injection Hlast as ->.
      exact (Hd 0%nat c0 c1 Ec0 Ec1).
    + rewrite length_app, Hps1. cbn [List.length]. lia.
Qed.

(** Three points and the default rounding ([cornerSplit = 10]): the start,
    eleven samples for the corner, and the end. *)
Lemma set_sample_count_witness :
  exists l,
    fst (set new_PathPointList [vec3 0 0 0; vec3 1 0 0; vec3 1 1 0]
           None None None None) = Normal l
    /\ count l = 13%nat.
Proof.
  destruct (set_sample_count new_PathPointList
              [vec3 0 0 0; vec3 1 0 0; vec3 1 1 0] None None None None)
    as [l [E [_ Hon]]]; [cbn; lia |].
  exists l. split; [exact E |].
  apply Hon.
  - unfold roundingOn. cbn [JS.defined_or]. rewrite gtb_true by lra. reflexivity.
  - intros i c c' Hc Hc' Heq. subst c'.
    destruct i as [| [| [| i]]]; cbn in Hc, Hc'; try discriminate;
      injection Hc as <-; injection Hc'; intros; lra.
Defined.

(** ** Which samples are sharp *)

Lemma sharp_cornerPoint q c n u dt s :
  sharp (cornerPoint q c n u dt s)
  = JS.gtb (Rabs (dot (normalize (sub c (pos q))) (normalize (sub n c)) - 1))
      0.05 && s.
Proof. unfold cornerPoint. now destruct u. Qed.

Lemma roundSamples_plain sp u n :
  forall f last p, In p (roundSamples sp u n f last) -> sharp p = false.
Proof.
  induction n as [| n IH]; intros f last p Hp; [destruct Hp |].
  cbn [roundSamples] in Hp.
  destruct (nth_error sp f) as [c |]; [| destruct Hp].
  destruct (nth_error sp (f + 1)) as [c' |]; [| destruct Hp].
  destruct Hp as [<- | Hp]; [| exact (IH _ _ _ Hp)].
  rewrite sharp_cornerPoint. apply andb_false_r.
Qed.

Lemma cornerSamples_plain ps c n cr cs u p :
  JS.gtb cr 0 && (0 <? cs)%nat = true ->
  In p (cornerSamples ps c n cr cs u) -> sharp p = false.
Proof.
  intros Hr. unfold cornerSamples. rewrite Hr. cbv zeta.
  set (sp := getPoints _ cs).
  intros Hp.
  assert (Hin : In p (roundSamples sp u cs 0 (lastSample ps))
                \/ exists q c', p = cornerPoint q c' n u 2 false).
  { destruct (nth_error sp cs) as [c' |]; [| now left].
    destruct (negb (equals c' n)); [| now left].
    apply in_app_or in Hp. destruct Hp as [Hp | [<- | []]]; [now left |].
    right. eauto. }
  destruct Hin as [Hin | [q [c' ->]]].
  - exact (roundSamples_plain _ _ _ _ _ _ Hin).
  - rewrite sharp_cornerPoint. apply andb_false_r.
Qed.

Lemma cornersFrom_plain points cr cs u n :
  JS.gtb cr 0 && (0 <? cs)%nat = true ->
  forall i ps,
    (forall p, In p ps -> sharp p = false) ->
    forall p, In p (cornersFrom points cr cs u n i ps) -> sharp p = false.
Proof.
  intros Hr. induction n as [| n IH]; intros i ps Hps p Hp; [now apply Hps |].
  cbn [cornersFrom] in Hp.
  destruct (nth_error points i) as [c |]; [| now apply Hps].
  destruct (nth_error points (i + 1)) as [c' |]; [| now apply Hps].
  apply (IH (S i) (ps ++ cornerSamples ps c c' cr cs u)); [| exact Hp].
  intros q Hq. apply in_app_or in Hq. destruct Hq as [Hq | Hq].
  - now apply Hps.
  - exact (cornerSamples_plain _ _ _ _ _ _ _ Hr Hq).
Qed.

(** With corner rounding on, no sample [set] leaves is marked sharp. *)
Theorem set_rounded_is_not_sharp this points cr cs u cl :
  roundingOn cr cs ->
  exists l ps,
    fst (set this points cr cs u cl) = Normal l
    /\ Holds l ps
    /\ forall p, In p ps -> sharp p = false.
Proof.
  intros Hon. unfold roundingOn in Hon.
  destruct (le_lt_dec 2 (List.length points)) as [Hlen | Hlen].
  - destruct (set_samples this points cr cs u cl Hlen) as [l [S1 H1]].
    exists l, (samplesOf (pointAt0 this) points cr cs u cl).
    rewrite S1. split; [reflexivity |]. split; [exact H1 |].
    unfold samplesOf. cbv zeta.
    set (pts := autoClose points (JS.defined_or cl false)).
    destruct (nth_error pts 0) as [c0 |]; [| intros p []].
    destruct (nth_error pts 1) as [c1 |]; [| intros p []].
    destruct (nth_error pts (List.length pts - 1)) as [c |]; [| intros p []].
    set (ps1 := cornersFrom pts _ _ u _ 1 _).
    assert (Hps1 : forall p, In p ps1 -> sharp p = false).
    { apply (cornersFrom_plain _ _ _ _ _ Hon).
      intros p [<- | []]. reflexivity. }
    intros p Hp. destruct (JS.defined_or cl false).
    + set (ps2 := ps1 ++ cornerSamples ps1 c c1 _ _ u) in *.
      assert (Hps2 : forall q, In q ps2 -> sharp q = false).
      { intros q Hq. apply in_app_or in Hq. destruct Hq as [Hq | Hq].
        - now apply Hps1.
        - exact (cornerSamples_plain _ _ _ _ _ _ _ Hon Hq). }
      apply closedSamples_In in Hp.
      destruct Hp as [Hp | [p0 [tl [Eps ->]]]]; [now apply Hps2 |].
      change (sharp (fixedStart p0 (lastSample ps2))) with (sharp p0).
      apply Hps2. rewrite Eps. now left.
    + apply in_app_or in Hp. destruct Hp as [Hp | [<- | []]];
        [now apply Hps1 | reflexivity].
  - exists (mkPathPointList (array this) 0), [].
    split; [now apply set_short |].
    split; [apply Holds_reset | intros p []].
Qed.

(** The path through (0,0,0), (1,0,0), (1,1,0) with the default rounding
    turns by a right angle and has no sharp sample. *)
Lemma set_rounded_is_not_sharp_witness :
  exists l ps,
    fst (set new_PathPointList [vec3 0 0 0; vec3 1 0 0; vec3 1 1 0]
           None None None None) = Normal l
    /\ Holds l ps
    /\ forall p, In p ps -> sharp p = false.
Proof.
  apply set_rounded_is_not_sharp.
  unfold roundingOn. cbn [JS.defined_or]. rewrite gtb_true by lra. reflexivity.
Defined.

(** ** The corners of a path without rounding *)

Lemma cornerPoint_cornerAt q b c u :
  cornerAt (pos q) b c (cornerPoint q b c u 0 true).
Proof.
  unfold cornerAt. cbv zeta.
  split; [apply pos_cornerPoint |].
  split; [unfold cornerPoint; now destruct u |].
  split; [unfold cornerPoint; now destruct u |].
  rewrite sharp_cornerPoint. apply andb_true_r.
Qed.

Lemma followsPoints_corner points ps b c u :
  ps <> [] ->
  followsPoints points ps ->
  nth_error points (List.length ps) = Some b ->
  nth_error points (S (List.length ps)) = Some c ->
  followsPoints points (ps ++ [cornerPoint (lastSample ps) b c u 0 true]).
Proof.
  intros Hne [Hpos Hq] Eb Ec. split.
  - rewrite map_app, Hpos, length_app. cbn [map List.length].
    rewrite pos_cornerPoint, Nat.add_1_r. symmetry. now apply firstn_snoc.
  - intros j a' b' c' p Ea' Eb' Ec' Hp.
    destruct (Nat.lt_ge_cases (S j) (List.length ps)) as [Hlt | Hge].
    + rewrite nth_error_app1 in Hp by exact Hlt. eauto.
    + assert (Hj : S j = List.length ps).
      { assert (S j < List.length (ps ++ [cornerPoint (lastSample ps) b c u 0 true]))%nat
          by (apply nth_error_Some; congruence).
        rewrite length_app in H. cbn in H. lia. }
      rewrite nth_error_app2, Hj, Nat.sub_diag in Hp by lia.
      cbn in Hp. injection Hp as <-.
      rewrite Hj, Eb in Eb'. injection Eb' as <-.
      rewrite Hj, Ec in Ec'. injection Ec' as <-.
      assert (Hlast : pos (lastSample ps) = a').
      { pose proof (nth_error_lastSample ps Hne) as Hl.
        apply (f_equal (option_map pos)) in Hl.
        rewrite <- nth_error_map, Hpos in Hl.
        rewrite nth_error_firstn in Hl.
        replace (List.length ps - 1)%nat with j in Hl by lia.
        rewrite (proj2 (Nat.ltb_lt j (List.length ps))) in Hl by lia.
        rewrite Ea' in Hl. cbn in Hl. now injection Hl as ->. }
      rewrite <- Hlast. apply cornerPoint_cornerAt.
Qed.

Lemma cornersFrom_follows points cr cs u n :
  JS.gtb cr 0 && (0 <? cs)%nat = false ->
  forall ps,
    ps <> [] ->
    (List.length ps + n < List.length points)%nat ->
    followsPoints points ps ->
    followsPoints points (cornersFrom points cr cs u n (List.length ps) ps)
    /\ List.length (cornersFrom points cr cs u n (List.length ps) ps)
       = (List.length ps + n)%nat.
Proof.
  intros Hoff. induction n as [| n IH]; intros ps Hne Hlen Hf.
  - cbn. split; [exact Hf | lia].
  - cbn [cornersFrom].
    destruct (nth_error_defined points (List.length ps)) as [b Eb]; [lia |].
    destruct (nth_error_defined points (List.length ps + 1)) as [c Ec]; [lia |].
    rewrite Eb, Ec. rewrite cornerSamples_length_sharp by exact Hoff.
    rewrite Nat.add_1_r in Ec.
    pose proof (followsPoints_corner points ps b c u Hne Hf Eb Ec) as Hf'.
    set (ps' := ps ++ [cornerPoint (lastSample ps) b c u 0 true]) in *.
    assert (El : List.length ps' = S (List.length ps)).
    { unfold ps'. rewrite length_app. cbn. lia. }
    rewrite <- El.
    destruct (IH ps') as [H1 H2]; [now destruct ps | lia | exact Hf' |].
    split; [exact H1 | lia].
Qed.

Lemma closedSamples_nth ps j :
  nth_error (closedSamples ps) (S j) = nth_error ps (S j).
Proof. now destruct ps. Qed.

(** Without rounding, the sample at an inner point of the path (the
    point added to close it included) is the corner of the two segments
    that meet there: its tangent is the normalized sum of their unit
    directions, its width scale is [cornerWidthScale] of the cosine
    between them, and it is marked sharp exactly when that cosine
    differs from 1 by more than 0.05. *)
Theorem set_sharp_corners this points cr cs u cl j a b c :
  roundingOff cr cs ->
  let pts := autoClose points (JS.defined_or cl false) in
  nth_error pts j = Some a -> nth_error pts (S j) = Some b ->
  nth_error pts (S (S j)) = Some c ->
  exists l p,
    fst (set this points cr cs u cl) = Normal l
    /\ JS.get (array l) (Z.of_nat (S j)) = Some p
    /\ cornerAt a b c p.
Proof.
  intros Hoff pts Ea Eb Ec. unfold roundingOff in Hoff.
  assert (Hn : (S (S j) < List.length pts)%nat)
    by (apply nth_error_Some; congruence).
  assert (Hlen : (2 <= List.length points)%nat).
  { destruct points as [| p0 [| p1 tl]]; cbn in *; try lia.
    unfold pts, autoClose in Hn.
    destruct (JS.defined_or cl false && _); cbn in Hn; lia. }
  destruct (set_samples this points cr cs u cl Hlen) as [l [S1 H1]].
  rewrite S1. cbn [fst].
  assert (Hs : exists p,
             nth_error (samplesOf (pointAt0 this) points cr cs u cl) (S j)
             = Some p /\ cornerAt a b c p).
  { unfold samplesOf. cbv zeta. fold pts.
    set (n := List.length pts) in *.
    destruct (nth_error_defined pts 0) as [c0 Ec0]; [lia |].
    destruct (nth_error_defined pts 1) as [c1 Ec1]; [lia |].
    destruct (nth_error_defined pts (n - 1)) as [cl_ Ecl]; [lia |].
    rewrite Ec0, Ec1, Ecl.
    set (p0 := startPoint (pointAt0 this) c0 c1 u).
    assert (Hf0 : followsPoints pts [p0]).
    { split.
      - cbn [map List.length]. unfold p0. rewrite pos_startPoint.
        destruct pts as [| q0 tl]; [discriminate |]. cbn in Ec0.
        now injection Ec0 as ->.
      - intros j' a' b' c' p _ _ _ Hp. destruct j'; discriminate. }
    destruct (cornersFrom_follows pts (JS.defined_or cr 0.1)
                (JS.defined_or cs 10%nat) u (n - 2) Hoff [p0])
      as [[Hpos Hq] Hl1]; [discriminate | cbn; lia | exact Hf0 |].
    cbn [List.length] in Hpos, Hq, Hl1.
    set (ps1 := cornersFrom pts _ _ u (n - 2) 1 [p0]) in *.
    destruct (nth_error_defined ps1 (S j)) as [p Ep]; [lia |].
    exists p. split; [| exact (Hq j a b c p Ea Eb Ec Ep)].
    destruct (JS.defined_or cl false).
    - rewrite closedSamples_nth. rewrite nth_error_app1 by lia. exact Ep.
    - rewrite nth_error_app1 by lia. exact Ep. }
  destruct Hs as [p [Ep Hp]]. exists l, p.
  split; [reflexivity |]. split; [| exact Hp].
  destruct H1 as [_ Hg]. rewrite Hg; [exact Ep |].
  apply nth_error_Some. congruence.
Qed.

(** The right-angle corner of the path through (0,0,0), (1,0,0), (1,1,0)
    without rounding. *)
Lemma set_sharp_corners_witness :
  exists l p,
    fst (set new_PathPointList [vec3 0 0 0; vec3 1 0 0; vec3 1 1 0]
           (Some 0) None None None) = Normal l
    /\ JS.get (array l) 1 = Some p
    /\ cornerAt (vec3 0 0 0) (vec3 1 0 0) (vec3 1 1 0) p.
Proof.
  apply (set_sharp_corners new_PathPointList
           [vec3 0 0 0; vec3 1 0 0; vec3 1 1 0] (Some 0) None None None 0%nat);
    [| reflexivity | reflexivity | reflexivity].
  unfold roundingOff. cbn [JS.defined_or]. rewrite gtb_false by lra. reflexivity.
Defined.

(** ** Frames with a forced normal *)


Lemma cross_multiplyScalar_l d u k :
  cross (multiplyScalar d k) u = multiplyScalar (cross d u) k.
Proof. unfold cross, multiplyScalar. cbn [x y z]. f_equal; ring. Qed.








(** ** The curve of a rounded corner *)

Lemma length_multiplyScalar v s : length (multiplyScalar v s) = length v * Rabs s.
Proof.
  unfold length, multiplyScalar. cbn [x y z].
  replace (x v * s * (x v * s) + y v * s * (y v * s) + z v * s * (z v * s))
    with ((x v * x v + y v * y v + z v * z v) * (s * s)) by ring.
  rewrite sqrt_mult_alt by (pose proof (dot_self_nonneg v) as H; exact H).
  f_equal. replace (s * s) with (Rsqr s) by reflexivity. apply sqrt_Rsqr_abs.
Qed.

Lemma length_normalize_le_1 v : length (normalize v) <= 1.
Proof.
  destruct (normalize_zero_or_unit v) as [-> | E].
  - unfold length, zero. cbn [x y z].
    replace (0 * 0 + 0 * 0 + 0 * 0) with 0 by ring. rewrite sqrt_0. lra.
  - rewrite (length_of_unit _ E). lra.
Qed.

Lemma length_normalize_nonzero v : v <> zero -> length (normalize v) = 1.
Proof. intros H. apply length_of_unit, normalize_unit, H. Qed.

Lemma sub_sub_l a b : sub a (sub a b) = b.
Proof. destruct a, b. unfold sub. cbn [x y z]. f_equal; ring. Qed.

Lemma sub_add_l a b : sub (add a b) a = b.
Proof. destruct a, b. unfold sub, add. cbn [x y z]. f_equal; ring. Qed.

(** The control points of the curve of a corner.  The middle one is the
    corner itself.  The first lies on the segment that arrives and the
    last on the segment that leaves, each at the corner radius from the
    corner but no farther than 0.999999 of the room there is: the whole
    arriving segment (half of it at the first corner of the path) and
    half of the leaving one. *)
Theorem corner_curve_within_segments last current next cornerRadius firstCorner :
  0 <= cornerRadius ->
  let curve :=
    _getCornerBezierCurve last current next cornerRadius firstCorner in
  let room0 :=
    (if firstCorner then length (sub current last) / 2
     else length (sub current last)) * 0.999999 in
  let room2 := length (sub next current) / 2 * 0.999999 in
  v1 curve = current
  /\ length (sub current (v0 curve)) <= Rmin room0 cornerRadius
  /\ length (sub (v2 curve) current) <= Rmin room2 cornerRadius
  /\ (current <> last ->
      length (sub current (v0 curve)) = Rmin room0 cornerRadius
      /\ exists t, 0 <= t <= 0.999999
                   /\ v0 curve = lerpVectors current last t)
  /\ (next <> current ->
      length (sub (v2 curve) current) = Rmin room2 cornerRadius
      /\ exists t, 0 <= t <= 0.4999995
                   /\ v2 curve = lerpVectors current next t).
Proof.
  intros Hr curve room0 room2.
  assert (H0 : 0 <= Rmin room0 cornerRadius).
  { apply Rmin_glb; [| exact Hr]. unfold room0.
    pose proof (length_nonneg (sub current last)).
    destruct firstCorner; lra. }
  assert (H2 : 0 <= Rmin room2 cornerRadius).
  { apply Rmin_glb; [| exact Hr]. unfold room2.
    pose proof (length_nonneg (sub next current)). lra. }
  assert (Hroom0 : Rmin room0 cornerRadius
                   <= length (sub current last) * 0.999999).
  { pose proof (Rmin_l room0 cornerRadius) as Hm.
    pose proof (length_nonneg (sub current last)).
    unfold room0 in *. destruct firstCorner; lra. }
  assert (Hroom2 : Rmin room2 cornerRadius
                   <= length (sub next current) * 0.4999995).
  { pose proof (Rmin_l room2 cornerRadius) as Hm. unfold room2 in *. lra. }
  unfold curve, _getCornerBezierCurve. cbv zeta. cbn [v0 v1 v2].
  fold room0 room2.
  set (d0 := Rmin room0 cornerRadius) in *.
  set (d2 := Rmin room2 cornerRadius) in *.
  split; [reflexivity |].
  rewrite sub_sub_l, sub_add_l, !length_multiplyScalar, !Rabs_pos_eq by assumption.
  split; [| split; [| split]].
  - pose proof (length_normalize_le_1 (sub current last)).
    pose proof (length_nonneg (normalize (sub current last))). nra.
  - pose proof (length_normalize_le_1 (sub next current)).
    pose proof (length_nonneg (normalize (sub next current))). nra.
  - intros Hne.
    assert (Hw : sub current last <> zero).
    { intros Hz. apply Hne. now apply sub_zero_eq. }
    pose proof (length_pos _ Hw) as Hl.
    split; [rewrite length_normalize_nonzero by exact Hw; lra |].
    exists (d0 / length (sub current last)). split.
    + split; [unfold Rdiv; apply Rmult_le_pos;
               [lra | left; now apply Rinv_0_lt_compat] |].
      apply (Rmult_le_reg_r (length (sub current last))); [exact Hl |].
      unfold Rdiv. rewrite Rmult_assoc, Rinv_l by lra. lra.
    + rewrite (normalize_nonzero _ Hw).
      destruct current, last. unfold sub, multiplyScalar, lerpVectors.
      cbn [x y z]. f_equal; unfold Rdiv; ring.
  - intros Hne.
    assert (Hw : sub next current <> zero).
    { intros Hz. apply Hne. now apply sub_zero_eq. }
    pose proof (length_pos _ Hw) as Hl.
    split; [rewrite length_normalize_nonzero by exact Hw; lra |].
    exists (d2 / length (sub next current)). split.
    + split; [unfold Rdiv; apply Rmult_le_pos;
               [lra | left; now apply Rinv_0_lt_compat] |].
      apply (Rmult_le_reg_r (length (sub next current))); [exact Hl |].
      unfold Rdiv. rewrite Rmult_assoc, Rinv_l by lra. lra.
    + rewrite (normalize_nonzero _ Hw).
      destruct current, next. unfold add, sub, multiplyScalar, lerpVectors.
      cbn [x y z]. f_equal; unfold Rdiv; ring.
Qed.

(** The corner at (1,0,0) between (0,0,0) and (1,1,0), with radius 0.1. *)
Lemma corner_curve_within_segments_witness :
  let curve := _getCornerBezierCurve (vec3 0 0 0) (vec3 1 0 0) (vec3 1 1 0)
                 0.1 true in
  v1 curve = vec3 1 0 0
  /\ length (sub (vec3 1 0 0) (v0 curve)) <= 0.1
  /\ length (sub (v2 curve) (vec3 1 0 0)) <= 0.1.
Proof.
  intros curve.
  destruct (corner_curve_within_segments (vec3 0 0 0) (vec3 1 0 0)
              (vec3 1 1 0) 0.1 true) as [E1 [H0 [H2 _]]]; [lra |].
  fold curve in E1, H0, H2.
  split; [exact E1 |].
  split; (eapply Rle_trans; [eassumption | apply Rmin_r]).
Defined.

(** ** The samples of a rounded corner *)

Lemma skipn_nth_error {A : Type} (l : list A) (f : nat) (a : A) :
  nth_error l f = Some a -> skipn f l = a :: skipn (S f) l.
Proof.
  revert l. induction f as [| f IH]; intros [| b l] E; try discriminate.
  - cbn in E. now injection E as ->.
  - cbn in E. cbn [skipn]. now apply IH.
Qed.

Lemma roundSamples_pos sp u n :
  forall f last,
    (f + n < List.length sp)%nat ->
    map pos (roundSamples sp u n f last) = firstn n (skipn f sp).
Proof.
  induction n as [| n IH]; intros f last Hf; [reflexivity |].
  cbn [roundSamples].
  destruct (nth_error_defined sp f) as [c Ec]; [lia |].
  destruct (nth_error_defined sp (f + 1)) as [c' Ec']; [lia |].
  rewrite Ec, Ec'. cbn [map]. rewrite pos_cornerPoint, IH by lia.
  rewrite (skipn_nth_error sp f c Ec). reflexivity.
Qed.

Lemma cornerSamples_pos ps c n cr cs u :
  JS.gtb cr 0 && (0 <? cs)%nat = true -> c <> n ->
  map pos (cornerSamples ps c n cr cs u)
  = getPoints (_getCornerBezierCurve (pos (lastSample ps)) c n cr
                 (Z.of_nat (List.length ps) - 1 =? 0)%Z) cs.
Proof.
  intros Hr Hne. unfold cornerSamples. rewrite Hr. cbv zeta.
  apply andb_prop in Hr. destruct Hr as [_ Hcs]. apply Nat.ltb_lt in Hcs.
  set (curve := _getCornerBezierCurve _ _ _ _ _).
  pose proof (getPoints_last curve cs Hcs) as El. rewrite El.
  pose proof (corner_curve_end (pos (lastSample ps)) c n cr
                (Z.of_nat (List.length ps) - 1 =? 0)%Z Hne) as Hend.
  fold curve in Hend. rewrite Hend. cbn [negb].
  rewrite map_app, roundSamples_pos by (rewrite getPoints_length; lia).
  cbn [map skipn]. rewrite pos_cornerPoint.
  rewrite <- (firstn_snoc _ _ _ El).
  apply firstn_all2. rewrite getPoints_length. lia.
Qed.

(** [_corner] with rounding on, at a corner that differs from the next
    point: it appends [cornerSplit + 1] samples, at the points
    [getPoints(cornerSplit)] of the curve of the corner. *)
Theorem corner_rounded_positions l ps c n cr cs u :
  Holds l ps -> ps <> [] ->
  JS.gtb cr 0 && (0 <? cs)%nat = true -> c <> n ->
  exists l' ext,
    _corner l (Some c) (Some n) cr cs u = Normal l'
    /\ Holds l' (ps ++ ext)
    /\ List.length ext = S cs
    /\ map pos ext
       = getPoints (_getCornerBezierCurve (pos (lastSample ps)) c n cr
                      (Z.of_nat (List.length ps) - 1 =? 0)%Z) cs.
Proof.
  intros H Hne Hr Hcn.
  destruct (corner_samples l ps c n cr cs u H Hne) as [l' [E H']].
  exists l', (cornerSamples ps c n cr cs u).
  split; [exact E |]. split; [exact H' |].
  split; [now apply cornerSamples_length_round |].
  now apply cornerSamples_pos.
Qed.

(** The corner at (1,0,0) towards (1,1,0), after the start sample at the
    origin, with the default radius and split. *)
Lemma corner_rounded_positions_witness :
  let p0 := mkPathPoint (vec3 0 0 0) (vec3 1 0 0) (vec3 0 0 1) (vec3 0 1 0)
              0 1 false in
  exists l' ext,
    _corner (mkPathPointList [Some p0] 1) (Some (vec3 1 0 0))
      (Some (vec3 1 1 0)) 0.1 10 None = Normal l'
    /\ Holds l' ([p0] ++ ext)
    /\ List.length ext = 11%nat
    /\ map pos ext
       = getPoints (_getCornerBezierCurve (vec3 0 0 0) (vec3 1 0 0)
                      (vec3 1 1 0) 0.1 true) 10.
Proof.
  intros p0.
  apply (corner_rounded_positions (mkPathPointList [Some p0] 1) [p0]).
  - exact (Holds_literal [p0]).
  - discriminate.
  - rewrite gtb_true by lra. reflexivity.
  - intros [= Habs]. lra.
Defined.

(** ** What the generators keep *)

Lemma progressLoop_invariant (I : Build -> Prop) addV l pd :
  (forall b p, I b -> I (addV b p)) ->
  forall n i b r,
    I b -> progressLoop addV l pd n i b = Normal r -> I (fst r).
Proof.
  intros Hstep. induction n as [| n IH]; intros i b r Hb E.
  - cbn in E. injection E as <-. exact Hb.
  - cbn [progressLoop] in E.
    destruct (JS.get (array l) (Z.of_nat i)) as [p |]; [| discriminate].
    cbn [JS.bind deref] in E.
    destruct (JS.gtb (dist p) pd).
    + destruct (JS.get (array l) (Z.of_nat i - 1)) as [q |]; [| discriminate].
      cbn in E. injection E as <-. cbn [fst]. now apply Hstep.
    + eapply IH; [| exact E]. now apply Hstep.
Qed.

Lemma ribbon_invariant (I : Build -> Prop) l options g d :
  I emptyBuild ->
  (forall hw sw td side_ b p,
      I b -> I (PathGeometry.addVertices hw sw td side_ g b p)) ->
  (forall w hw sw td side_ b p,
      I b -> I (PathGeometry.addStart w hw sw td side_ g b p)) ->
  PathGeometry.generatePathVertexData l options g = Normal (Some d) ->
  exists b, d = data b /\ I b.
Proof.
  intros H0 Hadd Hstart. unfold PathGeometry.generatePathVertexData. cbv zeta.
  destruct (distance l) as [td |]; [| discriminate]. cbn [JS.bind].
  destruct (JS.eqb td 0); [discriminate |].
  match goal with
  | |- JS.bind ?c _ = _ -> _ =>
      assert (Hr : forall r, c = Normal r -> I (fst r));
      [| destruct c as [[b lastPoint] |]; [| discriminate] ]
  end.
  { intros r. destruct (JS.gtb _ 0).
    - apply progressLoop_invariant; [apply Hadd | exact H0].
    - intros [= <-]. exact H0. }
  specialize (Hr _ eq_refl). cbn [fst] in Hr. cbn [JS.bind].
  destruct (JS.defined_or (arrow options) true).
  - match goal with
    | |- JS.bind (JS.bind (deref ?o) _) _ = _ -> _ => destruct o as [lp |]
    end; [| discriminate].
    cbn [JS.bind deref]. intros E.
    match type of E with Normal (Some (data ?b')) = _ => exists b' end.
    split; [congruence | now apply Hstart].
  - cbn [JS.bind]. intros E. exists b. split; [congruence | exact Hr].
Qed.

Lemma tube_invariant (I : Build -> Prop) l options g d :
  I emptyBuild ->
  (forall c td sr rad b p,
      I b ->
      I (PathTubeGeometry.addVertices c td sr g rad
           (PathTubeGeometry.effectiveRadialSegments options) b p)) ->
  PathTubeGeometry.generateTubeVertexData_1 l options g = Normal (Some d) ->
  exists b, d = data b /\ I b.
Proof.
  intros H0 Hadd. unfold PathTubeGeometry.generateTubeVertexData_1. cbv zeta.
  destruct (distance l) as [td |]; [| discriminate]. cbn [JS.bind].
  destruct (JS.eqb _ 0); [discriminate |].
  destruct (JS.gtb _ 0).
  - destruct (progressLoop _ _ _ _ _ _) as [r |] eqn:E; [| discriminate].
    cbn [JS.bind]. intros E'. exists (fst r). split; [congruence |].
    exact (progressLoop_invariant I _ _ _ (Hadd _ _ _ _) _ _ _ _ H0 E).
  - cbn [JS.bind fst]. intros E'. exists emptyBuild.
    split; [congruence | exact H0].
Qed.

Lemma rect5_invariant (I : Build -> Prop) l options g d :
  I emptyBuild ->
  (forall c td w h b p,
      I b -> I (PathRectangleGeometry5.addVertices c td g w h b p)) ->
  PathRectangleGeometry5.generateTubeVertexData l options g = Normal (Some d) ->
  exists b, d = data b /\ I b.
Proof.
  intros H0 Hadd. unfold PathRectangleGeometry5.generateTubeVertexData. cbv zeta.
  destruct (distance l) as [td |]; [| discriminate]. cbn [JS.bind].
  destruct (JS.eqb _ 0); [discriminate |].
  destruct (JS.gtb _ 0).
  - destruct (progressLoop _ _ _ _ _ _) as [r |] eqn:E; [| discriminate].
    cbn [JS.bind]. intros E'. exists (fst r). split; [congruence |].
    exact (progressLoop_invariant I _ _ _ (Hadd _ _ _ _) _ _ _ _ H0 E).
  - cbn [JS.bind fst]. intros E'. exists emptyBuild.
    split; [congruence | exact H0].
Qed.

Lemma rect8_invariant (I : Build -> Prop) l options g d :
  I emptyBuild ->
  (forall w h hw hh st td b p,
      I b -> I (PathRectangleGeometry8.addVertices w h hw hh st td b p)) ->
  PathRectangleGeometry8.generateTubeVertexData l options g = Normal (Some d) ->
  exists b, d = rect8_result b /\ I b.
Proof.
  intros H0 Hadd. unfold PathRectangleGeometry8.generateTubeVertexData. cbv zeta.
  destruct (distance l) as [td |]; [| discriminate]. cbn [JS.bind].
  destruct (JS.eqb _ 0); [discriminate |].
  destruct (JS.gtb _ 0).
  - destruct (progressLoop _ _ _ _ _ _) as [r |] eqn:E; [| discriminate].
    cbn [JS.bind]. intros E'. exists (fst r). split; [unfold rect8_result; congruence |].
    exact (progressLoop_invariant I _ _ _ (Hadd _ _ _ _ _ _) _ _ _ _ H0 E).
  - cbn [JS.bind fst]. intros E'. exists emptyBuild.
    split; [unfold rect8_result; congruence | exact H0].
Qed.

Lemma Sound_empty g m : Sound g m emptyBuild.
Proof.
  unfold Sound. cbn. repeat split; auto; try lia. now destruct g.
Qed.

Lemma Sound_result g m b :
  Sound g m b -> Shaped g (data b) /\ IndicesInRange (data b).
Proof.
  unfold Sound, Shaped, IndicesInRange, vertices. cbv zeta.
  intros [Hp [Hn [Hu [Hu2 [Hi Hm]]]]].
  assert (Hv : (Z.of_nat (List.length (position (data b))) / 3)%Z
               = verticesCount b).
  { rewrite Hp, Z.mul_comm. apply Z.div_mul. lia. }
  rewrite Hv. repeat split; auto.
Qed.

Lemma Forall_range_weaken (vc vc' : Z) (xs : list Z) :
  (vc <= vc')%Z ->
  Forall (fun i => (0 <= i < vc)%Z) xs ->
  Forall (fun i => (0 <= i < vc')%Z) xs.
Proof.
  intros Hle. apply Forall_impl. intros i. lia.
Qed.

Ltac range_list := repeat (constructor; [lia |]); constructor.

Lemma Sound_ribbon_addVertices hw sw td side_ g b p :
  Sound g 2 b -> Sound g 2 (PathGeometry.addVertices hw sw td side_ g b p).
Proof.
  unfold Sound. cbv zeta. intros [Hp [Hn [Hu [Hu2 [Hi Hm]]]]].
  assert (Hvc : (0 <= verticesCount b)%Z) by lia.
  unfold PathGeometry.addVertices. cbv zeta.
  destruct (List.length (position (data b)) =? 0)%nat eqn:Efirst.
  - apply Nat.eqb_eq in Efirst.
    assert (Hz : verticesCount b = 0%Z) by lia.
    rewrite andb_false_r. cbn [negb data position normal uv uv2 indices verticesCount].
    rewrite !length_app. cbn [xyz List.length app].
    repeat split; try lia.
    + destruct g; [rewrite length_app; cbn [List.length]; lia | exact Hu2].
    + eapply Forall_range_weaken; [| exact Hi]. lia.
  - apply Nat.eqb_neq in Efirst.
    assert (Hge : (2 <= verticesCount b)%Z) by lia.
    rewrite andb_true_r. cbn [negb].
    destruct (sharp p).
    + destruct (JS.gtb _ 0);
        cbn [data position normal uv uv2 indices verticesCount];
        rewrite !length_app; cbn [xyz List.length app];
        (repeat split; try lia;
         [ destruct g; [rewrite length_app; cbn [List.length]; lia | exact Hu2]
         | apply Forall_app; split;
           [eapply Forall_range_weaken; [| exact Hi]; lia | range_list] ]).
    + cbn [data position normal uv uv2 indices verticesCount].
      rewrite !length_app. cbn [xyz List.length app].
      repeat split; try lia.
      * destruct g; [rewrite length_app; cbn [List.length]; lia | exact Hu2].
      * apply Forall_app. split;
          [eapply Forall_range_weaken; [| exact Hi]; lia | range_list].
Qed.

Lemma Sound_ribbon_addStart w hw sw td side_ g b p :
  Sound g 2 b -> Sound g 2 (PathGeometry.addStart w hw sw td side_ g b p).
Proof.
  unfold Sound. cbv zeta. intros [Hp [Hn [Hu [Hu2 [Hi Hm]]]]].
  assert (Hvc : (0 <= verticesCount b)%Z) by lia.
  unfold PathGeometry.addStart. cbv zeta.
  cbn [data position normal uv uv2 indices verticesCount].
  rewrite !length_app. cbn [xyz List.length app].
  repeat split; try lia.
  - destruct g; [rewrite length_app; cbn [List.length]; lia | exact Hu2].
  - apply Forall_app. split;
      [eapply Forall_range_weaken; [| exact Hi]; lia | range_list].
Qed.

Lemma In_upto i n : In i (upto n) -> (0 <= i < n)%Z.
Proof.
  unfold upto. intros H. apply in_map_iff in H. destruct H as [k [<- Hk]].
  apply in_seq in Hk. lia.
Qed.

(** The quads between two rings leave the vertices as they are and add
    indices of the two rings only. *)
Lemma pushQuad_fold begin1 begin2 vc xs :
  (forall i, In i xs ->
             (0 <= begin1 + i /\ begin1 + i + 1 < vc
              /\ 0 <= begin2 + i /\ begin2 + i + 1 < vc)%Z) ->
  forall b,
    Forall (fun i => (0 <= i < vc)%Z) (indices (data b)) ->
    let b' := fold_left (pushQuad begin1 begin2) xs b in
    position (data b') = position (data b)
    /\ normal (data b') = normal (data b)
    /\ uv (data b') = uv (data b)
    /\ uv2 (data b') = uv2 (data b)
    /\ verticesCount b' = verticesCount b
    /\ Forall (fun i => (0 <= i < vc)%Z) (indices (data b')).
Proof.
  induction xs as [| i xs IH]; intros Hxs b Hb; cbn [fold_left].
  - repeat split; auto.
  - destruct (IH (fun j Hj => Hxs j (or_intror Hj)) (pushQuad begin1 begin2 b i))
      as [Hp [Hn [Hu [Hu2 [Hv Hi]]]]].
    + cbn [pushQuad data indices]. apply Forall_app. split; [exact Hb |].
      pose proof (Hxs i (or_introl eq_refl)). range_list.
    + cbv zeta in *. rewrite Hp, Hn, Hu, Hu2, Hv. repeat split; auto.
Qed.

Lemma tube_ring_fold c td sr g p rad rs xs :
  forall b,
    let b' := fold_left (PathTubeGeometry.pushRingVertex c td sr g p rad rs) xs b in
    List.length (position (data b'))
    = (List.length (position (data b)) + 3 * List.length xs)%nat
    /\ List.length (normal (data b'))
       = (List.length (normal (data b)) + 3 * List.length xs)%nat
    /\ List.length (uv (data b'))
       = (List.length (uv (data b)) + 2 * List.length xs)%nat
    /\ List.length (uv2 (data b'))
       = (List.length (uv2 (data b))
          + if g then 2 * List.length xs else 0)%nat
    /\ indices (data b') = indices (data b)
    /\ verticesCount b' = (verticesCount b + Z.of_nat (List.length xs))%Z.
Proof.
  induction xs as [| r xs IH]; intros b; cbn [fold_left List.length].
  - repeat split; try lia. destruct g; lia.
  - destruct (IH (PathTubeGeometry.pushRingVertex c td sr g p rad rs b r))
      as [Hp [Hn [Hu [Hu2 [Hi Hv]]]]].
    cbv zeta in *. rewrite Hp, Hn, Hu, Hu2, Hi, Hv.
    unfold PathTubeGeometry.pushRingVertex.
    cbn [data position normal uv uv2 indices verticesCount].
    rewrite !length_app. cbn [xyz List.length].
    repeat split; try lia.
    destruct g; [rewrite length_app; cbn [List.length] |]; lia.
Qed.

Lemma rect5_ring_fold c td g p w h xs :
  forall b nowDis,
    let b' := fst (fold_left (PathRectangleGeometry5.pushRingVertex c td g p w h)
                     xs (b, nowDis)) in
    List.length (position (data b'))
    = (List.length (position (data b)) + 3 * List.length xs)%nat
    /\ List.length (normal (data b'))
       = (List.length (normal (data b)) + 3 * List.length xs)%nat
    /\ List.length (uv (data b'))
       = (List.length (uv (data b)) + 2 * List.length xs)%nat
    /\ List.length (uv2 (data b'))
       = (List.length (uv2 (data b))
          + if g then 2 * List.length xs else 0)%nat
    /\ indices (data b') = indices (data b)
    /\ verticesCount b' = (verticesCount b + Z.of_nat (List.length xs))%Z.
Proof.
  induction xs as [| r xs IH]; intros b nowDis; cbn [fold_left List.length fst].
  - repeat split; try lia. destruct g; lia.
  - destruct (PathRectangleGeometry5.pushRingVertex c td g p w h (b, nowDis) r)
      as [b1 nowDis1] eqn:E.
    destruct (IH b1 nowDis1) as [Hp [Hn [Hu [Hu2 [Hi Hv]]]]].
    cbv zeta in *. rewrite Hp, Hn, Hu, Hu2, Hi, Hv.
    unfold PathRectangleGeometry5.pushRingVertex in E. injection E as <- _.
    cbn [data position normal uv uv2 indices verticesCount].
    rewrite !length_app. cbn [xyz List.length].
    repeat split; try lia.
    destruct g; [rewrite length_app; cbn [List.length] |]; lia.
Qed.

(** A ring of [m] vertices followed, but after the first ring, by the
    quads that join it to the ring before. *)
Lemma Sound_ring g m b b1 :
  (1 <= m)%Z ->
  Sound g m b ->
  List.length (position (data b1))
  = (List.length (position (data b)) + 3 * Z.to_nat m)%nat ->
  List.length (normal (data b1))
  = (List.length (normal (data b)) + 3 * Z.to_nat m)%nat ->
  List.length (uv (data b1))
  = (List.length (uv (data b)) + 2 * Z.to_nat m)%nat ->
  List.length (uv2 (data b1))
  = (List.length (uv2 (data b)) + if g then 2 * Z.to_nat m else 0)%nat ->
  indices (data b1) = indices (data b) ->
  verticesCount b1 = (verticesCount b + m)%Z ->
  Sound g m
    (if negb (List.length (position (data b)) =? 0)%nat
     then fold_left (pushQuad (verticesCount b1 - m * 2) (verticesCount b1 - m))
            (upto (m - 1)) b1
     else b1).
Proof.
  intros Hm [Hp [Hn [Hu [Hu2 [Hi Hring]]]]] Ep En Eu Eu2 Ei Ev.
  cbv zeta in *.
  assert (Hb1 : Forall (fun i => (0 <= i < verticesCount b1)%Z) (indices (data b1))).
  { rewrite Ei, Ev. eapply Forall_range_weaken; [| exact Hi]. lia. }
  assert (HS1 : Sound g m b1).
  { unfold Sound. cbv zeta.
    split; [lia |]. split; [lia |]. split; [lia |].
    split; [rewrite Eu2, Eu; destruct g; lia |].
    split; [exact Hb1 | lia]. }
  destruct (List.length (position (data b)) =? 0)%nat eqn:Efirst; cbn [negb];
    [exact HS1 |].
  apply Nat.eqb_neq in Efirst.
  assert (Hge : (m <= verticesCount b)%Z) by lia.
  destruct (pushQuad_fold (verticesCount b1 - m * 2) (verticesCount b1 - m)
              (verticesCount b1) (upto (m - 1))) with (b := b1)
    as [Fp [Fn [Fu [Fu2 [Fv Fi]]]]]; [| exact Hb1 |].
  { intros i Hi'. apply In_upto in Hi'. lia. }
  cbv zeta in *. destruct HS1 as [Sp [Sn [Su [Su2 [_ Sm]]]]].
  unfold Sound. cbv zeta. rewrite Fp, Fn, Fu, Fu2, Fv.
  repeat split; auto.
Qed.

Lemma Sound_tube_addVertices c td sr g rad rs b p :
  (0 <= rs)%Z ->
  Sound g (rs + 1) b ->
  Sound g (rs + 1) (PathTubeGeometry.addVertices c td sr g rad rs b p).
Proof.
  intros Hrs HS. unfold PathTubeGeometry.addVertices. cbv zeta.
  destruct (tube_ring_fold c td sr g p rad rs (upto (rs + 1)) b)
    as [Ep [En [Eu [Eu2 [Ei Ev]]]]].
  cbv zeta in *. rewrite upto_length in *.
  set (b1 := fold_left _ (upto (rs + 1)) b) in *.
  pose proof (Sound_ring g (rs + 1) b b1 ltac:(lia) HS Ep En Eu Eu2 Ei
                ltac:(rewrite Ev; lia)) as H.
  replace (rs + 1 - 1)%Z with rs in H by lia. exact H.
Qed.

Lemma Sound_rect5_addVertices c td g w h b p :
  Sound g 5 b ->
  Sound g 5 (PathRectangleGeometry5.addVertices c td g w h b p).
Proof.
  intros HS. unfold PathRectangleGeometry5.addVertices. cbv zeta.
  destruct (rect5_ring_fold c td g p w h (upto (4 + 1)) b 0)
    as [Ep [En [Eu [Eu2 [Ei Ev]]]]].
  cbv zeta in *. rewrite upto_length in *.
  set (b1 := fst (fold_left _ (upto (4 + 1)) (b, 0))) in *.
  exact (Sound_ring g 5 b b1 ltac:(lia) HS Ep En Eu Eu2 Ei Ev).
Qed.

Lemma effectiveRadialSegments_ge_2 options :
  (2 <= PathTubeGeometry.effectiveRadialSegments options)%Z.
Proof. unfold PathTubeGeometry.effectiveRadialSegments. apply Z.le_max_l. Qed.

Lemma Sound8_empty : Sound8 emptyBuild.
Proof. exists 0%nat. cbn. repeat split; reflexivity. Qed.

Lemma Sound8_addVertices w h hw hh st td b p :
  Sound8 b -> Sound8 (PathRectangleGeometry8.addVertices w h hw hh st td b p).
Proof.
  intros [k [Hp [Hn [Hu [Hu2 [Hi Hc]]]]]]. exists (S k).
  unfold PathRectangleGeometry8.addVertices. cbv zeta.
  cbn [data position normal uv uv2 indices vcount].
  rewrite !length_app. cbn [xyz List.length].
  repeat split; auto; lia.
Qed.

Lemma pushFaces_range (n : Z) (j : Z) idx :
  (0 <= j)%Z ->
  Forall (fun i => (0 <= i < 8 * n)%Z) idx ->
  Forall (fun i => (0 <= i < 8 * n)%Z)
    (PathRectangleGeometry8.pushFaces (8 * n) idx (8 * j)).
Proof.
  intros Hj Hidx. unfold PathRectangleGeometry8.pushFaces.
  destruct (Z.ltb_spec (8 * j + 8) (8 * n)); [| exact Hidx].
  cbv zeta. apply Forall_app. split; [exact Hidx |].
  cbn [app]. range_list.
Qed.

Lemma facesLoop_range (n : Z) fuel :
  forall (j : Z) idx,
    (0 <= j)%Z ->
    Forall (fun i => (0 <= i < 8 * n)%Z) idx ->
    Forall (fun i => (0 <= i < 8 * n)%Z)
      (PathRectangleGeometry8.facesLoop fuel (8 * j) (8 * n) (8 * n) idx).
Proof.
  induction fuel as [| fuel IH]; intros j idx Hj Hidx; [exact Hidx |].
  cbn [PathRectangleGeometry8.facesLoop].
  destruct (8 * j <? 8 * n)%Z; [| exact Hidx].
  replace (8 * j + 8)%Z with (8 * (j + 1))%Z by lia.
  apply IH; [lia |]. now apply pushFaces_range.
Qed.

Lemma Sound8_result b :
  Sound8 b ->
  Shaped false (rect8_result b) /\ IndicesInRange (rect8_result b).
Proof.
  intros [k [Hp [Hn [Hu [Hu2 [Hi Hc]]]]]].
  assert (Hv : vertices (data b) = (8 * Z.of_nat k)%Z).
  { unfold vertices. rewrite Hp.
    replace (Z.of_nat (24 * k)) with (8 * Z.of_nat k * 3)%Z by lia.
    apply Z.div_mul. lia. }
  assert (Hv' : vertices (rect8_result b) = (8 * Z.of_nat k)%Z) by exact Hv.
  split.
  - unfold Shaped. rewrite Hv'. unfold rect8_result.
    cbn [position normal uv uv2]. rewrite Hp, Hn, Hu, Hu2.
    repeat split; try lia; reflexivity.
  - unfold IndicesInRange. rewrite Hv'. unfold rect8_result. cbn [indices].
    rewrite Hv, Hc, Hi.
    exact (facesLoop_range (Z.of_nat k) _ 0 [] ltac:(lia) (Forall_nil _)).
Qed.

Lemma ribbon_sound l options g d :
  PathGeometry.generatePathVertexData l options g = Normal (Some d) ->
  Shaped g d /\ IndicesInRange d.
Proof.
  intros E.
  destruct (ribbon_invariant (Sound g 2) l options g d (Sound_empty g 2)
              (fun hw sw td side_ b p => Sound_ribbon_addVertices hw sw td side_ g b p)
              (fun w hw sw td side_ b p => Sound_ribbon_addStart w hw sw td side_ g b p)
              E) as [b [-> Hb]].
  now apply (Sound_result g 2).
Qed.

Lemma tube_sound l options g d :
  PathTubeGeometry.generateTubeVertexData_1 l options g = Normal (Some d) ->
  Shaped g d /\ IndicesInRange d.
Proof.
  intros E.
  assert (Hrs : (0 <= PathTubeGeometry.effectiveRadialSegments options)%Z).
  { pose proof (effectiveRadialSegments_ge_2 options). lia. }
  destruct (tube_invariant
              (Sound g (PathTubeGeometry.effectiveRadialSegments options + 1))
              l options g d (Sound_empty g _)
              (fun c td sr rad b p =>
                 Sound_tube_addVertices c td sr g rad _ b p Hrs)
              E) as [b [-> Hb]].
  exact (Sound_result g _ b Hb).
Qed.

Lemma rect5_sound l options g d :
  PathRectangleGeometry5.generateTubeVertexData l options g = Normal (Some d) ->
  Shaped g d /\ IndicesInRange d.
Proof.
  intros E.
  destruct (rect5_invariant (Sound g 5) l options g d (Sound_empty g 5)
              (fun c td w h b p => Sound_rect5_addVertices c td g w h b p)
              E) as [b [-> Hb]].
  now apply (Sound_result g 5).
Qed.

Lemma rect8_sound l options g d :
  PathRectangleGeometry8.generateTubeVertexData l options g = Normal (Some d) ->
  Shaped false d /\ IndicesInRange d.
Proof.
  intros E.
  destruct (rect8_invariant Sound8 l options g d Sound8_empty
              Sound8_addVertices E) as [b [-> Hb]].
  now apply Sound8_result.
Qed.

(** The arrays a generator returns fit together, whatever the list and
    the options: three numbers per vertex in [position] and in [normal],
    two in [uv], and [uv2] as long as [uv] when it is asked for and empty
    otherwise.  The eight-vertex generator never fills [uv2]. *)
Theorem generators_arrays_fit l options g :
  (forall d, PathGeometry.generatePathVertexData l options g = Normal (Some d)
             -> Shaped g d)
  /\ (forall d, PathTubeGeometry.generateTubeVertexData_1 l options g
                = Normal (Some d) -> Shaped g d)
  /\ (forall d, PathRectangleGeometry5.generateTubeVertexData l options g
                = Normal (Some d) -> Shaped g d)
  /\ (forall d, PathRectangleGeometry8.generateTubeVertexData l options g
                = Normal (Some d) -> Shaped false d /\ uv2 d = []).
Proof.
  split; [intros d E; apply (ribbon_sound l options g d E) |].
  split; [intros d E; apply (tube_sound l options g d E) |].
  split; [intros d E; apply (rect5_sound l options g d E) |].
  intros d E. destruct (rect8_sound l options g d E) as [HS _].
  split; [exact HS |].
  destruct HS as [_ [_ [_ Hu2]]]. now destruct (uv2 d).
Qed.

(** Every index a generator returns names a vertex it returns, whatever
    the list and the options. *)
Theorem generators_indices_in_range l options g :
  (forall d, PathGeometry.generatePathVertexData l options g = Normal (Some d)
             -> IndicesInRange d)
  /\ (forall d, PathTubeGeometry.generateTubeVertexData_1 l options g
                = Normal (Some d) -> IndicesInRange d)
  /\ (forall d, PathRectangleGeometry5.generateTubeVertexData l options g
                = Normal (Some d) -> IndicesInRange d)
  /\ (forall d, PathRectangleGeometry8.generateTubeVertexData l options g
                = Normal (Some d) -> IndicesInRange d).
Proof.
  split; [intros d E; apply (ribbon_sound l options g d E) |].
  split; [intros d E; apply (tube_sound l options g d E) |].
  split; [intros d E; apply (rect5_sound l options g d E) |].
  intros d E. apply (rect8_sound l options g d E).
Qed.

(** The ribbon of the segment from (0,0,0) to (10,0,0), without arrow:
    its arrays fit together. *)
Lemma generators_arrays_fit_witness :
  exists l d,
    fst (set new_PathPointList [vec3 0 0 0; vec3 10 0 0] None None None None)
    = Normal l
    /\ PathGeometry.generatePathVertexData l
         (mkOptions None None None None (Some false) None None None) false
       = Normal (Some d)
    /\ Shaped false d.
Proof.
  destruct straight_ribbon as [l [d [E [Hg _]]]].
  exists l, d. split; [exact E |]. split; [exact Hg |].
  exact (proj1 (generators_arrays_fit l _ false) d Hg).
Defined.

(** The same ribbon: its six indices name its four vertices. *)
Lemma generators_indices_in_range_witness :
  exists l d,
    fst (set new_PathPointList [vec3 0 0 0; vec3 10 0 0] None None None None)
    = Normal l
    /\ PathGeometry.generatePathVertexData l
         (mkOptions None None None None (Some false) None None None) false
       = Normal (Some d)
    /\ IndicesInRange d.
Proof.
  destruct straight_ribbon as [l [d [E [Hg _]]]].
  exists l, d. split; [exact E |]. split; [exact Hg |].
  exact (proj1 (generators_indices_in_range l _ false) d Hg).
Defined.

(** ** Progress beyond the end of the path *)

Lemma walk_beyond addV pd ps :
  nondecreasing (map dist ps) -> totalOf ps <= pd ->
  walk addV pd None ps emptyBuild = Normal (fold_left addV ps emptyBuild, None).
Proof.
  intros Hs Hpd. apply walk_within.
  eapply Forall_impl; [| exact (nondecreasing_below_last ps Hs)].
  intros q Hq. cbv beta in Hq. lra.
Qed.

Lemma progress_cases (p total : R) :
  1 <= p ->
  (total = 0 /\ p * total = 0)
  \/ (0 < total /\ total <= p * total)
  \/ (total < 0 /\ p * total < 0).
Proof.
  intros Hp. destruct (Rtotal_order total 0) as [H | [H | H]].
  - right. right. split; [exact H | nra].
  - left. subst. split; [reflexivity | ring].
  - right. left. split; [exact H | nra].
Qed.

Ltac beyond_cases p ps Hp :=
  destruct (progress_cases p (totalOf ps) Hp) as [[H0 Hp0] | [[H0 Hp0] | [H0 Hp0]]];
  rewrite ?Rmult_1_l;
  [ rewrite Hp0, H0, ?(eqb_true 0 0 eq_refl)
  | rewrite !eqb_false, !gtb_true by lra
  | rewrite !eqb_false, !gtb_false by lra ].

(** A [progress] of 1 or more gives what no [progress] gives: the whole
    path, and nothing beyond it. *)
Theorem progress_beyond_one_is_full l ps options g p :
  Holds l ps -> nondecreasing (map dist ps) -> 1 <= p ->
  PathGeometry.generatePathVertexData l (withProgress options (Some p)) g
  = PathGeometry.generatePathVertexData l (withProgress options None) g
  /\ PathTubeGeometry.generateTubeVertexData_1 l (withProgress options (Some p)) g
     = PathTubeGeometry.generateTubeVertexData_1 l (withProgress options None) g
  /\ PathRectangleGeometry5.generateTubeVertexData l
       (withProgress options (Some p)) g
     = PathRectangleGeometry5.generateTubeVertexData l
         (withProgress options None) g
  /\ PathRectangleGeometry8.generateTubeVertexData l
       (withProgress options (Some p)) g
     = PathRectangleGeometry8.generateTubeVertexData l
         (withProgress options None) g.
Proof.
  intros H Hs Hp.
  split; [| split; [| split]].
  - rewrite !(ribbon_walk _ _ _ _ H). cbv zeta.
    cbn [withProgress width side progress arrow JS.defined_or].
    destruct (JS.eqb (totalOf ps) 0) eqn:E0; [reflexivity |].
    destruct (progress_cases p (totalOf ps) Hp)
      as [[H0 Hp0] | [[H0 Hp0] | [H0 Hp0]]]; rewrite ?Rmult_1_l.
    + rewrite (eqb_true _ _ H0) in E0. discriminate.
    + rewrite !gtb_true by lra. now rewrite !walk_beyond by (assumption || lra).
    + now rewrite !gtb_false by lra.
  - rewrite !(tube_walk _ _ _ _ H). cbv zeta.
    unfold PathTubeGeometry.effectiveRadialSegments.
    cbn [withProgress radius startRad radialSegments progress JS.defined_or].
    beyond_cases p ps Hp; try reflexivity.
    now rewrite !walk_beyond by (assumption || lra).
  - rewrite !(rect5_walk _ _ _ _ H). cbv zeta.
    cbn [withProgress radius width height progress JS.defined_or].
    beyond_cases p ps Hp; try reflexivity.
    now rewrite !walk_beyond by (assumption || lra).
  - rewrite !(rect8_walk _ _ _ _ H). cbv zeta.
    cbn [withProgress radius width height progress JS.defined_or].
    beyond_cases p ps Hp; try reflexivity.
    now rewrite !walk_beyond by (assumption || lra).
Qed.

(** On the segment from (0,0,0) to (10,0,0), [progress = 2] gives what
    the default gives. *)
Lemma progress_beyond_one_is_full_witness :
  exists l,
    fst (set new_PathPointList [vec3 0 0 0; vec3 10 0 0] None None None None)
    = Normal l
    /\ PathGeometry.generatePathVertexData l
         (mkOptions None None None (Some 2) None None None None) false
       = PathGeometry.generatePathVertexData l noOptions false
    /\ PathTubeGeometry.generateTubeVertexData_1 l
         (mkOptions None None None (Some 2) None None None None) false
       = PathTubeGeometry.generateTubeVertexData_1 l noOptions false.
Proof.
  destruct straight_path as [l [p0 [p1 [E [H [Hd0 [Hd1 _]]]]]]].
  assert (Hs : nondecreasing (map dist [p0; p1]))
    by (cbn [map]; apply nondecreasing_two; lra).
  destruct (progress_beyond_one_is_full l [p0; p1] noOptions false 2 H Hs
              ltac:(lra)) as [Hr [Ht _]].
  exists l. split; [exact E |]. split; [exact Hr | exact Ht].
Defined.

(** ** The ribbon and the five-vertex tube at full progress *)

Lemma ribbon_ring_lengths hw sw td side_ g b p :
  let first := (List.length (position (data b)) =? 0)%nat in
  let b' := PathGeometry.addVertices hw sw td side_ g b p in
  List.length (position (data b'))
  = (List.length (position (data b))
     + if sharp p && negb first then 18 else 6)%nat
  /\ List.length (indices (data b'))
     = (List.length (indices (data b))
        + if first then 0 else if sharp p then 12 else 6)%nat.
Proof.
  cbv zeta. unfold PathGeometry.addVertices. cbv zeta.
  destruct (List.length (position (data b)) =? 0)%nat; cbn [negb].
  - rewrite andb_false_r. cbn [data position indices].
    rewrite !length_app. cbn [xyz List.length]. lia.
  - rewrite andb_true_r. destruct (sharp p).
    + destruct (JS.gtb _ 0); cbn [data position indices];
        rewrite !length_app; cbn [xyz List.length]; lia.
    + cbn [data position indices].
      rewrite !length_app. cbn [xyz List.length]. lia.
Qed.

Lemma ribbon_rings_lengths hw sw td side_ g ps :
  forall b,
    (0 < List.length (position (data b)))%nat ->
    let b' := fold_left (PathGeometry.addVertices hw sw td side_ g) ps b in
    List.length (position (data b'))
    = (List.length (position (data b)) + 6 * List.length ps
       + 12 * List.length (filter sharp ps))%nat
    /\ List.length (indices (data b'))
       = (List.length (indices (data b)) + 6 * List.length ps
          + 6 * List.length (filter sharp ps))%nat.
Proof.
  induction ps as [| p ps IH]; intros b Hb; cbn [fold_left List.length filter].
  - lia.
  - destruct (ribbon_ring_lengths hw sw td side_ g b p) as [Hp Hi].
    cbv zeta in *.
    rewrite (proj2 (Nat.eqb_neq _ 0)) in Hp, Hi by lia.
    rewrite andb_true_r in Hp.
    destruct (IH (PathGeometry.addVertices hw sw td side_ g b p))
      as [Hp' Hi']; [lia |].
    cbv zeta in *. rewrite Hp', Hi', Hp, Hi.
    destruct (sharp p); cbn [List.length]; lia.
Qed.

(** The ribbon at full progress ([progress] absent or 1) on a path of
    positive length with [n] samples, [s] of them sharp, the first not
    counted: two vertices per sample and four more per sharp one, six
    indices per sample after the first and six more per sharp one, and
    three vertices and three indices for the arrow; [count] is the
    number of indices. *)
Theorem ribbon_full_progress l ps options g :
  Holds l ps -> nondecreasing (map dist ps) -> 0 < totalOf ps ->
  JS.defined_or (progress options) 1 = 1 ->
  let n := Z.of_nat (List.length ps) in
  let s := Z.of_nat (List.length (filter sharp (List.tl ps))) in
  let a := if JS.defined_or (arrow options) true then 1%Z else 0%Z in
  exists d,
    PathGeometry.generatePathVertexData l options g = Normal (Some d)
    /\ vertices d = (2 * n + 4 * s + 3 * a)%Z
    /\ Z.of_nat (List.length (indices d)) = (6 * (n - 1) + 6 * s + 3 * a)%Z
    /\ vcount d = Z.of_nat (List.length (indices d)).
Proof.
  intros H Hs Htot Hp n s a.
  set (width_ := JS.opt_or (width options) 0.1).
  set (side_ := JS.defined_or (side options) "both"%string).
  set (sw := if negb (String.eqb side_ "both") then width_ / 2 else width_).
  set (addV := PathGeometry.addVertices (width_ / 2) sw (totalOf ps) side_ g).
  set (b := fold_left addV ps emptyBuild).
  set (b' := if JS.defined_or (arrow options) true
             then PathGeometry.addStart width_ (width_ / 2) sw (totalOf ps)
                    side_ g b (lastSample ps)
             else b).
  assert (Hgen : PathGeometry.generatePathVertexData l options g
                 = Normal (Some (data b'))).
  { rewrite (ribbon_walk _ _ _ _ H). cbv zeta. rewrite Hp, Rmult_1_l.
    fold width_ side_ sw addV.
    rewrite eqb_false, gtb_true by lra.
    rewrite walk_within by (now apply nondecreasing_below_last).
    cbn [JS.bind fst snd]. fold b. unfold b'.
    destruct (JS.defined_or (arrow options) true); [| reflexivity].
    destruct ps as [| p0 tl]; [cbn in Htot; lra |]. reflexivity. }
  exists (data b'). split; [exact Hgen |].
  assert (Hb : List.length (position (data b))
               = Z.to_nat (6 * n + 12 * s)
               /\ List.length (indices (data b))
                  = Z.to_nat (6 * (n - 1) + 6 * s)).
  { unfold b, n, s. destruct ps as [| p0 tl]; [cbn in Htot; lra |].
    cbn [fold_left List.length List.tl].
    destruct (ribbon_ring_lengths (width_ / 2) sw (totalOf (p0 :: tl)) side_ g
                emptyBuild p0) as [Hp0 Hi0].
    cbv zeta in Hp0, Hi0. fold addV in Hp0, Hi0.
    change (List.length (position (data emptyBuild))) with 0%nat in Hp0, Hi0.
    change (List.length (indices (data emptyBuild))) with 0%nat in Hi0.
    cbn [Nat.eqb Nat.add negb] in Hp0, Hi0. rewrite andb_false_r in Hp0.
    destruct (ribbon_rings_lengths (width_ / 2) sw (totalOf (p0 :: tl)) side_ g
                tl (addV emptyBuild p0)) as [Hpn Hin].
    { fold addV. rewrite Hp0. lia. }
    cbv zeta in Hpn, Hin. fold addV in Hpn, Hin.
    rewrite Hpn, Hin, Hp0, Hi0. lia. }
  destruct Hb as [Hbp Hbi].
  assert (Hc : countsIndices b').
  { unfold b'. destruct (JS.defined_or (arrow options) true).
    - apply countsIndices_addStart.
      apply (fold_left_invariant countsIndices addV
               (fun b p => countsIndices_ribbon_addVertices _ _ _ _ _ b p)
               ps emptyBuild countsIndices_empty).
    - apply (fold_left_invariant countsIndices addV
               (fun b p => countsIndices_ribbon_addVertices _ _ _ _ _ b p)
               ps emptyBuild countsIndices_empty). }
  assert (Hn : (1 <= n)%Z).
  { unfold n. destruct ps; [cbn in Htot; lra | cbn [List.length]; lia]. }
  assert (Hs0 : (0 <= s)%Z) by (unfold s; lia).
  split; [| split; [| exact Hc]].
  - unfold vertices, b', a.
    destruct (JS.defined_or (arrow options) true).
    + unfold PathGeometry.addStart. cbv zeta. cbn [data position].
      rewrite !length_app. cbn [xyz List.length]. rewrite Hbp.
      replace (Z.of_nat (Z.to_nat (6 * n + 12 * s) + (3 + (3 + 3))))
        with ((2 * n + 4 * s + 3 * 1) * 3)%Z by lia.
      apply Z.div_mul. lia.
    + rewrite Hbp.
      replace (Z.of_nat (Z.to_nat (6 * n + 12 * s)))
        with ((2 * n + 4 * s + 3 * 0) * 3)%Z by lia.
      apply Z.div_mul. lia.
  - unfold b', a. destruct (JS.defined_or (arrow options) true).
    + unfold PathGeometry.addStart. cbv zeta. cbn [data indices].
      rewrite length_app. cbn [List.length]. rewrite Hbi. lia.
    + rewrite Hbi. lia.
Qed.

(** The segment from (0,0,0) to (10,0,0) with the default options: 4
    vertices and 6 indices for the band, 3 and 3 for the arrow. *)
Lemma ribbon_full_progress_witness :
  exists l d,
    fst (set new_PathPointList [vec3 0 0 0; vec3 10 0 0] None None None None)
    = Normal l
    /\ PathGeometry.generatePathVertexData l noOptions false = Normal (Some d)
    /\ vertices d = 7%Z
    /\ Z.of_nat (List.length (indices d)) = 9%Z
    /\ vcount d = 9%Z.
Proof.
  destruct straight_path as [l [p0 [p1 [E [H [Hd0 [Hd1 [_ [Hs1 _]]]]]]]]].
  assert (Hs : nondecreasing (map dist [p0; p1]))
    by (cbn [map]; apply nondecreasing_two; lra).
  assert (Htot : 0 < totalOf [p0; p1])
    by (change (0 < dist p1); lra).
  destruct (ribbon_full_progress l [p0; p1] noOptions false H Hs Htot eq_refl)
    as [d [Hgen [Hv [Hi Hc]]]].
  cbn [List.tl filter List.length] in Hv, Hi. rewrite Hs1 in Hv, Hi.
  exists l, d. split; [exact E |]. split; [exact Hgen |].
  rewrite Hc, Hi, Hv. auto.
Defined.

Lemma rect5_ring_lengths c td g w h b p :
  let b' := PathRectangleGeometry5.addVertices c td g w h b p in
  List.length (position (data b'))
  = (List.length (position (data b)) + 15)%nat
  /\ List.length (indices (data b'))
     = (List.length (indices (data b))
        + if (List.length (position (data b)) =? 0)%nat then 0 else 24)%nat.
Proof.
  cbv zeta. unfold PathRectangleGeometry5.addVertices. cbv zeta.
  destruct (rect5_ring_fold c td g p w h (upto (4 + 1)) b 0)
    as [Ep [_ [_ [_ [Ei _]]]]].
  cbv zeta in Ep, Ei. rewrite upto_length in Ep.
  set (ring := fst (fold_left _ (upto (4 + 1)) (b, 0))) in *.
  destruct (List.length (position (data b)) =? 0)%nat; cbn [negb].
  - split; [rewrite Ep; reflexivity | rewrite Ei; lia].
  - split.
    + rewrite (fold_left_count (fun b => List.length (position (data b))) _ 0);
        [rewrite Ep; cbn; lia |].
      intros b0 i. unfold pushQuad. cbn [data position]. lia.
    + rewrite (fold_left_count (fun b => List.length (indices (data b))) _ 6),
        upto_length, Ei; [cbn; lia |].
      intros b0 i. unfold pushQuad. cbn [data indices].
      rewrite length_app. reflexivity.
Qed.

Lemma rect5_rings_lengths c td g w h ps :
  forall b,
    (0 < List.length (position (data b)))%nat ->
    let b' := fold_left (PathRectangleGeometry5.addVertices c td g w h) ps b in
    List.length (position (data b'))
    = (List.length (position (data b)) + 15 * List.length ps)%nat
    /\ List.length (indices (data b'))
       = (List.length (indices (data b)) + 24 * List.length ps)%nat.
Proof.
  induction ps as [| p ps IH]; intros b Hb; cbn [fold_left List.length].
  - lia.
  - destruct (rect5_ring_lengths c td g w h b p) as [Hp Hi]. cbv zeta in *.
    rewrite (proj2 (Nat.eqb_neq _ 0)) in Hi by lia.
    destruct (IH (PathRectangleGeometry5.addVertices c td g w h b p))
      as [Hp' Hi']; [lia |].
    cbv zeta in *. rewrite Hp', Hi', Hp, Hi. lia.
Qed.

(** The five-vertex rectangular tube at full progress on a path of
    positive length with [n] samples: [5 * n] vertices and
    [24 * (n - 1)] indices, and [count] is the number of indices. *)
Theorem rect5_full_progress l ps options g :
  Holds l ps -> nondecreasing (map dist ps) -> 0 < totalOf ps ->
  JS.defined_or (progress options) 1 = 1 ->
  exists d,
    PathRectangleGeometry5.generateTubeVertexData l options g = Normal (Some d)
    /\ vertices d = (5 * Z.of_nat (List.length ps))%Z
    /\ Z.of_nat (List.length (indices d))
       = (24 * (Z.of_nat (List.length ps) - 1))%Z
    /\ vcount d = Z.of_nat (List.length (indices d)).
Proof.
  intros H Hs Htot Hp.
  set (addV := PathRectangleGeometry5.addVertices
                 (JS.opt_or (radius options) 0.1 * 2 * PI) (totalOf ps) g
                 (JS.opt_or (width options) 1) (JS.opt_or (height options) 0.5)).
  exists (data (fold_left addV ps emptyBuild)).
  split.
  { rewrite (rect5_walk _ _ _ _ H). cbv zeta. rewrite Hp, Rmult_1_l.
    rewrite eqb_false, gtb_true by lra. fold addV.
    rewrite walk_within by (now apply nondecreasing_below_last).
    reflexivity. }
  destruct ps as [| p0 tl]; [cbn in Htot; lra |].
  cbn [fold_left List.length].
  destruct (rect5_ring_lengths
              (JS.opt_or (radius options) 0.1 * 2 * PI) (totalOf (p0 :: tl)) g
              (JS.opt_or (width options) 1) (JS.opt_or (height options) 0.5)
              emptyBuild p0) as [Hp0 Hi0].
  cbv zeta in Hp0, Hi0. fold addV in Hp0, Hi0.
  change (List.length (position (data emptyBuild))) with 0%nat in Hp0, Hi0.
  change (List.length (indices (data emptyBuild))) with 0%nat in Hi0.
  cbn [Nat.eqb Nat.add] in Hp0, Hi0.
  destruct (rect5_rings_lengths
              (JS.opt_or (radius options) 0.1 * 2 * PI) (totalOf (p0 :: tl)) g
              (JS.opt_or (width options) 1) (JS.opt_or (height options) 0.5)
              tl (addV emptyBuild p0)) as [Hpn Hin].
  { fold addV. rewrite Hp0. lia. }
  cbv zeta in Hpn, Hin. fold addV in Hpn, Hin.
  rewrite Hp0 in Hpn. rewrite Hi0 in Hin.
  split.
  - unfold vertices. rewrite Hpn.
    replace (Z.of_nat (15 + 15 * List.length tl))
      with ((5 * Z.of_nat (S (List.length tl))) * 3)%Z by lia.
    apply Z.div_mul. lia.
  - split; [rewrite Hin; lia |].
    apply (fold_left_invariant countsIndices addV
             (fun b p => countsIndices_rect5_addVertices _ _ _ _ _ b p)
             (p0 :: tl) emptyBuild countsIndices_empty).
Qed.

(** The segment from (0,0,0) to (10,0,0) with the default options: 2
    rings of 5 vertices, 10 vertices and 24 indices. *)
Lemma rect5_full_progress_witness :
  exists l d,
    fst (set new_PathPointList [vec3 0 0 0; vec3 10 0 0] None None None None)
    = Normal l
    /\ PathRectangleGeometry5.generateTubeVertexData l noOptions false
       = Normal (Some d)
    /\ vertices d = 10%Z
    /\ Z.of_nat (List.length (indices d)) = 24%Z
    /\ vcount d = 24%Z.
Proof.
  destruct straight_path as [l [p0 [p1 [E [H [Hd0 [Hd1 _]]]]]]].
  assert (Hs : nondecreasing (map dist [p0; p1]))
    by (cbn [map]; apply nondecreasing_two; lra).
  assert (Htot : 0 < totalOf [p0; p1])
    by (change (0 < dist p1); lra).
  destruct (rect5_full_progress l [p0; p1] noOptions false H Hs Htot eq_refl)
    as [d [Hgen [Hv [Hi Hc]]]].
  exists l, d. split; [exact E |]. split; [exact Hgen |].
  rewrite Hc, Hi, Hv. auto.
Defined.

(** ** When the generators return [null] *)

Lemma total_nonneg ps :
  startsAtZero ps -> nondecreasing (map dist ps) -> 0 <= totalOf ps.
Proof.
  intros H0 Hs. destruct ps as [| p0 tl]; [cbn; lra |].
  pose proof (nondecreasing_below_last (p0 :: tl) Hs) as Hall.
  apply Forall_inv in Hall. rewrite (H0 p0 tl eq_refl) in Hall. exact Hall.
Qed.

Lemma ribbon_null_iff l ps options g r :
  Holds l ps ->
  PathGeometry.generatePathVertexData l options g = Normal r ->
  (r = None <-> totalOf ps = 0).
Proof.
  intros H. rewrite (ribbon_walk _ _ _ _ H). cbv zeta.
  destruct (JS.eqb (totalOf ps) 0) eqn:E0.
  - apply eqb_spec in E0. intros [= <-]. tauto.
  - assert (Hne : totalOf ps <> 0).
    { intros Hz. rewrite (eqb_true _ _ Hz) in E0. discriminate. }
    match goal with
    | |- JS.bind ?c _ = _ -> _ => destruct c as [r0 |]; [| discriminate]
    end.
    cbn [JS.bind].
    match goal with
    | |- JS.bind ?c _ = _ -> _ => destruct c as [b |]; [| discriminate]
    end.
    cbn [JS.bind]. intros [= <-]. split; [discriminate | contradiction].
Qed.

Lemma tube_null_iff l ps options g r :
  Holds l ps ->
  PathTubeGeometry.generateTubeVertexData_1 l options g = Normal r ->
  (r = None <-> JS.defined_or (progress options) 1 * totalOf ps = 0).
Proof.
  intros H. rewrite (tube_walk _ _ _ _ H). cbv zeta.
  destruct (JS.eqb _ 0) eqn:E0.
  - apply eqb_spec in E0. intros [= <-]. tauto.
  - assert (Hne : JS.defined_or (progress options) 1 * totalOf ps <> 0).
    { intros Hz. rewrite (eqb_true _ _ Hz) in E0. discriminate. }
    match goal with
    | |- JS.bind ?c _ = _ -> _ => destruct c as [r0 |]; [| discriminate]
    end.
    cbn [JS.bind]. intros [= <-]. split; [discriminate | contradiction].
Qed.

Lemma rect5_null_iff l ps options g r :
  Holds l ps ->
  PathRectangleGeometry5.generateTubeVertexData l options g = Normal r ->
  (r = None <-> JS.defined_or (progress options) 1 * totalOf ps = 0).
Proof.
  intros H. rewrite (rect5_walk _ _ _ _ H). cbv zeta.
  destruct (JS.eqb _ 0) eqn:E0.
  - apply eqb_spec in E0. intros [= <-]. tauto.
  - assert (Hne : JS.defined_or (progress options) 1 * totalOf ps <> 0).
    { intros Hz. rewrite (eqb_true _ _ Hz) in E0. discriminate. }
    match goal with
    | |- JS.bind ?c _ = _ -> _ => destruct c as [r0 |]; [| discriminate]
    end.
    cbn [JS.bind]. intros [= <-]. split; [discriminate | contradiction].
Qed.

Lemma rect8_null_iff l ps options g r :
  Holds l ps ->
  PathRectangleGeometry8.generateTubeVertexData l options g = Normal r ->
  (r = None <-> JS.defined_or (progress options) 1 * totalOf ps = 0).
Proof.
  intros H. rewrite (rect8_walk _ _ _ _ H). cbv zeta.
  destruct (JS.eqb _ 0) eqn:E0.
  - apply eqb_spec in E0. intros [= <-]. tauto.
  - assert (Hne : JS.defined_or (progress options) 1 * totalOf ps <> 0).
    { intros Hz. rewrite (eqb_true _ _ Hz) in E0. discriminate. }
    match goal with
    | |- JS.bind ?c _ = _ -> _ => destruct c as [r0 |]; [| discriminate]
    end.
    cbn [JS.bind]. intros [= <-]. split; [discriminate | contradiction].
Qed.

(** On the list [set] leaves, whatever its arguments, the ribbon
    generator raises no error; it returns [null] exactly when the
    distance of the path is 0, as it is after [set] on fewer than two
    points.  The tube generators return [null] exactly when [progress]
    times the distance is 0. *)
Theorem generators_null_on_set this points cr cs u cl options g :
  exists l d,
    fst (set this points cr cs u cl) = Normal l
    /\ distance l = Normal d /\ 0 <= d
    /\ ((List.length points < 2)%nat -> d = 0)
    /\ (exists r, PathGeometry.generatePathVertexData l options g = Normal r
                  /\ (r = None <-> d = 0))
    /\ (forall r, PathTubeGeometry.generateTubeVertexData_1 l options g
                  = Normal r ->
                  (r = None <-> JS.defined_or (progress options) 1 * d = 0))
    /\ (forall r, PathRectangleGeometry5.generateTubeVertexData l options g
                  = Normal r ->
                  (r = None <-> JS.defined_or (progress options) 1 * d = 0))
    /\ (forall r, PathRectangleGeometry8.generateTubeVertexData l options g
                  = Normal r ->
                  (r = None <-> JS.defined_or (progress options) 1 * d = 0)).
Proof.
  destruct (set_wellformed this points cr cs u cl) as [l [ps [E [H [H0 Hs]]]]].
  exists l, (totalOf ps).
  split; [exact E |]. split; [now apply Holds_total |].
  split; [now apply total_nonneg |].
  split.
  { intros Hlt. rewrite (set_short this points cr cs u cl Hlt) in E.
    injection E as <-.
    now rewrite (Holds_unique _ _ _ H (Holds_reset (array this))). }
  split.
  { destruct (ribbon_total l ps options g H H0) as [r Er].
    exists r. split; [exact Er |]. exact (ribbon_null_iff l ps options g r H Er). }
  split; [intros r; now apply tube_null_iff |].
  split; [intros r; now apply rect5_null_iff |].
  intros r; now apply rect8_null_iff.
Qed.

(** ** The sample at which a generator stops *)

(** The sample a generator makes when it stops between the samples
    [prev] and [cur], [prev] not beyond the progress distance and [cur]
    beyond it: it lies at the progress distance exactly, on the segment
    from [prev] to [cur] and short of [cur], with a width scale between
    theirs. *)
Theorem truncated_at_progress pd prev cur :
  dist prev <= pd -> pd < dist cur ->
  let alpha := (pd - dist prev) / (dist cur - dist prev) in
  0 <= alpha < 1
  /\ dist (truncated pd prev cur) = pd
  /\ pos (truncated pd prev cur) = lerpVectors (pos prev) (pos cur) alpha
  /\ Rmin (widthScale prev) (widthScale cur)
     <= widthScale (truncated pd prev cur)
     <= Rmax (widthScale prev) (widthScale cur).
Proof.
  intros Hprev Hcur alpha.
  assert (Hd : 0 < dist cur - dist prev) by lra.
  assert (Ha : 0 <= alpha < 1).
  { unfold alpha. split.
    - unfold Rdiv. apply Rmult_le_pos; [lra |].
      left. now apply Rinv_0_lt_compat.
    - apply (Rmult_lt_reg_r (dist cur - dist prev)); [exact Hd |].
      unfold Rdiv. rewrite Rmult_assoc, Rinv_l by lra. lra. }
  split; [exact Ha |].
  unfold truncated, lerpPathPoints. cbn [dist pos widthScale]. fold alpha.
  split; [unfold alpha; field; lra |].
  split; [reflexivity |].
  unfold Rmin, Rmax.
  destruct (Rle_dec (widthScale prev) (widthScale cur)); split; nra.
Qed.

(** Half-way along a segment of length 10. *)
Lemma truncated_at_progress_witness :
  let p0 := mkPathPoint (vec3 0 0 0) (vec3 1 0 0) (vec3 0 0 1) (vec3 0 1 0)
              0 1 false in
  let p1 := mkPathPoint (vec3 10 0 0) (vec3 1 0 0) (vec3 0 0 1) (vec3 0 1 0)
              10 1 false in
  dist (truncated 5 p0 p1) = 5.
Proof.
  intros p0 p1.
  destruct (truncated_at_progress 5 p0 p1) as [_ [Hd _]];
    [cbn; lra | cbn; lra | exact Hd].
Defined.

(** ** The ring of the circular tube *)

(** [applyAxisAngle] about a unit axis is the rotation about it. *)
Lemma applyAxisAngle_rotation v k theta :
  dot k k = 1 ->
  applyAxisAngle v k theta = rotated k (cos theta) (sin theta) v.
Proof.
  intros Hk.
  assert (Hc : cos theta = 1 - 2 * sin (theta / 2) * sin (theta / 2))
    by (rewrite <- cos_2a_sin; f_equal; field).
  assert (Hs : sin theta = 2 * sin (theta / 2) * cos (theta / 2))
    by (rewrite <- sin_2a; f_equal; field).
  unfold applyAxisAngle, rotated. cbv zeta. rewrite Hc, Hs. clear Hc Hs.
  pose proof (sin2_cos2 (theta / 2)) as Hsc. unfold Rsqr in Hsc.
  set (s := sin (theta / 2)) in *. set (c := cos (theta / 2)) in *.
  destruct v as [vx vy vz], k as [kx ky kz].
  unfold dot, add, multiplyScalar, cross in *. cbn [x y z] in *.
  f_equal; nsatz.
Qed.

(** The vertex [r] of the ring of the sample [p], whose frame is
    orthonormal: it lies at [radius * widthScale] from the position of
    [p] along a unit normal that is orthogonal to the tangent, [up]
    turned towards [dir x up] by [startRad + 2 * PI * r / radialSegments];
    the last vertex of the ring is at the place of the first. *)
Theorem tube_ring_vertex c td sr g p rad rs b r :
  Orthonormal p ->
  let r' := if (r =? rs)%Z then 0%Z else r in
  let theta := sr + PI * 2 * IZR r' / IZR rs in
  let n := add (multiplyScalar (up p) (cos theta))
               (multiplyScalar (cross (dir p) (up p)) (sin theta)) in
  let b' := PathTubeGeometry.pushRingVertex c td sr g p rad rs b r in
  position (data b')
  = position (data b)
    ++ xyz (add (pos p) (multiplyScalar n (rad * widthScale p)))
  /\ normal (data b') = normal (data b) ++ xyz n
  /\ length n = 1
  /\ dot n (dir p) = 0.
Proof.
  intros [Hd [Hu [_ [Hdu _]]]] r' theta n b'.
  apply unit_of_length in Hd, Hu.
  assert (Erot : applyAxisAngle (up p) (dir p) theta = n).
  { rewrite (applyAxisAngle_rotation _ _ _ Hd). unfold rotated, n.
    rewrite Hdu. destruct (up p), (dir p).
    unfold add, multiplyScalar, cross. cbn [x y z]. f_equal; ring. }
  assert (Hn : dot n n = 1).
  { rewrite <- Erot, (applyAxisAngle_rotation _ _ _ Hd).
    rewrite rotated_square; [exact Hu | exact Hd |].
    pose proof (sin2_cos2 theta) as Hsc. unfold Rsqr in Hsc. lra. }
  assert (Hnd : dot n (dir p) = 0).
  { unfold n. destruct (up p) as [ux uy uz], (dir p) as [dx dy dz].
    unfold dot, add, multiplyScalar, cross in *. cbn [x y z] in *.
    transitivity (cos theta * (dx * ux + dy * uy + dz * uz));
      [ring | rewrite Hdu; ring]. }
  unfold b', PathTubeGeometry.pushRingVertex. cbv zeta.
  cbn [data position normal]. fold r'. fold theta.
  rewrite Erot, (normalize_of_unit n Hn).
  split; [| split; [reflexivity | split; [now apply length_of_unit | exact Hnd]]].
  f_equal. unfold xyz, add, multiplyScalar. cbn [x y z].
  repeat (f_equal; try ring).
Qed.

(** The first vertex of the ring of a sample at the origin, with the
    tangent along x and the normal along y: it lies at the radius along
    y. *)
Lemma tube_ring_vertex_witness :
  let p := mkPathPoint (vec3 0 0 0) (vec3 1 0 0) (vec3 0 0 1) (vec3 0 1 0)
             0 1 false in
  let b' := PathTubeGeometry.pushRingVertex 1 10 0 false p 0.1 8 emptyBuild 0 in
  let n := add (multiplyScalar (up p) (cos (0 + PI * 2 * 0 / 8)))
               (multiplyScalar (cross (dir p) (up p))
                  (sin (0 + PI * 2 * 0 / 8))) in
  position (data b') = xyz (add (pos p) (multiplyScalar n (0.1 * 1)))
  /\ length n = 1.
Proof.
  intros p b' n.
  assert (Hp : Orthonormal p).
  { unfold Orthonormal, p. cbn [dir up right].
    assert (H1 : forall v, dot v v = 1 -> length v = 1)
      by (intros v; apply length_of_unit).
    repeat split; try (apply H1; unfold dot; cbn [x y z]; ring);
      try (unfold dot; cbn [x y z]; ring).
    rewrite normalize_of_unit by (unfold dot, cross; cbn [x y z]; ring).
    unfold cross. cbn [x y z]. f_equal; ring. }
  destruct (tube_ring_vertex 1 10 0 false p 0.1 8 emptyBuild 0 Hp)
    as [Hpos [_ [Hlen _]]].
  split; [exact Hpos | exact Hlen].
Defined.

(** ** The resize loops *)

Lemma resizeAttribute_fits fuel a n :
  (n <= a)%N -> _resizeAttribute fuel a n = Some a.
Proof.
  intros H. destruct fuel; cbn [_resizeAttribute];
    now rewrite (proj2 (N.ltb_ge a n)).
Qed.

Lemma resizeIndex_fits fuel a k n :
  (n <= a)%N -> _resizeIndex fuel a k n = Some (a, k).
Proof.
  intros H. destruct fuel; cbn [_resizeIndex];
    now rewrite (proj2 (N.ltb_ge a n)).
Qed.

Lemma doubling_step (a n k : N) :
  (a < n)%N ->
  (forall j, (j < k)%N -> (a * 2 * 2 ^ j < n)%N) ->
  forall j, (j < N.succ k)%N -> (a * 2 ^ j < n)%N.
Proof.
  intros Ha Hk j Hj. destruct (N.eq_dec j 0) as [-> | Hne].
  - cbn. lia.
  - rewrite <- (N.succ_pred j Hne), N.pow_succ_r'.
    specialize (Hk (N.pred j) ltac:(lia)). lia.
Qed.

(** [_resizeAttribute] doubles the array until it is long enough: the
    new length is the first of [a], [2a], [4a], ... that is not below
    [len]. *)
Theorem resizeAttribute_least_doubling fuel :
  forall a n a',
    _resizeAttribute fuel a n = Some a' ->
    exists k : N,
      a' = (a * 2 ^ k)%N
      /\ (n <= a')%N
      /\ (forall j : N, (j < k)%N -> (a * 2 ^ j < n)%N).
Proof.
  induction fuel as [| fuel IH]; intros a n a' E; cbn [_resizeAttribute] in E.
  - destruct (N.ltb_spec a n); [discriminate |]. injection E as <-.
    exists 0%N. cbn. split; [lia |]. split; [lia |]. intros j Hj. lia.
  - destruct (N.ltb_spec a n) as [Hlt | Hge].
    + destruct (IH _ _ _ E) as [k [Ea [Hn Hj]]].
      exists (N.succ k). split; [rewrite Ea, N.pow_succ_r'; lia |].
      split; [exact Hn |]. now apply doubling_step.
    + injection E as <-.
      exists 0%N. cbn. split; [lia |]. split; [lia |]. intros j Hj. lia.
Qed.

(** An array of 6 numbers that must hold 20: 6, 12, 24. *)
Lemma resizeAttribute_least_doubling_witness :
  exists k : N,
    24%N = (6 * 2 ^ k)%N
    /\ (20 <= 24)%N
    /\ (forall j : N, (j < k)%N -> (6 * 2 ^ j < 20)%N).
Proof.
  exact (resizeAttribute_least_doubling 5 6 20 24 eq_refl).
Defined.

(** [_resizeIndex] doubles the index in the same way.  An index that was
    long enough keeps its array type; one that grew is a [Uint32Array]
    exactly when its new length exceeds 65535. *)
Theorem resizeIndex_kind fuel :
  forall a kind n a' kind',
    _resizeIndex fuel a kind n = Some (a', kind') ->
    (exists k : N,
        a' = (a * 2 ^ k)%N
        /\ (n <= a')%N
        /\ (forall j : N, (j < k)%N -> (a * 2 ^ j < n)%N))
    /\ ((n <= a)%N -> a' = a /\ kind' = kind)
    /\ ((a < n)%N ->
        kind' = if (65535 <? a')%N then Uint32Array else Uint16Array).
Proof.
  induction fuel as [| fuel IH]; intros a kind n a' kind' E;
    cbn [_resizeIndex] in E.
  - destruct (N.ltb_spec a n); [discriminate |]. injection E as <- <-.
    split; [| split; [auto | lia]].
    exists 0%N. cbn. split; [lia |]. split; [lia |]. intros j Hj. lia.
  - destruct (N.ltb_spec a n) as [Hlt | Hge].
    + destruct (IH _ _ _ _ _ E) as [[k [Ea [Hn Hj]]] [Hfit Hgrow]].
      split; [| split; [lia |]].
      * exists (N.succ k). split; [rewrite Ea, N.pow_succ_r'; lia |].
        split; [exact Hn |]. now apply doubling_step.
      * intros _. destruct (N.le_gt_cases n (a * 2)) as [Hle | Hgt].
        -- destruct (Hfit Hle) as [-> ->]. reflexivity.
        -- exact (Hgrow Hgt).
    + injection E as <- <-.
      split; [| split; [auto | lia]].
      exists 0%N. cbn. split; [lia |]. split; [lia |]. intros j Hj. lia.
Qed.

(** A 16-bit index of 3000 slots that must hold 40000: 6000, 12000,
    24000, 48000, still 16-bit; for 70000 it grows to 96000 and becomes
    32-bit. *)
Lemma resizeIndex_kind_witness :
  _resizeIndex 10 3000 Uint16Array 40000 = Some (48000%N, Uint16Array)
  /\ _resizeIndex 10 3000 Uint16Array 70000 = Some (96000%N, Uint32Array)
  /\ (exists k : N,
         96000%N = (3000 * 2 ^ k)%N
         /\ (70000 <= 96000)%N
         /\ (forall j : N, (j < k)%N -> (3000 * 2 ^ j < 70000)%N)).
Proof.
  split; [reflexivity |]. split; [reflexivity |].
  exact (proj1 (resizeIndex_kind 10 3000 Uint16Array 70000 96000 Uint32Array
                  eq_refl)).
Defined.

(** ** [update] and the buffers *)

Lemma resizeAttribute_grows fuel a n a' :
  _resizeAttribute fuel a n = Some a' -> (a <= a')%N /\ (n <= a')%N.
Proof.
  revert a. induction fuel as [| fuel IH]; intros a E; cbn [_resizeAttribute] in E.
  - destruct (N.ltb_spec a n); [discriminate |]. injection E as <-. lia.
  - destruct (N.ltb_spec a n).
    + destruct (IH _ E). lia.
    + injection E as <-. lia.
Qed.

Lemma resizeIndex_grows fuel a k n a' k' :
  _resizeIndex fuel a k n = Some (a', k') -> (a <= a')%N /\ (n <= a')%N.
Proof.
  revert a k. induction fuel as [| fuel IH]; intros a k E; cbn [_resizeIndex] in E.
  - destruct (N.ltb_spec a n); [discriminate |]. injection E as <- <-. lia.
  - destruct (N.ltb_spec a n).
    + destruct (IH _ _ E). lia.
    + injection E as <- <-. lia.
Qed.

Lemma updateAttributes_grows fuel this p n u u2 i g :
  _updateAttributes fuel this p n u u2 i = Some g ->
  (positionLength this <= positionLength g)%N
  /\ (normalLength this <= normalLength g)%N
  /\ (uvLength this <= uvLength g)%N
  /\ (indexLength this <= indexLength g)%N
  /\ hasUv2 g = hasUv2 this
  /\ (forall a, uv2Length this = Some a ->
                exists a', uv2Length g = Some a' /\ (a <= a')%N)
  /\ drawRange_start g = drawRange_start this
  /\ drawRange_count g = drawRange_count this
  /\ (len p <= positionLength g)%N
  /\ (len n <= normalLength g)%N
  /\ (len u <= uvLength g)%N
  /\ (forall v a', u2 = Some v -> uv2Length g = Some a' -> (len v <= a')%N)
  /\ (len i <= indexLength g)%N.
Proof.
  unfold _updateAttributes.
  destruct (_resizeAttribute fuel (positionLength this) (len p)) as [pl |] eqn:Ep;
    [| discriminate].
  destruct (_resizeAttribute fuel (normalLength this) (len n)) as [nl |] eqn:En;
    [| discriminate].
  destruct (_resizeAttribute fuel (uvLength this) (len u)) as [ul |] eqn:Eu;
    [| discriminate].
  cbn [obind].
  destruct (match u2, uv2Length this with
            | Some v, Some l0 =>
                obind (_resizeAttribute fuel l0 (len v)) (fun l' => Some (Some l'))
            | _, l0 => Some l0
            end) as [u2l |] eqn:Eu2; [| discriminate].
  cbn [obind].
  destruct (_resizeIndex fuel (indexLength this) (indexArray this) (len i))
    as [[il ik] |] eqn:Ei; [| discriminate].
  cbn [obind fst snd]. intros [= <-].
  cbn [positionLength normalLength uvLength uv2Length indexLength
       drawRange_start drawRange_count].
  apply resizeAttribute_grows in Ep, En, Eu. apply resizeIndex_grows in Ei.
  unfold hasUv2. cbn [uv2Length].
  assert (Hu2 : match uv2Length this with
                | Some a => exists a', u2l = Some a' /\ (a <= a')%N
                            /\ (forall v, u2 = Some v -> (len v <= a')%N)
                | None => u2l = None
                end).
  { destruct u2 as [v |], (uv2Length this) as [l0 |]; try (injection Eu2 as <-).
    - destruct (_resizeAttribute fuel l0 (len v)) as [l' |] eqn:E2;
        [| discriminate].
      cbn in Eu2. injection Eu2 as <-. apply resizeAttribute_grows in E2.
      exists l'. split; [reflexivity |]. split; [lia |].
      intros v' [= <-]. lia.
    - reflexivity.
    - exists l0. split; [reflexivity |]. split; [lia | discriminate].
    - reflexivity. }
  repeat split; try lia.
  - destruct (uv2Length this); [destruct Hu2 as [a' [-> _]] | rewrite Hu2];
      reflexivity.
  - intros a Ea. rewrite Ea in Hu2. destruct Hu2 as [a' [-> [Hle _]]]. eauto.
  - intros v a' -> ->.
    destruct (uv2Length this) as [a |]; [| discriminate].
    destruct Hu2 as [a'' [[= <-] [_ Hv]]]. now apply Hv.
Qed.

Lemma updateWith_inv generate fuel this l options g' :
  updateWith generate fuel this l options = Some (Normal g') ->
  (generate l options (hasUv2 this) = Normal None
   /\ g' = setDrawRangeCount this 0)
  \/ (exists d g,
         generate l options (hasUv2 this) = Normal (Some d)
         /\ _updateAttributes fuel this (position d) (normal d) (uv d)
              (if hasUv2 this then Some (uv2 d) else None) (indices d)
            = Some g
         /\ g' = setDrawRangeCount g (vcount d)).
Proof.
  unfold updateWith. cbv zeta.
  change (match uv2Length this with Some _ => true | None => false end)
    with (hasUv2 this).
  destruct (generate l options (hasUv2 this)) as [[d |] |]; [| | discriminate].
  - destruct (_updateAttributes _ _ _ _ _ _ _) as [g |] eqn:Eg; [| discriminate].
    cbn [obind]. intros [= <-]. right. eauto.
  - intros [= <-]. left. auto.
Qed.

(** After [update] no buffer is shorter than before: neither position,
    normal, uv nor the index, nor the buffer of [uv2] where the geometry
    has one; a geometry without [uv2] is given none.  [drawRange.start]
    is what it was, and every buffer is long enough for what the
    generator returned. *)
Theorem update_keeps_and_fits generate fuel this l options g' :
  updateWith generate fuel this l options = Some (Normal g') ->
  (positionLength this <= positionLength g')%N
  /\ (normalLength this <= normalLength g')%N
  /\ (uvLength this <= uvLength g')%N
  /\ (indexLength this <= indexLength g')%N
  /\ (forall a, uv2Length this = Some a ->
                exists a', uv2Length g' = Some a' /\ (a <= a')%N)
  /\ (uv2Length this = None -> uv2Length g' = None)
  /\ hasUv2 g' = hasUv2 this
  /\ drawRange_start g' = drawRange_start this
  /\ (forall d, generate l options (hasUv2 this) = Normal (Some d) ->
                Fits g' d).
Proof.
  intros E. destruct (updateWith_inv _ _ _ _ _ _ E) as [[Er ->] | [d [g [Er [Eg ->]]]]].
  - unfold setDrawRangeCount.
    cbn [positionLength normalLength uvLength uv2Length indexLength drawRange_start].
    do 4 (split; [lia |]).
    split; [intros a Ea; exists a; split; [exact Ea | lia] |].
    split; [auto |].
    do 2 (split; [reflexivity |]).
    intros d0 Ed. rewrite Er in Ed. discriminate.
  - destruct (updateAttributes_grows _ _ _ _ _ _ _ _ Eg)
      as [Hp [Hn [Hu [Hi [Hh [Hu2 [Hs [_ [Fp [Fn [Fu [Fu2 Fi]]]]]]]]]]]].
    unfold setDrawRangeCount.
    cbn [positionLength normalLength uvLength uv2Length indexLength drawRange_start].
    do 4 (split; [assumption |]).
    split; [exact Hu2 |].
    split; [intros En0; unfold hasUv2 in Hh; rewrite En0 in Hh;
            now destruct (uv2Length g) |].
    do 2 (split; [assumption |]).
    intros d' Ed. rewrite Er in Ed. injection Ed as <-.
    unfold Fits.
    cbn [positionLength normalLength uvLength uv2Length indexLength].
    do 3 (split; [assumption |]). split; [| assumption].
    intros a' Ea'. apply (Fu2 (uv2 d) a'); [| exact Ea'].
    unfold hasUv2 in Hh |- *. rewrite Ea' in Hh. now destruct (uv2Length this).
Qed.

(** A geometry for 3000 vertices updated with the ribbon of the segment
    from (0,0,0) to (10,0,0): its buffers keep their lengths or grow. *)
Lemma update_keeps_and_fits_witness :
  exists l fuel g',
    fst (set new_PathPointList [vec3 0 0 0; vec3 10 0 0] None None None None)
    = Normal l
    /\ PathGeometry.update fuel (_initByMaxVertex 3000 false) l noOptions
       = Some (Normal g')
    /\ (9000 <= positionLength g')%N
    /\ (9000 <= indexLength g')%N
    /\ uv2Length g' = None
    /\ hasUv2 g' = false.
Proof.
  destruct (set_wellformed new_PathPointList [vec3 0 0 0; vec3 10 0 0]
              None None None None) as [l [ps [E [H [H0 _]]]]].
  destruct (ribbon_total l ps noOptions false H H0) as [r Er].
  destruct (updateWith_ends PathGeometry.generatePathVertexData
              (_initByMaxVertex 3000 false) l noOptions r
              (Allocated_init 3000 false eq_refl) Er) as [fuel [g' [Eu _]]].
  destruct (update_keeps_and_fits _ _ _ _ _ _ Eu)
    as [Hp [_ [_ [Hi [_ [Hn [Hh _]]]]]]].
  exists l, fuel, g'. split; [exact E |]. split; [exact Eu |].
  split; [exact Hp |]. split; [exact Hi |]. split; [exact (Hn eq_refl) | exact Hh].
Defined.

(** [update] a second time with the same list and options changes
    nothing, and allocates nothing: no resize loop is entered. *)
Theorem update_twice_is_update_once generate fuel this l options g' :
  updateWith generate fuel this l options = Some (Normal g') ->
  forall fuel', updateWith generate fuel' g' l options = Some (Normal g').
Proof.
  intros E fuel'.
  destruct (updateWith_inv _ _ _ _ _ _ E) as [[Er ->] | [d [g [Er [Eg ->]]]]].
  - unfold updateWith. cbv zeta. cbn [setDrawRangeCount uv2Length].
    change (match uv2Length this with Some _ => true | None => false end)
      with (hasUv2 this).
    rewrite Er. reflexivity.
  - destruct (updateAttributes_grows _ _ _ _ _ _ _ _ Eg)
      as [_ [_ [_ [_ [Hh [_ [_ [_ [Fp [Fn [Fu [Fu2 Fi]]]]]]]]]]]].
    unfold updateWith. cbv zeta. cbn [setDrawRangeCount uv2Length].
    change (match uv2Length g with Some _ => true | None => false end)
      with (hasUv2 g).
    rewrite Hh, Er.
    unfold _updateAttributes, setDrawRangeCount.
    cbn [positionLength normalLength uvLength uv2Length indexLength indexArray
         drawRange_start drawRange_count].
    rewrite !resizeAttribute_fits by assumption. cbn [obind].
    destruct (hasUv2 this) eqn:Eh.
    + destruct (uv2Length g) as [l0 |] eqn:El0.
      * rewrite (resizeAttribute_fits fuel' l0 (len (uv2 d)))
          by (now apply (Fu2 (uv2 d) l0)).
        cbn [obind].
        rewrite resizeIndex_fits by assumption. cbn [obind fst snd].
        cbn [positionLength normalLength uvLength uv2Length indexLength
             indexArray drawRange_start drawRange_count].
        reflexivity.
      * cbn [obind].
        rewrite resizeIndex_fits by assumption. cbn [obind fst snd].
        cbn [positionLength normalLength uvLength uv2Length indexLength
             indexArray drawRange_start drawRange_count].
        reflexivity.
    + cbn [obind].
      rewrite resizeIndex_fits by assumption. cbn [obind fst snd].
      reflexivity.
Qed.

(** The same geometry and ribbon: a second [update], with no iteration
    of the resize loops allowed, gives the same geometry. *)
Lemma update_twice_is_update_once_witness :
  exists l fuel g',
    fst (set new_PathPointList [vec3 0 0 0; vec3 10 0 0] None None None None)
    = Normal l
    /\ PathGeometry.update fuel (_initByMaxVertex 3000 false) l noOptions
       = Some (Normal g')
    /\ PathGeometry.update 0 g' l noOptions = Some (Normal g').
Proof.
  destruct (set_wellformed new_PathPointList [vec3 0 0 0; vec3 10 0 0]
              None None None None) as [l [ps [E [H [H0 _]]]]].
  destruct (ribbon_total l ps noOptions false H H0) as [r Er].
  destruct (updateWith_ends PathGeometry.generatePathVertexData
              (_initByMaxVertex 3000 false) l noOptions r
              (Allocated_init 3000 false eq_refl) Er) as [fuel [g' [Eu _]]].
  exists l, fuel, g'. split; [exact E |]. split; [exact Eu |].
  exact (update_twice_is_update_once _ _ _ _ _ _ Eu 0%nat).
Defined.

(** ** A geometry made from data *)

Lemma initByData_inv generate count0 l options g geo :
  _initByData generate count0 l options g = Normal geo ->
  (exists d,
      generate l (JS.defined_or options noOptions) g = Normal (Some d)
      /\ vcount d <> 0%Z
      /\ geo = {| positionLength := len (position d);
                  normalLength := len (normal d);
                  uvLength := len (uv d);
                  uv2Length := if g then Some (len (uv2 d)) else None;
                  indexLength := len (indices d);
                  indexArray := if (65536 * 3 <? len (position d))%N
                                then Uint32Array else Uint16Array;
                  drawRange_start := 0;
                  drawRange_count := count0 |})
  \/ ((generate l (JS.defined_or options noOptions) g = Normal None
       \/ exists d, generate l (JS.defined_or options noOptions) g
                    = Normal (Some d) /\ vcount d = 0%Z)
      /\ geo = _initByMaxVertex 2 g).
Proof.
  unfold _initByData. cbv zeta.
  destruct (generate l (JS.defined_or options noOptions) g) as [[d |] |];
    cbn [JS.bind]; [| | discriminate].
  - destruct (Z.eqb_spec (vcount d) 0) as [Hz | Hnz]; cbn [negb].
    + intros [= <-]. right. split; [right; eauto | reflexivity].
    + intros [= <-]. left. exists d. auto.
  - intros [= <-]. right. split; [now left | reflexivity].
Qed.

(** A geometry made from data, then updated with the same list and
    options.  When the generator returned vertices with a [count] other
    than 0, the buffers were made as long as its arrays (the one of [uv2]
    too, which exists exactly if [generateUv2]), the index is a
    [Uint32Array] exactly if position holds more than 65536 * 3 numbers,
    the draw range is the one of a new geometry, and [update] enters no
    resize loop: it only sets [drawRange.count].  Otherwise (the
    generator returned null, or a [count] of 0) the geometry is the one
    [_initByMaxVertex] makes for two vertices, and [update] ends. *)
Theorem initByData_then_update generate count0 l options g geo :
  _initByData generate count0 l (Some options) g = Normal geo ->
  hasUv2 geo = g
  /\ (forall d, generate l options g = Normal (Some d) -> vcount d <> 0%Z ->
                positionLength geo = len (position d)
                /\ normalLength geo = len (normal d)
                /\ uvLength geo = len (uv d)
                /\ uv2Length geo = (if g then Some (len (uv2 d)) else None)
                /\ indexLength geo = len (indices d)
                /\ indexArray geo = (if (65536 * 3 <? len (position d))%N
                                     then Uint32Array else Uint16Array)
                /\ drawRange_start geo = 0%Z
                /\ drawRange_count geo = count0
                /\ forall fuel,
                     updateWith generate fuel geo l options
                     = Some (Normal (setDrawRangeCount geo (vcount d))))
  /\ (generate l options g = Normal None -> geo = _initByMaxVertex 2 g)
  /\ (forall d, generate l options g = Normal (Some d) -> vcount d = 0%Z ->
                geo = _initByMaxVertex 2 g)
  /\ exists fuel geo',
       updateWith generate fuel geo l options = Some (Normal geo').
Proof.
  intros E.
  destruct (initByData_inv _ _ _ _ _ _ E) as [[d [Ed [Hnz ->]]] | [Hr ->]];
    cbn [JS.defined_or] in *.
  - assert (Hh : hasUv2
                   {| positionLength := len (position d);
                      normalLength := len (normal d);
                      uvLength := len (uv d);
                      uv2Length := if g then Some (len (uv2 d)) else None;
                      indexLength := len (indices d);
                      indexArray := if (65536 * 3 <? len (position d))%N
                                    then Uint32Array else Uint16Array;
                      drawRange_start := 0;
                      drawRange_count := count0 |} = g)
      by (unfold hasUv2; cbn [uv2Length]; now destruct g).
    assert (Hup : forall fuel,
               updateWith generate fuel
                 {| positionLength := len (position d);
                    normalLength := len (normal d);
                    uvLength := len (uv d);
                    uv2Length := if g then Some (len (uv2 d)) else None;
                    indexLength := len (indices d);
                    indexArray := if (65536 * 3 <? len (position d))%N
                                  then Uint32Array else Uint16Array;
                    drawRange_start := 0;
                    drawRange_count := count0 |} l options
               = Some (Normal
                   (setDrawRangeCount
                      {| positionLength := len (position d);
                         normalLength := len (normal d);
                         uvLength := len (uv d);
                         uv2Length := if g then Some (len (uv2 d)) else None;
                         indexLength := len (indices d);
                         indexArray := if (65536 * 3 <? len (position d))%N
                                       then Uint32Array else Uint16Array;
                         drawRange_start := 0;
                         drawRange_count := count0 |} (vcount d)))).
    { intros fuel. unfold updateWith. cbv zeta. cbn [uv2Length].
      replace (match (if g then Some (len (uv2 d)) else None) with
               | Some _ => true | None => false end) with g by now destruct g.
      rewrite Ed. unfold _updateAttributes.
      cbn [positionLength normalLength uvLength uv2Length indexLength indexArray
           drawRange_start drawRange_count].
      rewrite !resizeAttribute_fits by lia. cbn [obind].
      destruct g.
      - rewrite resizeAttribute_fits by lia. cbn [obind].
        rewrite resizeIndex_fits by lia. reflexivity.
      - cbn [obind]. rewrite resizeIndex_fits by lia. reflexivity. }
    split; [exact Hh |]. split; [| split; [| split]].
    + intros d' Ed' _. rewrite Ed in Ed'. injection Ed' as <-.
      cbn [positionLength normalLength uvLength uv2Length indexLength indexArray
           drawRange_start drawRange_count].
      do 8 (split; [reflexivity |]). exact Hup.
    + intros Hn. rewrite Ed in Hn. discriminate.
    + intros d' Ed' Hz. rewrite Ed in Ed'. injection Ed' as <-. contradiction.
    + exists 0%nat. eexists. apply Hup.
  - split; [unfold hasUv2; cbn; now destruct g |]. split; [| split; [| split]].
    + intros d Ed Hnz. exfalso. destruct Hr as [Hr | [d' [Hr Hz]]];
        rewrite Ed in Hr; [discriminate | injection Hr as <-; contradiction].
    + reflexivity.
    + reflexivity.
    + assert (Ha : Allocated (_initByMaxVertex 2 g))
        by (apply Allocated_init; reflexivity).
      assert (Hh : hasUv2 (_initByMaxVertex 2 g) = g)
        by (unfold hasUv2; cbn; now destruct g).
      destruct Hr as [Hr | [d' [Hr Hz]]].
      * destruct (updateWith_ends generate _ l options None Ha) as [fuel [g' [Eu _]]];
          [now rewrite Hh | eauto].
      * destruct (updateWith_ends generate _ l options (Some d') Ha)
          as [fuel [g' [Eu _]]]; [now rewrite Hh | eauto].
Qed.

(** A ribbon geometry made from the segment from (0,0,0) to (10,0,0):
    an [update] with the same segment ends. *)
Lemma initByData_then_update_witness :
  exists l geo fuel geo',
    fst (set new_PathPointList [vec3 0 0 0; vec3 10 0 0] None None None None)
    = Normal l
    /\ _initByData PathGeometry.generatePathVertexData 0 l (Some noOptions) false
       = Normal geo
    /\ hasUv2 geo = false
    /\ PathGeometry.update fuel geo l noOptions = Some (Normal geo').
Proof.
  destruct (set_wellformed new_PathPointList [vec3 0 0 0; vec3 10 0 0]
              None None None None) as [l [ps [E [H [H0 _]]]]].
  destruct (ribbon_total l ps noOptions false H H0) as [r Er].
  assert (Hgeo : exists geo,
             _initByData PathGeometry.generatePathVertexData 0 l (Some noOptions)
               false = Normal geo).
  { unfold _initByData. cbv zeta. cbn [JS.defined_or]. rewrite Er. cbn [JS.bind].
    destruct r as [d |]; [destruct (negb _) |]; eauto. }
  destruct Hgeo as [geo Egeo].
  destruct (initByData_then_update _ _ _ _ _ _ Egeo)
    as [Hh [_ [_ [_ [fuel [geo' Eu]]]]]].
  exists l, geo, fuel, geo'. auto.
Defined.

(** The index of a geometry made from data is wide enough: when it is
    made a [Uint16Array], every index the generator returned is at most
    65535. *)
Theorem initByData_index_holds_indices count0 l options g :
  let o := JS.defined_or options noOptions in
  (forall geo d,
      _initByData PathGeometry.generatePathVertexData count0 l options g
      = Normal geo ->
      PathGeometry.generatePathVertexData l o g = Normal (Some d) ->
      vcount d <> 0%Z -> indexArray geo = Uint16Array ->
      Forall (fun i => (0 <= i <= 65535)%Z) (indices d))
  /\ (forall geo d,
         _initByData PathTubeGeometry.generateTubeVertexData_1 count0 l options g
         = Normal geo ->
         PathTubeGeometry.generateTubeVertexData_1 l o g = Normal (Some d) ->
         vcount d <> 0%Z -> indexArray geo = Uint16Array ->
         Forall (fun i => (0 <= i <= 65535)%Z) (indices d))
  /\ (forall geo d,
         _initByData PathRectangleGeometry5.generateTubeVertexData count0 l
           options g = Normal geo ->
         PathRectangleGeometry5.generateTubeVertexData l o g = Normal (Some d) ->
         vcount d <> 0%Z -> indexArray geo = Uint16Array ->
         Forall (fun i => (0 <= i <= 65535)%Z) (indices d))
  /\ (forall geo d,
         _initByData PathRectangleGeometry8.generateTubeVertexData count0 l
           options g = Normal geo ->
         PathRectangleGeometry8.generateTubeVertexData l o g = Normal (Some d) ->
         vcount d <> 0%Z -> indexArray geo = Uint16Array ->
         Forall (fun i => (0 <= i <= 65535)%Z) (indices d)).
Proof.
  intros o.
  assert (Hgen : forall generate g' geo d,
             _initByData generate count0 l options g = Normal geo ->
             generate l o g = Normal (Some d) ->
             vcount d <> 0%Z -> indexArray geo = Uint16Array ->
             Shaped g' d /\ IndicesInRange d ->
             Forall (fun i => (0 <= i <= 65535)%Z) (indices d)).
  { intros generate g' geo d E Ed Hnz Hk [[Hp _] Hi].
    unfold o in Ed.
    destruct (initByData_inv _ _ _ _ _ _ E) as [[d' [Ed' [_ ->]]] | [Hr _]].
    - rewrite Ed in Ed'. injection Ed' as <-. cbn [indexArray] in Hk.
      destruct (N.ltb_spec (65536 * 3) (len (position d))) as [Hlt | Hle];
        [discriminate |].
      unfold len in Hle.
      eapply Forall_impl; [| exact Hi]. intros i Hi'. cbv beta in Hi'. lia.
    - exfalso. destruct Hr as [Hr | [d' [Hr Hz]]]; rewrite Ed in Hr;
        [discriminate | injection Hr as <-; contradiction]. }
  split; [intros geo d E Ed Hnz Hk;
          exact (Hgen _ g geo d E Ed Hnz Hk (ribbon_sound _ _ _ _ Ed)) |].
  split; [intros geo d E Ed Hnz Hk;
          exact (Hgen _ g geo d E Ed Hnz Hk (tube_sound _ _ _ _ Ed)) |].
  split; [intros geo d E Ed Hnz Hk;
          exact (Hgen _ g geo d E Ed Hnz Hk (rect5_sound _ _ _ _ Ed)) |].
  intros geo d E Ed Hnz Hk.
  exact (Hgen _ false geo d E Ed Hnz Hk (rect8_sound _ _ _ _ Ed)).
Qed.

(** The ribbon of the segment from (0,0,0) to (10,0,0), without arrow:
    the geometry made from it has a 16-bit index, which holds its six
    indices. *)
Lemma initByData_index_holds_indices_witness :
  exists l geo d,
    fst (set new_PathPointList [vec3 0 0 0; vec3 10 0 0] None None None None)
    = Normal l
    /\ _initByData PathGeometry.generatePathVertexData 0 l
         (Some (mkOptions None None None None (Some false) None None None))
         false = Normal geo
    /\ PathGeometry.generatePathVertexData l
         (mkOptions None None None None (Some false) None None None) false
       = Normal (Some d)
    /\ indexArray geo = Uint16Array
    /\ Forall (fun i => (0 <= i <= 65535)%Z) (indices d).
Proof.
  destruct straight_ribbon as [l [d [E [Hg [Hlen Hc]]]]].
  set (o := mkOptions None None None None (Some false) None None None) in *.
  assert (Egeo : _initByData PathGeometry.generatePathVertexData 0 l (Some o)
                   false
                 = Normal
                     {| positionLength := len (position d);
                        normalLength := len (normal d);
                        uvLength := len (uv d);
                        uv2Length := None;
                        indexLength := len (indices d);
                        indexArray := if (65536 * 3 <? len (position d))%N
                                      then Uint32Array else Uint16Array;
                        drawRange_start := 0;
                        drawRange_count := 0 |}).
  { unfold _initByData. cbv zeta. cbn [JS.defined_or]. rewrite Hg.
    cbn [JS.bind]. rewrite Hc. reflexivity. }
  assert (Hk : indexArray
                 {| positionLength := len (position d);
                    normalLength := len (normal d);
                    uvLength := len (uv d);
                    uv2Length := None;
                    indexLength := len (indices d);
                    indexArray := if (65536 * 3 <? len (position d))%N
                                  then Uint32Array else Uint16Array;
                    drawRange_start := 0;
                    drawRange_count := 0 |} = Uint16Array).
  { cbn [indexArray]. unfold len. rewrite Hlen. reflexivity. }
  eexists l, _, d. split; [exact E |]. split; [exact Egeo |].
  split; [exact Hg |]. split; [exact Hk |].
  refine (proj1 (initByData_index_holds_indices 0 l (Some o) false) _ d
            Egeo Hg _ Hk).
  rewrite Hc. discriminate.
Defined.

(** ** The frame of the first sample *)

Lemma leb_true (a b : R) : a <= b -> JS.leb a b = true.
Proof. intros H. unfold JS.leb. destruct (Rle_dec a b); [reflexivity | contradiction]. Qed.

Lemma leb_false (a b : R) : b < a -> JS.leb a b = false.
Proof. intros H. unfold JS.leb. destruct (Rle_dec a b); [lra | reflexivity]. Qed.

Lemma initialUp_axis d up0 :
  Rabs (x d) < JS.MAX_VALUE -> initialUp d up0 = smallestAxis d.
Proof.
  intros Hx. unfold initialUp, smallestAxis. cbv zeta.
  rewrite (ltb_true _ _ Hx).
  destruct (Rlt_le_dec (Rabs (y d)) (Rabs (x d))) as [Hyx | Hxy].
  - rewrite (ltb_true _ _ Hyx), (leb_false _ _ Hyx). cbn [andb].
    destruct (Rlt_le_dec (Rabs (z d)) (Rabs (y d))) as [Hzy | Hyz].
    + now rewrite (ltb_true _ _ Hzy), (leb_false _ _ Hzy).
    + now rewrite (ltb_false _ _ Hyz), (leb_true _ _ Hyz).
  - rewrite (ltb_false _ _ Hxy), (leb_true _ _ Hxy). cbn [andb].
    destruct (Rlt_le_dec (Rabs (z d)) (Rabs (x d))) as [Hzx | Hxz].
    + rewrite (ltb_true _ _ Hzx), (leb_false _ _ Hzx).
      rewrite leb_false by lra. reflexivity.
    + now rewrite (ltb_false _ _ Hxz), (leb_true _ _ Hxz).
Qed.

Lemma normalize_scale v k :
  0 < k -> normalize (multiplyScalar v k) = normalize v.
Proof.
  intros Hk. destruct (Req_dec_T (dot v v) 0) as [E | E].
  - rewrite (zero_of_dot v E).
    replace (multiplyScalar zero k) with zero; [reflexivity |].
    unfold multiplyScalar, zero. cbn [x y z]. f_equal; ring.
  - assert (Hv : v <> zero).
    { intros ->. apply E. unfold dot, zero. cbn. ring. }
    pose proof (length_pos v Hv) as Hl.
    unfold normalize, divideScalar, JS.or.
    rewrite length_multiplyScalar, Rabs_pos_eq by lra.
    rewrite !eqb_false by nra.
    unfold multiplyScalar. cbn [x y z]. f_equal; field; lra.
Qed.

Lemma triple_cross d e :
  cross (cross d e) d
  = sub (multiplyScalar e (dot d d)) (multiplyScalar d (dot d e)).
Proof.
  destruct d, e. unfold cross, sub, multiplyScalar, dot. cbn [x y z].
  f_equal; ring.
Qed.

(** The normal [_start] makes from the tangent [d] and the vector [e]:
    [e] made orthogonal to [d], with length 1. *)
Lemma start_up d e :
  cross d e <> zero ->
  normalize (cross (normalize (cross d e)) d)
  = normalize (sub (multiplyScalar e (dot d d)) (multiplyScalar d (dot d e))).
Proof.
  intros Hc. rewrite (normalize_nonzero _ Hc), cross_multiplyScalar_l.
  rewrite normalize_scale
    by (apply Rinv_0_lt_compat, length_pos, Hc).
  now rewrite triple_cross.
Qed.

(** The first sample of an open path, no normal being forced and the
    first segment [d] being shorter than [Number.MAX_VALUE] along x and
    not of length 0: it is at the first point, its tangent is [d] with
    length 1, its binormal is [d x e] with length 1 and its normal is
    [e] made orthogonal to [d] with length 1 ([e * (d . d) - d * (d . e)]
    with length 1), where [e] is the axis on which [d] has its smallest
    component in absolute value. *)
Theorem set_first_frame this points cr cs cl c0 c1 :
  nth_error points 0 = Some c0 -> nth_error points 1 = Some c1 ->
  JS.defined_or cl false = false ->
  c1 <> c0 -> Rabs (x (sub c1 c0)) < JS.MAX_VALUE ->
  let d := sub c1 c0 in
  let e := smallestAxis d in
  exists l p0,
    fst (set this points cr cs None cl) = Normal l
    /\ JS.get (array l) 0 = Some p0
    /\ pos p0 = c0 /\ dist p0 = 0
    /\ dir p0 = normalize d
    /\ right p0 = normalize (cross d e)
    /\ up p0 = normalize (sub (multiplyScalar e (dot d d))
                             (multiplyScalar d (dot d e))).
Proof.
  intros E0 E1 Hopen Hne Hx d e.
  assert (Hlen : (2 <= List.length points)%nat).
  { assert (1 < List.length points)%nat by (apply nth_error_Some; congruence).
    lia. }
  destruct (set_spec this points cr cs None cl Hlen)
    as [l [ps [E [_ [_ [H [_ Hhead]]]]]]].
  destruct Hhead as [point [c0' [c1' [tl [E0' [E1' Eps]]]]]].
  rewrite E0 in E0'. rewrite E1 in E1'.
  injection E0' as <-. injection E1' as <-.
  rewrite Hopen in H. rewrite Eps in H.
  exists l, (startPoint point c0 c1 None).
  rewrite E. split; [reflexivity |].
  split; [exact (Holds_first _ _ _ H) |].
  assert (Hd : d <> zero).
  { intros Hz. apply Hne. now apply sub_zero_eq. }
  unfold startPoint. cbn [pos dist dir right up]. fold d.
  rewrite (initialUp_axis d (up point) Hx). fold e.
  repeat (split; [reflexivity |]).
  apply start_up. unfold e. rewrite <- (initialUp_axis d (up point) Hx).
  now apply initialUp_not_parallel.
Qed.

(** The segment from (0,0,0) to (10,0,0): the axis is y (the components
    along y and z are both 0, and y comes first), so the normal is along
    y and the binormal along z. *)
Lemma set_first_frame_witness :
  exists l p0,
    fst (set new_PathPointList [vec3 0 0 0; vec3 10 0 0] None None None None)
    = Normal l
    /\ JS.get (array l) 0 = Some p0
    /\ pos p0 = vec3 0 0 0 /\ dist p0 = 0
    /\ dir p0 = normalize (sub (vec3 10 0 0) (vec3 0 0 0))
    /\ smallestAxis (sub (vec3 10 0 0) (vec3 0 0 0)) = vec3 0 1 0.
Proof.
  destruct (set_first_frame new_PathPointList [vec3 0 0 0; vec3 10 0 0]
              None None None (vec3 0 0 0) (vec3 10 0 0) eq_refl eq_refl eq_refl)
    as [l [p0 [E [Hg [Hp [Hd0 [Hdir _]]]]]]].
  - intros [= Habs]. lra.
  - cbn [sub x]. rewrite Rabs_pos_eq by lra.
    pose proof MAX_VALUE_large. lra.
  - exists l, p0. repeat (split; [assumption |]).
    unfold smallestAxis. cbn [sub x y z]. cbv zeta.
    replace (0 - 0) with 0 by ring. replace (10 - 0) with 10 by ring.
    rewrite Rabs_R0, (Rabs_pos_eq 10) by lra.
    rewrite (leb_false 10 0) by lra. cbn [andb].
    now rewrite (leb_true 0 0) by lra.
Defined.

(** ** Progress 0, on a list of two samples *)

(** A list of two samples, at (0,0,0) and at (10,0,0), with
    [progress = 0]: the tubes are [null], and the ribbon is the arrow
    head at the first sample, from (0,0,-0.1) and (0,0,0.1) to the tip
    (0.15,0,0). *)
Lemma progress_zero_results_witness :
  let p0 := mkPathPoint (vec3 0 0 0) (vec3 1 0 0) (vec3 0 0 1) (vec3 0 1 0)
              0 1 false in
  let p1 := mkPathPoint (vec3 10 0 0) (vec3 1 0 0) (vec3 0 0 1) (vec3 0 1 0)
              10 1 false in
  let l := mkPathPointList (map Some [p0; p1]) 2 in
  let options := mkOptions None None None (Some 0) None None None None in
  PathTubeGeometry.generateTubeVertexData_1 l options false = Normal None
  /\ PathRectangleGeometry5.generateTubeVertexData l options false = Normal None
  /\ PathRectangleGeometry8.generateTubeVertexData l options false = Normal None
  /\ exists d,
       PathGeometry.generatePathVertexData l options false = Normal (Some d)
       /\ position d = [0; 0; -0.1; 0; 0; 0.1; 0.15; 0; 0]
       /\ normal d = [0; 1; 0; 0; 1; 0; 0; 1; 0]
       /\ vertices d = 3%Z /\ indices d = [2; 0; 1]%Z /\ vcount d = 3%Z.
Proof.
  intros p0 p1 l options.
  destruct (progress_zero_results l [p0; p1] options false
              (Holds_literal [p0; p1]) eq_refl)
    as [Ht [H5 [H8 [_ [_ Harrow]]]]].
  split; [exact Ht |]. split; [exact H5 |]. split; [exact H8 |].
  destruct Harrow as [first [rest [d [E [_ [Ed [Hp [Hn Hc]]]]]]]].
  - unfold totalOf, lastSample. cbn. lra.
  - reflexivity.
  - injection E as <- _.
    exists d. split; [exact Ed |].
    split; [| split; [rewrite Hn; reflexivity | exact Hc]].
    rewrite Hp. cbn [JS.opt_or JS.defined_or width side options String.eqb
                     Ascii.eqb Bool.eqb].
    unfold setLength. cbn [p0 pos dir right].
    rewrite (normalize_on_x_pos (vec3 1 0 0)) by (cbn [x y z]; lra).
    unfold xyz, add, sub, multiplyScalar. cbn [x y z app].
    repeat (apply (f_equal2 (@cons R)); [lra |]); reflexivity.
Defined.

(** ** The rings of the truncated path *)

Lemma fold_left_positions {A : Type} (f : Build -> A -> Build)
    (ring : A -> list R) :
  (forall b a, position (data (f b a)) = position (data b) ++ ring a) ->
  forall xs b,
    position (data (fold_left f xs b)) = position (data b) ++ flat_map ring xs.
Proof.
  intros Hstep. induction xs as [| a xs IH]; intros b; cbn [fold_left flat_map].
  - now rewrite app_nil_r.
  - rewrite IH, Hstep, <- app_assoc. reflexivity.
Qed.

Lemma pushQuad_fold_position begin1 begin2 xs :
  forall b,
    position (data (fold_left (pushQuad begin1 begin2) xs b))
    = position (data b).
Proof.
  induction xs as [| i xs IH]; intros b; cbn [fold_left]; [reflexivity |].
  rewrite IH. reflexivity.
Qed.

Lemma tube_addVertices_position c td sr g rad rs b p :
  position (data (PathTubeGeometry.addVertices c td sr g rad rs b p))
  = position (data b) ++ tubeRing sr rad rs p.
Proof.
  unfold PathTubeGeometry.addVertices, tubeRing. cbv zeta.
  assert (Hring : forall xs b0,
             position (data (fold_left
                               (PathTubeGeometry.pushRingVertex c td sr g p rad rs)
                               xs b0))
             = position (data b0)
               ++ flat_map
                    (fun r =>
                       let _r := if (r =? rs)%Z then 0%Z else r in
                       let normalDir :=
                         normalize (applyAxisAngle (up p) (dir p)
                                      (sr + PI * 2 * IZR _r / IZR rs)) in
                       [x (pos p) + x normalDir * rad * widthScale p;
                        y (pos p) + y normalDir * rad * widthScale p;
                        z (pos p) + z normalDir * rad * widthScale p]) xs).
  { apply fold_left_positions. intros b0 r. reflexivity. }
  destruct (negb _).
  - rewrite pushQuad_fold_position. apply Hring.
  - apply Hring.
Qed.

Lemma rect5_addVertices_position c td g w h b p :
  position (data (PathRectangleGeometry5.addVertices c td g w h b p))
  = position (data b) ++ rect5Ring w h p.
Proof.
  unfold PathRectangleGeometry5.addVertices, rect5Ring. cbv zeta.
  assert (Hring :
            position (data (fst (fold_left
                                   (PathRectangleGeometry5.pushRingVertex
                                      c td g p w h)
                                   (upto (4 + 1)) (b, 0))))
            = position (data b)
              ++ rect5Ring w h p).
  { change (upto (4 + 1)) with [0; 1; 2; 3; 4]%Z. cbn [fold_left].
    unfold PathRectangleGeometry5.pushRingVertex, rect5Ring.
    cbn [data position fst snd Z.eqb Pos.eqb orb].
    rewrite <- ?app_assoc. reflexivity. }
  unfold rect5Ring in Hring. cbv zeta in Hring.
  destruct (negb _).
  - rewrite pushQuad_fold_position. exact Hring.
  - exact Hring.
Qed.

Lemma rect8_addVertices_position w h hw hh st td b p :
  position (data (PathRectangleGeometry8.addVertices w h hw hh st td b p))
  = position (data b) ++ rect8Ring hw hh p.
Proof. reflexivity. Qed.

Lemma ribbon_addVertices_position hw sw td side_ g b p :
  sharp p = false ->
  position (data (PathGeometry.addVertices hw sw td side_ g b p))
  = position (data b) ++ ribbonRing hw side_ p.
Proof.
  intros Hs. unfold PathGeometry.addVertices, ribbonRing. rewrite Hs.
  cbn [andb data position]. reflexivity.
Qed.

Lemma addStart_position w hw sw td side_ g b p :
  position (data (PathGeometry.addStart w hw sw td side_ g b p))
  = position (data b) ++ arrowHead hw side_ p.
Proof. reflexivity. Qed.

Lemma tube_rings_counts c td sr g rad rs vs :
  (0 <= rs)%Z -> vs <> [] ->
  let b := fold_left (PathTubeGeometry.addVertices c td sr g rad rs) vs
             emptyBuild in
  Z.of_nat (List.length (indices (data b)))
  = (6 * rs * (Z.of_nat (List.length vs) - 1))%Z
  /\ vcount (data b) = Z.of_nat (List.length (indices (data b))).
Proof.
  intros Hrs Hne. cbv zeta. split.
  - destruct vs as [| p0 tl]; [contradiction |]. cbn [fold_left List.length].
    destruct (tube_ring_lengths c td sr g rad rs emptyBuild p0) as [Hp0 Hi0].
    cbv zeta in Hp0, Hi0.
    change (List.length (position (data emptyBuild))) with 0%nat in Hp0, Hi0.
    change (List.length (indices (data emptyBuild))) with 0%nat in Hi0.
    cbn [Nat.eqb Nat.add] in Hp0, Hi0.
    destruct (tube_rings_lengths c td sr g rad rs tl Hrs
                (PathTubeGeometry.addVertices c td sr g rad rs emptyBuild p0))
      as [_ Hin]; [rewrite Hp0; lia |].
    cbv zeta in Hin. rewrite Hin, Hi0. lia.
  - apply (fold_left_invariant countsIndices _
             (fun b p => countsIndices_tube_addVertices _ _ _ _ _ _ b p)
             vs emptyBuild countsIndices_empty).
Qed.

Lemma rect5_rings_counts c td g w h vs :
  vs <> [] ->
  let b := fold_left (PathRectangleGeometry5.addVertices c td g w h) vs
             emptyBuild in
  Z.of_nat (List.length (indices (data b)))
  = (24 * (Z.of_nat (List.length vs) - 1))%Z
  /\ vcount (data b) = Z.of_nat (List.length (indices (data b))).
Proof.
  intros Hne. cbv zeta. split.
  - destruct vs as [| p0 tl]; [contradiction |]. cbn [fold_left List.length].
    destruct (rect5_ring_lengths c td g w h emptyBuild p0) as [Hp0 Hi0].
    cbv zeta in Hp0, Hi0.
    change (List.length (position (data emptyBuild))) with 0%nat in Hp0, Hi0.
    change (List.length (indices (data emptyBuild))) with 0%nat in Hi0.
    cbn [Nat.eqb Nat.add] in Hp0, Hi0.
    destruct (rect5_rings_lengths c td g w h tl
                (PathRectangleGeometry5.addVertices c td g w h emptyBuild p0))
      as [_ Hin]; [rewrite Hp0; lia |].
    cbv zeta in Hin. rewrite Hin, Hi0. lia.
  - apply (fold_left_invariant countsIndices _
             (fun b p => countsIndices_rect5_addVertices _ _ _ _ _ b p)
             vs emptyBuild countsIndices_empty).
Qed.

Lemma rect8_rings_counts w h hw hh st td vs :
  vs <> [] ->
  let d := rect8_result
             (fold_left (PathRectangleGeometry8.addVertices w h hw hh st td) vs
                emptyBuild) in
  Z.of_nat (List.length (indices d))
  = (24 * (Z.of_nat (List.length vs) - 1))%Z
  /\ vcount d = (8 * Z.of_nat (List.length vs))%Z.
Proof.
  intros Hne. cbv zeta.
  set (b := fold_left _ vs emptyBuild).
  destruct (rect8_rings_lengths w h hw hh st td vs emptyBuild)
    as [Hlen [Hidx Hcount]].
  cbv zeta in Hlen, Hidx, Hcount. fold b in Hlen, Hidx, Hcount.
  change (List.length (position (data emptyBuild))) with 0%nat in Hlen.
  change (indices (data emptyBuild)) with (@nil Z) in Hidx.
  change (vcount (data emptyBuild)) with 0%Z in Hcount.
  assert (Hv : vertices (data b) = (8 * Z.of_nat (List.length vs))%Z).
  { unfold vertices. rewrite Hlen.
    replace (Z.of_nat (0 + 24 * List.length vs))
      with ((8 * Z.of_nat (List.length vs)) * 3)%Z by lia.
    apply Z.div_mul. lia. }
  unfold rect8_result. cbn [indices vcount].
  split; [| lia].
  rewrite Hv, Hidx, Hcount, Z.add_0_l.
  change 0%Z with (8 * Z.of_nat 0)%Z at 1.
  rewrite (facesLoop_length (List.length vs) (List.length vs)); [| lia | lia].
  destruct vs; [contradiction | cbn [List.length]; lia].
Qed.

Lemma ribbon_rings_counts hw sw td side_ g vs :
  vs <> [] ->
  let b := fold_left (PathGeometry.addVertices hw sw td side_ g) vs
             emptyBuild in
  let n := Z.of_nat (List.length vs) in
  let s := Z.of_nat (List.length (filter sharp (List.tl vs))) in
  Z.of_nat (List.length (position (data b))) = (3 * (2 * n + 4 * s))%Z
  /\ Z.of_nat (List.length (indices (data b))) = (6 * (n - 1) + 6 * s)%Z
  /\ vcount (data b) = Z.of_nat (List.length (indices (data b))).
Proof.
  intros Hne. cbv zeta.
  assert (Hc : countsIndices
                 (fold_left (PathGeometry.addVertices hw sw td side_ g) vs
                    emptyBuild)).
  { apply (fold_left_invariant countsIndices _
             (fun b p => countsIndices_ribbon_addVertices _ _ _ _ _ b p)
             vs emptyBuild countsIndices_empty). }
  destruct vs as [| p0 tl]; [contradiction |].
  cbn [fold_left List.length List.tl] in *.
  destruct (ribbon_ring_lengths hw sw td side_ g emptyBuild p0) as [Hp0 Hi0].
  cbv zeta in Hp0, Hi0.
  change (List.length (position (data emptyBuild))) with 0%nat in Hp0, Hi0.
  change (List.length (indices (data emptyBuild))) with 0%nat in Hi0.
  cbn [Nat.eqb Nat.add negb] in Hp0, Hi0. rewrite andb_false_r in Hp0.
  destruct (ribbon_rings_lengths hw sw td side_ g tl
              (PathGeometry.addVertices hw sw td side_ g emptyBuild p0))
    as [Hpn Hin]; [rewrite Hp0; lia |].
  cbv zeta in Hpn, Hin.
  split; [rewrite Hpn, Hp0; lia |]. split; [rewrite Hin, Hi0; lia | exact Hc].
Qed.

Lemma fold_left_snoc {A B : Type} (f : A -> B -> A) xs x a :
  f (fold_left f xs a) x = fold_left f (xs ++ [x]) a.
Proof. now rewrite fold_left_app. Qed.

(** The sample interpolated between [prev] and [cur]: every field of its
    frame lies between theirs, at [alpha]. *)
Lemma truncated_fields pd prev cur :
  dist prev <= pd -> pd < dist cur ->
  let alpha := (pd - dist prev) / (dist cur - dist prev) in
  let between (a b : Vector3) :=
    vec3 (x a + (x b - x a) * alpha) (y a + (y b - y a) * alpha)
         (z a + (z b - z a) * alpha) in
  let last := truncated pd prev cur in
  0 <= alpha < 1
  /\ pos last = between (pos prev) (pos cur)
  /\ dir last = between (dir prev) (dir cur)
  /\ up last = between (up prev) (up cur)
  /\ right last = between (right prev) (right cur)
  /\ dist last = pd
  /\ widthScale last
     = widthScale prev + (widthScale cur - widthScale prev) * alpha
  /\ sharp last = false.
Proof.
  intros H1 H2. cbv zeta.
  assert (Hd : 0 < dist cur - dist prev) by lra.
  split.
  { split.
    - unfold Rdiv. apply Rmult_le_pos; [lra |].
      left. now apply Rinv_0_lt_compat.
    - apply (Rmult_lt_reg_r (dist cur - dist prev)); [exact Hd |].
      unfold Rdiv. rewrite Rmult_assoc, Rinv_l by lra. lra. }
  unfold truncated, lerpPathPoints, lerpVectors.
  cbn [pos dir up right dist widthScale sharp new_PathPoint].
  do 4 (split; [reflexivity |]).
  split; [field; lra |]. split; [ring | reflexivity].
Qed.

(** C3.  On samples that start at distance 0 and do not decrease, with a
    positive total distance and [0 < progress < 1], let
    [pd = progress * totalDistance].  The samples split as
    [pre ++ [prev]], exactly those whose [dist] is at most [pd], followed
    by [cur], the first whose [dist] exceeds [pd].  Every generator adds
    one ring for each sample of [pre ++ [prev]], in order, then one ring
    for the sample [last] interpolated between [prev] and [cur] at
    [alpha = (pd - prev.dist) / (cur.dist - prev.dist)], and no more.
    [last] holds [a + (b - a) * alpha] in every coordinate of [pos],
    [dir], [up] and [right] and in [widthScale], its [dist] is [pd], and
    it is not marked sharp.  With [n] samples in [pre ++ [prev]], the
    arrays returned hold [n + 1] rings: the positions of the tubes are
    the rings of these samples followed by the ring of [last], joined by
    [n] bands of indices; the positions of the ribbon end with the two
    vertices of [last], followed by the arrow head at [last] when there
    is an arrow. *)
Theorem progress_truncation l ps options g p :
  Holds l ps -> startsAtZero ps -> nondecreasing (map dist ps) ->
  0 < totalOf ps -> progress options = Some p -> 0 < p < 1 ->
  let pd := p * totalOf ps in
  let radius_ := JS.opt_or (radius options) 0.1 in
  let startRad_ := JS.opt_or (startRad options) 0 in
  let rs := PathTubeGeometry.effectiveRadialSegments options in
  let width5 := JS.opt_or (width options) 1 in
  let height_ := JS.opt_or (height options) 0.5 in
  let widthR := JS.opt_or (width options) 0.1 in
  let side_ := JS.defined_or (side options) "both"%string in
  let sideWidth :=
    if negb (String.eqb side_ "both") then widthR / 2 else widthR in
  let arrow_ := JS.defined_or (arrow options) true in
  let addTube :=
    PathTubeGeometry.addVertices (radius_ * 2 * PI) (totalOf ps)
      startRad_ g radius_ rs in
  let addRect5 :=
    PathRectangleGeometry5.addVertices (radius_ * 2 * PI) (totalOf ps) g
      width5 height_ in
  let addRect8 :=
    PathRectangleGeometry8.addVertices width5 height_ (width5 / 2)
      (height_ / 2) ((width5 + height_) * 2) (totalOf ps) in
  let addRibbon :=
    PathGeometry.addVertices (widthR / 2) sideWidth (totalOf ps) side_ g in
  exists pre prev cur post,
    ps = (pre ++ [prev]) ++ cur :: post
    /\ filter (fun q => JS.leb (dist q) pd) ps = pre ++ [prev]
    /\ dist prev <= pd < dist cur
    /\ let alpha := (pd - dist prev) / (dist cur - dist prev) in
       let between (a b : Vector3) :=
         vec3 (x a + (x b - x a) * alpha) (y a + (y b - y a) * alpha)
              (z a + (z b - z a) * alpha) in
       let last := truncated pd prev cur in
       let n := Z.of_nat (List.length (pre ++ [prev])) in
       let sh := Z.of_nat (List.length
                             (filter sharp (List.tl (pre ++ [prev])))) in
       let a := if arrow_ then 1%Z else 0%Z in
       0 <= alpha < 1
       /\ pos last = between (pos prev) (pos cur)
       /\ dir last = between (dir prev) (dir cur)
       /\ up last = between (up prev) (up cur)
       /\ right last = between (right prev) (right cur)
       /\ dist last = pd
       /\ widthScale last
          = widthScale prev + (widthScale cur - widthScale prev) * alpha
       /\ sharp last = false
       /\ (forall addV b,
             progressLoop addV l pd (count l) 0 b
             = Normal (addV (fold_left addV (pre ++ [prev]) b) last,
                       Some last))
       /\ (exists d,
             PathTubeGeometry.generateTubeVertexData_1 l options g
             = Normal (Some d)
             /\ d = data (addTube (fold_left addTube (pre ++ [prev]) emptyBuild)
                            last)
             /\ position d
                = flat_map (tubeRing startRad_ radius_ rs) (pre ++ [prev])
                  ++ tubeRing startRad_ radius_ rs last
             /\ vertices d = ((n + 1) * (rs + 1))%Z
             /\ Z.of_nat (List.length (indices d)) = (6 * rs * n)%Z
             /\ vcount d = (6 * rs * n)%Z)
       /\ (exists d,
             PathRectangleGeometry5.generateTubeVertexData l options g
             = Normal (Some d)
             /\ d = data (addRect5
                            (fold_left addRect5 (pre ++ [prev]) emptyBuild)
                            last)
             /\ position d
                = flat_map (rect5Ring width5 height_) (pre ++ [prev])
                  ++ rect5Ring width5 height_ last
             /\ vertices d = (5 * (n + 1))%Z
             /\ Z.of_nat (List.length (indices d)) = (24 * n)%Z
             /\ vcount d = (24 * n)%Z)
       /\ (exists d,
             PathRectangleGeometry8.generateTubeVertexData l options g
             = Normal (Some d)
             /\ d = rect8_result
                      (addRect8 (fold_left addRect8 (pre ++ [prev]) emptyBuild)
                         last)
             /\ position d
                = flat_map (rect8Ring (width5 / 2) (height_ / 2))
                    (pre ++ [prev])
                  ++ rect8Ring (width5 / 2) (height_ / 2) last
             /\ vertices d = (8 * (n + 1))%Z
             /\ Z.of_nat (List.length (indices d)) = (24 * n)%Z
             /\ vcount d = (8 * (n + 1))%Z)
       /\ (exists d,
             PathGeometry.generatePathVertexData l options g
             = Normal (Some d)
             /\ d = data
                      (let b := addRibbon
                                  (fold_left addRibbon (pre ++ [prev])
                                     emptyBuild) last in
                       if arrow_
                       then PathGeometry.addStart widthR (widthR / 2) sideWidth
                              (totalOf ps) side_ g b last
                       else b)
             /\ position d
                = position (data (fold_left addRibbon (pre ++ [prev])
                                    emptyBuild))
                  ++ ribbonRing (widthR / 2) side_ last
                  ++ (if arrow_ then arrowHead (widthR / 2) side_ last
                      else [])
             /\ vertices d = (2 * (n + 1) + 4 * sh + 3 * a)%Z
             /\ Z.of_nat (List.length (indices d))
                = (6 * n + 6 * sh + 3 * a)%Z
             /\ vcount d = (6 * n + 6 * sh + 3 * a)%Z).
Proof.
  intros H H0 Hs Htot Ep Hp. cbv zeta.
  assert (Hpd : 0 < p * totalOf ps) by nra.
  assert (Hlt : p * totalOf ps < totalOf ps) by nra.
  destruct (truncation_point ps _ H0 Hs Hpd Hlt)
    as [pre [prev [cur [post [E [HF [Hcur Hfilter]]]]]]].
  exists pre, prev, cur, post.
  set (pd := p * totalOf ps) in *.
  set (last := truncated pd prev cur).
  assert (Hprev : dist prev <= pd).
  { apply (proj1 (Forall_forall _ _) HF). apply in_or_app. right. now left. }
  assert (Hwalk : forall addV b,
             walk addV pd None ps b
             = Normal (addV (fold_left addV (pre ++ [prev]) b) last,
                       Some last)).
  { intros addV b. rewrite E. now apply walk_truncate. }
  destruct (truncated_fields pd prev cur Hprev Hcur)
    as [Ha [Fpos [Fdir [Fup [Fright [Fdist [Fws Fsharp]]]]]]].
  cbv zeta in Ha, Fpos, Fdir, Fup, Fright, Fdist, Fws, Fsharp.
  fold last in Fpos, Fdir, Fup, Fright, Fdist, Fws, Fsharp.
  split; [exact E |]. split; [exact Hfilter |]. split; [lra |].
  split; [exact Ha |].
  do 7 (split; [assumption |]).
  split; [intros addV b; rewrite (progressLoop_walk0 _ _ _ _ _ H); apply Hwalk |].
  set (vs := (pre ++ [prev]) ++ [last]).
  assert (Hvs : vs <> []) by (unfold vs; now destruct (pre ++ [prev])).
  assert (Hn : Z.of_nat (List.length vs)
               = (Z.of_nat (List.length (pre ++ [prev])) + 1)%Z)
    by (unfold vs; rewrite (length_app (pre ++ [prev])); cbn [List.length]; lia).
  assert (Hrs : (2 <= PathTubeGeometry.effectiveRadialSegments options)%Z)
    by (unfold PathTubeGeometry.effectiveRadialSegments; lia).
  rewrite (tube_walk _ _ _ _ H), (rect5_walk _ _ _ _ H),
    (rect8_walk _ _ _ _ H), (ribbon_walk _ _ _ _ H).
  cbv zeta. rewrite Ep. cbn [JS.defined_or]. fold pd.
  rewrite (eqb_false pd 0), (eqb_false (totalOf ps) 0), (gtb_true pd 0) by lra.
  rewrite !Hwalk. cbn [JS.bind fst snd arrowPoint deref].
  split; [| split; [| split]].
  - eexists. split; [reflexivity |]. split; [reflexivity |].
    rewrite fold_left_snoc. fold vs.
    match goal with
    | |- context [fold_left ?f vs emptyBuild] => set (addTube := f)
    end.
    destruct (tube_rings_counts
                (JS.opt_or (radius options) 0.1 * 2 * PI) (totalOf ps)
                (JS.opt_or (startRad options) 0) g
                (JS.opt_or (radius options) 0.1)
                (PathTubeGeometry.effectiveRadialSegments options) vs
                ltac:(lia) Hvs) as [Hi Hc].
    cbv zeta in Hi, Hc. fold addTube in Hi, Hc.
    assert (Hpos : position (data (fold_left addTube vs emptyBuild))
                   = flat_map
                       (tubeRing (JS.opt_or (startRad options) 0)
                          (JS.opt_or (radius options) 0.1)
                          (PathTubeGeometry.effectiveRadialSegments options))
                       vs).
    { unfold addTube.
      rewrite (fold_left_positions _ _
                 (fun b q => tube_addVertices_position _ _ _ _ _ _ b q)).
      reflexivity. }
    split; [rewrite Hpos; unfold vs; rewrite flat_map_app; cbn [flat_map];
            now rewrite app_nil_r |].
    split; [| split; [rewrite Hi; lia | rewrite Hc, Hi; lia]].
    unfold vertices.
    assert (Hlen : List.length (position (data (fold_left addTube vs emptyBuild)))
                   = (3 * Z.to_nat
                            (PathTubeGeometry.effectiveRadialSegments options + 1)
                      * List.length vs)%nat).
    { unfold addTube.
      rewrite (fold_left_count (fun b => List.length (position (data b)))
                 _ (3 * Z.to_nat
                          (PathTubeGeometry.effectiveRadialSegments options + 1))).
      - cbn. lia.
      - intros b q.
        exact (proj1 (tube_ring_lengths _ _ _ _ _ _ b q)). }
    rewrite Hlen.
    replace (Z.of_nat
               (3 * Z.to_nat
                      (PathTubeGeometry.effectiveRadialSegments options + 1)
                * List.length vs))
      with (((Z.of_nat (List.length (pre ++ [prev])) + 1)
             * (PathTubeGeometry.effectiveRadialSegments options + 1)) * 3)%Z
      by lia.
    apply Z.div_mul. lia.
  - eexists. split; [reflexivity |]. split; [reflexivity |].
    rewrite fold_left_snoc. fold vs.
    match goal with
    | |- context [fold_left ?f vs emptyBuild] => set (addRect5 := f)
    end.
    destruct (rect5_rings_counts
                (JS.opt_or (radius options) 0.1 * 2 * PI) (totalOf ps) g
                (JS.opt_or (width options) 1) (JS.opt_or (height options) 0.5)
                vs Hvs) as [Hi Hc].
    cbv zeta in Hi, Hc. fold addRect5 in Hi, Hc.
    assert (Hpos : position (data (fold_left addRect5 vs emptyBuild))
                   = flat_map
                       (rect5Ring (JS.opt_or (width options) 1)
                          (JS.opt_or (height options) 0.5)) vs).
    { unfold addRect5.
      rewrite (fold_left_positions _ _
                 (fun b q => rect5_addVertices_position _ _ _ _ _ b q)).
      reflexivity. }
    split; [rewrite Hpos; unfold vs; rewrite flat_map_app; cbn [flat_map];
            now rewrite app_nil_r |].
    split; [| split; [rewrite Hi; lia | rewrite Hc, Hi; lia]].
    unfold vertices.
    assert (Hlen : List.length (position (data (fold_left addRect5 vs emptyBuild)))
                   = (15 * List.length vs)%nat).
    { unfold addRect5.
      rewrite (fold_left_count (fun b => List.length (position (data b))) _ 15).
      - cbn. lia.
      - intros b q. exact (proj1 (rect5_ring_lengths _ _ _ _ _ b q)). }
    rewrite Hlen.
    replace (Z.of_nat (15 * List.length vs))
      with ((5 * (Z.of_nat (List.length (pre ++ [prev])) + 1)) * 3)%Z by lia.
    apply Z.div_mul. lia.
  - eexists. split; [reflexivity |]. split; [reflexivity |].
    rewrite fold_left_snoc. fold vs.
    match goal with
    | |- context [fold_left ?f vs emptyBuild] => set (addRect8 := f)
    end.
    destruct (rect8_rings_counts
                (JS.opt_or (width options) 1) (JS.opt_or (height options) 0.5)
                (JS.opt_or (width options) 1 / 2)
                (JS.opt_or (height options) 0.5 / 2)
                ((JS.opt_or (width options) 1
                  + JS.opt_or (height options) 0.5) * 2)
                (totalOf ps) vs Hvs) as [Hi Hc].
    cbv zeta in Hi, Hc. fold addRect8 in Hi, Hc.
    assert (Hpos : position (rect8_result (fold_left addRect8 vs emptyBuild))
                   = flat_map
                       (rect8Ring (JS.opt_or (width options) 1 / 2)
                          (JS.opt_or (height options) 0.5 / 2)) vs).
    { unfold rect8_result. cbn [position]. unfold addRect8.
      rewrite (fold_left_positions _ _
                 (fun b q => rect8_addVertices_position _ _ _ _ _ _ b q)).
      reflexivity. }
    split; [rewrite Hpos; unfold vs; rewrite flat_map_app; cbn [flat_map];
            now rewrite app_nil_r |].
    split; [| split; [rewrite Hi; lia | rewrite Hc; lia]].
    unfold vertices, rect8_result. cbn [position].
    destruct (rect8_rings_lengths
                (JS.opt_or (width options) 1) (JS.opt_or (height options) 0.5)
                (JS.opt_or (width options) 1 / 2)
                (JS.opt_or (height options) 0.5 / 2)
                ((JS.opt_or (width options) 1
                  + JS.opt_or (height options) 0.5) * 2)
                (totalOf ps) vs emptyBuild) as [Hlen _].
    cbv zeta in Hlen. fold addRect8 in Hlen. rewrite Hlen.
    change (List.length (position (data emptyBuild))) with 0%nat.
    replace (Z.of_nat (0 + 24 * List.length vs))
      with ((8 * (Z.of_nat (List.length (pre ++ [prev])) + 1)) * 3)%Z by lia.
    apply Z.div_mul. lia.
  - set (widthR := JS.opt_or (width options) 0.1).
    set (side_ := JS.defined_or (side options) "both"%string).
    set (sw := if negb (String.eqb side_ "both") then widthR / 2 else widthR).
    set (addRibbon :=
           PathGeometry.addVertices (widthR / 2) sw (totalOf ps) side_ g).
    exists (data
              (if JS.defined_or (arrow options) true
               then PathGeometry.addStart widthR (widthR / 2) sw (totalOf ps)
                      side_ g
                      (addRibbon
                         (fold_left addRibbon (pre ++ [prev]) emptyBuild) last)
                      last
               else addRibbon (fold_left addRibbon (pre ++ [prev]) emptyBuild)
                      last)).
    split; [now destruct (JS.defined_or (arrow options) true) |].
    split; [reflexivity |].
    destruct (ribbon_rings_counts (widthR / 2) sw (totalOf ps) side_ g vs Hvs)
      as [Hp' [Hi Hc]].
    cbv zeta in Hp', Hi, Hc. fold addRibbon in Hp', Hi, Hc.
    assert (Htl : filter sharp (List.tl vs)
                  = filter sharp (List.tl (pre ++ [prev]))).
    { unfold vs. destruct (pre ++ [prev]) as [| q qs] eqn:Eq;
        [destruct pre; discriminate |].
      cbn [app List.tl]. rewrite filter_app. cbn [filter].
      rewrite Fsharp. now rewrite app_nil_r. }
    rewrite Htl in Hp', Hi.
    assert (Hb : addRibbon (fold_left addRibbon (pre ++ [prev]) emptyBuild) last
                 = fold_left addRibbon vs emptyBuild)
      by (exact (fold_left_snoc addRibbon (pre ++ [prev]) last emptyBuild)).
    assert (Hring : position (data (fold_left addRibbon vs emptyBuild))
                    = position (data (fold_left addRibbon (pre ++ [prev])
                                        emptyBuild))
                      ++ ribbonRing (widthR / 2) side_ last).
    { rewrite <- Hb. unfold addRibbon.
      now rewrite (ribbon_addVertices_position _ _ _ _ _ _ _ Fsharp). }
    rewrite Hb.
    destruct (JS.defined_or (arrow options) true).
    + set (b := fold_left addRibbon vs emptyBuild) in *.
      set (b' := PathGeometry.addStart widthR (widthR / 2) sw (totalOf ps)
                   side_ g b last).
      assert (Hpa : position (data b')
                    = position (data b) ++ arrowHead (widthR / 2) side_ last)
        by reflexivity.
      assert (Hia : List.length (indices (data b'))
                    = (List.length (indices (data b)) + 3)%nat)
        by (unfold b', PathGeometry.addStart; cbn [data indices];
            rewrite length_app; reflexivity).
      assert (Hca : vcount (data b') = (vcount (data b) + 3)%Z) by reflexivity.
      assert (Hla : List.length (arrowHead (widthR / 2) side_ last) = 9%nat)
        by reflexivity.
      split; [rewrite Hpa, Hring, <- app_assoc; reflexivity |].
      split; [| split; [rewrite Hia; lia | rewrite Hca; lia]].
      unfold vertices. rewrite Hpa, length_app, Hla.
      replace (Z.of_nat (List.length (position (data b)) + 9))
        with ((2 * (Z.of_nat (List.length (pre ++ [prev])) + 1)
               + 4 * Z.of_nat (List.length
                                 (filter sharp (List.tl (pre ++ [prev]))))
               + 3 * 1) * 3)%Z by lia.
      apply Z.div_mul. lia.
    + split; [rewrite Hring, app_nil_r; reflexivity |].
      split; [| split; [lia | lia]].
      unfold vertices. rewrite Hp'.
      replace (3 * (2 * Z.of_nat (List.length vs)
                    + 4 * Z.of_nat (List.length
                                      (filter sharp (List.tl (pre ++ [prev]))))))%Z
        with ((2 * (Z.of_nat (List.length (pre ++ [prev])) + 1)
               + 4 * Z.of_nat (List.length
                                 (filter sharp (List.tl (pre ++ [prev]))))
               + 3 * 0) * 3)%Z by lia.
      apply Z.div_mul. lia.
Qed.

(** The path from (0,0,0) to (10,0,0) at [progress = 0.5]: the circular
    tube is the ring of the first sample followed by the ring of the
    sample interpolated at distance 5, which lies at (5,0,0) with the
    tangent (1,0,0): 18 vertices joined by 48 indices. *)
Lemma progress_truncation_witness :
  exists l p0 p1 d,
    fst (set new_PathPointList [vec3 0 0 0; vec3 10 0 0] None None None None)
    = Normal l
    /\ Holds l [p0; p1]
    /\ PathTubeGeometry.generateTubeVertexData_1 l
         (mkOptions None None None (Some 0.5) None None None None) false
       = Normal (Some d)
    /\ position d
       = tubeRing 0 0.1 8 p0 ++ tubeRing 0 0.1 8 (truncated 5 p0 p1)
    /\ vertices d = 18%Z
    /\ Z.of_nat (List.length (indices d)) = 48%Z
    /\ dist (truncated 5 p0 p1) = 5
    /\ pos (truncated 5 p0 p1) = vec3 5 0 0
    /\ dir (truncated 5 p0 p1) = vec3 1 0 0.
Proof.
  destruct straight_path
    as [l [p0 [p1 [E [H [Hd0 [Hd1 [_ [_ [Hp0 Hp1]]]]]]]]]].
  destruct straight_path_tangents as [l' [q0 [q1 [E' [H' [Ht0 Ht1]]]]]].
  rewrite E in E'. injection E' as <-.
  pose proof (Holds_unique _ _ _ H H') as Hq. injection Hq as <- <-.
  assert (Ht : totalOf [p0; p1] = 10) by exact Hd1.
  assert (H0 : startsAtZero [p0; p1]) by (intros q tl [= <- <-]; exact Hd0).
  assert (Hs : nondecreasing (map dist [p0; p1]))
    by (cbn [map]; apply nondecreasing_two; lra).
  assert (Htot : 0 < totalOf [p0; p1]) by lra.
  destruct (progress_truncation l [p0; p1]
              (mkOptions None None None (Some 0.5) None None None None)
              false 0.5 H H0 Hs Htot eq_refl ltac:(lra))
    as [pre [prev [cur [post [Esplit [_ [_ Hrest]]]]]]].
  assert (Epre : pre = [] /\ prev = p0 /\ cur = p1).
  { destruct pre as [| a [| a' pre]].
    - cbn in Esplit. now injection Esplit as <- <-.
    - cbn in Esplit. injection Esplit as _ _ Hnil. discriminate.
    - cbn in Esplit. injection Esplit as _ _ Hnil.
      destruct pre; discriminate. }
  destruct Epre as [-> [-> ->]].
  cbv zeta in Hrest.
  replace (0.5 * totalOf [p0; p1]) with 5 in Hrest by lra.
  destruct Hrest
    as [_ [Fpos [Fdir [_ [_ [Fdist [_ [_ [_ [[d [Ed [_ [Pd [Vd [Id _]]]]]] _]]]]]]]]]].
  exists l, p0, p1, d. split; [exact E |]. split; [exact H |].
  split; [exact Ed |].
  split.
  { rewrite Pd. cbn [JS.opt_or radius startRad app flat_map].
    rewrite app_nil_r. reflexivity. }
  split; [rewrite Vd; reflexivity |]. split; [rewrite Id; reflexivity |].
  split; [exact Fdist |].
  split.
  - rewrite Fpos, Hp0, Hp1, Hd0, Hd1. cbn [x y z]. f_equal; field.
  - rewrite Fdir, Ht0, Ht1, Hd0, Hd1. cbn [x y z]. f_equal; field.
Defined.

(** ** Frames up to a tolerance *)




























